(* ===== verification/_CoqProject ===== *)
-Q . S2P
Prelude.v
Numeric.v
Labels.v
Frame.v
Binary64.v
Stats.v
Plot.v
Effects.v
Preprocess.v
Content.v
Chart.v
Transition.v
Machine.v
Main.v
Store.v
Setoids.v
Repeats.v
Console.v
World.v
Page.v
Interaction.v
Regex.v
Rounding.v
Ieee.v
Mean64.v
Float64.v
