(* ===== verification/Prelude.v ===== *)
(** * Access-to-sanitation chart script: a verification development

    The program under study is [src/part1_script.py], a linear script of
    four functions.  [main] (lines 134-165) prints the metadata of one
    World Bank indicator, fetches the indicator as a table of economies by
    years, prints a report of it ([inspect_dataframe], lines 71-91),
    reshapes it ([preprocess_df], lines 94-131: empty columns and rows
    dropped, [YR] stripped from the year labels, values rounded to one
    decimal, table transposed), finds the countries as the columns before
    [World], adds their row-wise mean as the column [Country_Avg_line],
    keeps the countries, the regions and the income groups in that order,
    and hands the table and a dictionary of three categories to
    [create_chart] (lines 6-68), which builds a line chart with one
    dropdown whose options carry a visibility vector each, shows it and
    writes it to [visual.html].

    ** Files, in dependency order

    - [Prelude] (this file): what every component shares.  Position masks
      ([compress], numpy's boolean indexing), rectangular matrices and
      their transposition ([rect], [transpose_mat]), Python's
      [enumerate] and [list.index], the exceptions of the script ([exn]),
      the writer-and-exception monad [script] in which the effectful
      functions are written, with its notation scope [script_scope], its
      [for] loop [sfor] and its laws, Python dictionaries as insertion
      ordered association lists, the hint databases [frame] and
      [frame_len] and the tactics built on them.
    - [Numeric]: cells ([option Q], [None] for [NaN]), [rint] and
      [round_dec] (numpy's round half to even, [df.round(1)], line 117),
      [nanmean] ([mean(axis=1)], line 152).  Theorems: the rounding error
      is at most half a unit of the last decimal, rounding is monotone,
      idempotent and keeps a percentage a percentage, ties go to the even
      neighbour, the mean lies between the bounds of the values and does
      not depend on their order.
    - [Labels]: [str_replace] ([str.replace], line 114), the string order
      [str_le] and [sorted] (line 151) against the class [Sorter], the
      contract of a sort.  Theorems: [str_replace] computes the relation
      [replaced] that specifies [str.replace]; [YR] is stripped from a
      year label, and from anywhere else in a label;
      the contract has one implementation ([sorter_unique]), so the merge
      sort of the model, the insertion sort given as reference and
      Python's own sort return the same list.
    - [Regex]: [str.replace] with [regex=True], as line 114 calls it.
      [parse] reads a pattern ([re.compile], on characters, [.], [|] and
      the greedy [*], [+], [?]), [matches] is the backtracking search in
      the order of the engine, [re_sub] is [re.sub] with its rule for
      empty matches.  Theorems: the search finds the words of the
      pattern and only them; on a pattern without operators, [YR] among
      them, the call is the replacement of the literal
      ([str_replace_regex_literal]), which is what the other files
      compute with.
    - [Frame]: the record [frame] (row labels, column labels, cells,
      names of the two axes) with the invariant [frame_wf], and one
      function per pandas call of the script: [dropna_columns],
      [dropna_rows], [rename_columns], [round_frame], [transpose],
      [set_index_name], [rename_axis_columns], [head], [select_columns],
      [mean_rows], [setitem_column].  Labels may repeat, as in pandas.
      Theorems: every operation preserves [frame_wf]; transposition is an
      involution that exchanges the two drops; the drops commute and are
      idempotent; what a selection and an assignment do to the columns
      and to each cell; the [KeyError] of a selection; the operations
      that do not compute with the values commute with a change of the
      values ([map_frame]).
    - [Binary64]: [df.round(1)] as numpy computes it on IEEE 754
      binary64 numbers ([np_round]: multiply by ten, [b64_rint], divide
      by ten, on the standard library's [SpecFloat]), with [to_b64] from
      a rational to the nearest binary64 number.  Theorems: on
      percentages written with at most two decimals the binary64
      rounding returns the binary64 number of the rational rounding of
      [Numeric], for a cell and for a table; rounding twice is rounding
      once there; a decimal tie is rounded as the decimal reads, not as
      its binary value lies.
    - [Rounding]: the mean of line 152 on binary64 numbers.  [Rounding]
      is the contract of a rounding, [round_to] the rounding to the
      nearest number of [p] significant bits, [sum_any] a sum by rounded
      additions in any order, [mean_any] a mean as [mean(axis=1)]
      computes one.  Theorems: [round_to] implements the contract; a sum
      of [n] values in any order and the mean of a row are within the
      error of so many roundings of the exact ones; on binary64 and a
      table of up to 1023 columns the mean is within [2 ^ -42] of
      [Numeric.nanmean], relative to it ([mean_rows_b64_error]).
    - [Ieee]: the operations of [SpecFloat] against [Rounding.round_to].
      [located] reads the round and sticky bits as the place of the exact
      value between two mantissas.  Theorems, for every precision and
      exponent bound: the rounding an operation ends with
      ([binary_round_aux]) returns [round_to] of the exact value; so do
      the sum and the quotient of two numbers that are not negative, in
      the range of the normal numbers ([SFadd_round_to],
      [SFdiv_round_to]); an integer below [2 ^ 53] is held exactly, and
      [Binary64.to_b64] holds [rnd64] of a rational.
    - [Mean64]: the mean of line 152 on the bits.  [mean_any_b64] is a
      mean of a row of binary64 cells by the additions and the division
      of [SpecFloat] in any order ([Rounding.reduce_any]),
      [mean_seq_b64] the one from left to right.  Theorems: on a row of
      up to 1023 percentages with one decimal nothing overflows or
      leaves the normal numbers, and the mean is one of
      [Rounding.mean_any] ([mean_any_b64_refines]); the means of a table
      are within [2 ^ -42] of the exact ones ([mean_rows_b64_close]).
    - [Float64]: lines 107-152 on binary64 cells.  [reshape_b64] is
      [Preprocess.reshape] with the rounding of numpy, [cells P] says
      that every value of a table satisfies [P].  Theorems: the table
      operations keep a property of the values; on percentages with at most two decimals [reshape_b64] returns the
      binary64 numbers of [Preprocess.reshape] ([reshape_b64_grid]); the
      means of line 152 on them are within [2 ^ -42] of the means of
      the model ([country_average_b64]).
    - [Stats]: what the two summaries of [inspect_dataframe] compute
      (lines 86, 90): [non_null_counts] for [df.info()], and for
      [df.describe()] the statistics of a column ([describe_column]:
      count, mean, deviation, minimum, quartiles by linear interpolation,
      maximum), the table of them ([summary]) and the call [describe]
      with its [ValueError].  A deviation is kept as the square root of
      its variance ([stat]).  Theorems: the shape of the summary; the
      order of the statistics of a column and the bounds of its mean;
      the counts of the two summaries agree.
    - [Plot]: the figure as a record ([figure], [trace], [button],
      [updatemenu]), [px_line], [update_traces_visible], [update_layout]
      (lines 18-24, 57-65), and what choosing an option of the dropdown
      does ([press], modelled from the specification).
    - [Effects]: the events of a run ([Print], [Info], [Show],
      [WriteHtml]), the monad [py] of the script, and [outputs], what a
      trace leaves behind.
    - [Preprocess]: [preprocess_df] statement by statement, its result
      [reshape] as a composition of [Frame] operations, and
      [preprocess_df_argument], the state in which the in-place
      statements (lines 107-114) leave the caller's table.  Theorems: the
      call never raises and returns [reshape df] with the exact trace of
      its prints; the labels, shape and cells of [reshape df]; it has no
      empty row or column left, is rounded and well formed; the steps do
      nothing on a clean table.
    - [Content]: the abstract state of a table, the finite map
      [content] from a row label and a column label to a value (stdpp's
      [gmap]), with [of_content] back from a map to a table.  Theorems:
      the drops leave the map as it is, a transposition swaps the keys,
      rounding maps over the values, the map and the labels determine the
      table, and [reshape] implements its specification on maps
      ([reshape_content]).
    - [Chart]: [create_chart] with its three loops as written
      ([visibility_step], [category_step], [button_step]), the functions
      the loops compute ([visibility_entry], [visibility_vector],
      [all_vector], [chart_buttons]) and the figure [chart_figure].
      Theorems: the call never raises, shows and writes [chart_figure];
      the entry of a column in each vector; the vector of [All]; every
      vector has one entry per trace; a press sets the traces to the
      vector; the aggregate column is not shown by every option.
    - [Transition]: runs of a transition relation in general, over
      stdpp's [rtc], [nsteps], [nf] and [sn]: [eventually], invariants
      along a run, termination from a measure, and the class [Stepper] of
      the relations computed by a step function, with the interpreter
      [run].
    - [Machine]: the body of [create_chart] (lines 27-68) as a transition
      system on the local variables of the function ([config], [step],
      [step_fun]), one rule per statement and branch.  Theorems: the
      rules and the step function agree; every run terminates, in
      [k * (n + 3) + 5] steps from the start for [k] categories and [n]
      columns; the lists stay aligned and no subscript misses in any
      reachable configuration ([chart_inv]); the run ends with the
      outcome and the events of the monadic [create_chart] (every step
      keeps [denote]); every run reaches the return with the figure
      shown and written.
    - [Main]: the data service as a record of its two calls ([service]),
      [set_index], [inspect_dataframe], [main] statement by statement,
      the stages of [main] ([fetch], [chart_of]) and what lines 150-163
      compute ([arrange], [chart_table], [chart_options]).  Theorems: the
      whole run on a service that answers with a suitable table; every
      way a run dies (service error, no column [Country], no year column,
      no [World] row with a value, a missing region or income group) with
      the exception and what was printed, and no other exception ends a
      run ([main_exceptions]); a run shows and writes all or nothing; the
      columns of the chart and their order; the cells of the
      average column and of every other column.
    - [Store]: the tables as objects.  [store] holds the objects of a
      run, a variable holds a reference ([ref]), and [preprocess_df_obj]
      and [main_obj] are the two functions statement by statement with
      the changes in place of lines 107, 111, 114 and 152 ([update],
      [assign]) and the new objects of lines 117, 120, 122, 147 and 160
      ([new]); [program] is the call of line 167.  Theorems:
      [preprocess_df] leaves the object of its caller changed (cleaned
      and relabelled, not rounded, not transposed), returns a new object
      and touches no other; with the stores erased [main_obj] is [main],
      so the other files may pass tables by value.
    - [Setoids]: tables up to the way their rational values are written
      ([≡] on [frame], [series], statistics, events and the answers of
      the service), with a [Proper] instance for every operation of
      [Frame], for the statistics of [Stats] (the merge sort included)
      and for [clean], [with_average] and [arrange].  Theorems: rounding
      returns the same fraction for every fraction of a value, so
      [reshape] and [preprocess_df] map equivalent tables to equal
      results; [main] on two services with equivalent answers emits
      equivalent events, ends alike and leaves the same outputs.

    - [Repeats]: lines 150-160 on a table whose labels repeat, which
      the theorems of [Main] on the table of the chart exclude.
      Theorems: a label asked for is answered with every column that
      carries it, so a name carried by [c] columns of which [m] stand
      before [World] heads [m * c] columns of the chart; the average
      column is then a weighted mean ([arrange_repeated]).  Year labels
      that repeat once [YR] is removed stay separate rows
      ([reshape_repeated_years]).
    - [Console]: the characters of standard output as far as Python
      decides them.  [print_text] is what a [print] call writes ([str] of
      each argument, a space between two, a line feed at the end),
      [shape_text] the text of the tuple [df.shape], [console] the output
      of a trace with adjacent characters joined; what pandas and wbgapi
      render is a [rendering], a segment known by the value it shows.
      Theorems: the output of [inspect_dataframe], of [preprocess_df] and
      of a run that reaches the chart, which is the same whether the
      chart is drawn or not; the shapes can be read back from the text of
      the report ([read_report], on stdpp's [pretty] numerals) and are
      the shapes of the argument and of the result.
    - [World]: the world a run changes.  [world] holds standard output,
      the figures the display has shown and the files of the working
      directory (a [gmap] from paths to what each file holds);
      [perform] is what an event does to it, [run] interprets a
      computation of the script, [run_script] is the call of line 167,
      [session] the worlds reachable by running the script any number of
      times from a directory without files, and [run_locked] a run in a
      directory where [fig.write_html] raises [OSError].  Theorems: [run]
      is a morphism from the writer monad to state passing; one run
      grows standard output, and shows a figure and saves its page under
      [visual.html], touching no other file, or dies and leaves display
      and files as they were; the page is overwritten; in every world of
      a session the directory holds exactly the page of the figure shown
      last; when the write is refused the figure has been shown and
      nothing saved.
    - [Page]: the composition, from the answer of the service to the
      page in the working directory.  [points] is what a figure draws;
      [page_plots_indicator] shows that the saved page draws, for the
      countries before [World], the regions and the income groups, the
      values the service gave, rounded to one decimal, over the years
      that have a value, and for [Country_Avg_line] the mean of the
      countries' cells of each year.  Labels may repeat throughout.
    - [Interaction]: the script as an interaction tree ([main_tree], on
      the ITree library) whose events are the two calls of [wbgapi] and
      the outputs, in the order of lines 139-165, and a data service
      with a state of its own ([server], [serve]).  Theorems: run
      against any such service the tree does what [main] does against
      the record of the answers the service gave ([main_tree_serve]);
      the service is called once when the metadata cannot be had and
      twice otherwise.

    ** Modelling conventions

    - A Python [dict] is the list of its items in insertion order
      ([dict_get], [dict_set], [dict_keys], [dict_wf]).
    - A Python list is a Rocq [list]; [x in l] is stdpp's [x ∈ l], decided
      by [decide]; [l[0:n]] is [take n l]; [l.index(x)] is [list_index].
    - A string is a byte string, a label in UTF-8; Python orders strings
      by code point, which is the order of the UTF-8 bytes.
    - A pandas [NaN] cell is [None]; a present value is [Some v] with [v]
      an exact rational.  Rationals are compared by [≡] ([Qeq]), never by
      the fraction that writes them; [Setoids] shows that the outputs of
      the script do not depend on the fraction.
    - A function that prints, shows a figure, writes a file or may raise is
      a computation of [script E X A]: running it yields the events it
      emitted, in order, and either [inr a] (it returned [a]) or [inl x]
      (it raised [x]; the events emitted before the exception are kept).
      Nothing in the script catches an exception, so there is no handler
      operation.  A library call that may raise returns a sum [exn + A].
    - An interface between components is a class or a record of
      operations: [Sorter] for [sorted], [service] for the data service,
      [Rounding] for the arithmetic of the floating-point format.
    - Where a library leaves an order open (the additions of a sum), the
      model is a relation that holds of every order
      ([Rounding.reduce_any], [Rounding.sum_any], [Mean64.mean_any_b64]),
      with an executable function for one of them ([Rounding.sum_seq],
      [Mean64.mean_seq_b64]).
    - Every definition is executable; witnesses evaluate by [vm_compute]
      on small tables given in the files ([sample_table], [sample_wb]).
      The functions of the script take no fuel: every loop runs over a
      finite list and is structurally recursive in the model.  The
      interpreter [Transition.run] of the transition system takes fuel,
      and [Machine.steps_left] is a fuel that is always enough: it is the
      number of steps that remain, and it decreases at every step.  The
      repeat of a pattern ([Regex.star]) takes the length of the string
      as fuel, which is enough because every repetition but the last
      takes a character ([Regex.matches_complete]).
    - Tables are passed by value everywhere but in [Store], where a
      table is an object of a store and a variable a reference to it;
      [Store.main_obj_refines] is what makes the two views agree.
    - An abstract state is a finite map of stdpp ([gmap]); the function
      from the representation to it ([Content.content]) is executable
      too.
    - The answers of the data service are an argument of [main]; that
      this covers a service whose answers change from call to call is
      [Interaction.main_tree_serve].  The tree of [Interaction] is finite
      (the script has no loop that waits for its environment), so its
      interpretation is a value up to the silent steps of the library
      ([≈]) and needs no fuel.
    - A file holds the page of a figure ([World.HtmlOf]) or bytes of
      another origin ([World.Bytes]); two pages of the same figure are
      the same page.

    ** What is not modelled

    - The remote service behind [wbgapi]: what it computes, how long it
      takes and whether it answers at all.  [main] takes the answers of
      its two calls as an argument, and [Interaction] a service with any
      state; a call that never returns is not modelled.
    - Binary floating point beyond [Binary64], [Rounding], [Ieee],
      [Mean64] and [Float64]: the statistics of [describe] are computed
      on exact rationals, so a theorem about their values holds up to
      the rounding error numpy adds in the last bits.  The value of the
      binary64 mean of line 152 depends on the order in which the cells
      are added (one after the other, or pairwise in blocks whose size
      is a detail of the build), which the source does not fix:
      [Mean64] bounds its distance from the exact mean for every order,
      and does not say which of the binary64 numbers within the bound it
      is.  [Ieee] proves that the addition and the division of
      [SpecFloat] round the exact result for numbers that are not
      negative in the range of the normal numbers; negative numbers,
      subnormal results, infinities and the multiplication are not
      covered, and the mean of line 152 meets none.  The bound on the
      mean is for a selection of up to 1023 columns, so that the error
      of the additions stays below [2 ^ -42]; a wider table has a
      larger bound ([Rounding.mean_any_error]), which is not
      instantiated.  For the rounding of line 117 the rational
      model is proved to agree with binary64 on percentages with at most
      two decimals ([Binary64.round_frame_b64_grid], checked on all
      10001 of them); for a value with more decimals that lies within a
      binary rounding error of a tie the two may differ, and that case
      is not covered.
    - The text of an exception: an exception is its class and the
      labels it names.  The [KeyError] of a selection names the keys that
      are no column in the order of the keys, each as often as the keys
      have it, where pandas names each once; the selection of line 160
      has no missing key twice ([Main.main_exceptions]).
    - Regular expressions beyond the patterns [Regex.parse] reads:
      groups, classes, anchors, escapes, counted, lazy and possessive
      repeats, and a replacement with a backslash.  The script uses
      none.
    - The characters pandas and wbgapi write: how a table, the table of
      [df.describe()], the metadata record and the report of [df.info()]
      are laid out.  [Console] keeps each as one segment of the output.
      The types, the memory usage and the class line of [df.info] are not
      modelled, only its counts.  The standard deviation of [describe] is
      not evaluated: it is the square root of a rational, kept as such.
    - What plotly draws and the bytes of [visual.html]: a page is known
      by its figure.  Of the failures of the two last calls only a
      refused write is modelled ([World.run_locked]); a display that
      cannot be opened and a write that stops half way are not.
    - A table whose row labels are not strings: [set_index] is modelled
      for the column of names only. *)

From stdpp Require Import base tactics option list strings.

Create HintDb frame discriminated.
Create Rewrite HintDb frame_len.

(** ** Position masks *)

Section compress.
Context {A : Type}.
Implicit Types (m : list bool) (l : list A).

(** [compress m l] keeps the elements of [l] whose position is marked
    [true] in [m] (a boolean indexer); positions beyond the shorter of the
    two lists are dropped. *)
Fixpoint compress (m : list bool) (l : list A) : list A :=
  match m, l with
  | b :: m', x :: l' => if b then x :: compress m' l' else compress m' l'
  | _, _ => []
  end.

(** The number of positions a mask keeps. *)
Definition count_true (m : list bool) : nat := length (filter Is_true m).

Lemma compress_nil_r m : compress m [] = [].
Proof. by destruct m as [|[] ?]. Qed.

Lemma count_true_cons b m :
  count_true (b :: m) = (if b then S (count_true m) else count_true m).
Proof. by destruct b. Qed.

Lemma length_compress m l :
  length m = length l → length (compress m l) = count_true m.
Proof.
  revert l. induction m as [|b m IH]; intros [|x l] Hlen; simplify_eq/=; [done|].
  rewrite count_true_cons. destruct b; simpl; auto.
Qed.

Lemma count_true_le m : count_true m ≤ length m.
Proof. unfold count_true. apply length_filter. Qed.

Lemma count_true_all m : Forall (eq true) m → count_true m = length m.
Proof.
  induction 1 as [|b m <- _ IH]; [done|]. rewrite count_true_cons. simpl. lia.
Qed.

Lemma compress_all_true m l :
  Forall (eq true) m → length m = length l → compress m l = l.
Proof.
  intros Hm. revert l. induction Hm as [|b m <- _ IH]; intros [|x l] ?;
    simplify_eq/=; f_equal; auto.
Qed.

Lemma compress_lookup m l x :
  x ∈ compress m l ↔ ∃ i, m !! i = Some true ∧ l !! i = Some x.
Proof.
  revert l. induction m as [|b m IH]; intros [|y l]; simpl.
  - rewrite elem_of_nil. split; [done|]. by intros (i & ? & _).
  - rewrite elem_of_nil. split; [done|]. by intros (i & ? & _).
  - rewrite elem_of_nil. split; [done|]. by intros (i & _ & ?).
  - assert (x ∈ compress m l ↔ ∃ i, (b :: m) !! S i = Some true
                                     ∧ (y :: l) !! S i = Some x) as Htl
      by apply IH.
    destruct b; rewrite ?elem_of_cons, Htl; split.
    + intros [->|(i & ?)]; [by exists 0|by exists (S i)].
    + intros ([|i] & ? & ?); simplify_eq/=; eauto.
    + intros (i & ?); by exists (S i).
    + intros ([|i] & ? & ?); simplify_eq/=; eauto.
Qed.

Lemma compress_sublist m l : compress m l `sublist_of` l.
Proof.
  revert l. induction m as [|[] m IH]; intros [|x l]; simpl;
    try apply sublist_nil_l; by constructor.
Qed.

Lemma Forall_compress (P : A → Prop) m l :
  Forall P l → Forall P (compress m l).
Proof.
  intros Hl. apply Forall_forall. intros x Hx.
  eapply Forall_forall in Hl; [done|].
  eapply elem_of_sublist; [done|apply compress_sublist].
Qed.

End compress.

Lemma compress_fmap {A B} (f : A → B) m (l : list A) :
  compress m (f <$> l) = f <$> compress m l.
Proof.
  revert l. induction m as [|[] m IH]; intros [|x l]; simpl; f_equal; auto.
Qed.

(** A mask computed from the list itself is a filter. *)
Section compress_filter.
Context {A : Type} (p : A → bool).

Lemma compress_fmap_filter (l : list A) : compress (p <$> l) l = filter (λ x, p x) l.
Proof.
  induction l as [|x l IH]; simpl; [done|].
  rewrite filter_cons. destruct (p x); simpl; by f_equal.
Qed.

Lemma compress_fmap_zip {B} (l : list A) (k : list B) :
  length k = length l →
  compress (p <$> l) k = (filter (λ kx, p kx.2) (zip k l)).*1.
Proof.
  revert k. induction l as [|x l IH]; intros [|y k] Hlen; simplify_eq/=; [done|].
  rewrite filter_cons. simpl. destruct (p x); simpl; [f_equal|]; auto.
Qed.
End compress_filter.

(** ** Rectangular matrices and transposition *)

Section transpose.
Context {A : Type}.
Implicit Types (r : list A) (rows cols : list (list A)).

(** Every row of [rows] has [n] cells. *)
Definition rect (n : nat) (rows : list (list A)) : Prop :=
  Forall (λ row, length row = n) rows.

(** The transpose of a matrix of [n] columns, given as a list of rows: its
    [j]-th row is the [j]-th column of [rows].  The number of columns is an
    argument because a matrix with no row still has [n] columns, which
    become [n] empty rows. *)
Fixpoint transpose_mat (n : nat) (rows : list (list A)) : list (list A) :=
  match rows with
  | [] => replicate n []
  | r :: rs => zip_with cons r (transpose_mat n rs)
  end.

#[global] Instance rect_dec n rows : Decision (rect n rows).
Proof. unfold rect. apply _. Defined.

Lemma rect_nil n : rect n [].
Proof. constructor. Qed.

Lemma rect_cons n r rows : rect n (r :: rows) ↔ length r = n ∧ rect n rows.
Proof. unfold rect. by rewrite Forall_cons. Qed.

Lemma rect_lookup n rows i r : rect n rows → rows !! i = Some r → length r = n.
Proof. intros Hrect Hi. by apply (Forall_lookup_1 _ _ _ _ Hrect Hi). Qed.

Lemma rect_compress n m rows : rect n rows → rect n (compress m rows).
Proof. apply Forall_compress. Qed.

Lemma length_transpose_mat n rows :
  rect n rows → length (transpose_mat n rows) = n.
Proof.
  induction 1 as [|r rows Hr _ IH]; simpl.
  - apply length_replicate.
  - rewrite length_zip_with_l_eq; congruence.
Qed.

Lemma rect_zip_with_cons k r cols :
  rect k cols → rect (S k) (zip_with cons r cols).
Proof.
  intros Hcols. revert r.
  induction Hcols as [|c cols Hc _ IH]; intros [|x r]; simpl;
    try apply rect_nil.
  apply rect_cons. split; [simpl; lia|apply IH].
Qed.

Lemma rect_transpose_mat n rows : rect (length rows) (transpose_mat n rows).
Proof.
  induction rows as [|r rows IH]; simpl.
  - by apply Forall_replicate.
  - by apply rect_zip_with_cons.
Qed.

Lemma transpose_mat_cons_col n r rows :
  length r = length rows → rect n rows →
  transpose_mat (S n) (zip_with cons r rows) = r :: transpose_mat n rows.
Proof.
  intros Hlen Hrect. revert r Hlen.
  induction Hrect as [|c rows Hc _ IH]; intros [|x r] ?; simplify_eq/=.
  - done.
  - by rewrite IH.
Qed.

Lemma transpose_mat_involutive n rows :
  rect n rows → transpose_mat (length rows) (transpose_mat n rows) = rows.
Proof.
  induction 1 as [|r rows Hr Hrows IH]; simpl.
  - induction n; simpl; auto.
  - rewrite transpose_mat_cons_col, IH; auto using rect_transpose_mat.
    by rewrite length_transpose_mat.
Qed.

Lemma lookup_zip_with_cons r cols j :
  length r = length cols →
  zip_with cons r cols !! j = x ← r !! j; c ← cols !! j; Some (x :: c).
Proof.
  revert cols j. induction r as [|x r IH]; intros [|c cols] [|j] Hl;
    simplify_eq/=; auto.
Qed.

(** Cell [(j, i)] of the transpose is cell [(i, j)] of the matrix. *)
Lemma lookup_transpose_mat n rows i j :
  rect n rows → j < n →
  transpose_mat n rows !! j ≫= (.!! i) = rows !! i ≫= (.!! j).
Proof.
  intros Hrect Hj. revert i.
  induction Hrect as [|r rows Hr Hrows IH]; intros i; simpl.
  - by rewrite lookup_replicate_2.
  - rewrite lookup_zip_with_cons by (by rewrite length_transpose_mat).
    destruct (lookup_lt_is_Some_2 r j) as [x Hx]; [lia|].
    destruct (lookup_lt_is_Some_2 (transpose_mat n rows) j) as [c Hc];
      [by rewrite length_transpose_mat|].
    specialize (IH (pred i)). rewrite Hx. rewrite Hc in IH |- *.
    destruct i; simpl; [by rewrite Hx|done].
Qed.

Lemma compress_zip_with_cons b m r cols :
  length r = length cols →
  compress (b :: m) <$> zip_with cons r cols
  = if b then zip_with cons r (compress m <$> cols) else compress m <$> cols.
Proof.
  revert cols. induction r as [|x r IH]; intros [|c cols] Hl; simplify_eq/=.
  - by destruct b.
  - rewrite IH by done. by destruct b.
Qed.

(** Dropping rows of a matrix drops the same positions of every row of
    its transpose, and the other way round. *)
Lemma transpose_mat_compress_rows m n rows :
  length m = length rows → rect n rows →
  transpose_mat n (compress m rows) = compress m <$> transpose_mat n rows.
Proof.
  intros Hlen Hrect. revert m Hlen.
  induction Hrect as [|r rows Hr Hrows IH]; intros [|b m] Hl; try done.
  - induction n; simpl; f_equal; auto.
  - injection Hl as Hl. cbn [transpose_mat].
    rewrite compress_zip_with_cons by (by rewrite length_transpose_mat).
    destruct b; cbn [compress transpose_mat]; by rewrite IH.
Qed.

Lemma transpose_mat_compress_cols m n rows :
  length m = n → rect n rows →
  transpose_mat (count_true m) (compress m <$> rows)
  = compress m (transpose_mat n rows).
Proof.
  intros Hm Hrect.
  rewrite <-(transpose_mat_involutive n rows) at 1 by done.
  rewrite <-transpose_mat_compress_rows
    by (rewrite ?length_transpose_mat; auto using rect_transpose_mat).
  rewrite <-(length_compress m (transpose_mat n rows))
    by (by rewrite length_transpose_mat).
  apply transpose_mat_involutive, rect_compress, rect_transpose_mat.
Qed.

End transpose.

Lemma transpose_mat_fmap {A B} (f : A → B) n (rows : list (list A)) :
  transpose_mat n (fmap (M:=list) f <$> rows) = fmap (M:=list) f <$> transpose_mat n rows.
Proof.
  induction rows as [|r rows IH]; cbn [transpose_mat fmap list_fmap].
  - induction n; simpl; f_equal; auto.
  - change (list_fmap _ _ (list_fmap _ _ f) rows) with (fmap (M:=list) f <$> rows).
    rewrite IH. generalize (transpose_mat n rows). clear IH.
    induction r as [|x r IHr]; intros [|c cols]; simpl; f_equal; auto.
Qed.

Lemma rect_fmap {A B} (f : A → B) n (rows : list (list A)) :
  rect n rows → rect n (fmap (M:=list) f <$> rows).
Proof.
  unfold rect. rewrite Forall_fmap. intros Hrect.
  eapply Forall_impl; [done|]. intros r <-. apply length_fmap.
Qed.

(** ** Lists built by appending *)

Lemma foldl_snoc_fmap {A B} (g : A → B) (acc : list B) (l : list A) :
  foldl (λ acc x, acc ++ [g x]) acc l = acc ++ (g <$> l).
Proof.
  revert acc. induction l as [|x l IH]; intros acc; simpl.
  - by rewrite app_nil_r.
  - by rewrite IH, <-app_assoc.
Qed.

(** Two lists grown side by side. *)
Lemma foldl_snoc_pair {A B} (g : A → B) (acc : list A * list B)
    (l : list A) :
  foldl (λ acc x, (acc.1 ++ [x], acc.2 ++ [g x])) acc l
  = (acc.1 ++ l, acc.2 ++ (g <$> l)).
Proof.
  revert acc. induction l as [|x l IH]; intros [l1 l2]; simpl.
  - by rewrite !app_nil_r.
  - rewrite IH. simpl. by rewrite <-!app_assoc.
Qed.

(** [enumerate(l)]: the elements with their positions. *)
Definition enumerate {A} (l : list A) : list (nat * A) := imap pair l.

(** ** Python's [list.index] *)

Section list_index.
Context `{EqDecision A}.
Implicit Types (x : A) (l : list A).

(** The position of the first occurrence of [x] in [l]; [None] where Python
    raises [ValueError]. *)
Definition list_index (x : A) (l : list A) : option nat :=
  fst <$> list_find (x =.) l.

Lemma list_index_Some x l i :
  list_index x l = Some i ↔ l !! i = Some x ∧ x ∉ take i l.
Proof.
  unfold list_index. rewrite fmap_Some. split.
  - intros ([j y] & [Hj [<- Hmin]]%list_find_Some & ->). split; [done|].
    intros (k & Hk & Hlt)%elem_of_take. by eapply Hmin.
  - intros [Hi Hnot]. exists (i, x). split; [|done].
    apply list_find_Some. split_and!; [done..|].
    intros j y Hj Hlt <-. apply Hnot, elem_of_take. eauto.
Qed.

Lemma list_index_None x l : list_index x l = None ↔ x ∉ l.
Proof.
  unfold list_index. rewrite fmap_None, list_find_None, Forall_forall.
  split; [intros H Hx; by eapply H|intros H y Hy <-; done].
Qed.

Lemma list_index_is_Some x l : is_Some (list_index x l) ↔ x ∈ l.
Proof.
  rewrite <-not_eq_None_Some, list_index_None.
  destruct (decide (x ∈ l)); naive_solver.
Qed.

Lemma list_index_lt x l i : list_index x l = Some i → i < length l.
Proof. intros [Hi _]%list_index_Some. by eapply lookup_lt_Some. Qed.
End list_index.


(** ** Python exceptions

    The exceptions the script can die of.  None is caught anywhere, so an
    exception ends the run. *)

Inductive exn : Type :=
  | KeyError (missing : list string)
      (** labels looked up in an index that does not hold them *)
  | ValueError (what : string)
      (** [list.index] of an absent element, a reindex on duplicates *)
  | IndexError (position : nat)
      (** a list subscript past the end *)
  | FetchError (what : string)
      (** the data service could not be reached or answered with an error *)
  | OSError (path : string)
      (** a file that could not be written *).

#[export] Instance exn_eq_dec : EqDecision exn.
Proof. solve_decision. Defined.

(** ** The script monad: a trace of events and a value or an exception *)

Declare Scope script_scope.
Delimit Scope script_scope with script.

(** A computation that emits events of [E] and returns an [A] or raises
    an [X].  The events emitted before an exception stay in the trace. *)
Definition script (E X A : Type) : Type := list E * (X + A).

Section script.
Context {E X : Type}.

Definition sret {A} (a : A) : script E X A := ([], inr a).

Definition sbind {A B} (m : script E X A) (k : A → script E X B) :
    script E X B :=
  match m.2 with
  | inl x => (m.1, inl x)
  | inr a => let r := k a in (m.1 ++ r.1, r.2)
  end.

Definition emit (e : E) : script E X unit := ([e], inr tt).

Definition raise {A} (x : X) : script E X A := ([], inl x).

Definition emitted {A} (m : script E X A) : list E := m.1.

Definition outcome {A} (m : script E X A) : X + A := m.2.

(** [m] returns normally. *)
Definition returns {A} (m : script E X A) (a : A) : Prop := outcome m = inr a.

(** [m] raises. *)
Definition raises {A} (m : script E X A) (x : X) : Prop := outcome m = inl x.

End script.

Notation "x <- m ;; k" := (sbind m (λ x, k))
  (at level 20, m at level 99, k at level 200, only parsing) : script_scope.
Notation "m ;; k" := (sbind m (λ _, k))
  (at level 100, k at level 200, only parsing, right associativity)
  : script_scope.

Section script_loops.
Context {E X : Type}.
Local Open Scope script_scope.

(** A [for] loop that threads an accumulator: [body acc x] is one
    iteration, run for each [x] of [l] in order, until one raises. *)
Fixpoint sfor {A S} (l : list A) (body : S → A → script E X S) (acc : S) :
    script E X S :=
  match l with
  | [] => sret acc
  | x :: l' => acc' <- body acc x ;; sfor l' body acc'
  end.

End script_loops.

(** [l[i]]: the element at position [i], [IndexError] past the end. *)
Definition list_getitem {E A} (l : list A) (i : nat) : script E exn A :=
  match l !! i with
  | Some x => sret x
  | None => raise (IndexError i)
  end.

Section script_laws.
Context {E X : Type}.
Local Open Scope script_scope.

Lemma sbind_sret_l {A B} (a : A) (k : A → script E X B) :
  (x <- sret a ;; k x) = k a.
Proof. unfold sbind. simpl. by destruct (k a). Qed.

Lemma sbind_sret_r {A} (m : script E X A) : (x <- m ;; sret x) = m.
Proof. destruct m as [t [x|a]]; unfold sbind; simpl; by rewrite ?app_nil_r. Qed.

Lemma sbind_assoc {A B C} (m : script E X A) (k : A → script E X B)
    (h : B → script E X C) :
  (y <- (x <- m ;; k x) ;; h y) = (x <- m ;; y <- k x ;; h y).
Proof.
  destruct m as [t [x|a]]; unfold sbind; simpl; [done|].
  destruct (k a) as [t' [x|b]]; simpl; [done|]. by rewrite app_assoc.
Qed.

(** Two continuations that agree on the value [m] returns give the same
    computation. *)
Lemma sbind_ext {A B} (m : script E X A) (k k' : A → script E X B) :
  (∀ a, returns m a → k a = k' a) → sbind m k = sbind m k'.
Proof.
  destruct m as [t [x|a]]; unfold sbind, returns, outcome; simpl; [done|].
  intros H. by rewrite (H a).
Qed.

(** The two ways a sequence runs: the first part raises, or it returns
    and the rest runs after it. *)
Lemma sbind_inr {A B} (m : script E X A) (k : A → script E X B) t a :
  m = (t, inr a) → sbind m k = (t ++ (k a).1, (k a).2).
Proof. by intros ->. Qed.

Lemma sbind_inl {A B} (m : script E X A) (k : A → script E X B) t x :
  m = (t, inl x) → sbind m k = (t, inl x).
Proof. by intros ->. Qed.

Lemma sbind_raises {A B} (m : script E X A) (k : A → script E X B) x :
  raises m x → sbind m k = (emitted m, inl x).
Proof. unfold raises, outcome, sbind. by intros ->. Qed.

Lemma sbind_returns {A B} (m : script E X A) (k : A → script E X B) a :
  returns m a → sbind m k = (emitted m ++ emitted (k a), outcome (k a)).
Proof. unfold returns, outcome, sbind. by intros ->. Qed.

(** A loop whose iterations neither emit nor raise is a left fold. *)
Lemma sfor_pure {A S} (l : list A) (body : S → A → script E X S)
    (step : S → A → S) (acc : S) :
  (∀ s x, body s x = sret (step s x)) →
  sfor l body acc = sret (foldl step acc l).
Proof.
  intros Hbody. revert acc. induction l as [|x l IH]; intros acc; simpl;
    [done|]. by rewrite Hbody, sbind_sret_l.
Qed.

(** The same when only the iterations over the elements of [l] are known
    to be pure. *)
Lemma sfor_pure_elem {A S} (l : list A) (body : S → A → script E X S)
    (step : S → A → S) (acc : S) :
  (∀ s x, x ∈ l → body s x = sret (step s x)) →
  sfor l body acc = sret (foldl step acc l).
Proof.
  revert acc. induction l as [|x l IH]; intros acc Hbody; simpl; [done|].
  rewrite Hbody, sbind_sret_l by left. apply IH. intros s y Hy.
  apply Hbody. by right.
Qed.

(** What a computation has emitted is never taken back by what follows. *)
Lemma emitted_sbind_prefix {A B} (m : script E X A) (k : A → script E X B) :
  emitted m `prefix_of` emitted (sbind m k).
Proof.
  destruct m as [t [x|a]]; unfold sbind, emitted; simpl; [done|]. by eexists.
Qed.

End script_laws.

(** ** Python dictionaries

    A [dict] keeps its items in insertion order, so it is modelled as the
    list of its items; [dict_wf] is the uniqueness of keys that every
    Python dictionary has. *)

Section dict.
Context {V : Type}.
Implicit Types (d : list (string * V)) (k : string) (v : V).

(** The value stored under [k]. *)
Fixpoint dict_get (d : list (string * V)) (k : string) : option V :=
  match d with
  | [] => None
  | (k', v) :: d' => if decide (k' = k) then Some v else dict_get d' k
  end.

(** [d.keys()], in insertion order. *)
Definition dict_keys (d : list (string * V)) : list string := d.*1.

(** [d[k] = v]: the value under an existing key is replaced where it
    stands, a new key goes to the end. *)
Fixpoint dict_set (k : string) (v : V) (d : list (string * V)) :
    list (string * V) :=
  match d with
  | [] => [(k, v)]
  | (k', v') :: d' =>
      if decide (k' = k) then (k, v) :: d' else (k', v') :: dict_set k v d'
  end.

(** The items of a dictionary display [{k1: v1, k2: v2, ...}]. *)
Definition dict_of_items (items : list (string * V)) : list (string * V) :=
  foldl (λ d kv, dict_set kv.1 kv.2 d) [] items.

(** No key occurs twice. *)
Definition dict_wf (d : list (string * V)) : Prop := NoDup (dict_keys d).

(** [d[k]]: [KeyError] when [k] is no key. *)
Definition dict_getitem {E} (d : list (string * V)) (k : string) :
    script E exn V :=
  match dict_get d k with
  | Some v => sret v
  | None => raise (KeyError [k])
  end.

Lemma dict_get_Some d k v : dict_get d k = Some v → (k, v) ∈ d.
Proof.
  induction d as [|[k' v'] d IH]; simpl; [done|].
  case_decide; [intros [= <-]; subst; left|right; auto].
Qed.

Lemma dict_get_None d k : dict_get d k = None ↔ k ∉ dict_keys d.
Proof.
  unfold dict_keys. induction d as [|[k' v'] d IH]; simpl.
  - split; [intros _ []%elem_of_nil|done].
  - rewrite not_elem_of_cons. case_decide as Hk; [|rewrite IH].
    + split; [done|]. by intros [? _].
    + split; [by split; [intros ->|]|by intros [_ ?]].
Qed.

(** In a dictionary, an item is what its key is bound to. *)
Lemma dict_get_elem_of d k v : dict_wf d → (k, v) ∈ d → dict_get d k = Some v.
Proof.
  unfold dict_wf, dict_keys. induction d as [|[k' v'] d IH]; intros Hnd Hin.
  - by apply elem_of_nil in Hin.
  - rewrite fmap_cons in Hnd. apply NoDup_cons in Hnd as [Hk' Hnd].
    simpl. apply elem_of_cons in Hin as [[= <- <-]|Hin].
    + by rewrite decide_True.
    + rewrite decide_False; [by apply IH|]. intros ->. apply Hk'.
      apply list_elem_of_fmap. by exists (k, v).
Qed.

Lemma dict_keys_set k v d :
  dict_keys (dict_set k v d)
  = if decide (k ∈ dict_keys d) then dict_keys d else dict_keys d ++ [k].
Proof.
  unfold dict_keys. induction d as [|[k' v'] d IH]; [done|].
  cbn [dict_set]. rewrite !fmap_cons. cbn [fst].
  destruct (decide (k' = k)) as [->|Hk].
  - by rewrite fmap_cons, decide_True by left.
  - rewrite fmap_cons, IH. cbn [fst].
    destruct (decide (k ∈ d.*1)) as [Hin|Hin].
    + by rewrite decide_True by by right.
    + rewrite decide_False; [done|]. by intros [?|?]%elem_of_cons.
Qed.

Lemma dict_set_wf k v d : dict_wf d → dict_wf (dict_set k v d).
Proof.
  unfold dict_wf. rewrite dict_keys_set. case_decide; [done|].
  intros Hd. apply NoDup_app. split_and!; [done| |apply NoDup_singleton].
  intros k' Hk' ->%list_elem_of_singleton. done.
Qed.

Lemma dict_of_items_wf items : dict_wf (dict_of_items items).
Proof.
  unfold dict_of_items.
  assert (dict_wf []) as Hnil by constructor.
  revert Hnil. generalize (@nil (string * V)).
  induction items as [|[k v] items IH]; intros d Hd; simpl; [done|].
  by apply IH, dict_set_wf.
Qed.
End dict.

(** ** Automation *)

#[export] Hint Rewrite @length_fmap @length_app @length_take @length_replicate
  @length_zip_with @length_seq @length_cons @length_nil : frame_len.
#[export] Hint Rewrite @length_transpose_mat @length_compress
  using (first [done|eassumption]) : frame_len.
#[export] Hint Resolve rect_nil rect_transpose_mat rect_compress rect_fmap
  compress_sublist : frame.

(** Normalise the lengths of a goal and close it by arithmetic. *)
Ltac solve_length :=
  autorewrite with frame_len in *; try done; try lia.

(** Evaluate the monadic operations of a [script] in the goal. *)
Ltac script_simpl :=
  unfold returns, raises, outcome, emitted, sbind, sret, emit, raise; simpl.
