(* ===== verification/Numeric.v ===== *)
(** * Numeric: cell values, rounding to decimals and the NaN-skipping mean

    Models the arithmetic that [src/part1_script.py] asks of numpy and
    pandas: [df.round(1)] (line 117) and [mean(axis=1)] (line 152).

    A cell is [option Q]: [None] is pandas' [NaN], [Some v] a present value.
    Values are exact rationals, so the model states what the operations
    compute before binary floating point perturbs the last bits; theorems
    here are about that exact computation.  Because a rational has many
    representations, the intended equality on values is [Qeq], registered
    as stdpp's [≡]; the operations are [Proper] for it.

    - [rint] is round-half-to-even to an integer (numpy's [rint]);
      [rint_spec] is its case view, [rint_error], [rint_nearest] and
      [rint_mono] its characterisation.
    - [round_dec d x] is numpy's [around]: scale by [10^d], [rint], scale
      back.  It is idempotent, monotone, within half a unit of the last
      decimal, and keeps integer bounds such as the range of a percentage.
    - [nanmean] is the mean of the present values, [NaN] when there is
      none; it lies between any bounds of the present values. *)

From Stdlib Require Import QArith Qround Qabs Lqa Lia.
From stdpp Require Import base tactics option list.
From S2P Require Import Prelude.
Local Open Scope Q_scope.

(** ** The equivalence on values *)

(** Equality of representations is decidable. *)
#[export] Instance Q_eq_dec : EqDecision Q.
Proof. solve_decision. Defined.

#[export] Instance Q_equiv : Equiv Q := Qeq.

#[export] Instance Q_equivalence : Equivalence (≡@{Q}).
Proof. unfold equiv, Q_equiv. apply Q_Setoid. Qed.

Lemma inject_Z_succ z : inject_Z (z + 1) == inject_Z z + 1.
Proof. by rewrite inject_Z_plus. Qed.

(** ** Round half to even *)

(** The integer nearest to [x]; a tie goes to the even neighbour. *)
Definition rint (x : Q) : Z :=
  let f := Qfloor x in
  match (x - inject_Z f ?= 1 # 2)%Q with
  | Lt => f
  | Gt => (f + 1)%Z
  | Eq => if Z.even f then f else (f + 1)%Z
  end.

(** The three ways [rint x] is reached: [x] is in the lower half above an
    integer, in the upper half below one, or exactly half way. *)
Inductive rint_spec (x : Q) : Z → Prop :=
  | rint_down f : inject_Z f <= x < inject_Z f + (1 # 2) → rint_spec x f
  | rint_up f : inject_Z f - (1 # 2) < x <= inject_Z f → rint_spec x f
  | rint_tie f :
      x == inject_Z f + (1 # 2) →
      rint_spec x (if Z.even f then f else (f + 1)%Z).

Lemma Qfloor_bounds x : inject_Z (Qfloor x) <= x < inject_Z (Qfloor x) + 1.
Proof.
  split; [apply Qfloor_le|].
  pose proof (Qlt_floor x) as H. by rewrite inject_Z_plus in H.
Qed.

Lemma rint_cases x : rint_spec x (rint x).
Proof.
  unfold rint. destruct (Qfloor_bounds x) as [Flo Fhi].
  destruct (Qcompare_spec (x - inject_Z (Qfloor x)) (1 # 2)) as [H|H|H].
  - apply rint_tie. lra.
  - apply rint_down. lra.
  - apply rint_up. rewrite inject_Z_succ. lra.
Qed.

Lemma rint_error x : Qabs (x - inject_Z (rint x)) <= 1 # 2.
Proof.
  apply Qabs_Qle_condition.
  destruct (rint_cases x) as [f H|f H|f H]; [lra..|].
  destruct (Z.even f); rewrite ?inject_Z_succ; lra.
Qed.

Lemma rint_inject_Z z : rint (inject_Z z) = z.
Proof.
  unfold rint. rewrite Qfloor_Z.
  destruct (Qcompare_spec (inject_Z z - inject_Z z) (1 # 2)); [lra|done|lra].
Qed.

#[export] Instance rint_proper : Proper ((≡) ==> (=)) rint.
Proof.
  intros x y Hxy. unfold equiv, Q_equiv in Hxy. unfold rint. cbv zeta.
  rewrite (Qfloor_comp _ _ Hxy). by rewrite Hxy.
Qed.

Lemma rint_mono x y : x <= y → (rint x <= rint y)%Z.
Proof.
  intros Hxy. destruct (Z.le_gt_cases (rint x) (rint y)) as [|Hgt]; [done|].
  assert (inject_Z (rint y) + 1 <= inject_Z (rint x))%Q as Hz.
  { rewrite <-inject_Z_succ, <-Zle_Qle. lia. }
  pose proof (rint_error x) as Hx%Qabs_Qle_condition.
  pose proof (rint_error y) as Hy%Qabs_Qle_condition.
  assert (x == y)%Q as Heq by lra.
  rewrite (rint_proper _ _ Heq) in Hgt. lia.
Qed.

(** No integer is closer to [x] than [rint x]. *)
Lemma rint_nearest x z :
  Qabs (x - inject_Z (rint x)) <= Qabs (x - inject_Z z).
Proof.
  apply Qabs_Qle_condition.
  destruct (Z.lt_trichotomy z (rint x)) as [Hlt|[->|Hgt]].
  - assert (inject_Z z + 1 <= inject_Z (rint x))%Q as Hz
      by (rewrite <-inject_Z_succ, <-Zle_Qle; lia).
    pose proof (rint_error x) as Hx%Qabs_Qle_condition.
    rewrite (Qabs_pos (x - inject_Z z)) by lra. lra.
  - pose proof (Qle_Qabs (x - inject_Z (rint x))).
    pose proof (Qle_Qabs (- (x - inject_Z (rint x)))) as H'.
    rewrite Qabs_opp in H'. lra.
  - assert (inject_Z (rint x) + 1 <= inject_Z z)%Q as Hz
      by (rewrite <-inject_Z_succ, <-Zle_Qle; lia).
    pose proof (rint_error x) as Hx%Qabs_Qle_condition.
    rewrite (Qabs_neg (x - inject_Z z)) by lra. lra.
Qed.

(** ** Rounding to a number of decimals *)

(** [10 ^ decimals], the factor numpy scales by. *)
Definition scale (decimals : nat) : Q := inject_Z (10 ^ Z.of_nat decimals).

(** [numpy.around(x, decimals)] for [decimals >= 0]: the nearest multiple
    of [10 ^ -decimals], ties to the even multiple. *)
Definition round_dec (decimals : nat) (x : Q) : Q :=
  (inject_Z (rint (x * scale decimals)) / scale decimals)%Q.

Lemma scale_pos d : 0 < scale d.
Proof.
  unfold scale. change 0%Q with (inject_Z 0). rewrite <-Zlt_Qlt.
  apply Z.pow_pos_nonneg; lia.
Qed.

Lemma round_dec_scaled d x :
  round_dec d x * scale d == inject_Z (rint (x * scale d)).
Proof.
  unfold round_dec. pose proof (scale_pos d). field. lra.
Qed.

#[export] Instance round_dec_proper d : Proper ((≡) ==> (≡)) (round_dec d).
Proof.
  intros x y Hxy. unfold round_dec, equiv, Q_equiv in *. by rewrite Hxy.
Qed.

Lemma round_dec_mono d x y : x <= y → round_dec d x <= round_dec d y.
Proof.
  intros Hxy. pose proof (scale_pos d) as Hs.
  apply (Qmult_le_r _ _ (scale d)); [done|]. rewrite !round_dec_scaled.
  rewrite <-Zle_Qle. apply rint_mono. by apply Qmult_le_r.
Qed.

Lemma round_dec_error d x : Qabs (round_dec d x - x) <= (1 # 2) / scale d.
Proof.
  pose proof (scale_pos d) as Hs.
  pose proof (rint_error (x * scale d)) as [Hlo Hhi]%Qabs_Qle_condition.
  assert ((1 # 2) / scale d * scale d == 1 # 2) as Hh by (field; lra).
  assert (- ((1 # 2) / scale d) * scale d == - (1 # 2)) as Hh' by (field; lra).
  assert ((round_dec d x - x) * scale d
          == inject_Z (rint (x * scale d)) - x * scale d) as Hd
    by (rewrite <-round_dec_scaled; ring).
  apply Qabs_Qle_condition.
  split; apply (Qmult_le_r _ _ (scale d)); try done; rewrite Hd, ?Hh, ?Hh'; lra.
Qed.

(** A value that already has [d] decimals is left as it is. *)
Lemma round_dec_fixed d x (k : Z) :
  x * scale d == inject_Z k → round_dec d x == x.
Proof.
  intros Hk. pose proof (scale_pos d) as Hs. unfold round_dec.
  rewrite (rint_proper _ _ Hk), rint_inject_Z, <-Hk. field. lra.
Qed.

Lemma round_dec_inject_Z d (z : Z) : round_dec d (inject_Z z) == inject_Z z.
Proof.
  apply (round_dec_fixed d _ (z * 10 ^ Z.of_nat d)).
  unfold scale. by rewrite inject_Z_mult.
Qed.

Lemma round_dec_range d x (lo hi : Z) :
  inject_Z lo <= x <= inject_Z hi →
  inject_Z lo <= round_dec d x <= inject_Z hi.
Proof.
  intros [Hlo Hhi]. split.
  - rewrite <-(round_dec_inject_Z d lo). by apply round_dec_mono.
  - rewrite <-(round_dec_inject_Z d hi). by apply round_dec_mono.
Qed.

(** Rounding a rounded value changes nothing, not even its representation. *)
Lemma round_dec_idempotent d x : round_dec d (round_dec d x) = round_dec d x.
Proof.
  unfold round_dec at 1 3.
  by rewrite (rint_proper _ _ (round_dec_scaled d x)), rint_inject_Z.
Qed.

(** ** Cells *)

(** A table cell: a value or [NaN]. *)
Abbreviation cell := (option Q).

(** [pandas.notna]: the cell holds a value. *)
Definition notna {A} (c : option A) : bool := bool_decide (is_Some c).

(** [round] on a cell: [NaN] stays [NaN]. *)
Definition cell_round (decimals : nat) (c : cell) : cell :=
  round_dec decimals <$> c.

Definition Qsum (l : list Q) : Q := foldr Qplus 0 l.

(** The mean of the present values of [cs], [NaN] when every cell is
    [NaN] (pandas' [mean] with its default [skipna=True]). *)
Definition nanmean (cs : list cell) : cell :=
  let vs := omap id cs in
  if decide (vs = []) then None
  else Some (Qsum vs / inject_Z (Z.of_nat (length vs))).

Lemma notna_Some {A} (c : option A) : notna c = true ↔ is_Some c.
Proof. unfold notna. by rewrite bool_decide_eq_true. Qed.

Lemma notna_None {A} (c : option A) : notna c = false ↔ c = None.
Proof. unfold notna. by rewrite bool_decide_eq_false, eq_None_not_Some. Qed.

Lemma notna_fmap {A B} (f : A → B) (c : option A) : notna (f <$> c) = notna c.
Proof. by destruct c. Qed.

#[export] Instance notna_proper `{Equiv A} : Proper ((≡) ==> (=)) (@notna A).
Proof. by intros ?? [??|]. Qed.

#[export] Instance cell_round_proper d : Proper ((≡) ==> (≡)) (cell_round d).
Proof. intros ?? [x y Hxy|]; constructor. by apply round_dec_proper. Qed.

(** Rounding is canonical: it returns the same fraction for every
    fraction of a value. *)
Lemma round_dec_canonical d : Proper ((≡) ==> (=)) (round_dec d).
Proof.
  intros x y Hxy. unfold round_dec. f_equal. f_equal.
  apply rint_proper. unfold equiv, Q_equiv in *. by rewrite Hxy.
Qed.

Lemma cell_round_canonical d : Proper ((≡) ==> (=)) (cell_round d).
Proof.
  intros ?? [x y Hxy|]; simpl; [|done]. f_equal. by apply round_dec_canonical.
Qed.

Lemma Qsum_bounds lo hi vs :
  Forall (λ v, lo <= v <= hi) vs →
  lo * inject_Z (Z.of_nat (length vs)) <= Qsum vs
  ∧ Qsum vs <= hi * inject_Z (Z.of_nat (length vs)).
Proof.
  induction 1 as [|v vs [Hlo Hhi] _ [IHlo IHhi]]; cbn [length Qsum foldr].
  - change (inject_Z (Z.of_nat 0)) with 0. lra.
  - fold (Qsum vs). rewrite Nat2Z.inj_succ, <-Z.add_1_r, inject_Z_succ. lra.
Qed.

Lemma nanmean_None cs : nanmean cs = None ↔ Forall (eq None) cs.
Proof.
  unfold nanmean. case_decide as Hvs; split; try done.
  - intros _. induction cs as [|[v|] cs IH]; simplify_eq/=; auto.
  - intros Hall. destruct Hvs.
    induction Hall as [|? cs <- _ IH]; simpl; auto.
Qed.

Lemma nanmean_bounds lo hi cs m :
  Forall (λ c, ∀ v, c = Some v → lo <= v <= hi) cs →
  nanmean cs = Some m → lo <= m <= hi.
Proof.
  unfold nanmean. intros Hcs Hm. case_decide as Hvs; simplify_eq.
  assert (Forall (λ v, lo <= v <= hi) (omap id cs)) as Hvals.
  { clear Hvs. induction Hcs as [|[v|] cs Hc _ IH]; simpl; auto. }
  destruct (Qsum_bounds _ _ _ Hvals) as [Hlo Hhi].
  assert (0 < inject_Z (Z.of_nat (length (omap id cs)))) as Hn.
  { change 0 with (inject_Z 0). rewrite <-Zlt_Qlt.
    destruct (omap id cs); simpl in *; [done|lia]. }
  split; [apply Qle_shift_div_l|apply Qle_shift_div_r]; done.
Qed.

Lemma omap_id_equiv (cs cs' : list cell) :
  cs ≡ cs' → Forall2 Qeq (omap id cs) (omap id cs').
Proof.
  induction 1 as [|c c' cs cs' Hc _ IH]; simpl; [constructor|].
  destruct Hc; simpl; [by constructor|done].
Qed.

Lemma Qsum_Forall2 vs vs' : Forall2 Qeq vs vs' → Qsum vs == Qsum vs'.
Proof.
  induction 1 as [|v v' vs vs' Hv _ IH]; cbn [Qsum foldr]; [done|].
  fold (Qsum vs) (Qsum vs'). by rewrite Hv, IH.
Qed.

#[export] Instance nanmean_proper : Proper ((≡) ==> (≡)) nanmean.
Proof.
  intros cs cs' Hcs%omap_id_equiv. unfold nanmean.
  pose proof (Qsum_Forall2 _ _ Hcs) as Hsum.
  destruct Hcs as [|v v' vs vs' Hv Hvs]; [by constructor|].
  rewrite !decide_False by done. constructor. unfold equiv, Q_equiv.
  cbn [length]. by rewrite Hsum, (Forall2_length _ _ _ Hvs).
Qed.

(** The mean does not depend on the order of the cells. *)
Lemma Qsum_Permutation vs vs' : vs ≡ₚ vs' → Qsum vs == Qsum vs'.
Proof.
  induction 1 as [|v vs vs' _ IH|v v' vs|vs vs' vs'' _ IH _ IH'];
    cbn [Qsum foldr]; fold Qsum; [done| |lra|by rewrite IH].
  fold (Qsum vs) (Qsum vs'). by rewrite IH.
Qed.

#[export] Instance nanmean_Permutation : Proper ((≡ₚ) ==> (≡)) nanmean.
Proof.
  intros cs cs' Hcs. unfold nanmean.
  assert (omap id cs ≡ₚ omap id cs') as Hvs by by rewrite Hcs.
  destruct (decide (omap id cs = [])) as [Heq|Hne].
  - rewrite Heq in Hvs. apply Permutation_nil_l in Hvs.
    rewrite decide_True by done. constructor.
  - rewrite decide_False by (intros Heq; by rewrite Heq in Hvs;
      apply Permutation_nil_r in Hvs).
    constructor. unfold equiv, Q_equiv.
    by rewrite (Qsum_Permutation _ _ Hvs), (Permutation_length Hvs).
Qed.

(** ** Rounding to one decimal *)

Lemma rint_half (k : Z) :
  rint (inject_Z k + (1 # 2)) = if Z.even k then k else (k + 1)%Z.
Proof.
  destruct (rint_cases (inject_Z k + (1 # 2))) as [f [Hlo Hhi]|f [Hlo Hhi]|f H].
  - assert (inject_Z k < inject_Z f) as Hkf by lra.
    assert (inject_Z f < inject_Z (k + 1)) as Hfk
      by (rewrite inject_Z_succ; lra).
    rewrite <-Zlt_Qlt in Hkf, Hfk. lia.
  - assert (inject_Z k < inject_Z f) as Hkf by lra.
    assert (inject_Z f < inject_Z (k + 1)) as Hfk
      by (rewrite inject_Z_succ; lra).
    rewrite <-Zlt_Qlt in Hkf, Hfk. lia.
  - assert (inject_Z k == inject_Z f) as ->%inject_Z_injective by lra. done.
Qed.

(** C40. Rounding to one decimal is rounding half to even: a value
    exactly half way between two neighbouring tenths goes to the one whose
    last digit is even, as [numpy] rounds, and not always up. *)
Theorem round_half_even (k : Z) :
  round_dec 1 (inject_Z k / 10 + (1 # 20))
  == inject_Z (if Z.even k then k else k + 1) / 10.
Proof.
  unfold round_dec. change (scale 1) with 10.
  assert ((inject_Z k / 10 + (1 # 20)) * 10 == inject_Z k + (1 # 2)) as Hx
    by field.
  by rewrite (rint_proper _ _ Hx), rint_half.
Qed.

(** Rounding a cell that is already rounded changes nothing, and a
    value that is a whole number of tenths is its own rounding; a missing
    cell stays missing. *)
Theorem cell_round_idempotent (c : cell) :
  cell_round 1 (cell_round 1 c) = cell_round 1 c
  ∧ (∀ x (k : Z), c = Some x → x * 10 == inject_Z k →
       cell_round 1 c ≡ Some x)
  ∧ (cell_round 1 c = None ↔ c = None).
Proof.
  split_and!.
  - destruct c as [x|]; simpl; [|done]. by rewrite round_dec_idempotent.
  - intros x k -> Hk. constructor. by apply (round_dec_fixed 1 x k).
  - by destruct c.
Qed.

(** Rounding a percentage to one decimal moves it by at most a
    twentieth and keeps it a percentage. *)
Theorem round_percentage (x : Q) :
  0 <= x <= 100 →
  0 <= round_dec 1 x <= 100 ∧ Qabs (round_dec 1 x - x) <= 1 # 20.
Proof.
  intros Hx. split; [by apply (round_dec_range 1 x 0 100)|].
  apply (round_dec_error 1 x).
Qed.

Lemma round_percentage_witness :
  0 <= round_dec 1 55.55 <= 100 ∧ Qabs (round_dec 1 55.55 - 55.55) <= 1 # 20.
Proof. apply (round_percentage 55.55). split; by vm_compute. Defined.
