(* ===== verification/Labels.v ===== *)
(** * Labels: the string operations the script applies to table labels

    - [str_replace] models [str.replace] as line 114 of
      [src/part1_script.py] uses it on the column labels: the pattern [YR]
      has no regular-expression operator, so [regex=True] makes it the
      replacement of every occurrence of the literal, scanned left to
      right without overlap ([Regex] proves that from a model of
      [re.sub]).  [replaced] states that result as a
      relation, and [str_replace_spec] proves that the function computes
      it; [YR] is removed wherever it stands in a label
      ([str_replace_YR_anywhere]).
    - [str_le] is the order of Python's string comparison: lexicographic
      on code units, a proper prefix first.  A label is a byte string in
      UTF-8; comparing UTF-8 bytes orders strings as comparing code points
      does, so the model agrees with Python on labels outside ASCII.
    - [Sorter] is the contract of the built-in [sorted] (line 151): the
      result is ordered and is a rearrangement of the input.  Since the
      order is total and antisymmetric, a list has one sorted
      rearrangement ([sorter_unique]): every implementation of the
      contract, Python's included, returns the list that [sorted], a merge
      sort, computes. *)

From Stdlib Require Import String Ascii NArith Lia.
From stdpp Require Import base tactics option list strings sorting.
From S2P Require Import Prelude.
Local Open Scope string_scope.

(** ** Replacing a literal *)

(** [skip] characters of a match are still to be passed over. *)
Fixpoint replace_from (old new : string) (skip : nat) (s : string) : string :=
  match s with
  | "" => ""
  | String c s' =>
      match skip with
      | S k => replace_from old new k s'
      | O =>
          if String.prefix old s
          then new +:+ replace_from old new (String.length old - 1) s'
          else String c (replace_from old new 0 s')
      end
  end.

(** [s.replace(old, new)] for a pattern [old] that is not empty: every
    occurrence of [old], found left to right without overlap. *)
Definition str_replace (old new s : string) : string := replace_from old new 0 s.

(** What [str.replace] is specified to return: the occurrences of [old]
    are found from the left, an occurrence is replaced by [new] and the
    search resumes behind it, a character at which no occurrence starts
    is kept. *)
Inductive replaced (old new : string) : string → string → Prop :=
  | replaced_nil : replaced old new "" ""
  | replaced_match s t :
      replaced old new s t → replaced old new (old +:+ s) (new +:+ t)
  | replaced_copy c s t :
      String.prefix old (String c s) = false →
      replaced old new s t → replaced old new (String c s) (String c t).

(** [s[n:]]. *)
Fixpoint sdrop (n : nat) (s : string) : string :=
  match n, s with
  | S k, String _ s' => sdrop k s'
  | _, _ => s
  end.

Lemma replace_from_skip old new k s :
  replace_from old new k s = str_replace old new (sdrop k s).
Proof.
  revert k. induction s as [|c s IH]; intros [|k]; simpl; done.
Qed.

Lemma sdrop_app s1 s2 : sdrop (String.length s1) (s1 +:+ s2) = s2.
Proof. induction s1; simpl; auto. Qed.

Lemma prefix_app s1 s2 : String.prefix s1 (s1 +:+ s2) = true.
Proof.
  induction s1 as [|a s1 IH]; simpl; [by destruct s2|].
  by destruct (ascii_dec a a).
Qed.

Lemma replace_from_cons old new c s :
  replace_from old new 0 (String c s)
  = if String.prefix old (String c s)
    then new +:+ replace_from old new (String.length old - 1) s
    else String c (replace_from old new 0 s).
Proof. done. Qed.

(** A leading occurrence is replaced and the scan resumes after it. *)
Lemma str_replace_match old new s :
  old ≠ "" → str_replace old new (old +:+ s) = new +:+ str_replace old new s.
Proof.
  intros Hold. unfold str_replace at 1. destruct old as [|a old]; [done|].
  pose proof (prefix_app (String a old) s) as Hp.
  change (String a old +:+ s) with (String a (old +:+ s)) in *.
  rewrite replace_from_cons, Hp, replace_from_skip.
  cbn [String.length]. by rewrite Nat.sub_1_r, Nat.pred_succ, sdrop_app.
Qed.

(** A character that starts no occurrence is copied. *)
Lemma str_replace_copy old new c s :
  String.prefix old (String c s) = false →
  str_replace old new (String c s) = String c (str_replace old new s).
Proof. intros Hp. unfold str_replace. by rewrite replace_from_cons, Hp. Qed.

(** The characters of a string. *)
Definition chars (s : string) : list ascii := list_ascii_of_string s.

Lemma prefix_head a old c s : String.prefix (String a old) (String c s) = true → a = c.
Proof. simpl. by destruct (ascii_dec a c). Qed.

Lemma str_replace_absent_head a old new s :
  a ∉ chars s → str_replace (String a old) new s = s.
Proof.
  induction s as [|c s IH]; intros Hs; [done|].
  apply not_elem_of_cons in Hs as [Hne Hs].
  rewrite str_replace_copy, IH; [done..|].
  destruct (String.prefix _ _) eqn:Hp; [|done]. by apply prefix_head in Hp.
Qed.

(** The labels of the indicator table: [YR] followed by a year. *)
Lemma str_replace_YR_label s :
  "Y"%char ∉ chars s → str_replace "YR" "" ("YR" +:+ s) = s.
Proof.
  intros Hs. rewrite str_replace_match by done. simpl.
  by apply str_replace_absent_head.
Qed.

(** A string that starts with [old] is [old] followed by a rest. *)
Lemma prefix_inv old s :
  String.prefix old s = true → ∃ s', s = old +:+ s'.
Proof.
  revert s. induction old as [|a old IH]; intros s; [by exists s|].
  destruct s as [|c s]; simpl; [done|].
  destruct (ascii_dec a c) as [->|]; [|done].
  intros [s' ->]%IH. by exists s'.
Qed.

Lemma length_app_string s1 s2 :
  String.length (s1 +:+ s2) = String.length s1 + String.length s2.
Proof. induction s1; simpl; auto. Qed.

(** The function returns a string the specification allows. *)
Lemma str_replace_replaced old new s :
  old ≠ "" → replaced old new s (str_replace old new s).
Proof.
  intros Hold. remember (String.length s) as n eqn:Hn. revert s Hn.
  induction (lt_wf n) as [n _ IH]. intros [|c s] ->; [constructor|].
  destruct (String.prefix old (String c s)) eqn:Hp.
  - destruct (prefix_inv _ _ Hp) as [s' Hs']. rewrite Hs'.
    rewrite str_replace_match by done. constructor.
    apply (IH (String.length s')); [|done].
    rewrite Hs', length_app_string. destruct old; simpl; [done|lia].
  - rewrite str_replace_copy by done. constructor; [done|].
    apply (IH (String.length s)); [simpl; lia|done].
Qed.

(** The specification allows one string only. *)
Lemma replaced_str_replace old new s t :
  old ≠ "" → replaced old new s t → str_replace old new s = t.
Proof.
  intros Hold. induction 1 as [|s t _ IH|c s t Hp _ IH]; [done| |].
  - by rewrite str_replace_match, IH.
  - by rewrite str_replace_copy, IH.
Qed.

(** Characters that cannot start an occurrence are copied. *)
Lemma str_replace_absent_head_app a old new s1 s2 :
  a ∉ chars s1 →
  str_replace (String a old) new (s1 +:+ s2)
  = s1 +:+ str_replace (String a old) new s2.
Proof.
  induction s1 as [|c s1 IH]; intros Hs; [done|].
  apply not_elem_of_cons in Hs as [Hne Hs].
  change (String c s1 +:+ s2) with (String c (s1 +:+ s2)).
  rewrite str_replace_copy, IH; [done..|].
  destruct (String.prefix _ _) eqn:Hp; [|done]. by apply prefix_head in Hp.
Qed.

(** [str_replace] is [str.replace]: for a pattern that is not
    empty it returns the one string in which the occurrences of the
    pattern, found from the left without overlap, are replaced and every
    other character is kept. *)
Theorem str_replace_spec old new s t :
  old ≠ "" → replaced old new s t ↔ str_replace old new s = t.
Proof.
  intros Hold. split; [by apply replaced_str_replace|].
  intros <-. by apply str_replace_replaced.
Qed.

Lemma str_replace_spec_witness :
  replaced "YR" "" "YR2000" "2000" ↔ str_replace "YR" "" "YR2000" = "2000".
Proof. apply (str_replace_spec "YR" "" "YR2000" "2000"). done. Defined.

(** C34. [YR] is removed wherever it stands in a label, not only in
    front of it: a label made of a text, [YR] and a text, neither with a
    [Y], becomes the two texts. *)
Theorem str_replace_YR_anywhere s1 s2 :
  "Y"%char ∉ chars s1 → "Y"%char ∉ chars s2 →
  str_replace "YR" "" (s1 +:+ "YR" +:+ s2) = s1 +:+ s2.
Proof.
  intros Hs1 Hs2. rewrite str_replace_absent_head_app by done.
  by rewrite str_replace_YR_label.
Qed.

Lemma str_replace_YR_anywhere_witness :
  str_replace "YR" "" "MYR2000" = "M2000".
Proof.
  apply (str_replace_YR_anywhere "M" "2000"); by apply (bool_decide_unpack _).
Defined.

(** ** The order of labels *)

(** [s1 <= s2] in Python. *)
Definition str_le (s1 s2 : string) : Prop := String.leb s1 s2 = true.

#[export] Instance str_le_dec s1 s2 : Decision (str_le s1 s2).
Proof. unfold str_le. apply _. Defined.

Lemma ascii_compare_spec (a b : ascii) :
  CompareSpec (a = b) (N_of_ascii a < N_of_ascii b)%N
              (N_of_ascii b < N_of_ascii a)%N (Ascii.compare a b).
Proof.
  unfold Ascii.compare. destruct (N.compare_spec (N_of_ascii a) (N_of_ascii b)) as [H|H|H];
    constructor; try done.
  by rewrite <-(ascii_N_embedding a), <-(ascii_N_embedding b), H.
Qed.

Lemma str_le_alt s1 s2 : str_le s1 s2 ↔ String.compare s1 s2 ≠ Gt.
Proof. unfold str_le, String.leb. by destruct (String.compare s1 s2). Qed.

Lemma str_compare_refl s : String.compare s s = Eq.
Proof.
  induction s as [|a s IH]; simpl; [done|].
  destruct (ascii_compare_spec a a); [done|lia..].
Qed.

Lemma str_compare_trans s1 s2 s3 :
  String.compare s1 s2 ≠ Gt → String.compare s2 s3 ≠ Gt → String.compare s1 s3 ≠ Gt.
Proof.
  revert s2 s3. induction s1 as [|a s1 IH]; intros [|b s2] [|c s3]; simpl; try done.
  destruct (ascii_compare_spec a b), (ascii_compare_spec b c),
    (ascii_compare_spec a c); subst; try done; try lia; eauto.
Qed.

#[export] Instance str_le_refl : Reflexive str_le.
Proof. intros s. apply str_le_alt. by rewrite str_compare_refl. Qed.
#[export] Instance str_le_trans : Transitive str_le.
Proof. intros s1 s2 s3. rewrite !str_le_alt. apply str_compare_trans. Qed.
#[export] Instance str_le_antisym : AntiSymm (=) str_le.
Proof. intros s1 s2. apply String.leb_antisym. Qed.
#[export] Instance str_le_total : Total str_le.
Proof. intros s1 s2. apply String.leb_total. Qed.

(** ** Sorting

    The contract of Python's [sorted] on a list of strings. *)
Class Sorter (sort : list string → list string) : Prop := {
  sorter_sorted l : Sorted str_le (sort l);
  sorter_perm l : sort l ≡ₚ l
}.

(** The model of [sorted]: a merge sort by [str_le]. *)
Definition sorted (l : list string) : list string := merge_sort str_le l.

(** The reference: insertion into an ordered list, one element at a
    time. *)
Fixpoint insert_sorted (x : string) (l : list string) : list string :=
  match l with
  | [] => [x]
  | y :: l' =>
      if decide (str_le x y) then x :: l else y :: insert_sorted x l'
  end.

Definition insertion_sort (l : list string) : list string :=
  foldr insert_sorted [] l.

#[export] Instance sorted_sorter : Sorter sorted.
Proof.
  split; intros l.
  - apply Sorted_merge_sort; apply _.
  - apply merge_sort_Permutation.
Qed.

Section sorter.
Context (sort : list string → list string) `{!Sorter sort}.

Lemma sorter_unique sort' `{!Sorter sort'} l : sort l = sort' l.
Proof.
  apply (Sorted_unique str_le); try apply sorter_sorted.
  by rewrite !sorter_perm.
Qed.

Lemma sorter_elem_of l x : x ∈ sort l ↔ x ∈ l.
Proof. by rewrite sorter_perm. Qed.

Lemma sorter_length l : length (sort l) = length l.
Proof. by rewrite sorter_perm. Qed.

Lemma sorter_NoDup l : NoDup (sort l) ↔ NoDup l.
Proof. by rewrite sorter_perm. Qed.

Lemma sorter_idempotent l : sort (sort l) = sort l.
Proof.
  apply (Sorted_unique str_le); try apply sorter_sorted. apply sorter_perm.
Qed.

Lemma sorter_sorted_id l : Sorted str_le l → sort l = l.
Proof.
  intros Hl. apply (Sorted_unique str_le); [apply sorter_sorted|done|apply sorter_perm].
Qed.
End sorter.

(** ** The reference sort *)

Lemma insert_sorted_perm x l : insert_sorted x l ≡ₚ x :: l.
Proof.
  induction l as [|y l IH]; simpl; [done|]. case_decide; [done|].
  by rewrite IH, Permutation_swap.
Qed.

Lemma insert_sorted_Sorted x l :
  Sorted str_le l → Sorted str_le (insert_sorted x l).
Proof.
  induction 1 as [|y l Hl IH Hy]; simpl; [by repeat constructor|].
  case_decide as Hxy; [by repeat constructor|].
  constructor; [done|].
  assert (str_le y x) as Hyx by (by destruct (total str_le x y)).
  destruct Hy as [|z l Hyz]; simpl; [by constructor|].
  case_decide; by constructor.
Qed.

#[export] Instance insertion_sort_sorter : Sorter insertion_sort.
Proof.
  split; intros l; induction l as [|x l IH]; simpl; [constructor| |done|].
  - by apply insert_sorted_Sorted.
  - by rewrite insert_sorted_perm, IH.
Qed.

(** [sorted] returns its argument rearranged in the order of
    Python's string comparison, and it returns what sorting by insertion
    returns: the merge sort of the model and the reference agree on every
    list. *)
Theorem sorted_spec (l : list string) :
  Sorted str_le (sorted l) ∧ sorted l ≡ₚ l ∧ sorted l = insertion_sort l.
Proof.
  split_and!; [apply (sorter_sorted l)|apply (sorter_perm l)|].
  apply (sorter_unique sorted insertion_sort).
Qed.
