(* ===== verification/Frame.v ===== *)
(** * Frame: the pandas DataFrame operations the script uses

    A [frame A] is a labelled table: row labels ([index]), column labels
    ([columns]) and the cells, row by row ([values]); a cell is [option A],
    [None] being [NaN].  [frame_wf] says the cells form a rectangle that
    matches the labels.  Labels are not assumed unique, because pandas does
    not require it and the script does not check it; the operations below
    do on duplicates what pandas does.

    Each operation is the translation of one pandas call of
    [src/part1_script.py]:
    - [dropna_columns]: [df.dropna(axis=1, how='all')] (line 107);
    - [dropna_rows]: [df.dropna(subset=..., how='all')] (line 111);
    - [rename_columns]: assignment to [df.columns] (line 114);
    - [round_frame]: [df.round(1)] (line 117);
    - [transpose]: [df.T] (line 120);
    - [select_columns]: [df[list_of_labels]] (lines 152, 160);
    - [mean_rows]: [mean(axis=1)] (line 152);
    - [setitem_column]: [df[label] = series] (line 152);
    - [set_index_name], [rename_axis_columns]: the axis names (lines
      121-122), which plotly reads for the axis and legend titles;
    - [head]: [df.head()] (lines 82, 128).

    [map_frame g] applies [g] to every value of a table.  The operations
    that do not compute with the values commute with it
    ([map_frame_dropna_columns], ..., [map_frame_select_columns]): what
    they do to a table of rationals they do to the table of the binary64
    numbers that stand for them. *)

From Stdlib Require Import QArith.
From stdpp Require Import base tactics option list strings.
From S2P Require Import Prelude Numeric.
Local Close Scope Q_scope.

(** ** Data *)

Record frame (A : Type) : Type := Frame {
  index : list string;
  columns : list string;
  values : list (list (option A));
  index_name : option string;
  columns_name : option string
}.
Arguments Frame {A} _ _ _ _ _.
Arguments index {A} _.
Arguments columns {A} _.
Arguments values {A} _.
Arguments index_name {A} _.
Arguments columns_name {A} _.

(** The table [f] with other labels and cells; the names of its two axes
    stay. *)
Definition reframe {A B} (f : frame A) (idx cols : list string)
    (vals : list (list (option B))) : frame B :=
  Frame idx cols vals (index_name f) (columns_name f).

#[export] Instance frame_eq_dec `{EqDecision A} : EqDecision (frame A).
Proof. solve_decision. Defined.

(** A pandas Series: labelled cells. *)
Record series (A : Type) : Type := Series {
  s_index : list string;
  s_values : list (option A)
}.
Arguments Series {A} _ _.
Arguments s_index {A} _.
Arguments s_values {A} _.

Section frame.
Context {A : Type}.
Implicit Types (f : frame A) (row : list (option A)) (keys labels : list string).

(** The cells are [length index] rows of [length columns] cells each. *)
Definition frame_wf (f : frame A) : Prop :=
  length (values f) = length (index f)
  ∧ rect (length (columns f)) (values f).

#[global] Instance frame_wf_dec f : Decision (frame_wf f).
Proof. unfold frame_wf. apply _. Defined.

(** [df.shape]: (number of rows, number of columns). *)
Definition shape (f : frame A) : nat * nat :=
  (length (index f), length (columns f)).

(** [df.iloc[i, j]]: the cell at row [i], column [j], by position. *)
Definition iloc (f : frame A) (i j : nat) : option (option A) :=
  values f !! i ≫= (.!! j).

(** The columns of the table, each as the list of its cells. *)
Definition column_values (f : frame A) : list (list (option A)) :=
  transpose_mat (length (columns f)) (values f).

(** ** Dropping empty columns and rows *)

(** Every cell of the row (or column) is [NaN]. *)
Definition all_null (row : list (option A)) : Prop :=
  Forall (λ c, c = None) row.

#[global] Instance all_null_dec row : Decision (all_null row).
Proof. unfold all_null. apply _. Defined.

(** For each column, whether some cell of it is present
    ([notna(df).any(axis=0)]). *)
Definition notna_any_columns (f : frame A) : list bool :=
  existsb notna <$> column_values f.

(** [df.dropna(axis=1, how='all')]: the columns with at least one
    present cell, in their order. *)
Definition dropna_columns (f : frame A) : frame A :=
  let keep := notna_any_columns f in
  reframe f (index f) (compress keep (columns f)) (compress keep <$> values f).

(** All positions of label [k] in [labels], increasing. *)
Definition positions (k : string) (labels : list string) : list nat :=
  (filter (λ ix, ix.2 = k) (imap pair labels)).*1.

(** [Index.get_indexer_for(keys)] followed by the check for absent keys:
    for each key in turn every position that carries it, or [KeyError]
    with the keys found nowhere. *)
Definition get_indexer_strict (keys labels : list string) : exn + list nat :=
  let missing := filter (.∉ labels) keys in
  if decide (missing = []) then inr (keys ≫= λ k, positions k labels)
  else inl (KeyError missing).

(** The elements of [l] at positions [ixs], in the order of [ixs]. *)
Definition gather {B} (ixs : list nat) (l : list B) : list B :=
  omap (l !!.) ixs.

(** [df.take(ixs, axis=1)]: the columns at positions [ixs]. *)
Definition take_columns (ixs : list nat) (f : frame A) : frame A :=
  reframe f (index f) (gather ixs (columns f)) (gather ixs <$> values f).

(** [df.dropna(subset=subset, how='all')]: the rows with at least one
    present cell among the columns named by [subset]; [KeyError] when a
    name of [subset] is no column. *)
Definition dropna_rows (subset : list string) (f : frame A) : exn + frame A :=
  match get_indexer_strict subset (columns f) with
  | inl e => inl e
  | inr ixs =>
      let keep := existsb notna <$> values (take_columns ixs f) in
      inr (reframe f (compress keep (index f)) (columns f)
                 (compress keep (values f)))
  end.

(** The rows with at least one present cell: what [dropna_rows] computes
    when the subset is every column. *)
Definition dropna_rows_all (f : frame A) : frame A :=
  let keep := existsb notna <$> values f in
  reframe f (compress keep (index f)) (columns f) (compress keep (values f)).

(** ** Relabelling, transposing, selecting *)

(** [df.columns = g(df.columns)]. *)
Definition rename_columns (g : string → string) (f : frame A) : frame A :=
  reframe f (index f) (g <$> columns f) (values f).

(** [df.T]: rows become columns, and the axis names go with them. *)
Definition transpose (f : frame A) : frame A :=
  Frame (columns f) (index f) (column_values f)
        (columns_name f) (index_name f).

(** [df[keys]] for a list of labels: for each key in turn, every column
    that carries it. *)
Definition select_columns (keys : list string) (f : frame A) : exn + frame A :=
  match get_indexer_strict keys (columns f) with
  | inl e => inl e
  | inr ixs => inr (take_columns ixs f)
  end.

(** [df.head(n)]: the first [n] rows. *)
Definition head (n : nat) (f : frame A) : frame A :=
  reframe f (take n (index f)) (columns f) (take n (values f)).

(** [df.index.names = [name]]. *)
Definition set_index_name (name : option string) (f : frame A) : frame A :=
  Frame (index f) (columns f) (values f) name (columns_name f).

(** [df.rename_axis(columns=name)]. *)
Definition rename_axis_columns (name : option string) (f : frame A) :
    frame A :=
  Frame (index f) (columns f) (values f) (index_name f) name.

(** ** Assigning a column *)

(** The cell of series [s] labelled [k] (the first, should there be more
    than one), [NaN] when there is none. *)
Definition series_get (s : series A) (k : string) : option A :=
  default None (list_index k (s_index s) ≫= (s_values s !!.)).

(** The cells of [s] laid out along [idx], as pandas aligns a Series that
    is assigned to a column: as they are when [s] is labelled exactly like
    the frame; otherwise looked up label by label, which fails when [s] has
    duplicate labels. *)
Definition reindex_for_setitem (s : series A) (idx : list string) :
    exn + list (option A) :=
  if decide (s_index s = idx) then inr (s_values s)
  else if decide (NoDup (s_index s)) then inr (series_get s <$> idx)
  else inl (ValueError "cannot reindex on an axis with duplicate labels").

(** Put [vals] in every column labelled [label], or append a column
    [label] when there is none. *)
Definition set_column (label : string) (vals : list (option A))
    (f : frame A) : frame A :=
  if decide (label ∈ columns f) then
    reframe f (index f) (columns f)
      (zip_with (λ v row,
         zip_with (λ c old, if decide (c = label) then v else old)
                  (columns f) row) vals (values f))
  else
    reframe f (index f) (columns f ++ [label])
      (zip_with (λ v row, row ++ [v]) vals (values f)).

(** [df[label] = s]. *)
Definition setitem_column (label : string) (s : series A) (f : frame A) :
    exn + frame A :=
  match reindex_for_setitem s (index f) with
  | inl e => inl e
  | inr vals => inr (set_column label vals f)
  end.

End frame.

(** ** Numeric operations *)

(** The table with [g] applied to every value. *)
Definition map_frame {A B} (g : A → B) (f : frame A) : frame B :=
  reframe f (index f) (columns f)
    (fmap (M:=list) (fmap (M:=option) g) <$> values f).

(** [df.round(decimals)]. *)
Definition round_frame (decimals : nat) (f : frame Q) : frame Q :=
  reframe f (index f) (columns f) (fmap (M:=list) (cell_round decimals) <$> values f).

(** [df.mean(axis=1)]: for each row the mean of its present cells. *)
Definition mean_rows (f : frame Q) : series Q :=
  Series (index f) (nanmean <$> values f).

(** ** Positions, gathering and the strict indexer *)

Section gather.
Context {B : Type}.
Implicit Types (l : list B) (ixs : list nat) (labels keys : list string).

Lemma elem_of_positions k labels i : i ∈ positions k labels ↔ labels !! i = Some k.
Proof.
  unfold positions. rewrite list_elem_of_fmap. split.
  - intros ([j x] & -> & [Hx Hin]%list_elem_of_filter). simpl in *. subst x.
    apply elem_of_lookup_imap in Hin as (j' & y & ? & ?). by simplify_eq.
  - intros Hi. exists (i, k). split; [done|].
    apply list_elem_of_filter. split; [done|].
    apply elem_of_lookup_imap. eauto.
Qed.

Lemma positions_nil_iff k labels : positions k labels = [] ↔ k ∉ labels.
Proof.
  split.
  - intros Hnil (i & Hi)%list_elem_of_lookup.
    apply elem_of_positions in Hi. rewrite Hnil in Hi. by apply elem_of_nil in Hi.
  - intros Hk. apply elem_of_nil_inv. intros i Hi%elem_of_positions.
    apply Hk. by eapply list_elem_of_lookup_2.
Qed.

Lemma elem_of_gather ixs l x : x ∈ gather ixs l ↔ ∃ i, i ∈ ixs ∧ l !! i = Some x.
Proof. unfold gather. apply list_elem_of_omap. Qed.

Lemma length_gather ixs l :
  Forall (λ i, i < length l) ixs → length (gather ixs l) = length ixs.
Proof.
  unfold gather. induction 1 as [|i ixs Hi _ IH]; simpl; [done|].
  destruct (lookup_lt_is_Some_2 l i Hi) as [x ->]. simpl. by f_equal.
Qed.

Lemma gather_fmap {C} (g : B → C) ixs l : gather ixs (g <$> l) = g <$> gather ixs l.
Proof.
  unfold gather. induction ixs as [|i ixs IH]; simpl; [done|].
  rewrite list_lookup_fmap. destruct (l !! i); simpl; by f_equal.
Qed.

Lemma missing_nil keys labels : filter (.∉ labels) keys = [] ↔ keys ⊆ labels.
Proof.
  split.
  - intros Hm k Hk. destruct (decide (k ∈ labels)) as [|Hn]; [done|].
    assert (k ∈ filter (.∉ labels) keys) as Hin by by apply list_elem_of_filter.
    rewrite Hm in Hin. by apply elem_of_nil in Hin.
  - intros Hsub. apply elem_of_nil_inv.
    intros k [Hk Hin]%list_elem_of_filter. by apply Hk, Hsub.
Qed.

Lemma get_indexer_strict_inr keys labels ixs :
  get_indexer_strict keys labels = inr ixs ↔
  keys ⊆ labels ∧ ixs = keys ≫= λ k, positions k labels.
Proof.
  unfold get_indexer_strict. case_decide as Hm; rewrite missing_nil in Hm.
  - split; [by intros [= <-]|by intros [_ ->]].
  - split; [done|by intros [? _]].
Qed.

Lemma get_indexer_strict_inl keys labels e :
  get_indexer_strict keys labels = inl e ↔
  ¬ keys ⊆ labels ∧ e = KeyError (filter (.∉ labels) keys).
Proof.
  unfold get_indexer_strict. case_decide as Hm; rewrite missing_nil in Hm.
  - split; [done|by intros [? _]].
  - split; [by intros [= <-]|by intros [_ ->]].
Qed.

Lemma get_indexer_strict_lt keys labels ixs :
  get_indexer_strict keys labels = inr ixs →
  Forall (λ i, i < length labels) ixs.
Proof.
  intros [_ ->]%get_indexer_strict_inr. apply Forall_forall.
  intros i (k & Hi%elem_of_positions & _)%list_elem_of_bind.
  by eapply lookup_lt_Some.
Qed.

(** Selecting every label of an index visits every position. *)
Lemma get_indexer_strict_self labels :
  ∃ ixs, get_indexer_strict labels labels = inr ixs
         ∧ ∀ i, i ∈ ixs ↔ i < length labels.
Proof.
  eexists. split; [by apply get_indexer_strict_inr|].
  intros i. rewrite list_elem_of_bind. split.
  - intros (k & Hi%elem_of_positions & _). by eapply lookup_lt_Some.
  - intros [k Hk]%lookup_lt_is_Some_2. exists k.
    split; [by apply elem_of_positions|by eapply list_elem_of_lookup_2].
Qed.

Lemma existsb_gather_all (p : B → bool) ixs l :
  (∀ i, i ∈ ixs ↔ i < length l) → existsb p (gather ixs l) = existsb p l.
Proof.
  intros Hixs. apply eq_true_iff_eq. rewrite !existsb_exists.
  setoid_rewrite <-list_elem_of_In. setoid_rewrite elem_of_gather. split.
  - intros (x & (i & _ & Hi) & ?). exists x.
    split; [by eapply list_elem_of_lookup_2|done].
  - intros (x & [i Hi]%list_elem_of_lookup & ?). exists x. split; [|done].
    exists i. split; [|done]. by eapply Hixs, lookup_lt_Some.
Qed.
End gather.

(** ** Well-formedness, shapes and transposition *)

Section frame_facts.
Context {A : Type}.
Implicit Types (f : frame A) (row : list (option A)) (keys labels : list string).

Lemma frame_wf_rows f : frame_wf f → length (values f) = length (index f).
Proof. by intros [? _]. Qed.

Lemma frame_wf_rect f : frame_wf f → rect (length (columns f)) (values f).
Proof. by intros [_ ?]. Qed.

Lemma length_column_values f :
  frame_wf f → length (column_values f) = length (columns f).
Proof. intros [_ ?]. by apply length_transpose_mat. Qed.

Lemma length_notna_any_columns f :
  frame_wf f → length (notna_any_columns f) = length (columns f).
Proof. intros. unfold notna_any_columns. by rewrite length_fmap, length_column_values. Qed.

(** *** Well-formedness is preserved *)

Lemma transpose_wf f : frame_wf f → frame_wf (transpose f).
Proof.
  intros [Hrows Hrect]. split; simpl.
  - by apply length_transpose_mat.
  - unfold column_values. rewrite <-Hrows. apply rect_transpose_mat.
Qed.

Lemma rect_fmap_compress n m (rows : list (list (option A))) :
  length m = n → rect n rows → rect (count_true m) (compress m <$> rows).
Proof.
  intros Hm Hrect. unfold rect in *. rewrite Forall_fmap.
  eapply Forall_impl; [done|]. intros row Hrow. simpl.
  apply length_compress. congruence.
Qed.

Lemma dropna_columns_wf f : frame_wf f → frame_wf (dropna_columns f).
Proof.
  intros Hwf. pose proof (length_notna_any_columns f Hwf) as Hm.
  destruct Hwf as [Hrows Hrect]. split; simpl.
  - by rewrite length_fmap.
  - rewrite length_compress by done. by eapply rect_fmap_compress.
Qed.

Lemma dropna_rows_all_wf f : frame_wf f → frame_wf (dropna_rows_all f).
Proof.
  intros [Hrows Hrect]. split; simpl.
  - rewrite !length_compress; [done|by rewrite length_fmap..].
  - by apply rect_compress.
Qed.

Lemma rename_columns_wf g f : frame_wf f → frame_wf (rename_columns g f).
Proof. intros [??]. split; simpl; [done|by rewrite length_fmap]. Qed.

Lemma set_index_name_wf name f : frame_wf f → frame_wf (set_index_name name f).
Proof. by intros [??]. Qed.

Lemma rename_axis_columns_wf name f :
  frame_wf f → frame_wf (rename_axis_columns name f).
Proof. by intros [??]. Qed.

Lemma head_wf n f : frame_wf f → frame_wf (head n f).
Proof.
  intros [Hrows Hrect]. split; simpl.
  - rewrite !length_take. lia.
  - by apply Forall_take.
Qed.

Lemma take_columns_wf ixs f :
  frame_wf f → Forall (λ i, i < length (columns f)) ixs →
  frame_wf (take_columns ixs f).
Proof.
  intros [Hrows Hrect] Hixs. split; simpl.
  - by rewrite length_fmap.
  - rewrite length_gather by done. unfold rect in *. rewrite Forall_fmap.
    eapply Forall_impl; [done|]. intros row Hrow. simpl.
    apply length_gather. by rewrite Hrow.
Qed.

Lemma select_columns_wf keys f g :
  frame_wf f → select_columns keys f = inr g → frame_wf g.
Proof.
  unfold select_columns. intros Hwf Hsel.
  destruct (get_indexer_strict keys (columns f)) as [|ixs] eqn:Hix; simplify_eq.
  apply take_columns_wf; [done|by eapply get_indexer_strict_lt].
Qed.

Lemma rect_zip_with {B} (g : B → list (option A) → list (option A)) k n vals
    (rows : list (list (option A))) :
  (∀ v row, length row = k → length (g v row) = n) →
  rect k rows → rect n (zip_with g vals rows).
Proof.
  intros Hg Hrect. revert vals.
  induction Hrect as [|row rows Hrow _ IH]; intros [|v vals]; simpl;
    try apply rect_nil.
  apply rect_cons. auto.
Qed.

Lemma set_column_wf label vals f :
  frame_wf f → length vals = length (index f) →
  frame_wf (set_column label vals f).
Proof.
  intros [Hrows Hrect] Hvals. unfold set_column. case_decide; split; simpl;
    try (rewrite length_zip_with; lia).
  - eapply rect_zip_with; [|done]. intros v row Hrow. simpl.
    rewrite length_zip_with. lia.
  - eapply rect_zip_with; [|done]. intros v row Hrow. simpl.
    rewrite !length_app. simpl. lia.
Qed.

Lemma length_reindex_for_setitem (s : series A) idx vals :
  length (s_values s) = length (s_index s) →
  reindex_for_setitem s idx = inr vals → length vals = length idx.
Proof.
  unfold reindex_for_setitem. intros Hs Hre.
  repeat case_decide; simplify_eq; [congruence|by rewrite length_fmap].
Qed.

Lemma setitem_column_wf label (s : series A) f g :
  frame_wf f → length (s_values s) = length (s_index s) →
  setitem_column label s f = inr g → frame_wf g.
Proof.
  unfold setitem_column. intros Hwf Hs Hset.
  destruct (reindex_for_setitem s (index f)) as [|vals] eqn:Hre; simplify_eq.
  apply set_column_wf; [done|by eapply length_reindex_for_setitem].
Qed.

(** *** Shapes *)

Lemma shape_transpose f : shape (transpose f) = (length (columns f), length (index f)).
Proof. done. Qed.

(** *** Transposition *)

Lemma transpose_involutive f : frame_wf f → transpose (transpose f) = f.
Proof.
  intros [Hrows Hrect]. destruct f as [idx cols vals iname cname].
  unfold transpose, column_values.
  simpl in *. f_equal. rewrite <-Hrows. by apply transpose_mat_involutive.
Qed.

Lemma iloc_transpose f i j :
  frame_wf f → j < length (columns f) → iloc (transpose f) j i = iloc f i j.
Proof. intros [_ Hrect] Hj. by apply lookup_transpose_mat. Qed.

(** *** Dropping rows and columns *)

Lemma dropna_rows_self f : frame_wf f → dropna_rows (columns f) f = inr (dropna_rows_all f).
Proof.
  intros [Hrows Hrect]. unfold dropna_rows, dropna_rows_all.
  destruct (get_indexer_strict_self (columns f)) as (ixs & -> & Hixs).
  do 3 f_equal; simpl; rewrite <-list_fmap_compose; apply Forall_fmap_ext_1;
    (eapply Forall_impl; [done|]); intros row Hrow; simpl;
    apply existsb_gather_all; by rewrite Hrow.
Qed.

Lemma dropna_columns_transpose f :
  frame_wf f → dropna_columns f = transpose (dropna_rows_all (transpose f)).
Proof.
  intros Hwf. pose proof (length_notna_any_columns f Hwf) as Hm.
  destruct Hwf as [Hrows Hrect].
  unfold dropna_columns, transpose, dropna_rows_all, notna_any_columns in *.
  simpl. f_equal. unfold column_values. simpl.
  rewrite <-Hrows, transpose_mat_compress_rows;
    [|by rewrite length_fmap|apply rect_transpose_mat].
  by rewrite transpose_mat_involutive.
Qed.

(** *** Which rows and columns are dropped *)

Lemma all_null_cons c row : all_null (c :: row) ↔ c = None ∧ all_null row.
Proof. unfold all_null. by rewrite Forall_cons. Qed.

Lemma existsb_notna row : existsb notna row = true ↔ ¬ all_null row.
Proof.
  induction row as [|[v|] row IH]; simpl; rewrite ?all_null_cons.
  - split; [done|]. intros []. constructor.
  - split; [by intros _ [? _]|done].
  - rewrite IH. split; [by intros ? [_ ?]|by intros Hn ?; apply Hn].
Qed.

Lemma existsb_notna_false row : existsb notna row = false ↔ all_null row.
Proof.
  rewrite <-not_true_iff_false, existsb_notna.
  destruct (decide (all_null row)); tauto.
Qed.

(** The rows that survive are exactly the rows with a present cell, in
    their order. *)
Lemma values_dropna_rows_all f :
  values (dropna_rows_all f) = filter (λ row, ¬ all_null row) (values f).
Proof.
  simpl. rewrite compress_fmap_filter. apply list_filter_iff.
  intros row. by rewrite Is_true_true, existsb_notna.
Qed.

Lemma index_dropna_rows_all f :
  frame_wf f →
  index (dropna_rows_all f)
  = (filter (λ ir, ¬ all_null ir.2) (zip (index f) (values f))).*1.
Proof.
  intros [Hrows _]. simpl. rewrite compress_fmap_zip by done. f_equal.
  apply list_filter_iff. intros [i row]. simpl.
  by rewrite Is_true_true, existsb_notna.
Qed.

Lemma dropna_rows_all_clean f :
  Forall (λ row, ¬ all_null row) (values (dropna_rows_all f)).
Proof. rewrite values_dropna_rows_all. apply Forall_forall. by intros row [? _]%list_elem_of_filter. Qed.

Lemma dropna_rows_all_noop f :
  frame_wf f → Forall (λ row, ¬ all_null row) (values f) → dropna_rows_all f = f.
Proof.
  intros [Hrows _] Hclean. destruct f as [idx cols vals iname cname].
  unfold dropna_rows_all, reframe. simpl in *.
  assert (Forall (eq true) (existsb notna <$> vals)) as Hall.
  { rewrite Forall_fmap. eapply Forall_impl; [done|]. intros row Hrow. simpl.
    symmetry. by apply existsb_notna. }
  f_equal; apply compress_all_true; rewrite ?length_fmap; done.
Qed.

Lemma dropna_rows_all_idempotent f :
  frame_wf f → dropna_rows_all (dropna_rows_all f) = dropna_rows_all f.
Proof.
  intros Hwf. apply dropna_rows_all_noop; [by apply dropna_rows_all_wf|].
  apply dropna_rows_all_clean.
Qed.

Lemma not_all_null row : ¬ all_null row ↔ ∃ i v, row !! i = Some (Some v).
Proof.
  rewrite <-existsb_notna, existsb_exists. setoid_rewrite <-list_elem_of_In.
  setoid_rewrite notna_Some. split.
  - intros (c & [i Hi]%list_elem_of_lookup & [v ->]). eauto.
  - intros (i & v & Hi). exists (Some v).
    split; [by eapply list_elem_of_lookup_2|by eexists].
Qed.

Lemma not_all_null_elem row v : Some v ∈ row → ¬ all_null row.
Proof. intros [i Hi]%list_elem_of_lookup. apply not_all_null. eauto. Qed.

Lemma column_values_transpose f : frame_wf f → column_values (transpose f) = values f.
Proof.
  intros [Hrows Hrect]. unfold column_values. simpl. rewrite <-Hrows.
  by apply transpose_mat_involutive.
Qed.

(** The columns that survive are exactly the columns with a present
    cell, in their order. *)
Lemma column_values_dropna_columns f :
  frame_wf f →
  column_values (dropna_columns f)
  = filter (λ col, ¬ all_null col) (column_values f).
Proof.
  intros Hwf. rewrite dropna_columns_transpose by done.
  rewrite column_values_transpose by by apply dropna_rows_all_wf, transpose_wf.
  apply values_dropna_rows_all.
Qed.

Lemma columns_dropna_columns f :
  frame_wf f →
  columns (dropna_columns f)
  = (filter (λ kc, ¬ all_null kc.2) (zip (columns f) (column_values f))).*1.
Proof.
  intros Hwf. rewrite dropna_columns_transpose by done.
  apply (index_dropna_rows_all (transpose f)). by apply transpose_wf.
Qed.

Lemma dropna_columns_clean f :
  frame_wf f →
  Forall (λ col, ¬ all_null col) (column_values (dropna_columns f)).
Proof.
  intros Hwf. rewrite column_values_dropna_columns by done.
  apply Forall_forall. by intros col [? _]%list_elem_of_filter.
Qed.

Lemma dropna_columns_noop f :
  frame_wf f → Forall (λ col, ¬ all_null col) (column_values f) →
  dropna_columns f = f.
Proof.
  intros Hwf Hclean. rewrite dropna_columns_transpose by done.
  rewrite dropna_rows_all_noop; auto using transpose_involutive, transpose_wf.
Qed.

(** Dropping the empty rows cannot empty a column: a column that has a
    present cell has it in a row that is kept. *)
Lemma dropna_rows_all_keeps_columns_clean f :
  frame_wf f → Forall (λ col, ¬ all_null col) (column_values f) →
  Forall (λ col, ¬ all_null col) (column_values (dropna_rows_all f)).
Proof.
  intros [Hrows Hrect] Hclean. unfold column_values. simpl.
  rewrite transpose_mat_compress_rows by (by rewrite ?length_fmap).
  rewrite Forall_fmap. apply Forall_lookup. intros j col Hj. simpl.
  apply (Forall_lookup_1 _ _ _ _ Hclean) in Hj as Hcol.
  apply not_all_null in Hcol as (i & v & Hi).
  assert (j < length (columns f)) as Hlt.
  { apply lookup_lt_Some in Hj. unfold column_values in Hj.
    by rewrite length_transpose_mat in Hj. }
  pose proof (lookup_transpose_mat _ (values f) i j Hrect Hlt) as Hcell.
  unfold column_values in Hj. rewrite Hj in Hcell. simpl in Hcell.
  rewrite Hi in Hcell.
  destruct (values f !! i) as [row|] eqn:Hrow; simplify_eq/=.
  apply (not_all_null_elem _ v), compress_lookup. exists i. split; [|done].
  rewrite list_lookup_fmap, Hrow. simpl. f_equal.
  apply existsb_notna, not_all_null. eauto.
Qed.

End frame_facts.

(** ** The two drops do not interfere *)

Section commute.
Context {A : Type}.
Implicit Types (f : frame A) (row : list (option A)).

Lemma existsb_notna_iff row row' :
  (all_null row ↔ all_null row') → existsb notna row = existsb notna row'.
Proof.
  intros Hiff. apply eq_true_iff_eq. rewrite !existsb_notna. by rewrite Hiff.
Qed.

(** A row is empty on the columns that are kept exactly when it is
    empty: the columns that go hold nothing. *)
Lemma all_null_compress_columns f row :
  frame_wf f → row ∈ values f →
  all_null (compress (notna_any_columns f) row) ↔ all_null row.
Proof.
  intros Hwf [i Hi]%list_elem_of_lookup. destruct Hwf as [Hrows Hrect]. split.
  - intros Hnull. apply Forall_lookup. intros j c Hj.
    destruct c as [v|]; [|done]. exfalso.
    assert (j < length (columns f)) as Hlt.
    { rewrite <-(rect_lookup _ _ _ _ Hrect Hi). by eapply lookup_lt_Some. }
    pose proof (lookup_transpose_mat _ (values f) i j Hrect Hlt) as Hcell.
    rewrite Hi in Hcell. simpl in Hcell. rewrite Hj in Hcell.
    destruct (transpose_mat _ (values f) !! j) as [col|] eqn:Hcol; simplify_eq/=.
    assert (Some v ∈ compress (notna_any_columns f) row) as Hin.
    { apply compress_lookup. exists j. split; [|done].
      unfold notna_any_columns, column_values.
      rewrite list_lookup_fmap, Hcol. simpl. f_equal.
      apply existsb_notna, not_all_null. eauto. }
    by eapply not_all_null_elem.
  - apply Forall_compress.
Qed.

(** Dropping the empty columns does not change which rows are empty. *)
Lemma notna_any_rows_dropna_columns f :
  frame_wf f →
  existsb notna <$> values (dropna_columns f) = existsb notna <$> values f.
Proof.
  intros Hwf. simpl. rewrite <-list_fmap_compose.
  apply Forall_fmap_ext_1, Forall_forall. intros row Hrow. simpl.
  by apply existsb_notna_iff, all_null_compress_columns.
Qed.

Lemma dropna_rows_all_transpose f :
  frame_wf f → dropna_rows_all f = transpose (dropna_columns (transpose f)).
Proof.
  intros Hwf. rewrite dropna_columns_transpose by by apply transpose_wf.
  rewrite (transpose_involutive f) by done.
  by rewrite transpose_involutive by by apply dropna_rows_all_wf.
Qed.

(** Nor does dropping the empty rows change which columns are empty. *)
Lemma notna_any_columns_dropna_rows_all f :
  frame_wf f →
  notna_any_columns (dropna_rows_all f) = notna_any_columns f.
Proof.
  intros Hwf. rewrite dropna_rows_all_transpose by done.
  unfold notna_any_columns at 1.
  rewrite column_values_transpose by by apply dropna_columns_wf, transpose_wf.
  by rewrite notna_any_rows_dropna_columns by by apply transpose_wf.
Qed.

(** The two drops commute: a row is empty on the kept columns exactly
    when it is empty. *)
Lemma dropna_rows_columns_commute f :
  frame_wf f →
  dropna_rows_all (dropna_columns f) = dropna_columns (dropna_rows_all f).
Proof.
  intros Hwf.
  pose proof (notna_any_rows_dropna_columns f Hwf) as Hr.
  pose proof (notna_any_columns_dropna_rows_all f Hwf) as Hc.
  set (g := dropna_columns f) in *. set (h := dropna_rows_all f) in *.
  unfold dropna_rows_all, dropna_columns. rewrite Hr, Hc.
  subst g h. unfold reframe. simpl. by rewrite compress_fmap.
Qed.
End commute.

(** ** The operations commute with a change of the values

    Dropping empty columns and rows, relabelling, transposing and
    selecting look at whether a cell has a value and never at the value. *)

Section natural.
Context {A B : Type} (g : A → B).
Implicit Types (f : frame A) (row : list (option A)).

Lemma existsb_notna_fmap row :
  existsb notna (fmap (M:=option) g <$> row) = existsb notna row.
Proof.
  induction row as [|c row IH]; [done|].
  rewrite fmap_cons. cbn [existsb]. by rewrite notna_fmap, IH.
Qed.

Lemma existsb_notna_map (rows : list (list (option A))) :
  existsb notna <$> (fmap (M:=list) (fmap (M:=option) g) <$> rows)
  = existsb notna <$> rows.
Proof.
  rewrite <-list_fmap_compose. apply list_fmap_ext.
  intros _ row _. apply existsb_notna_fmap.
Qed.

Lemma column_values_map_frame f :
  column_values (map_frame g f)
  = fmap (M:=list) (fmap (M:=option) g) <$> column_values f.
Proof. apply transpose_mat_fmap. Qed.

Lemma map_frame_dropna_columns f :
  dropna_columns (map_frame g f) = map_frame g (dropna_columns f).
Proof.
  unfold dropna_columns, notna_any_columns.
  rewrite column_values_map_frame, existsb_notna_map.
  unfold map_frame, reframe. cbn [index columns values index_name columns_name].
  f_equal. rewrite <-!list_fmap_compose. apply list_fmap_ext.
  intros _ row _. cbn. apply compress_fmap.
Qed.

Lemma map_frame_dropna_rows_all f :
  dropna_rows_all (map_frame g f) = map_frame g (dropna_rows_all f).
Proof.
  unfold dropna_rows_all, map_frame, reframe.
  cbn [index columns values index_name columns_name].
  by rewrite existsb_notna_map, compress_fmap.
Qed.

Lemma map_frame_rename_columns h f :
  rename_columns h (map_frame g f) = map_frame g (rename_columns h f).
Proof. done. Qed.

Lemma map_frame_transpose f :
  transpose (map_frame g f) = map_frame g (transpose f).
Proof. unfold transpose. by rewrite column_values_map_frame. Qed.

Lemma map_frame_set_index_name name f :
  set_index_name name (map_frame g f) = map_frame g (set_index_name name f).
Proof. done. Qed.

Lemma map_frame_rename_axis_columns name f :
  rename_axis_columns name (map_frame g f)
  = map_frame g (rename_axis_columns name f).
Proof. done. Qed.

Lemma map_frame_take_columns ixs f :
  take_columns ixs (map_frame g f) = map_frame g (take_columns ixs f).
Proof.
  unfold take_columns, map_frame, reframe.
  cbn [index columns values index_name columns_name]. f_equal.
  rewrite <-!list_fmap_compose. apply list_fmap_ext.
  intros _ row _. cbn. apply gather_fmap.
Qed.

(** A selection fails or succeeds on the labels alone. *)
Lemma map_frame_select_columns keys f gb :
  select_columns keys (map_frame g f) = inr gb ↔
  ∃ f', select_columns keys f = inr f' ∧ gb = map_frame g f'.
Proof.
  unfold select_columns. cbn [map_frame reframe columns].
  destruct (get_indexer_strict keys (columns f)) as [e|ixs].
  - split; [done|]. by intros (? & ? & _).
  - rewrite map_frame_take_columns. split.
    + intros [= <-]. by eexists.
    + by intros (? & [= <-] & ->).
Qed.
End natural.

(** ** Rounding *)

Section round.
Implicit Types (f : frame Q) (row : list cell).

Lemma round_frame_wf d f : frame_wf f → frame_wf (round_frame d f).
Proof.
  intros [Hrows Hrect]. split; simpl; [by rewrite length_fmap|].
  by apply rect_fmap.
Qed.

Lemma notna_cell_round d (c : cell) : notna (cell_round d c) = notna c.
Proof. apply notna_fmap. Qed.

Lemma existsb_notna_round d row :
  existsb notna (cell_round d <$> row) = existsb notna row.
Proof. apply existsb_notna_fmap. Qed.

Lemma all_null_round d row : all_null (cell_round d <$> row) ↔ all_null row.
Proof.
  unfold all_null. rewrite Forall_fmap. apply Forall_iff. by intros [v|].
Qed.

Lemma column_values_round_frame d f :
  column_values (round_frame d f)
  = fmap (M:=list) (cell_round d) <$> column_values f.
Proof. apply transpose_mat_fmap. Qed.

Lemma round_frame_transpose d f :
  round_frame d (transpose f) = transpose (round_frame d f).
Proof. symmetry. apply (map_frame_transpose (round_dec d)). Qed.

Lemma round_frame_idempotent d f :
  round_frame d (round_frame d f) = round_frame d f.
Proof.
  unfold round_frame, reframe. simpl. f_equal.
  rewrite <-list_fmap_compose. apply list_fmap_ext. intros _ row _. simpl.
  rewrite <-list_fmap_compose. apply list_fmap_ext. intros _ [v|] _; simpl;
    [|done]. by rewrite round_dec_idempotent.
Qed.

Lemma round_frame_dropna_rows_all d f :
  round_frame d (dropna_rows_all f) = dropna_rows_all (round_frame d f).
Proof. symmetry. apply (map_frame_dropna_rows_all (round_dec d)). Qed.
End round.

#[export] Hint Resolve transpose_wf dropna_columns_wf dropna_rows_all_wf
  rename_columns_wf set_index_name_wf rename_axis_columns_wf head_wf
  round_frame_wf set_column_wf : frame.

(** ** Counting what is dropped *)

Lemma length_filter_not_all_null {A} (rows : list (list (option A))) :
  length (filter (λ r, ¬ all_null r) rows)
  = length rows - length (filter all_null rows).
Proof.
  pose proof (filter_app_complement all_null rows) as Hp.
  apply Permutation_length in Hp. rewrite length_app in Hp. lia.
Qed.

Lemma length_columns_dropna_columns {A} (f : frame A) :
  frame_wf f →
  length (columns (dropna_columns f))
  = length (columns f) - length (filter all_null (column_values f)).
Proof.
  intros Hwf.
  rewrite <-(length_column_values (dropna_columns f)) by auto with frame.
  rewrite column_values_dropna_columns, length_filter_not_all_null by done.
  by rewrite length_column_values.
Qed.

Lemma length_index_dropna_rows_all {A} (f : frame A) :
  frame_wf f →
  length (index (dropna_rows_all f))
  = length (index f) - length (filter all_null (values f)).
Proof.
  intros Hwf.
  rewrite <-(frame_wf_rows (dropna_rows_all f)) by auto with frame.
  rewrite values_dropna_rows_all, length_filter_not_all_null.
  by rewrite frame_wf_rows.
Qed.

Lemma column_values_rename_columns {A} g (f : frame A) :
  column_values (rename_columns g f) = column_values f.
Proof. unfold column_values. simpl. by rewrite length_fmap. Qed.

Lemma Forall_not_all_null_round d (rows : list (list cell)) :
  Forall (λ row, ¬ all_null row) rows →
  Forall (λ row, ¬ all_null row) (fmap (M:=list) (cell_round d) <$> rows).
Proof.
  rewrite Forall_fmap. intros Hrows. eapply Forall_impl; [done|].
  intros row Hrow. simpl. by rewrite all_null_round.
Qed.

Lemma round_frame_axis d n (f : frame Q) :
  round_frame d (rename_axis_columns n f) = rename_axis_columns n (round_frame d f).
Proof. done. Qed.

Lemma round_frame_index_name d n (f : frame Q) :
  round_frame d (set_index_name n f) = set_index_name n (round_frame d f).
Proof. done. Qed.

(** ** Selecting by label and assigning a column *)

Section select.
Context {A : Type}.
Implicit Types (f : frame A) (keys labels : list string).

Lemma fst_imap_pair {B} (l : list B) : (imap pair l).*1 = seq 0 (length l).
Proof.
  rewrite fmap_imap, <-(list_fmap_id (seq 0 (length l))).
  rewrite <-(imap_seq_0 l id). by apply imap_ext.
Qed.

Lemma NoDup_positions k labels : NoDup (positions k labels).
Proof.
  unfold positions. apply (sublist_NoDup _ (seq 0 (length labels)));
    [apply NoDup_seq|].
  rewrite <-fst_imap_pair. apply fmap_sublist, sublist_filter.
Qed.

(** Among distinct labels a label has one position. *)
Lemma positions_NoDup labels i k :
  NoDup labels → labels !! i = Some k → positions k labels = [i].
Proof.
  intros Hnd Hi. apply Permutation_singleton_r, NoDup_Permutation;
    [apply NoDup_positions|apply NoDup_singleton|].
  intros j. rewrite elem_of_positions, list_elem_of_singleton. split.
  - intros Hj. by eapply NoDup_lookup.
  - by intros ->.
Qed.

Lemma gather_app {B} ixs ixs' (l : list B) :
  gather (ixs ++ ixs') l = gather ixs l ++ gather ixs' l.
Proof. apply omap_app. Qed.

(** Gathering by distinct labels gives the labels asked for, in the
    order asked. *)
Lemma gather_positions_NoDup keys labels :
  NoDup labels → keys ⊆ labels →
  gather (keys ≫= λ k, positions k labels) labels = keys.
Proof.
  intros Hnd. induction keys as [|k keys IH]; intros Hsub; [done|].
  rewrite bind_cons, gather_app, IH by (intros x Hx; apply Hsub; by right).
  assert (k ∈ labels) as [i Hi]%list_elem_of_lookup by (apply Hsub; left).
  rewrite (positions_NoDup _ i) by done. unfold gather. simpl. by rewrite Hi.
Qed.

(** Under distinct labels each key asked for yields the one element
    that stands at the position of its label. *)
Lemma gather_positions_Forall2 {B} keys labels (row : list B) :
  NoDup labels → keys ⊆ labels → length row = length labels →
  Forall2 (λ k x, ∃ p, labels !! p = Some k ∧ row !! p = Some x)
          keys (gather (keys ≫= λ k, positions k labels) row).
Proof.
  intros Hnd Hsub Hlen. induction keys as [|k keys IH]; [constructor|].
  rewrite bind_cons, gather_app.
  assert (k ∈ labels) as [p Hp]%list_elem_of_lookup by (apply Hsub; left).
  destruct (lookup_lt_is_Some_2 row p) as [x Hx];
    [rewrite Hlen; by eapply lookup_lt_Some|].
  rewrite (positions_NoDup _ p) by done. unfold gather at 1. simpl.
  rewrite Hx. constructor; [by eauto|].
  apply IH. intros k' Hk'. apply Hsub. by right.
Qed.

Lemma gather_seq {B} n (l : list B) : gather (seq 0 n) l = take n l.
Proof.
  enough (∀ m, gather (seq m n) l = take n (drop m l)) as H by apply (H 0).
  unfold gather. induction n as [|n IH]; intros m; simpl; [done|].
  destruct (l !! m) as [x|] eqn:Hm.
  - rewrite (drop_S _ _ _ Hm). simpl. by rewrite IH.
  - apply lookup_ge_None in Hm. rewrite IH, !drop_ge by lia.
    by rewrite !take_nil.
Qed.

(** The positions of the first [n] of distinct labels are the first [n]
    positions. *)
Lemma positions_take labels n :
  NoDup labels → n ≤ length labels →
  take n labels ≫= (λ k, positions k labels) = seq 0 n.
Proof.
  intros Hnd. induction n as [|n IH]; intros Hn; [done|].
  destruct (lookup_lt_is_Some_2 labels n) as [k Hk]; [lia|].
  rewrite (take_S_r _ _ _ Hk), bind_app, IH, seq_S by lia. simpl.
  by rewrite (positions_NoDup _ n), app_nil_r.
Qed.

(** Naming every column as the subset of a row drop cannot miss. *)
Lemma dropna_rows_columns f : ∃ g, dropna_rows (columns f) f = inr g.
Proof.
  unfold dropna_rows.
  destruct (get_indexer_strict_self (columns f)) as (ixs & -> & _). eauto.
Qed.

Lemma select_columns_inr keys f :
  keys ⊆ columns f →
  select_columns keys f
  = inr (take_columns (keys ≫= λ k, positions k (columns f)) f).
Proof.
  intros Hsub. unfold select_columns.
  destruct (get_indexer_strict keys (columns f)) as [e|ixs] eqn:Hix.
  - apply get_indexer_strict_inl in Hix as [[] _]. done.
  - by apply get_indexer_strict_inr in Hix as [_ ->].
Qed.

Lemma select_columns_inl keys f :
  ¬ keys ⊆ columns f →
  select_columns keys f = inl (KeyError (filter (.∉ columns f) keys)).
Proof.
  intros Hsub. unfold select_columns.
  destruct (get_indexer_strict keys (columns f)) as [e|ixs] eqn:Hix.
  - by apply get_indexer_strict_inl in Hix as [_ ->].
  - by apply get_indexer_strict_inr in Hix as [? _].
Qed.

Lemma columns_set_column label vals f :
  columns (set_column label vals f)
  = if decide (label ∈ columns f) then columns f else columns f ++ [label].
Proof. unfold set_column. by case_decide. Qed.

Lemma index_set_column label vals f :
  index (set_column label vals f) = index f.
Proof. unfold set_column. by case_decide. Qed.

Lemma elem_of_columns_set_column label vals f k :
  k ∈ columns (set_column label vals f) ↔ k = label ∨ k ∈ columns f.
Proof.
  rewrite columns_set_column. case_decide as Hin.
  - split; [auto|]. by intros [->|].
  - rewrite elem_of_app, list_elem_of_singleton. tauto.
Qed.

Lemma NoDup_columns_set_column label vals f :
  NoDup (columns f) → NoDup (columns (set_column label vals f)).
Proof.
  rewrite columns_set_column. case_decide; [done|]. intros Hnd.
  apply NoDup_app. split_and!; [done| |apply NoDup_singleton].
  by intros k Hk ->%list_elem_of_singleton.
Qed.

(** A Series labelled like the table is assigned as it is. *)
Lemma setitem_column_aligned label (s : series A) f :
  s_index s = index f →
  setitem_column label s f = inr (set_column label (s_values s) f).
Proof.
  intros Hs. unfold setitem_column, reindex_for_setitem.
  by rewrite decide_True.
Qed.
(** Gathering at the positions of a label gives that label, once per
    position. *)
Lemma gather_positions k labels :
  gather (positions k labels) labels
  = replicate (length (positions k labels)) k.
Proof.
  assert (Forall (λ i, labels !! i = Some k) (positions k labels)) as Hall.
  { apply Forall_forall. intros i. by rewrite elem_of_positions. }
  unfold gather. induction Hall as [|i ixs Hi _ IH]; simpl; [done|].
  rewrite Hi. simpl. by f_equal.
Qed.

(** Among distinct labels the [j]th key is found at the position of its
    label. *)
Lemma lookup_bind_positions keys labels j k p :
  NoDup labels → keys ⊆ labels → keys !! j = Some k → labels !! p = Some k →
  (keys ≫= λ k, positions k labels) !! j = Some p.
Proof.
  intros Hnd. revert j. induction keys as [|k' keys IH]; intros j Hsub Hj Hp;
    [done|].
  assert (k' ∈ labels) as [i Hi]%list_elem_of_lookup by (apply Hsub; left).
  rewrite bind_cons, (positions_NoDup _ i) by done. destruct j; simpl in *.
  - simplify_eq. f_equal. by eapply NoDup_lookup.
  - apply IH; [|done..]. intros x Hx. apply Hsub. by right.
Qed.

Lemma bind_positions_lt keys labels :
  Forall (λ i, i < length labels) (keys ≫= λ k, positions k labels).
Proof.
  apply Forall_forall.
  intros i (k & Hi%elem_of_positions & _)%list_elem_of_bind.
  by eapply lookup_lt_Some.
Qed.

(** *** Cells after a selection or an assignment *)

Lemma lookup_gather {B} ixs (l : list B) j :
  Forall (λ i, i < length l) ixs → gather ixs l !! j = ixs !! j ≫= (l !!.).
Proof.
  unfold gather. intros Hixs. revert j.
  induction Hixs as [|i ixs Hi _ IH]; intros j; [done|].
  destruct (lookup_lt_is_Some_2 l i Hi) as [x Hx]. simpl. rewrite Hx.
  destruct j; simpl; [done|apply IH].
Qed.

Lemma frame_wf_row f i row :
  frame_wf f → values f !! i = Some row → length row = length (columns f).
Proof.
  intros [_ Hrect] Hrow. eapply (Forall_lookup_1 _ _ _ _ Hrect Hrow).
Qed.

Lemma iloc_take_columns ixs f i j :
  frame_wf f → Forall (λ p, p < length (columns f)) ixs →
  iloc (take_columns ixs f) i j = ixs !! j ≫= iloc f i.
Proof.
  intros Hwf Hixs. unfold iloc. simpl. rewrite list_lookup_fmap.
  destruct (values f !! i) as [row|] eqn:Hrow; simpl.
  - apply lookup_gather. by rewrite (frame_wf_row f i row).
  - by destruct (ixs !! j).
Qed.

(** The cell at row [i] of a column labelled [k] after [df[label] = vals]:
    the assigned cell when [k] is [label], the cell it was otherwise. *)
Lemma iloc_set_column label vals f i p k :
  frame_wf f → length vals = length (index f) →
  columns (set_column label vals f) !! p = Some k →
  iloc (set_column label vals f) i p
  = if decide (k = label) then vals !! i else iloc f i p.
Proof.
  intros Hwf Hvals Hp. pose proof (frame_wf_rows f Hwf) as Hrows.
  unfold iloc. unfold set_column in *.
  destruct (decide (label ∈ columns f)) as [Hin|Hin]; simpl in *;
    rewrite lookup_zip_with;
    (destruct (values f !! i) as [row|] eqn:Hrow;
      [|apply lookup_ge_None in Hrow;
        rewrite (proj2 (lookup_ge_None vals i)) by lia; by case_decide]);
    (destruct (lookup_lt_is_Some_2 vals i) as [v Hv];
      [apply lookup_lt_Some in Hrow; lia|]); rewrite Hv; simpl;
    pose proof (frame_wf_row f i row Hwf Hrow) as Hlen.
  - rewrite lookup_zip_with, Hp. simpl.
    destruct (lookup_lt_is_Some_2 row p) as [old ->];
      [rewrite Hlen; by eapply lookup_lt_Some|by case_decide].
  - apply lookup_app_Some in Hp as [Hp|[Hge Hp]].
    + rewrite lookup_app_l by (rewrite Hlen; by eapply lookup_lt_Some).
      rewrite decide_False; [done|]. intros ->. apply Hin.
      by eapply list_elem_of_lookup_2.
    + apply list_lookup_singleton_Some in Hp as [Hp <-].
      rewrite decide_True by done.
      rewrite lookup_app_r, Hlen by lia. by replace (p - _) with 0 by lia.
Qed.


End select.

(** ** A small table

    Four entities by three years, as the data service returns them: the
    year [YR2001] has no value at all, and neither has [Atlantis]. *)
Definition sample_table : frame Q :=
  Frame ["Afghanistan"; "Albania"; "Atlantis"; "World"]
        ["YR2000"; "YR2001"; "YR2002"]
        [[Some 21.94%Q; None; Some 23.05%Q];
         [Some 88.25%Q; None; None];
         [None; None; None];
         [Some 55.55%Q; None; Some 60%Q]]
        (Some "Country") None.

Lemma sample_table_wf : frame_wf sample_table.
Proof. by apply (bool_decide_unpack _). Qed.

(** ** The operations against each other *)

(** C39. Transposing twice gives the table back; the transposed table is
    again a rectangle under its labels, with rows and columns exchanged,
    and the cell at row [j], column [i] of the transposed table is the
    cell at row [i], column [j] of the table. *)
Theorem transpose_roundtrip {A} (f : frame A) :
  frame_wf f →
  transpose (transpose f) = f
  ∧ frame_wf (transpose f)
  ∧ shape (transpose f) = (length (columns f), length (index f))
  ∧ ∀ i j, j < length (columns f) → iloc (transpose f) j i = iloc f i j.
Proof.
  intros Hwf. split_and!; [by apply transpose_involutive|by apply transpose_wf
                          |done|intros; by apply iloc_transpose].
Qed.

Lemma transpose_roundtrip_witness :
  transpose (transpose sample_table) = sample_table
  ∧ frame_wf (transpose sample_table)
  ∧ shape (transpose sample_table) = (3, 4)
  ∧ ∀ i j, j < 3 → iloc (transpose sample_table) j i = iloc sample_table i j.
Proof. exact (transpose_roundtrip sample_table sample_table_wf). Defined.

(** Dropping the empty columns is dropping the empty rows of the
    transposed table, and the other way round: the two calls of [dropna]
    are one operation seen along the two axes. *)
Theorem dropna_columns_by_rows {A} (f : frame A) :
  frame_wf f →
  dropna_columns f = transpose (dropna_rows_all (transpose f))
  ∧ dropna_rows_all f = transpose (dropna_columns (transpose f)).
Proof.
  intros Hwf. split;
    [by apply dropna_columns_transpose|by apply dropna_rows_all_transpose].
Qed.

Lemma dropna_columns_by_rows_witness :
  dropna_columns sample_table
  = transpose (dropna_rows_all (transpose sample_table))
  ∧ dropna_rows_all sample_table
    = transpose (dropna_columns (transpose sample_table)).
Proof. exact (dropna_columns_by_rows sample_table sample_table_wf). Defined.

(** The order of the two drops does not matter, and a second pass
    finds nothing left to drop: dropping the empty rows cannot empty a
    column that had a value, nor the reverse. *)
Theorem dropna_any_order {A} (f : frame A) :
  frame_wf f →
  dropna_rows_all (dropna_columns f) = dropna_columns (dropna_rows_all f)
  ∧ dropna_columns (dropna_rows_all (dropna_columns f))
    = dropna_rows_all (dropna_columns f)
  ∧ dropna_rows_all (dropna_rows_all (dropna_columns f))
    = dropna_rows_all (dropna_columns f).
Proof.
  intros Hwf. split_and!.
  - by apply dropna_rows_columns_commute.
  - apply dropna_columns_noop; [auto with frame|].
    apply dropna_rows_all_keeps_columns_clean; [auto with frame|].
    by apply dropna_columns_clean.
  - apply dropna_rows_all_idempotent. auto with frame.
Qed.

Lemma dropna_any_order_witness :
  dropna_rows_all (dropna_columns sample_table)
  = dropna_columns (dropna_rows_all sample_table)
  ∧ dropna_columns (dropna_rows_all (dropna_columns sample_table))
    = dropna_rows_all (dropna_columns sample_table)
  ∧ dropna_rows_all (dropna_rows_all (dropna_columns sample_table))
    = dropna_rows_all (dropna_columns sample_table).
Proof. exact (dropna_any_order sample_table sample_table_wf). Defined.

(** Selecting columns by a list of labels succeeds exactly when
    every label is a column: then the result has the rows of the table
    and, for each label asked in turn, every column that carries it;
    otherwise it is a [KeyError] that names the labels that are no
    column, in the order asked. *)
Theorem select_columns_spec {A} (keys : list string) (f : frame A) :
  match select_columns keys f with
  | inr g =>
      keys ⊆ columns f ∧ index g = index f
      ∧ columns g = keys ≫= λ k, replicate (length (positions k (columns f))) k
  | inl e =>
      ¬ keys ⊆ columns f ∧ e = KeyError (filter (.∉ columns f) keys)
  end.
Proof.
  destruct (decide (keys ⊆ columns f)) as [Hsub|Hsub].
  - rewrite select_columns_inr by done. split_and!; [done..|]. simpl.
    clear Hsub. induction keys as [|k keys IH]; [done|].
    rewrite !bind_cons, gather_app, IH. f_equal. apply gather_positions.
  - by rewrite select_columns_inl.
Qed.

(** The mean of a row lies between the bounds of its values: when
    every value of the table is between [lo] and [hi], so is every mean
    of [mean(axis=1)], and a row has no mean exactly when it has no
    value. *)
Theorem mean_rows_bounds (f : frame Q) (lo hi : Q) :
  Forall (Forall (λ c, ∀ v, c = Some v → (lo <= v <= hi)%Q)) (values f) →
  s_index (mean_rows f) = index f
  ∧ Forall2 (λ row m, (m = None ↔ all_null row)
                      ∧ ∀ v, m = Some v → (lo <= v <= hi)%Q)
            (values f) (s_values (mean_rows f)).
Proof.
  intros Hf. split; [done|]. simpl. apply Forall2_fmap_r, Forall_Forall2_diag.
  eapply Forall_impl; [done|]. intros row Hrow. simpl. split.
  - rewrite nanmean_None. unfold all_null. apply Forall_iff. by split.
  - intros v Hv. by eapply nanmean_bounds.
Qed.

Lemma sample_table_percentages :
  Forall (Forall (λ c, ∀ v, c = Some v → (0 <= v <= 100)%Q))
         (values sample_table).
Proof.
  apply Forall_forall. intros row Hrow. apply Forall_forall. intros c Hc v ->.
  repeat (apply elem_of_cons in Hrow as [->|Hrow]);
    [..|by apply elem_of_nil in Hrow];
    repeat (apply elem_of_cons in Hc as [Hc|Hc]); simplify_eq;
    try (by apply elem_of_nil in Hc); split; by vm_compute.
Qed.

Lemma mean_rows_bounds_witness :
  s_index (mean_rows sample_table) = index sample_table
  ∧ Forall2 (λ row m, (m = None ↔ all_null row)
                      ∧ ∀ v, m = Some v → (0 <= v <= 100)%Q)
            (values sample_table) (s_values (mean_rows sample_table)).
Proof. exact (mean_rows_bounds sample_table 0 100 sample_table_percentages). Defined.

Lemma dropna_rows_wf {A} subset (f g : frame A) :
  frame_wf f → dropna_rows subset f = inr g → frame_wf g.
Proof.
  unfold dropna_rows. intros [Hrows Hrect] Hdrop.
  destruct (get_indexer_strict subset (columns f)) as [|ixs]; simplify_eq.
  split; simpl; [|by apply rect_compress].
  rewrite !length_compress; [done|..]; rewrite !length_fmap; congruence.
Qed.


