(* ===== verification/Binary64.v ===== *)
(** * Binary64: [df.round(1)] on floating-point numbers

    The cells of the table are IEEE 754 binary64 numbers, and
    [DataFrame.round] (line 117 of [src/part1_script.py]) is numpy's
    [around]: multiply by [10 ** decimals], round to the nearest integer
    with ties to even ([rint]), divide by [10 ** decimals], each step
    rounded to binary64.  The other files compute on exact rationals
    ([Numeric.round_dec]).  This file gives the computation on binary64
    and proves the two agree where the data lies:

    - [b64] is [SpecFloat.spec_float] at precision 53, with [mul] and
      [div] the correctly rounded operations of the standard library,
      [of_Z] the conversion of an integer and [b64_rint] numpy's [rint];
    - [np_round] is numpy's [around], [round_frame_b64] is [df.round] on
      a table of binary64 cells;
    - [to_b64 q] is the binary64 number nearest to the rational [q], the
      value a decimal text denotes once it is read;
    - [np_round_percentage]: for every percentage written with at most
      two decimals, rounding the binary64 number gives the binary64
      number of the rounded rational, so [to_b64] commutes with the two
      roundings and [Frame.round_frame] computes what [df.round(1)]
      returns on a table of such values ([round_frame_b64_grid]);
    - [np_round_decimal_tie]: numpy goes by the decimal reading of a tie,
      not by the binary value behind it: 0.15, whose binary64 number is
      below the tie, is rounded to 0.2.

    The agreement is proved by evaluating both sides on the 10001
    values of the grid.  Off the grid (values with more decimals) the
    two roundings can differ when a value is within a binary rounding
    error of a tie; that case is not covered. *)

From Stdlib Require Import ZArith QArith SpecFloat Lia Lqa.
From stdpp Require Import base tactics option list numbers strings.
From S2P Require Import Prelude Numeric Frame.
Local Close Scope Q_scope.
Local Open Scope Z_scope.

(** ** Binary64 *)

(** Precision and exponent bound of binary64. *)
Definition prec : Z := 53.
Definition emax : Z := 1024.

Abbreviation b64 := spec_float.

#[export] Instance b64_eq_dec : EqDecision b64.
Proof. solve_decision. Defined.

(** The binary64 number nearest to the integer [n]. *)
Definition of_Z (n : Z) : b64 := binary_normalize prec emax n 0 false.

Definition mul : b64 → b64 → b64 := SFmul prec emax.
Definition div : b64 → b64 → b64 := SFdiv prec emax.

(** The binary64 number nearest to the rational [q], for a reduced
    numerator and denominator below [2 ^ 53]: the quotient of two exact
    numbers, correctly rounded. *)
Definition to_b64 (q : Q) : b64 :=
  let q := Qred q in div (of_Z (Qnum q)) (of_Z (Zpos (Qden q))).

(** The integer nearest to [m * 2 ^ e] for [e < 0], ties to even. *)
Definition nearest_even (m : Z) (e : Z) : Z :=
  let d := 2 ^ (- e) in
  let q := m / d in
  match (2 * (m mod d) ?= d) with
  | Lt => q
  | Gt => q + 1
  | Eq => if Z.even q then q else q + 1
  end.

(** [numpy.rint]: the nearest integer, ties to even, as a binary64
    number; the sign of a zero result is the sign of the argument. *)
Definition b64_rint (x : b64) : b64 :=
  match x with
  | S754_finite s m e =>
      if 0 <=? e then x
      else binary_normalize prec emax
             (cond_Zopp s (nearest_even (Zpos m) e)) 0 s
  | _ => x
  end.

(** [numpy.around(x, decimals)] for [decimals >= 0]. *)
Definition np_round (decimals : nat) (x : b64) : b64 :=
  let f := of_Z (10 ^ Z.of_nat decimals) in
  div (b64_rint (mul x f)) f.

(** [df.round(decimals)] on binary64 cells. *)
Definition round_frame_b64 (decimals : nat) (f : frame b64) : frame b64 :=
  reframe f (index f) (columns f)
    (fmap (M:=list) (fmap (M:=option) (np_round decimals)) <$> values f).

(** The table of the binary64 numbers of a table of rationals. *)
Definition to_b64_frame (f : frame Q) : frame b64 := map_frame to_b64 f.

(** The rational a finite binary64 number is. *)
Definition b64_to_Q (x : b64) : option Q :=
  match x with
  | S754_zero _ => Some 0%Q
  | S754_finite s m e =>
      Some (inject_Z (cond_Zopp s (Zpos m)) * (2 ^ e))%Q
  | _ => None
  end.

(** The hundredths from 0 to 100: the percentages with two decimals. *)
Definition on_grid (q : Q) : Prop :=
  ∃ n, 0 ≤ n ≤ 10000 ∧ q ≡ (n # 100)%Q.

(** A table of one economy and two years, one without value. *)
Definition grid_table : frame Q :=
  Frame ["Albania"%string] ["YR2000"%string; "YR2001"%string]
        [[Some 88.25%Q; None]] (Some "Country"%string) None.

(** The two roundings agree at [n] hundredths. *)
Definition agree (n : Z) : bool :=
  bool_decide (np_round 1 (to_b64 (n # 100)) = to_b64 (round_dec 1 (n # 100))).

(** [p] holds of the [count] integers from [n] on. *)
Fixpoint all_from (count : nat) (n : Z) (p : Z → bool) : bool :=
  match count with
  | O => true
  | S count' => p n && all_from count' (n + 1) p
  end.

(** ** The two roundings agree on the grid *)

Lemma all_from_spec count n p k :
  all_from count n p = true → n ≤ k < n + Z.of_nat count → p k = true.
Proof.
  revert n. induction count as [|count IH]; intros n; simpl; [lia|].
  intros [Hn Hrest]%andb_prop Hk.
  destruct (decide (k = n)) as [->|]; [done|]. apply (IH (n + 1)); [done|lia].
Qed.

Lemma agree_grid : all_from (Pos.to_nat 10001) 0 agree = true.
Proof. vm_compute. reflexivity. Qed.

Lemma np_round_grid n :
  0 ≤ n ≤ 10000 →
  np_round 1 (to_b64 (n # 100)) = to_b64 (round_dec 1 (n # 100)).
Proof.
  intros Hn. enough (agree n = true) as Hagree.
  { unfold agree in Hagree. by apply bool_decide_eq_true_1 in Hagree. }
  apply (all_from_spec _ _ _ n agree_grid). lia.
Qed.

(** The binary64 number of a rational does not depend on the fraction
    that writes it. *)
#[export] Instance to_b64_proper : Proper ((≡) ==> (=)) to_b64.
Proof.
  intros q q' Hq. unfold to_b64. by rewrite (Qred_complete q q' Hq).
Qed.

(** On a percentage written with at most two decimals numpy's rounding
    to one decimal, computed in binary64, returns the binary64 number of
    the rational the model computes. *)
Lemma np_round_percentage (q : Q) :
  on_grid q → np_round 1 (to_b64 q) = to_b64 (round_dec 1 q).
Proof.
  intros (n & Hn & Hq).
  rewrite (to_b64_proper _ _ Hq), (round_dec_canonical 1 _ _ Hq).
  by apply np_round_grid.
Qed.

Lemma round_row_b64_grid (row : list cell) :
  Forall (λ c : cell, ∀ q, c = Some q → on_grid q) row →
  fmap (np_round 1) <$> (fmap to_b64 <$> row)
  = fmap to_b64 <$> (cell_round 1 <$> row).
Proof.
  induction 1 as [|[q|] row Hq _ IH]; csimpl; [done|..]; rewrite IH;
    [|done].
  by rewrite np_round_percentage by by apply Hq.
Qed.

Lemma round_frame_b64_grid_eq (f : frame Q) :
  Forall (Forall (λ c : cell, ∀ q, c = Some q → on_grid q)) (values f) →
  round_frame_b64 1 (to_b64_frame f) = to_b64_frame (round_frame 1 f).
Proof.
  intros Hgrid. unfold round_frame_b64, to_b64_frame, map_frame, round_frame, reframe.
  simpl. f_equal.
  induction Hgrid as [|row rows Hrow _ IH]; csimpl; [done|].
  by rewrite IH, round_row_b64_grid.
Qed.

(** C30. [df.round(1)] in binary64 is what the model computes on
    rationals: on a table of percentages written with at most two
    decimals, rounding the binary64 numbers of the table gives the
    binary64 numbers of [Frame.round_frame 1] of the table.  Reading a
    decimal as a binary64 number commutes with the two roundings. *)
Theorem round_frame_b64_grid (f : frame Q) :
  Forall (Forall (λ c : cell, ∀ q, c = Some q → on_grid q)) (values f) →
  round_frame_b64 1 (to_b64_frame f) = to_b64_frame (round_frame 1 f).
Proof. apply round_frame_b64_grid_eq. Qed.

Lemma grid_table_on_grid :
  Forall (Forall (λ c : cell, ∀ q, c = Some q → on_grid q))
    (values grid_table).
Proof.
  repeat constructor; intros q [= <-]. exists 8825. split; [lia|done].
Qed.

Lemma round_frame_b64_grid_witness :
  round_frame_b64 1 (to_b64_frame grid_table)
  = to_b64_frame (round_frame 1 grid_table).
Proof. exact (round_frame_b64_grid grid_table grid_table_on_grid). Defined.

(** The tenths of a percentage, rounded. *)
Lemma rint_grid q : on_grid q → 0 ≤ rint (q * scale 1) ≤ 1000.
Proof.
  intros (n & Hn & Hq).
  assert (0 <= q <= 100)%Q as Hrange.
  { unfold equiv, Q_equiv in Hq. rewrite Hq. unfold Qle. simpl. lia. }
  pose proof (round_dec_range 1 q 0 100 Hrange) as [Hlo Hhi].
  pose proof (round_dec_scaled 1 q) as Hs. change (scale 1) with 10%Q in *.
  change (inject_Z 0) with 0%Q in Hlo. change (inject_Z 100) with 100%Q in Hhi.
  assert (inject_Z 0 <= inject_Z (rint (q * 10)) <= inject_Z 1000)%Q
    as [H0 H1].
  { change (inject_Z 0) with 0%Q. change (inject_Z 1000) with 1000%Q. lra. }
  by rewrite <-Zle_Qle in H0, H1.
Qed.

(** A rounded percentage is a percentage with one decimal. *)
Lemma on_grid_round_dec q : on_grid q → on_grid (round_dec 1 q).
Proof.
  intros Hq%rint_grid. exists (10 * rint (q * scale 1)). split; [lia|].
  unfold equiv, Q_equiv, round_dec, Qeq. simpl.
  change (scale 1) with 10%Q. rewrite Pos.mul_1_l, Pos.mul_1_r. lia.
Qed.

Lemma on_grid_round_frame (f : frame Q) :
  Forall (Forall (λ c : cell, ∀ q, c = Some q → on_grid q)) (values f) →
  Forall (Forall (λ c : cell, ∀ q, c = Some q → on_grid q))
    (values (round_frame 1 f)).
Proof.
  intros Hgrid. simpl. apply Forall_fmap.
  eapply Forall_impl; [exact Hgrid|]. intros row Hrow. simpl.
  apply Forall_fmap. eapply Forall_impl; [exact Hrow|].
  intros [q|] Hq q' [= <-]. by apply on_grid_round_dec, Hq.
Qed.

(** Rounding twice in binary64 is rounding once, on the grid. *)
Theorem round_frame_b64_idempotent (f : frame Q) :
  Forall (Forall (λ c : cell, ∀ q, c = Some q → on_grid q)) (values f) →
  round_frame_b64 1 (round_frame_b64 1 (to_b64_frame f))
  = round_frame_b64 1 (to_b64_frame f).
Proof.
  intros Hgrid.
  rewrite (round_frame_b64_grid_eq f Hgrid),
    (round_frame_b64_grid_eq _ (on_grid_round_frame f Hgrid)).
  by rewrite round_frame_idempotent.
Qed.

(** numpy goes by the decimal reading of a tie.  The binary64 number of
    0.15 is below 0.15, so the nearest tenth of its value is 0.1; its
    product with 10 is rounded to 1.5 exactly, and [np_round] returns
    0.2, the tenth the model gives for the decimal 0.15. *)
Lemma np_round_decimal_tie :
  np_round 1 (to_b64 (15 # 100)) = to_b64 (2 # 10)
  ∧ round_dec 1 (15 # 100) ≡ (2 # 10)%Q
  ∧ ∃ x, b64_to_Q (to_b64 (15 # 100)) = Some x
         ∧ (x < 15 # 100)%Q ∧ round_dec 1 x ≡ (1 # 10)%Q.
Proof.
  split_and!; [by vm_compute..|]. eexists. split; [by vm_compute|].
  split; by vm_compute.
Qed.
