(* ===== verification/Stats.v ===== *)
(** * Stats: the summary statistics of a table

    [inspect_dataframe] ([src/part1_script.py], lines 86 and 90) prints
    two summaries of the raw table: [df.info()], the number of present
    values of each column, and [df.describe()], eight statistics of each
    column.  This file models what the two calls compute, on exact
    rationals.

    - [count] is the number of present values of a column
      ([non_null_counts] pairs it with the label, as [df.info()] lists
      it).
    - [describe_column] is the column of [df.describe()] for one column
      of the table: [count], [mean] (the mean of the present values),
      [std] (the sample standard deviation, with [n - 1] in the
      denominator), [min], the quartiles [25%], [50%], [75%] and [max].
      A quartile is taken from the sorted values by linear interpolation
      between the two values nearest to the position [(n - 1) * q]
      ([quantile], [interpolate]), as numpy does by default.
    - A standard deviation is the square root of a rational and in
      general no rational: the statistics are values of [stat], a
      rational ([Exact]) or the square root of one ([Root]), and the
      deviation is [Root] of the variance, kept exact.
    - [describe] is the call: the table [summary] of the statistics, one
      column per column of the table, or the [ValueError] pandas raises on
      a table without columns.

    Theorems: the shape and labels of the summary; the statistics of a
    column are ordered ([min <= 25% <= 50% <= 75% <= max]) and the mean
    lies between [min] and [max]; a column without values has count 0
    and no other statistic, a column with one value has no deviation; the
    count of [describe] is the count of [info] and at most the number of
    rows. *)

From Stdlib Require Import QArith Qround Lqa Lia.
From stdpp Require Import base tactics option list strings sorting.
From S2P Require Import Prelude Numeric Frame.
Local Open Scope Q_scope.
Local Open Scope string_scope.

(** ** Data *)

(** A statistic. *)
Inductive stat : Type :=
  | Exact (q : Q)
  | Root (q : Q)
      (** the square root of [q] *).

#[export] Instance stat_eq_dec : EqDecision stat.
Proof. solve_decision. Defined.

#[export] Instance Qle_dec : RelDecision Qle.
Proof. intros x y. unfold Qle. apply _. Defined.

#[export] Instance Qle_total : Total Qle.
Proof. intros x y. destruct (Qlt_le_dec x y); [left|right]; lra. Qed.

#[export] Instance Qle_transitive : Transitive Qle.
Proof. intros x y z. apply Qle_trans. Qed.

(** ** The statistics of a column *)

(** The present values of a column, in the order of the rows. *)
Definition present (col : list cell) : list Q := omap id col.

(** [Series.count()]: the number of present values. *)
Definition count (col : list cell) : nat := length (present col).

(** The sample variance: the squared deviations from the mean, summed and
    divided by [n - 1]; none when there are fewer than two values. *)
Definition variance (col : list cell) : cell :=
  let vs := present col in
  match nanmean col with
  | Some mean =>
      if decide (length vs ≤ 1)%nat then None
      else Some (Qsum ((λ v, (v - mean) * (v - mean)) <$> vs)
                 / inject_Z (Z.of_nat (length vs) - 1))
  | None => None
  end.

(** The present values in increasing order. *)
Definition sort_values (col : list cell) : list Q :=
  merge_sort Qle (present col).

(** The value at the position [h] of a list, a position between two
    elements standing for the point that far between them. *)
Definition interpolate (xs : list Q) (h : Q) : cell :=
  let lower := Z.to_nat (Qfloor h) in
  x_lower ← xs !! lower;
  let x_upper := default x_lower (xs !! S lower) in
  Some (x_lower + (h - inject_Z (Qfloor h)) * (x_upper - x_lower)).

(** [Series.quantile(q)]. *)
Definition quantile (q : Q) (col : list cell) : cell :=
  let xs := sort_values col in
  interpolate xs (inject_Z (Z.of_nat (length xs) - 1) * q).

(** [Series.min()] and [Series.max()]. *)
Definition minimum (col : list cell) : cell := sort_values col !! 0%nat.

Definition maximum (col : list cell) : cell := last (sort_values col).

(** The row labels of the summary. *)
Definition describe_index : list string :=
  ["count"; "mean"; "std"; "min"; "25%"; "50%"; "75%"; "max"].

(** The statistics of one column, in the order of [describe_index]. *)
Definition describe_column (col : list cell) : list (option stat) :=
  [Some (Exact (inject_Z (Z.of_nat (count col))));
   Exact <$> nanmean col;
   Root <$> variance col;
   Exact <$> minimum col;
   Exact <$> quantile (1 # 4) col;
   Exact <$> quantile (1 # 2) col;
   Exact <$> quantile (3 # 4) col;
   Exact <$> maximum col].

(** ** The summaries of a table *)

(** The table of the statistics: a row per statistic, a column per
    column of [df]. *)
Definition summary (df : frame Q) : frame stat :=
  Frame describe_index (columns df)
        (transpose_mat 8 (describe_column <$> column_values df))
        None (columns_name df).

(** [df.describe()]. *)
Definition describe (df : frame Q) : exn + frame stat :=
  if decide (columns df = []) then
    inl (ValueError "Cannot describe a DataFrame without columns")
  else inr (summary df).

(** The counts [df.info()] lists: for each column its label and the
    number of its present values. *)
Definition non_null_counts (df : frame Q) : list (string * nat) :=
  zip (columns df) (count <$> column_values df).

(** A column of four rows, one of them without value. *)
Definition sample_column : list cell :=
  [Some 21.94; Some 88.25; None; Some 55.55].

(** ** Sorted values *)

Implicit Types (df : frame Q) (col : list cell).

Lemma sort_values_perm col : sort_values col ≡ₚ present col.
Proof. apply merge_sort_Permutation. Qed.

Lemma sort_values_sorted col : StronglySorted Qle (sort_values col).
Proof. apply StronglySorted_merge_sort; apply _. Qed.

Lemma length_sort_values col : length (sort_values col) = count col.
Proof. unfold count. by rewrite sort_values_perm. Qed.

Lemma present_nil col : present col = [] ↔ all_null col.
Proof.
  unfold present, all_null. induction col as [|[v|] col IH]; simpl.
  - split; [constructor|done].
  - split; [done|]. by intros [? _]%Forall_cons.
  - rewrite Forall_cons. tauto.
Qed.

Lemma count_le col : (count col ≤ length col)%nat.
Proof.
  unfold count, present. induction col as [|[v|] col IH]; csimpl; lia.
Qed.

(** In a sorted list the values increase with the position. *)
Lemma StronglySorted_lookup_le (xs : list Q) i j a b :
  StronglySorted Qle xs → (i ≤ j)%nat →
  xs !! i = Some a → xs !! j = Some b → a <= b.
Proof.
  intros Hs. revert i j.
  induction Hs as [|x xs Hs IH Hx]; intros [|i] [|j] Hij Ha Hb;
    simplify_eq/=; try lia.
  - apply Qle_refl.
  - by eapply (Forall_lookup_1 _ _ _ _ Hx).
  - eapply IH; [|done..]. lia.
Qed.

(** ** Interpolation in a sorted list *)

Section interpolate.
Context (xs : list Q) (Hxs : StronglySorted Qle xs).

(** The position [h] lies in the list. *)
Definition in_range (h : Q) : Prop :=
  0 <= h ∧ h <= inject_Z (Z.of_nat (length xs) - 1).

Lemma floor_in_range h :
  in_range h →
  (0 <= Qfloor h)%Z ∧ (Z.to_nat (Qfloor h) < length xs)%nat
  ∧ 0 <= h - inject_Z (Qfloor h) ∧ h - inject_Z (Qfloor h) < 1.
Proof.
  intros [H0 Hn].
  apply Qfloor_resp_le in H0. apply Qfloor_resp_le in Hn.
  change 0 with (inject_Z 0) in H0. rewrite Qfloor_Z in H0, Hn.
  pose proof (Qfloor_le h). pose proof (Qlt_floor h) as Hlt.
  rewrite inject_Z_plus in Hlt. change (inject_Z 1) with 1 in Hlt.
  split_and!; [done|lia|lra..].
Qed.

(** The interpolated value lies between the two values around the
    position. *)
Lemma interpolate_between h :
  in_range h →
  ∃ a b q, xs !! Z.to_nat (Qfloor h) = Some a
           ∧ default a (xs !! S (Z.to_nat (Qfloor h))) = b
           ∧ interpolate xs h = Some q
           ∧ q == a + (h - inject_Z (Qfloor h)) * (b - a)
           ∧ a <= q ∧ q <= b.
Proof using Hxs.
  intros (_ & Hlt & Hf0 & Hf1)%floor_in_range.
  destruct (lookup_lt_is_Some_2 xs _ Hlt) as [a Ha].
  set (b := default a (xs !! S (Z.to_nat (Qfloor h)))).
  assert (a <= b) as Hab.
  { unfold b. destruct (xs !! S _) as [b'|] eqn:Hb; simpl; [|apply Qle_refl].
    eapply (StronglySorted_lookup_le xs _ (S _)); [done| |done..]. lia. }
  exists a, b, (a + (h - inject_Z (Qfloor h)) * (b - a)).
  unfold interpolate. rewrite Ha. simpl. fold b.
  split_and!; [done..|reflexivity|nra|nra].
Qed.

Lemma interpolate_mono h h' q q' :
  in_range h → in_range h' → h <= h' →
  interpolate xs h = Some q → interpolate xs h' = Some q' → q <= q'.
Proof using Hxs.
  intros Hh Hh' Hle Hq Hq'.
  destruct (interpolate_between h Hh) as (a & b & ? & Ha & Hb & ? & Heq & Haq & Hqb).
  destruct (interpolate_between h' Hh')
    as (a' & b' & ? & Ha' & Hb' & ? & Heq' & Haq' & Hqb').
  simplify_eq. pose proof (Qfloor_resp_le _ _ Hle) as Hfloor.
  destruct (floor_in_range h Hh) as (? & ? & ? & ?).
  destruct (floor_in_range h' Hh') as (? & ? & ? & ?).
  destruct (decide (Qfloor h = Qfloor h')) as [Hsame|Hdiff].
  - rewrite Hsame in *. simplify_eq.
    set (b := default a _) in *. rewrite Heq, Heq'. nra.
  - assert (S (Z.to_nat (Qfloor h)) ≤ Z.to_nat (Qfloor h'))%nat as Hnext by lia.
    destruct (lookup_lt_is_Some_2 xs (S (Z.to_nat (Qfloor h)))) as [b Hb];
      [lia|]. rewrite Hb in Hqb. simpl in Hqb.
    pose proof (StronglySorted_lookup_le xs _ _ _ _ Hxs Hnext Hb Ha').
    lra.
Qed.

Lemma interpolate_ge_first h q x :
  in_range h → interpolate xs h = Some q → xs !! 0%nat = Some x → x <= q.
Proof using Hxs.
  intros Hh Hq Hx.
  destruct (interpolate_between h Hh) as (a & b & ? & Ha & _ & ? & _ & Haq & _).
  simplify_eq.
  pose proof (StronglySorted_lookup_le xs 0 _ _ _ Hxs ltac:(lia) Hx Ha). lra.
Qed.

Lemma interpolate_le_last h q x :
  in_range h → interpolate xs h = Some q → last xs = Some x → q <= x.
Proof using Hxs.
  intros Hh Hq Hx. rewrite last_lookup in Hx.
  destruct (interpolate_between h Hh) as (a & b & ? & Ha & Hb & ? & _ & _ & Hqb).
  simplify_eq. destruct (floor_in_range h Hh) as (_ & Hlt & _).
  destruct (xs !! S _) as [b|] eqn:Hb; simpl in Hqb.
  - assert (S (Z.to_nat (Qfloor h)) ≤ pred (length xs))%nat as Hle.
    { apply lookup_lt_Some in Hb. lia. }
    pose proof (StronglySorted_lookup_le xs _ _ _ _ Hxs Hle Hb Hx). lra.
  - assert (Z.to_nat (Qfloor h) ≤ pred (length xs))%nat as Hle by lia.
    pose proof (StronglySorted_lookup_le xs _ _ _ _ Hxs Hle Ha Hx). lra.
Qed.
End interpolate.

(** ** The statistics of a column that holds a value *)

Section column.
Context (col : list cell) (Hcol : ¬ all_null col).

Lemma count_pos : (0 < count col)%nat.
Proof using Hcol.
  unfold count. destruct (present col) eqn:Hp; simpl; [|lia].
  by apply present_nil in Hp.
Qed.

Lemma quantile_in_range p :
  0 <= p → p <= 1 →
  in_range (sort_values col)
    (inject_Z (Z.of_nat (length (sort_values col)) - 1) * p).
Proof using Hcol.
  intros H0 H1. pose proof count_pos as Hn. rewrite <-length_sort_values in Hn.
  assert (0 <= inject_Z (Z.of_nat (length (sort_values col)) - 1)) as Hpos.
  { change 0 with (inject_Z 0). rewrite <-Zle_Qle. lia. }
  unfold in_range. nra.
Qed.

Lemma quantile_is_Some p : 0 <= p → p <= 1 → is_Some (quantile p col).
Proof using Hcol.
  intros H0 H1. unfold quantile.
  destruct (interpolate_between _ (sort_values_sorted col) _
              (quantile_in_range p H0 H1)) as (? & ? & q & _ & _ & -> & _).
  done.
Qed.

Lemma quantile_mono p p' q q' :
  0 <= p → p <= p' → p' <= 1 →
  quantile p col = Some q → quantile p' col = Some q' → q <= q'.
Proof using Hcol.
  intros H0 Hle H1. unfold quantile.
  apply (interpolate_mono _ (sort_values_sorted col));
    [apply quantile_in_range; lra..|].
  pose proof count_pos as Hn. rewrite <-length_sort_values in Hn.
  assert (0 <= inject_Z (Z.of_nat (length (sort_values col)) - 1)) as Hpos.
  { change 0 with (inject_Z 0). rewrite <-Zle_Qle. lia. }
  nra.
Qed.

Lemma minimum_le_quantile p mn q :
  0 <= p → p <= 1 → minimum col = Some mn → quantile p col = Some q → mn <= q.
Proof using Hcol.
  intros H0 H1 Hmn Hq. unfold quantile in Hq.
  eapply (interpolate_ge_first _ (sort_values_sorted col));
    [by apply quantile_in_range|done..].
Qed.

Lemma quantile_le_maximum p mx q :
  0 <= p → p <= 1 → maximum col = Some mx → quantile p col = Some q → q <= mx.
Proof using Hcol.
  intros H0 H1 Hmx Hq. unfold quantile in Hq.
  eapply (interpolate_le_last _ (sort_values_sorted col));
    [by apply quantile_in_range|done..].
Qed.

Lemma minimum_is_Some : is_Some (minimum col).
Proof using Hcol.
  apply lookup_lt_is_Some. rewrite length_sort_values. apply count_pos.
Qed.

Lemma maximum_is_Some : is_Some (maximum col).
Proof using Hcol.
  unfold maximum. rewrite last_lookup. apply lookup_lt_is_Some.
  rewrite length_sort_values. pose proof count_pos. lia.
Qed.

(** Every value lies between the smallest and the largest. *)
Lemma present_between mn mx v :
  minimum col = Some mn → maximum col = Some mx → Some v ∈ col →
  mn <= v ∧ v <= mx.
Proof.
  unfold minimum, maximum. rewrite last_lookup. intros Hmn Hmx Hv.
  assert (v ∈ sort_values col) as [i Hi]%list_elem_of_lookup.
  { rewrite sort_values_perm. apply list_elem_of_omap. by exists (Some v). }
  pose proof (sort_values_sorted col) as Hs.
  apply lookup_lt_Some in Hi as Hlt.
  assert (i ≤ pred (length (sort_values col)))%nat as Hle by lia.
  split.
  - apply (StronglySorted_lookup_le _ 0 i _ _ Hs); (done || lia).
  - exact (StronglySorted_lookup_le _ _ _ _ _ Hs Hle Hi Hmx).
Qed.

Lemma mean_between mn mx m :
  minimum col = Some mn → maximum col = Some mx → nanmean col = Some m →
  mn <= m ∧ m <= mx.
Proof.
  intros Hmn Hmx. apply nanmean_bounds, Forall_forall.
  intros c Hc v ->. by apply present_between.
Qed.
End column.

(** ** The summary table *)

Lemma length_describe_column col : length (describe_column col) = 8%nat.
Proof. done. Qed.

Lemma rect_describe_columns (cols : list (list cell)) :
  rect 8 (describe_column <$> cols).
Proof. apply Forall_fmap, Forall_true. intros col. done. Qed.

Lemma summary_wf df : frame_wf df → frame_wf (summary df).
Proof.
  intros Hwf. pose proof (rect_describe_columns (column_values df)) as Hrect.
  split; simpl.
  - by rewrite length_transpose_mat.
  - rewrite <-(length_column_values df), <-(length_fmap describe_column)
      by done. apply rect_transpose_mat.
Qed.

Lemma column_values_summary df :
  frame_wf df →
  column_values (summary df) = describe_column <$> column_values df.
Proof.
  intros Hwf. unfold column_values at 1. simpl.
  rewrite <-(length_column_values df), <-(length_fmap describe_column)
    by done.
  apply transpose_mat_involutive, rect_describe_columns.
Qed.

Lemma describe_column_empty col :
  all_null col →
  describe_column col
  = [Some (Exact 0); None; None; None; None; None; None; None].
Proof.
  intros Hnull. pose proof (proj2 (present_nil col) Hnull) as Hp.
  assert (nanmean col = None) as Hmean.
  { apply nanmean_None. eapply Forall_impl; [exact Hnull|]. by intros ? ->. }
  unfold describe_column, variance, minimum, maximum, quantile, sort_values,
    count. by rewrite Hmean, Hp.
Qed.

Lemma Qsum_squares_nonneg m vs : 0 <= Qsum ((λ v, (v - m) * (v - m)) <$> vs).
Proof.
  induction vs as [|v vs IH]; cbn [fmap list_fmap Qsum foldr]; [lra|].
  fold (Qsum ((λ v, (v - m) * (v - m)) <$> vs)).
  set (s := Qsum _) in *. set (d := v - m). assert (0 <= d * d) by nra. lra.
Qed.

Lemma variance_None col : variance col = None ↔ (count col ≤ 1)%nat.
Proof.
  unfold variance, count. destruct (nanmean col) as [m|] eqn:Hm.
  - case_decide; split; (done || lia).
  - split; [intros _|done]. apply nanmean_None in Hm.
    replace (present col) with (@nil Q); [simpl; lia|]. symmetry.
    apply present_nil. eapply Forall_impl; [exact Hm|]. by intros ? <-.
Qed.

Lemma variance_nonneg col v : variance col = Some v → 0 <= v.
Proof.
  unfold variance. destruct (nanmean col) as [m|]; [|done].
  case_decide as Hn; [done|]. intros [= <-].
  apply Qle_shift_div_l; [|rewrite Qmult_0_l; apply Qsum_squares_nonneg].
  change 0 with (inject_Z 0). rewrite <-Zlt_Qlt. lia.
Qed.

Lemma length_columns_of df col :
  frame_wf df → col ∈ column_values df → length col = length (index df).
Proof.
  intros [Hrows _] [j Hj]%list_elem_of_lookup. rewrite <-Hrows.
  pose proof (rect_transpose_mat (length (columns df)) (values df)) as Hrect.
  by eapply rect_lookup.
Qed.

(** ** The theorems *)

(** [df.describe()] on a table: a [ValueError] exactly when the table
    has no column; otherwise a table of eight rows, labelled [count],
    [mean], [std], [min], [25%], [50%], [75%] and [max], with the columns
    of the table under their labels, the column of the summary being the
    statistics of the column of the table. *)
Theorem describe_spec df :
  frame_wf df →
  match describe df with
  | inl e =>
      columns df = []
      ∧ e = ValueError "Cannot describe a DataFrame without columns"
  | inr s =>
      columns df ≠ [] ∧ index s = describe_index ∧ columns s = columns df
      ∧ frame_wf s
      ∧ column_values s = describe_column <$> column_values df
  end.
Proof.
  intros Hwf. unfold describe. case_decide; [done|].
  split_and!; [done..|by apply summary_wf|by apply column_values_summary].
Qed.


(** The count [df.describe()] gives for a column is the number of
    present values [df.info()] lists for it, under the same label, and
    it is at most the number of rows of the table. *)
Theorem describe_count_info df j label n :
  frame_wf df →
  non_null_counts df !! j = Some (label, n) →
  columns (summary df) !! j = Some label
  ∧ iloc (summary df) 0 j = Some (Some (Exact (inject_Z (Z.of_nat n))))
  ∧ (n ≤ length (index df))%nat.
Proof.
  intros Hwf Hj. unfold non_null_counts in Hj.
  apply lookup_zip_with_Some in Hj as (? & ? & [= <- <-] & Hlabel & Hn).
  rewrite list_lookup_fmap in Hn.
  destruct (column_values df !! j) as [col|] eqn:Hcol; simplify_eq/=.
  split_and!; [done| |].
  - unfold iloc. simpl.
    rewrite (lookup_transpose_mat 8 _ j 0) by
      (apply rect_describe_columns || lia).
    by rewrite list_lookup_fmap, Hcol.
  - rewrite <-(length_columns_of df col) by
      (done || by eapply list_elem_of_lookup_2).
    apply count_le.
Qed.

(** The deviation of a column: none when the column has fewer than two
    values, otherwise the root of a variance that is not negative. *)
Lemma variance_spec col :
  (variance col = None ↔ (count col ≤ 1)%nat)
  ∧ ∀ v, variance col = Some v → 0 <= v.
Proof. split; [apply variance_None|apply variance_nonneg]. Qed.

(** ** The sample table *)

Lemma describe_spec_witness :
  columns sample_table ≠ [] ∧ index (summary sample_table) = describe_index
  ∧ columns (summary sample_table) = columns sample_table
  ∧ frame_wf (summary sample_table)
  ∧ column_values (summary sample_table)
    = describe_column <$> column_values sample_table.
Proof. exact (describe_spec sample_table sample_table_wf). Defined.

Lemma sample_column_not_null : ¬ all_null sample_column.
Proof. by apply (bool_decide_unpack _). Qed.


Lemma describe_count_info_witness :
  columns (summary sample_table) !! 2%nat = Some "YR2002"
  ∧ iloc (summary sample_table) 0 2
    = Some (Some (Exact (inject_Z (Z.of_nat 2))))
  ∧ (2 ≤ length (index sample_table))%nat.
Proof.
  exact (describe_count_info sample_table 2 "YR2002" 2 sample_table_wf eq_refl).
Defined.

(** The statistics of the sample column, computed: three values, the
    median the middle one, the quartiles half way to it. *)
Lemma sample_describe_column :
  count sample_column = 3%nat
  ∧ minimum sample_column = Some 21.94
  ∧ maximum sample_column = Some 88.25
  ∧ quantile (1 # 2) sample_column ≡ Some 55.55
  ∧ quantile (1 # 4) sample_column ≡ Some 38.745
  ∧ quantile (3 # 4) sample_column ≡ Some 71.9
  ∧ nanmean sample_column ≡ Some (165.74 / 3).
Proof.
  split_and!; try done; vm_compute; constructor; done.
Qed.
