(* ===== verification/Plot.v ===== *)
(** * Plot: the plotly figure the script builds

    The part of plotly's object model that [create_chart]
    ([src/part1_script.py], lines 18-65) touches: a figure is a list of
    traces (one line per table column), a title, axis labels and the
    dropdown menus of its layout; a button of a menu carries the argument
    of the [restyle] call it triggers.

    - [px_line] is [plotly.express.line] on a wide table: one trace per
      column, named after it, over the row labels.
    - [update_traces_visible] is [fig.update_traces(visible=...)].
    - [update_layout] is the [fig.update_layout(updatemenus=..., title_x=...)]
      call.
    - [restyle_visible] is what the browser does when a button whose
      method is [restyle] and whose argument is [['visible', vector]] is
      chosen: trace [i] takes entry [i] of the vector.  It is plotly.js
      behaviour, modelled from the interface the script relies on. *)

From Stdlib Require Import QArith.
From stdpp Require Import base tactics option list strings.
From S2P Require Import Prelude Numeric Frame.
Local Close Scope Q_scope.
Local Open Scope string_scope.

(** ** Data *)

(** The [visible] attribute of a trace: [True], [False] or
    ['legendonly'] (not drawn, listed in the legend). *)
Inductive visibility : Type := VTrue | VFalse | VLegendOnly.

#[export] Instance visibility_eq_dec : EqDecision visibility.
Proof. solve_decision. Defined.

Record trace : Type := Trace {
  tr_name : string;
  tr_x : list string;
  tr_y : list cell;
  tr_visible : visibility
}.

#[export] Instance trace_eq_dec : EqDecision trace.
Proof. solve_decision. Defined.

(** [dict(label=..., method=..., args=[attribute, vector])]. *)
Record button : Type := Button {
  b_label : string;
  b_method : string;
  b_args : string * list visibility
}.

#[export] Instance button_eq_dec : EqDecision button.
Proof. solve_decision. Defined.

(** [dict(type=..., direction=..., buttons=...)]. *)
Record updatemenu : Type := UpdateMenu {
  m_type : string;
  m_direction : string;
  m_buttons : list button
}.

#[export] Instance updatemenu_eq_dec : EqDecision updatemenu.
Proof. solve_decision. Defined.

Record figure : Type := Figure {
  fig_title : string;
  fig_title_x : option Q;
  fig_xaxis_title : option string;
  fig_yaxis_title : string;
  fig_legend_title : string;
  fig_data : list trace;
  fig_updatemenus : list updatemenu
}.

#[export] Instance figure_eq_dec : EqDecision figure.
Proof. solve_decision. Defined.

(** The figure [fig] with other traces and menus. *)
Definition refigure (fig : figure) (x : option Q) (data : list trace)
    (menus : list updatemenu) : figure :=
  Figure (fig_title fig) x (fig_xaxis_title fig) (fig_yaxis_title fig)
         (fig_legend_title fig) data menus.

(** ** Building a figure *)

(** The display name of a column: what [labels] maps it to, or itself. *)
Definition label_of (labels : list (string * string)) (name : string) :
    string :=
  default name (dict_get labels name).

(** [px.line(df, x=df.index, y=df.columns, labels=labels, title=title)]:
    a trace per column, drawn by default.  The table is in wide form, so
    the values go by the name [value] and the column they come from by the
    name of the column axis, [variable] when the axis has none; the
    horizontal axis is titled after the index when it has a name ([None]
    stands for the title plotly falls back to when it has none, which the
    script never meets: [preprocess_df] names the index). *)
Definition px_line (df : frame Q) (labels : list (string * string))
    (title : string) : figure :=
  Figure title None
    (label_of labels <$> index_name df)
    (label_of labels "value")
    (label_of labels (default "variable" (columns_name df)))
    (zip_with (λ name ys, Trace name (index df) ys VTrue)
              (columns df) (column_values df))
    [].

(** [fig.update_traces(visible=v)]. *)
Definition update_traces_visible (v : visibility) (fig : figure) : figure :=
  refigure fig (fig_title_x fig)
    ((λ t, Trace (tr_name t) (tr_x t) (tr_y t) v) <$> fig_data fig)
    (fig_updatemenus fig).

(** [fig.update_layout(updatemenus=menus, title_x=x)]. *)
Definition update_layout (menus : list updatemenu) (x : Q) (fig : figure) :
    figure :=
  refigure fig (Some x) (fig_data fig) menus.

(** ** Choosing a dropdown option *)

(** [Plotly.restyle(fig, 'visible', vector)]: trace [i] takes entry [i];
    a trace past the end of the vector keeps its state. *)
Fixpoint restyle_visible (vector : list visibility) (traces : list trace) :
    list trace :=
  match traces with
  | [] => []
  | t :: ts =>
      match vector with
      | [] => t :: ts
      | v :: vs =>
          Trace (tr_name t) (tr_x t) (tr_y t) v :: restyle_visible vs ts
      end
  end.

(** The figure after the user picks button [b]. *)
Definition press (b : button) (fig : figure) : figure :=
  if decide (b_method b = "restyle" ∧ (b_args b).1 = "visible") then
    refigure fig (fig_title_x fig)
      (restyle_visible (b_args b).2 (fig_data fig)) (fig_updatemenus fig)
  else fig.

(** The names of the traces in state [v]. *)
Definition names_in_state (v : visibility) (fig : figure) : list string :=
  tr_name <$> filter (λ t, tr_visible t = v) (fig_data fig).

(** ** Facts *)

Lemma length_px_line df labels title :
  frame_wf df → length (fig_data (px_line df labels title)) = length (columns df).
Proof.
  intros Hwf. cbn [px_line fig_data].
  rewrite length_zip_with, length_column_values by done. lia.
Qed.

Lemma names_px_line df labels title :
  frame_wf df → tr_name <$> fig_data (px_line df labels title) = columns df.
Proof.
  intros Hwf. cbn [px_line fig_data]. apply fmap_zip_with_l; [done|].
  by rewrite length_column_values.
Qed.

Lemma length_update_traces_visible v fig :
  length (fig_data (update_traces_visible v fig)) = length (fig_data fig).
Proof. simpl. by rewrite length_fmap. Qed.

Lemma names_update_traces_visible v fig :
  tr_name <$> fig_data (update_traces_visible v fig) = tr_name <$> fig_data fig.
Proof. simpl. rewrite <-list_fmap_compose. by apply list_fmap_ext. Qed.

Lemma visible_update_traces_visible v fig :
  Forall (λ t, tr_visible t = v) (fig_data (update_traces_visible v fig)).
Proof. simpl. rewrite Forall_fmap. by apply Forall_true. Qed.

Lemma length_restyle_visible vector traces :
  length (restyle_visible vector traces) = length traces.
Proof.
  revert vector. induction traces as [|t ts IH]; intros [|v vs]; simpl; auto.
Qed.

Lemma names_restyle_visible vector traces :
  tr_name <$> restyle_visible vector traces = tr_name <$> traces.
Proof.
  revert vector. induction traces as [|t ts IH]; intros [|v vs]; simpl;
    f_equal; auto.
Qed.

(** When the vector covers the traces, the states after the restyle are
    the vector. *)
Lemma visible_restyle_visible vector traces :
  length vector = length traces →
  tr_visible <$> restyle_visible vector traces = vector.
Proof.
  revert vector. induction traces as [|t ts IH]; intros [|v vs] Hlen;
    simplify_eq/=; f_equal; auto.
Qed.
