(* ===== verification/Effects.v ===== *)
(** * Effects: what the script does to the outside world

    The observable behaviour of [src/part1_script.py] is what it prints,
    the figure it shows, the file it writes and the exception it may die
    of.  [event] lists the first three; a function of the script that does
    any of them is a computation of [py A], the [script] monad of
    [Prelude] over [event] and [exn].

    A [print] call is the event [Print] with the values printed, not the
    characters: how pandas renders a table is not part of the script
    ([Console] gives the characters where Python decides them).
    [df.info()] writes its report itself and returns [None]
    ([Info] then [Print [PNone]] for [print(df.info())]; what the report
    counts is [Stats.non_null_counts]); [df.describe()] returns the table
    of statistics [Stats.summary], which the script only prints
    ([PDescribe]). *)

From Stdlib Require Import QArith.
From stdpp Require Import base tactics option list strings.
From S2P Require Import Prelude Numeric Frame Stats Plot.
Local Close Scope Q_scope.

(** A value handed to [print]. *)
Inductive printed : Type :=
  | PStr (s : string)
  | PNone
  | PShape (shape : nat * nat)
  | PFrame (df : frame Q)
  | PDescribe (summary : frame stat)
      (** the table [df.describe()] returns *)
  | PMetadata (code : string) (metadata : string)
      (** the metadata record of an indicator *).

Inductive event : Type :=
  | Print (args : list printed)
  | Info (df : frame Q)
      (** [df.info()]: the column types and non-null counts, written out *)
  | Show (fig : figure)
      (** [fig.show()] *)
  | WriteHtml (path : string) (fig : figure)
      (** [fig.write_html(path)]: the file is created or overwritten *).

#[export] Instance printed_eq_dec : EqDecision printed.
Proof. solve_decision. Defined.

#[export] Instance event_eq_dec : EqDecision event.
Proof. solve_decision. Defined.

(** A computation of the script. *)
Abbreviation py := (script event exn).

(** [print(a, b, ...)]. *)
Definition print (args : list printed) : py unit := emit (Print args).

(** A pure value, or the exception a library call died of, as a
    computation. *)
Definition lift_result {A} (r : exn + A) : py A :=
  match r with
  | inl e => raise e
  | inr a => sret a
  end.

Lemma emitted_print args : emitted (print args) = [Print args].
Proof. done. Qed.

Lemma lift_result_inr {A} (a : A) : lift_result (inr a) = sret a.
Proof. done. Qed.

Lemma lift_result_inl {A} e : lift_result (A:=A) (inl e) = raise e.
Proof. done. Qed.

(** The files a run has written, in order. *)
Definition files_written (t : list event) : list string :=
  omap (λ e, match e with WriteHtml path _ => Some path | _ => None end) t.

(** The figures a run has shown, in order. *)
Definition figures_shown (t : list event) : list figure :=
  omap (λ e, match e with Show fig => Some fig | _ => None end) t.

(** The events that leave something behind: a figure shown, a file
    written. *)
Definition is_output (e : event) : bool :=
  match e with
  | Show _ | WriteHtml _ _ => true
  | Print _ | Info _ => false
  end.

Definition outputs (t : list event) : list event := filter is_output t.

Lemma outputs_app t t' : outputs (t ++ t') = outputs t ++ outputs t'.
Proof. apply filter_app. Qed.

(** After a part that leaves nothing behind, what a sequence leaves
    behind is what the rest does, when it is reached. *)
Lemma outputs_sbind {A B} (m : py A) (k : A → py B) :
  outputs (emitted m) = [] →
  outputs (emitted (sbind m k))
  = match outcome m with
    | inl _ => []
    | inr a => outputs (emitted (k a))
    end.
Proof.
  destruct m as [t [x|a]]; unfold outcome, emitted, sbind; simpl; [done|].
  rewrite outputs_app. by intros ->.
Qed.

Lemma outcome_sbind {A B} (m : py A) (k : A → py B) :
  outcome (sbind m k)
  = match outcome m with
    | inl x => inl x
    | inr a => outcome (k a)
    end.
Proof. by destruct m as [t [x|a]]. Qed.

