(* ===== verification/Preprocess.v ===== *)
(** * Preprocess: the table reshaper

    [preprocess_df] is the function of that name of
    [src/part1_script.py] (lines 94-131), statement by statement: it drops
    the columns and then the rows that hold no value, strips [YR] from the
    column labels, rounds to one decimal, transposes so that years become
    rows, names the row axis [Year] and clears the name of the column
    axis, printing a progress line before each step and a report after
    the last.

    The first three steps change the caller's table in place
    ([inplace=True], and the assignment to [df.columns]); from [df.round]
    on the function works on new tables.  [preprocess_df_argument] is the
    state the call leaves its argument in.

    [reshape] is the function's result without its printing, as the
    composition of the table operations.  The theorems show that the call
    never raises and returns [reshape df], what [reshape df] holds (which
    labels, which cells, what shape), that it has no empty row or column
    left, and that every step does nothing on a table that is already
    clean. *)

From Stdlib Require Import QArith Ascii.
From stdpp Require Import base tactics option list strings.
From S2P Require Import Prelude Numeric Labels Frame Plot Effects.
Local Close Scope Q_scope.
Local Open Scope string_scope.
Local Open Scope script_scope.

(** The line feed, [\n]. *)
Definition nl : string := String (ascii_of_nat 10) "".

(** The separator line the script prints between reports. *)
Definition rule : string := nl +:+ "********************" +:+ nl.

(** ** The function *)

Definition preprocess_df (df : frame Q) : py (frame Q) :=
  let before_prep_shape := shape df in
  print [PStr (nl +:+ "Drop columns with all nulls.")] ;;
  let df := dropna_columns df in
  print [PStr "Drop rows with all nulls in year columns."] ;;
  let cols_to_check := columns df in
  df <- lift_result (dropna_rows cols_to_check df) ;;
  print [PStr "Remove 'YR' from column names."] ;;
  let df := rename_columns (str_replace "YR" "") df in
  print [PStr "Round percentage values to 1 decimal place in year columns."] ;;
  let df := round_frame 1 df in
  print [PStr "Take transpose of the dataframe."] ;;
  let df := transpose df in
  let df := set_index_name (Some "Year") df in
  let df := rename_axis_columns None df in
  print [PStr rule] ;;
  print [PStr "Shape of dataframe before applying preprocessing:";
         PShape before_prep_shape] ;;
  print [PStr "Shape of dataframe after applying preprocessing:";
         PShape (shape df)] ;;
  print [PStr ("Top 5 rows now:" +:+ nl)] ;;
  print [PFrame (head 5 df)] ;;
  print [PStr rule] ;;
  sret df.

(** The table the caller passed, as the call leaves it: the steps of
    lines 107-114 have been applied to it, the later ones have not. *)
Definition preprocess_df_argument (df : frame Q) : exn + frame Q :=
  let df := dropna_columns df in
  match dropna_rows (columns df) df with
  | inl e => inl e
  | inr df => inr (rename_columns (str_replace "YR" "") df)
  end.

(** ** The result, without the printing *)

(** The table without its empty columns and rows. *)
Definition clean (df : frame Q) : frame Q :=
  dropna_rows_all (dropna_columns df).

Definition reshape (df : frame Q) : frame Q :=
  rename_axis_columns None
    (set_index_name (Some "Year")
       (transpose
          (round_frame 1
             (rename_columns (str_replace "YR" "") (clean df))))).

(** What a call prints, given the shapes before and after and the head of
    the result. *)
Definition preprocess_report (before after : nat * nat) (top : frame Q) :
    list event :=
  [Print [PStr (nl +:+ "Drop columns with all nulls.")];
   Print [PStr "Drop rows with all nulls in year columns."];
   Print [PStr "Remove 'YR' from column names."];
   Print [PStr "Round percentage values to 1 decimal place in year columns."];
   Print [PStr "Take transpose of the dataframe."];
   Print [PStr rule];
   Print [PStr "Shape of dataframe before applying preprocessing:";
          PShape before];
   Print [PStr "Shape of dataframe after applying preprocessing:";
          PShape after];
   Print [PStr ("Top 5 rows now:" +:+ nl)];
   Print [PFrame top];
   Print [PStr rule]].

(** ** Facts *)

Implicit Types (df : frame Q).

Lemma clean_wf df : frame_wf df → frame_wf (clean df).
Proof. unfold clean. auto with frame. Qed.

Lemma dropna_rows_clean df :
  frame_wf df →
  dropna_rows (columns (dropna_columns df)) (dropna_columns df) = inr (clean df).
Proof. intros. by apply dropna_rows_self, dropna_columns_wf. Qed.

Lemma reshape_frame_wf df : frame_wf df → frame_wf (reshape df).
Proof.
  intros Hwf. unfold reshape, clean. auto 10 with frame.
Qed.

(** The run of [preprocess_df] on a table: the subset of the row drop
    names every column, so it cannot miss. *)
Lemma preprocess_df_eq df :
  frame_wf df →
  preprocess_df df
  = (preprocess_report (shape df) (shape (reshape df)) (head 5 (reshape df)),
     inr (reshape df)).
Proof.
  intros Hwf. unfold preprocess_df. rewrite dropna_rows_clean by done.
  reflexivity.
Qed.

(** Whatever the table, well formed or not, the call returns and prints
    its report. *)
Lemma preprocess_df_returns df :
  ∃ r, preprocess_df df
       = (preprocess_report (shape df) (shape r) (head 5 r), inr r).
Proof.
  unfold preprocess_df.
  destruct (dropna_rows_columns (dropna_columns df)) as [g ->]. by eexists.
Qed.

(** C4. A call of [preprocess_df] on a table never raises: naming
    every column as the subset of the row drop cannot miss.  It returns
    the reshaped table, and what it prints is the five progress lines, the
    shapes before and after and the first five rows of the result, in
    that order. *)
Theorem preprocess_df_run df :
  frame_wf df →
  returns (preprocess_df df) (reshape df)
  ∧ emitted (preprocess_df df)
    = preprocess_report (shape df) (shape (reshape df)) (head 5 (reshape df)).
Proof. intros Hwf. by rewrite preprocess_df_eq. Qed.

Lemma preprocess_df_run_witness :
  returns (preprocess_df sample_table) (reshape sample_table)
  ∧ emitted (preprocess_df sample_table)
    = preprocess_report (4, 3) (2, 3) (reshape sample_table).
Proof. exact (preprocess_df_run sample_table sample_table_wf). Defined.

Lemma index_reshape df :
  index (reshape df) = str_replace "YR" "" <$> columns (dropna_columns df).
Proof. done. Qed.

Lemma columns_reshape df :
  frame_wf df → columns (reshape df) = index (dropna_rows_all df).
Proof.
  intros Hwf. unfold reshape, clean. by rewrite dropna_rows_columns_commute.
Qed.

(** The result has one row per column of the input that holds a
    value and one column per row of the input that holds a value: its
    shape is the input's shape turned round, less the empty columns and
    the empty rows. *)
Theorem reshape_shape df :
  frame_wf df →
  shape (reshape df)
  = (length (columns df) - length (filter all_null (column_values df)),
     length (index df) - length (filter all_null (values df))).
Proof.
  intros Hwf. unfold shape. rewrite columns_reshape, index_reshape by done.
  rewrite length_fmap, length_columns_dropna_columns by done.
  by rewrite length_index_dropna_rows_all.
Qed.

Lemma reshape_shape_witness : shape (reshape sample_table) = (3 - 1, 4 - 1).
Proof. exact (reshape_shape sample_table sample_table_wf). Defined.


(** The row labels of the result are the labels of exactly the
    columns of the input that hold a value, in their order, with [YR]
    removed: an empty column goes, and no other. *)
Theorem reshape_index df :
  frame_wf df →
  index (reshape df)
  = str_replace "YR" "" <$>
      (filter (λ kc, ¬ all_null kc.2) (zip (columns df) (column_values df))).*1.
Proof. intros Hwf. by rewrite index_reshape, columns_dropna_columns. Qed.

Lemma reshape_index_witness : index (reshape sample_table) = ["2000"; "2002"].
Proof. exact (reshape_index sample_table sample_table_wf). Defined.


(** The column labels of the result are the labels of exactly
    the rows of the input that hold a value, in their order: whether a row
    is empty does not depend on the columns dropped before it. *)
Theorem reshape_columns df :
  frame_wf df →
  columns (reshape df)
  = (filter (λ ir, ¬ all_null ir.2) (zip (index df) (values df))).*1.
Proof. intros Hwf. by rewrite columns_reshape, index_dropna_rows_all. Qed.

Lemma reshape_columns_witness :
  columns (reshape sample_table) = ["Afghanistan"; "Albania"; "World"].
Proof. exact (reshape_columns sample_table sample_table_wf). Defined.


Lemma clean_rows_clean df : Forall (λ row, ¬ all_null row) (values (clean df)).
Proof. apply dropna_rows_all_clean. Qed.

Lemma clean_columns_clean df :
  frame_wf df → Forall (λ col, ¬ all_null col) (column_values (clean df)).
Proof.
  intros Hwf. apply dropna_rows_all_keeps_columns_clean; [auto with frame|].
  by apply dropna_columns_clean.
Qed.

Lemma values_reshape df :
  values (reshape df)
  = fmap (M:=list) (cell_round 1) <$> column_values (clean df).
Proof.
  change (values (reshape df)) with (column_values
    (round_frame 1 (rename_columns (str_replace "YR" "") (clean df)))).
  by rewrite column_values_round_frame, column_values_rename_columns.
Qed.

Lemma column_values_reshape df :
  frame_wf df →
  column_values (reshape df)
  = fmap (M:=list) (cell_round 1) <$> values (clean df).
Proof.
  intros Hwf.
  change (column_values (reshape df)) with (column_values (transpose
    (round_frame 1 (rename_columns (str_replace "YR" "") (clean df))))).
  rewrite column_values_transpose; [done|]. pose proof (clean_wf df Hwf).
  auto with frame.
Qed.

(** C17. The result has no empty row and no empty column: dropping
    the empty rows after the empty columns cannot empty a column again. *)
Theorem reshape_clean df :
  frame_wf df →
  Forall (λ row, ¬ all_null row) (values (reshape df))
  ∧ Forall (λ col, ¬ all_null col) (column_values (reshape df)).
Proof.
  intros Hwf. rewrite values_reshape, column_values_reshape by done.
  split; apply Forall_not_all_null_round;
    auto using clean_rows_clean, clean_columns_clean.
Qed.

Lemma reshape_clean_witness :
  Forall (λ row, ¬ all_null row) (values (reshape sample_table))
  ∧ Forall (λ col, ¬ all_null col) (column_values (reshape sample_table)).
Proof. exact (reshape_clean sample_table sample_table_wf). Defined.


(** Every value of the result has one decimal: rounding the
    result to one decimal again changes nothing. *)
Theorem reshape_rounded df : round_frame 1 (reshape df) = reshape df.
Proof.
  unfold reshape.
  rewrite round_frame_axis, round_frame_index_name, round_frame_transpose.
  by rewrite round_frame_idempotent.
Qed.

(** C11. The cell of the result at year [j] and entity [i] is the cell
    of the cleaned input at entity [i] and year [j], rounded to one
    decimal; a missing value stays missing. *)
Theorem reshape_cell df i j :
  frame_wf df → j < length (columns (clean df)) →
  iloc (reshape df) j i = cell_round 1 <$> iloc (clean df) i j.
Proof.
  intros Hwf Hj. unfold iloc. rewrite values_reshape.
  rewrite list_lookup_fmap. unfold column_values.
  pose proof (lookup_transpose_mat _ (values (clean df)) i j
                (frame_wf_rect _ (clean_wf _ Hwf)) Hj) as Hcell.
  destruct (transpose_mat _ _ !! j) as [col|]; simpl in *.
  - rewrite list_lookup_fmap. by rewrite Hcell.
  - by rewrite <-Hcell.
Qed.

Lemma reshape_cell_witness :
  iloc (reshape sample_table) 1 0 = Some (Some 23.0%Q).
Proof.
  apply (reshape_cell sample_table 0 1 sample_table_wf).
  vm_compute. lia.
Defined.


Lemma clean_noop df :
  frame_wf df →
  Forall (λ row, ¬ all_null row) (values df) →
  Forall (λ col, ¬ all_null col) (column_values df) →
  clean df = df.
Proof.
  intros Hwf Hrows Hcols. unfold clean.
  rewrite dropna_columns_noop by done. by apply dropna_rows_all_noop.
Qed.

(** On a table with no empty row and no empty column the two
    drops do nothing: the result has the input's shape turned round, its
    row labels as column labels and its column labels, without [YR], as
    row labels. *)
Theorem reshape_of_clean df :
  frame_wf df →
  Forall (λ row, ¬ all_null row) (values df) →
  Forall (λ col, ¬ all_null col) (column_values df) →
  shape (reshape df) = (length (columns df), length (index df))
  ∧ columns (reshape df) = index df
  ∧ index (reshape df) = str_replace "YR" "" <$> columns df.
Proof.
  intros Hwf Hrows Hcols. unfold reshape, shape.
  rewrite clean_noop by done. simpl. by rewrite length_fmap.
Qed.

Lemma reshape_of_clean_witness :
  shape (reshape (clean sample_table)) = (2, 3)
  ∧ columns (reshape (clean sample_table)) = ["Afghanistan"; "Albania"; "World"]
  ∧ index (reshape (clean sample_table)) = ["2000"; "2002"].
Proof.
  apply (reshape_of_clean (clean sample_table));
    by apply (bool_decide_unpack _).
Defined.


(** The call changes the table it is given: it leaves it
    without its empty columns and rows and with [YR] removed from its
    column labels, neither rounded nor transposed; the table it returns
    is that table rounded, transposed and with its axes renamed. *)
Theorem preprocess_df_argument_spec df :
  frame_wf df →
  ∃ argument,
    preprocess_df_argument df = inr argument
    ∧ argument = rename_columns (str_replace "YR" "") (clean df)
    ∧ returns (preprocess_df df)
        (rename_axis_columns None
           (set_index_name (Some "Year")
              (transpose (round_frame 1 argument)))).
Proof.
  intros Hwf. eexists. split_and!; [|done|by rewrite preprocess_df_eq].
  unfold preprocess_df_argument. by rewrite dropna_rows_clean.
Qed.

Lemma preprocess_df_argument_spec_witness :
  ∃ argument,
    preprocess_df_argument sample_table = inr argument
    ∧ argument = rename_columns (str_replace "YR" "") (clean sample_table)
    ∧ returns (preprocess_df sample_table)
        (rename_axis_columns None
           (set_index_name (Some "Year")
              (transpose (round_frame 1 argument)))).
Proof. exact (preprocess_df_argument_spec sample_table sample_table_wf). Defined.


(** The row axis of the result is named [Year] and its column
    axis has no name, whatever the names of the input's axes. *)
Theorem reshape_axis_names df :
  index_name (reshape df) = Some "Year" ∧ columns_name (reshape df) = None.
Proof. done. Qed.

(** The result is a table: as many rows of cells as row labels, and
    in every row as many cells as column labels. *)
Theorem reshape_wf df :
  frame_wf df →
  length (values (reshape df)) = length (index (reshape df))
  ∧ Forall (λ row, length row = length (columns (reshape df)))
           (values (reshape df)).
Proof. apply reshape_frame_wf. Qed.

Lemma reshape_wf_witness :
  length (values (reshape sample_table)) = length (index (reshape sample_table))
  ∧ Forall (λ row, length row = length (columns (reshape sample_table)))
           (values (reshape sample_table)).
Proof. exact (reshape_wf sample_table sample_table_wf). Defined.

(** When the columns of the raw table are labelled [YR] followed by
    a year, the rows of the reshaped table are labelled by the years
    alone, one row for each year that has a value somewhere, in the order
    of the raw columns. *)
Theorem reshape_years df (years : list string) :
  frame_wf df →
  columns df = (λ year, "YR" +:+ year) <$> years →
  Forall (λ year, "Y"%char ∉ chars year) years →
  index (reshape df) = compress (notna_any_columns df) years.
Proof.
  intros Hwf Hcols Hyears. rewrite index_reshape. simpl.
  rewrite Hcols, <-!compress_fmap, <-list_fmap_compose. f_equal.
  rewrite <-(list_fmap_id years) at 2. apply Forall_fmap_ext_1.
  eapply Forall_impl; [done|]. intros year Hy. by apply str_replace_YR_label.
Qed.

Lemma reshape_years_witness :
  index (reshape sample_table)
  = compress (notna_any_columns sample_table) ["2000"; "2001"; "2002"].
Proof.
  apply (reshape_years sample_table ["2000"; "2001"; "2002"]
           sample_table_wf eq_refl).
  by apply (bool_decide_unpack _).
Defined.

