(* ===== verification/Content.v ===== *)
(** * Content: a table as a finite map from labels to values

    What a table holds, with the layout forgotten: [content f] is the
    finite map that sends a pair of a row label and a column label to the
    value of the cell they name, and has no binding where the cell is
    [NaN].  It is the abstract state of which [frame] is the
    representation: the positions, the order of the labels and the empty
    rows and columns are details of the representation.

    [cell_at f r c v] says, by positions, that the cell of [f] labelled
    [(r, c)] holds [v]; on a table whose labels are unique ([labelled])
    it is the lookup in [content f] ([lookup_content]).

    The operations of the reshaper ([Frame], [Preprocess]) are then shown
    to implement operations on maps:
    - dropping the empty rows and columns changes nothing;
    - a transposition swaps the two components of every key ([kmap]);
    - rounding maps the rounding over the values ([fmap]);
    - [Preprocess.reshape], from a table whose columns are labelled
      [YR<year>]: the value at [(year, country)] is the value the input
      holds at [(country, YR<year>)], rounded to one decimal, and there
      is no other value. *)

From Stdlib Require Import QArith Ascii.
From stdpp Require Import base tactics option list strings gmap.
From S2P Require Import Prelude Numeric Labels Frame Plot Effects Preprocess.
Local Close Scope Q_scope.
Local Open Scope string_scope.

(** ** The abstraction *)

Section content.
Context {A : Type}.
Implicit Types (f : frame A) (r c : string) (v : A).

(** The cell of [f] in a row labelled [r] and a column labelled [c]
    holds the value [v]. *)
Definition cell_at (f : frame A) (r c : string) (v : A) : Prop :=
  ∃ i j, index f !! i = Some r ∧ columns f !! j = Some c
         ∧ iloc f i j = Some (Some v).

(** The values of one row with their labels. *)
Definition row_entries (cols : list string) (r : string)
    (row : list (option A)) : list (string * string * A) :=
  omap (λ cc, (λ v, (r, cc.1, v)) <$> cc.2) (zip cols row).

(** The values of the table with their labels, row by row. *)
Definition entries (f : frame A) : list (string * string * A) :=
  mjoin (zip_with (row_entries (columns f)) (index f) (values f)).

(** The table as a finite map. *)
Definition content (f : frame A) : gmap (string * string) A :=
  list_to_map (entries f).

(** The table with the given labels that holds [m]: the representation
    of a map, the cells without binding being [NaN]. *)
Definition of_content (idx cols : list string)
    (m : gmap (string * string) A) : frame A :=
  Frame idx cols ((λ r, (λ c, m !! (r, c)) <$> cols) <$> idx) None None.

(** A table whose rows and whose columns are told apart by their
    labels. *)
Definition labelled (f : frame A) : Prop :=
  frame_wf f ∧ NoDup (index f) ∧ NoDup (columns f).

#[global] Instance labelled_dec f : Decision (labelled f).
Proof. unfold labelled. apply _. Defined.

End content.

(** ** Facts *)

Section content_facts.
Context {A : Type}.
Implicit Types (f : frame A) (r c : string) (v : A).

Lemma elem_of_row_entries cols r0 row r c v :
  (r, c, v) ∈ row_entries cols r0 row
  ↔ r = r0 ∧ ∃ j, cols !! j = Some c ∧ row !! j = Some (Some v).
Proof.
  unfold row_entries. rewrite list_elem_of_omap. split.
  - intros (cc & Hin & Hv).
    apply elem_of_lookup_zip_with in Hin as (j & c' & cell & -> & Hc & Hcell).
    destruct cell; simplify_eq/=. eauto.
  - intros (-> & j & Hc & Hcell). exists (c, Some v). split; [|done].
    apply elem_of_lookup_zip_with. eauto 6.
Qed.

Lemma elem_of_entries f r c v : (r, c, v) ∈ entries f ↔ cell_at f r c v.
Proof.
  unfold entries, cell_at, iloc. rewrite list_elem_of_join. split.
  - intros (l & Hv & Hl).
    apply elem_of_lookup_zip_with in Hl as (i & r0 & row & -> & Hr & Hrow).
    apply elem_of_row_entries in Hv as (-> & j & Hc & Hcell).
    exists i, j. by rewrite Hrow.
  - intros (i & j & Hr & Hc & Hcell).
    destruct (values f !! i) as [row|] eqn:Hrow; simplify_eq/=.
    exists (row_entries (columns f) r row). split.
    + apply elem_of_row_entries. eauto.
    + apply elem_of_lookup_zip_with. eauto 6.
Qed.

(** Unique labels name one cell. *)
Lemma cell_at_unique f r c v v' :
  NoDup (index f) → NoDup (columns f) →
  cell_at f r c v → cell_at f r c v' → v = v'.
Proof.
  intros Hidx Hcols (i & j & Hi & Hj & Hv) (i' & j' & Hi' & Hj' & Hv').
  assert (i = i') as <- by eauto using NoDup_lookup.
  assert (j = j') as <- by eauto using NoDup_lookup. congruence.
Qed.

Lemma lookup_content f r c v :
  NoDup (index f) → NoDup (columns f) →
  content f !! (r, c) = Some v ↔ cell_at f r c v.
Proof.
  intros Hidx Hcols. unfold content.
  rewrite <-elem_of_entries, <-elem_of_list_to_map'; [done|].
  intros v'. rewrite !elem_of_entries. by apply cell_at_unique.
Qed.

(** Two maps are equal when the cells of two tables are the same. *)
Lemma content_eq f g :
  NoDup (index f) → NoDup (columns f) → NoDup (index g) → NoDup (columns g) →
  (∀ r c v, cell_at f r c v ↔ cell_at g r c v) → content f = content g.
Proof.
  intros ???? Hcells. apply map_eq. intros [r c]. apply option_eq. intros v.
  by rewrite !lookup_content, Hcells.
Qed.

(** *** The cells of a table by rows *)

Lemma cell_at_rows f r c v :
  cell_at f r c v
  ↔ ∃ row j, (r, row) ∈ zip (index f) (values f)
             ∧ columns f !! j = Some c ∧ row !! j = Some (Some v).
Proof.
  unfold cell_at, iloc. split.
  - intros (i & j & Hr & Hc & Hcell).
    destruct (values f !! i) as [row|] eqn:Hrow; simplify_eq/=.
    exists row, j. split; [|done]. apply elem_of_lookup_zip_with. eauto 6.
  - intros (row & j & Hin & Hc & Hcell).
    apply elem_of_lookup_zip_with in Hin as (i & ? & ? & ? & Hr & Hrow).
    simplify_eq. exists i, j. by rewrite Hrow.
Qed.

Lemma compress_zip {B C} m (l : list B) (k : list C) :
  compress m (zip l k) = zip (compress m l) (compress m k).
Proof.
  revert l k. induction m as [|[] m IH]; intros [|x l] [|y k]; simpl;
    rewrite ?compress_nil_r; try done; [by f_equal|].
  by destruct (compress m l).
Qed.

(** *** What each operation does to the cells *)

Lemma cell_at_transpose f r c v :
  frame_wf f → cell_at (transpose f) c r v ↔ cell_at f r c v.
Proof.
  intros Hwf. unfold cell_at. split.
  - intros (j & i & Hc & Hr & Hcell). exists i, j.
    rewrite <-iloc_transpose; [done..|]. by eapply lookup_lt_Some.
  - intros (i & j & Hr & Hc & Hcell). exists j, i. simpl.
    rewrite iloc_transpose; [done..|]. by eapply lookup_lt_Some.
Qed.

Lemma cell_at_dropna_rows_all f r c v :
  cell_at (dropna_rows_all f) r c v ↔ cell_at f r c v.
Proof.
  rewrite !cell_at_rows. simpl. rewrite <-compress_zip.
  split; intros (row & j & Hrow & Hc & Hcell); exists row, j;
    (split; [|done]).
  - eapply elem_of_sublist; [done|apply compress_sublist].
  - apply list_elem_of_lookup in Hrow as [i Hi].
    apply lookup_zip_with_Some in Hi as (? & ? & ? & Hr & Hrow); simplify_eq.
    apply compress_lookup. exists i. split.
    + rewrite list_lookup_fmap, Hrow. simpl. f_equal.
      apply existsb_notna, not_all_null. eauto.
    + apply lookup_zip_with_Some. eauto.
Qed.

Lemma cell_at_dropna_columns f r c v :
  frame_wf f → cell_at (dropna_columns f) r c v ↔ cell_at f r c v.
Proof.
  intros Hwf. rewrite dropna_columns_transpose by done.
  rewrite cell_at_transpose by auto with frame.
  by rewrite cell_at_dropna_rows_all, cell_at_transpose.
Qed.

Lemma cell_at_rename_columns g f r c' v :
  cell_at (rename_columns g f) r c' v ↔ ∃ c, c' = g c ∧ cell_at f r c v.
Proof.
  unfold cell_at, iloc. simpl. setoid_rewrite list_lookup_fmap. split.
  - intros (i & j & Hr & Hc & Hcell).
    destruct (columns f !! j) as [c|] eqn:Hj; simplify_eq/=. eauto 8.
  - intros (c & -> & i & j & Hr & Hc & Hcell). exists i, j.
    by rewrite Hc.
Qed.

Lemma cell_at_axis_names f name name' r c v :
  cell_at (rename_axis_columns name (set_index_name name' f)) r c v
  ↔ cell_at f r c v.
Proof. done. Qed.

(** A cell of the columns taken at [ixs] is a cell of one of those
    columns. *)
Lemma cell_at_take_columns ixs f r c v :
  frame_wf f → Forall (λ p, p < length (columns f)) ixs →
  cell_at (take_columns ixs f) r c v
  ↔ ∃ i p, p ∈ ixs ∧ index f !! i = Some r ∧ columns f !! p = Some c
           ∧ iloc f i p = Some (Some v).
Proof.
  intros Hwf Hixs. unfold cell_at.
  setoid_rewrite iloc_take_columns; [|done..]. simpl.
  setoid_rewrite lookup_gather; [|done]. split.
  - intros (i & j & Hr & Hc & Hcell).
    destruct (ixs !! j) as [p|] eqn:Hj; simplify_eq/=.
    exists i, p. eauto using list_elem_of_lookup_2.
  - intros (i & p & [j Hj]%list_elem_of_lookup_1 & Hr & Hc & Hcell).
    exists i, j. by rewrite Hj.
Qed.

(** [df[keys]] keeps the cells of the columns whose label is asked
    for. *)
Lemma cell_at_select keys f r c v :
  frame_wf f →
  cell_at (take_columns (keys ≫= λ k, positions k (columns f)) f) r c v
  ↔ c ∈ keys ∧ cell_at f r c v.
Proof.
  intros Hwf. rewrite cell_at_take_columns by (done || apply bind_positions_lt).
  unfold cell_at. setoid_rewrite list_elem_of_bind.
  setoid_rewrite elem_of_positions. split.
  - intros (i & p & (k & Hk & ?) & Hr & Hc & Hcell). simplify_eq. eauto 6.
  - intros (Hc & i & p & Hr & Hp & Hcell). exists i, p. eauto 6.
Qed.

(** [df[label] = vals] leaves the cells of the columns of other
    labels. *)
Lemma cell_at_set_column_ne label vals f r c v :
  frame_wf f → length vals = length (index f) → c ≠ label →
  cell_at (set_column label vals f) r c v ↔ cell_at f r c v.
Proof.
  intros Hwf Hvals Hc. unfold cell_at. rewrite index_set_column.
  assert (∀ p, columns (set_column label vals f) !! p = Some c
               ↔ columns f !! p = Some c) as Hcols.
  { intros p. rewrite columns_set_column. case_decide; [done|].
    rewrite lookup_app_Some, list_lookup_singleton_Some.
    split; [intros [?|(_ & _ & ?)]; [done|congruence]|by left]. }
  split; intros (i & p & Hr & Hp & Hcell); exists i, p;
    (split_and!; [done|by apply Hcols|]).
  - by rewrite (iloc_set_column _ _ _ _ _ c), decide_False in Hcell.
  - rewrite (iloc_set_column _ _ _ _ _ c), decide_False; [done..|].
    by apply Hcols.
Qed.

(** The cells of the column that was assigned are the cells
    assigned. *)
Lemma cell_at_set_column_eq label vals f r v :
  frame_wf f → length vals = length (index f) →
  cell_at (set_column label vals f) r label v
  ↔ ∃ i, index f !! i = Some r ∧ vals !! i = Some (Some v).
Proof.
  intros Hwf Hvals. unfold cell_at. rewrite index_set_column. split.
  - intros (i & p & Hr & Hp & Hcell). exists i. split; [done|].
    by rewrite (iloc_set_column _ _ _ _ _ label), decide_True in Hcell.
  - intros (i & Hr & Hv).
    assert (label ∈ columns (set_column label vals f))
      as [p Hp]%list_elem_of_lookup_1
      by (apply elem_of_columns_set_column; auto).
    exists i, p. split_and!; [done..|].
    by rewrite (iloc_set_column _ _ _ _ _ label), decide_True.
Qed.

End content_facts.

Lemma cell_at_round_frame d (f : frame Q) r c w :
  cell_at (round_frame d f) r c w
  ↔ ∃ v, cell_at f r c v ∧ w = round_dec d v.
Proof.
  unfold cell_at, iloc. simpl. setoid_rewrite list_lookup_fmap. split.
  - intros (i & j & Hr & Hc & Hcell).
    destruct (values f !! i) as [row|] eqn:Hrow; simplify_eq/=.
    rewrite list_lookup_fmap in Hcell.
    destruct (row !! j) as [[v|]|] eqn:Hj; simplify_eq/=.
    exists v. split; [|done]. exists i, j. by rewrite Hrow.
  - intros (v & (i & j & Hr & Hc & Hcell) & ->). exists i, j.
    destruct (values f !! i) as [row|] eqn:Hrow; simplify_eq/=.
    by rewrite list_lookup_fmap, Hcell.
Qed.

(** The cells of the reshaped table, whatever the labels. *)
Lemma cell_at_reshape (df : frame Q) year country w :
  frame_wf df →
  cell_at (reshape df) year country w
  ↔ ∃ c v, year = str_replace "YR" "" c ∧ cell_at df country c v
           ∧ w = round_dec 1 v.
Proof.
  intros Hwf. unfold reshape. pose proof (clean_wf df Hwf).
  rewrite cell_at_axis_names, cell_at_transpose by auto with frame.
  rewrite cell_at_round_frame. setoid_rewrite cell_at_rename_columns.
  unfold clean. setoid_rewrite cell_at_dropna_rows_all.
  setoid_rewrite cell_at_dropna_columns; [|done..].
  split; [intros (v & (c & -> & Hv) & ->)|intros (c & v & -> & Hv & ->)];
    eauto 6.
Qed.

(** ** Tables with unique labels *)

Section labelled.
Context {A : Type}.
Implicit Types (f : frame A).

Lemma NoDup_compress {B} m (l : list B) : NoDup l → NoDup (compress m l).
Proof. intros. eapply sublist_NoDup; [done|apply compress_sublist]. Qed.

Lemma labelled_transpose f : labelled f → labelled (transpose f).
Proof. intros (? & ? & ?). split_and!; auto with frame. Qed.

Lemma labelled_dropna_rows_all f : labelled f → labelled (dropna_rows_all f).
Proof.
  intros (? & ? & ?).
  split_and!; [auto with frame|simpl; by try apply NoDup_compress..].
Qed.

Lemma labelled_dropna_columns f : labelled f → labelled (dropna_columns f).
Proof.
  intros (? & ? & ?).
  split_and!; [auto with frame|simpl; by try apply NoDup_compress..].
Qed.

(** *** The operations on the content *)

Lemma content_transpose f :
  labelled f → content (transpose f) = kmap prod_swap (content f).
Proof.
  intros (Hwf & Hidx & Hcols). apply map_eq. intros [c r].
  apply option_eq. intros v.
  rewrite lookup_content, cell_at_transpose by done.
  rewrite (lookup_kmap_Some _ _ (c, r)). split.
  - intros Hv. exists (r, c). by rewrite lookup_content.
  - intros ([r' c'] & [= -> ->] & Hv). by apply lookup_content.
Qed.

Lemma content_dropna_rows_all f :
  labelled f → content (dropna_rows_all f) = content f.
Proof.
  intros Hf. destruct (labelled_dropna_rows_all f Hf) as (_ & ? & ?).
  destruct Hf as (_ & ? & ?).
  apply content_eq; auto using cell_at_dropna_rows_all.
Qed.

Lemma content_dropna_columns f :
  labelled f → content (dropna_columns f) = content f.
Proof.
  intros Hf. destruct (labelled_dropna_columns f Hf) as (_ & ? & ?).
  destruct Hf as (? & ? & ?).
  apply content_eq; auto using cell_at_dropna_columns.
Qed.

End labelled.

Lemma labelled_clean (df : frame Q) : labelled df → labelled (clean df).
Proof. intros. by apply labelled_dropna_rows_all, labelled_dropna_columns. Qed.

Lemma content_round_frame d (f : frame Q) :
  NoDup (index f) → NoDup (columns f) →
  content (round_frame d f) = round_dec d <$> content f.
Proof.
  intros Hidx Hcols. apply map_eq. intros [r c]. rewrite lookup_fmap.
  apply option_eq. intros w.
  rewrite lookup_content, cell_at_round_frame, fmap_Some by done.
  by setoid_rewrite lookup_content.
Qed.

(** ** The reshaper on tables of year columns *)

Section years.
Context (df : frame Q) (years : list string).
Context (Hdf : labelled df).
Context (Hcols : columns df = (λ year, "YR" +:+ year) <$> years).
Context (Hyears : Forall (λ year, "Y"%char ∉ chars year) years).

Lemma NoDup_years : NoDup years.
Proof using Hdf Hcols.
  destruct Hdf as (_ & _ & Hnd). rewrite Hcols in Hnd.
  by apply NoDup_fmap_1 in Hnd.
Qed.

Lemma labelled_reshape : labelled (reshape df).
Proof using Hdf Hcols Hyears.
  destruct Hdf as (Hwf & Hidx & _). split_and!.
  - by apply reshape_frame_wf.
  - rewrite (reshape_years df years) by done.
    apply NoDup_compress, NoDup_years.
  - rewrite columns_reshape by done. by apply NoDup_compress.
Qed.

(** A column that holds a value is a year column. *)
Lemma cell_at_year country c v :
  cell_at df country c v →
  ∃ year, c = "YR" +:+ year ∧ str_replace "YR" "" c = year.
Proof using Hcols Hyears.
  intros (_ & j & _ & Hc & _). rewrite Hcols, list_lookup_fmap in Hc.
  destruct (years !! j) as [year|] eqn:Hj; simplify_eq/=.
  exists year. split; [done|]. apply str_replace_YR_label.
  eapply Forall_lookup_1 in Hyears; done.
Qed.

Lemma lookup_content_reshape year country :
  content (reshape df) !! (year, country)
  = round_dec 1 <$> content df !! (country, "YR" +:+ year).
Proof using Hdf Hcols Hyears.
  destruct labelled_reshape as (_ & ? & ?). destruct Hdf as (Hwf & ? & ?).
  apply option_eq. intros w.
  rewrite lookup_content, cell_at_reshape, fmap_Some by done.
  setoid_rewrite lookup_content; [|done..]. split.
  - intros (c & v & -> & Hv & ->). exists v. split; [|done].
    destruct (cell_at_year _ _ _ Hv) as (year & -> & ->). done.
  - intros (v & Hv & ->). exists ("YR" +:+ year), v. split_and!; [|done..].
    destruct (cell_at_year _ _ _ Hv) as (year' & Heq & ->).
    by apply (inj _) in Heq.
Qed.
End years.

(** ** From the content back to the table *)

Section of_content.
Context {A : Type}.
Implicit Types (f : frame A) (m : gmap (string * string) A).

(** On a table with unique labels the content at the labels of a
    position is the cell at that position. *)
Lemma content_iloc f i j r c :
  NoDup (index f) → NoDup (columns f) →
  index f !! i = Some r → columns f !! j = Some c →
  content f !! (r, c) = mjoin (iloc f i j).
Proof.
  intros Hidx Hcols Hr Hc. apply option_eq. intros v.
  rewrite lookup_content by done. split.
  - intros (i' & j' & Hr' & Hc' & Hcell).
    assert (i' = i) as -> by eauto using NoDup_lookup.
    assert (j' = j) as -> by eauto using NoDup_lookup. by rewrite Hcell.
  - intros Hcell. exists i, j. split_and!; [done..|].
    by destruct (iloc f i j) as [[]|]; simplify_eq/=.
Qed.

Lemma of_content_wf idx cols m : frame_wf (of_content idx cols m).
Proof.
  split; simpl; [by rewrite length_fmap|]. apply Forall_fmap, Forall_true.
  intros r. simpl. by rewrite length_fmap.
Qed.

Lemma values_of_content f :
  labelled f → values (of_content (index f) (columns f) (content f)) = values f.
Proof.
  intros ((Hrows & Hrect) & Hidx & Hcols). simpl. apply list_eq. intros i.
  rewrite list_lookup_fmap.
  destruct (index f !! i) as [r|] eqn:Hr; simpl.
  - destruct (lookup_lt_is_Some_2 (values f) i) as [row Hrow].
    { rewrite Hrows. by eapply lookup_lt_Some. }
    rewrite Hrow. f_equal. apply list_eq. intros j. rewrite list_lookup_fmap.
    pose proof (rect_lookup _ _ _ _ Hrect Hrow) as Hlen.
    destruct (columns f !! j) as [c|] eqn:Hc; simpl.
    + rewrite (content_iloc f i j) by done. unfold iloc. rewrite Hrow. simpl.
      destruct (lookup_lt_is_Some_2 row j) as [cell Hcell];
        [rewrite Hlen; by eapply lookup_lt_Some|]. by rewrite Hcell.
    + symmetry. apply lookup_ge_None. rewrite Hlen. by apply lookup_ge_None.
  - symmetry. apply lookup_ge_None. rewrite Hrows. by apply lookup_ge_None.
Qed.

Lemma cell_at_of_content idx cols m r c v :
  cell_at (of_content idx cols m) r c v
  ↔ r ∈ idx ∧ c ∈ cols ∧ m !! (r, c) = Some v.
Proof.
  unfold cell_at, iloc. simpl. setoid_rewrite list_lookup_fmap.
  rewrite !list_elem_of_lookup. split.
  - intros (i & j & Hr & Hc & Hcell). rewrite Hr in Hcell. simpl in Hcell.
    rewrite list_lookup_fmap, Hc in Hcell. simplify_eq/=. eauto.
  - intros ([i Hr] & [j Hc] & Hv). exists i, j. rewrite Hr. simpl.
    rewrite list_lookup_fmap, Hc. simpl. by rewrite Hv.
Qed.
End of_content.

(** ** The theorems *)

(** C21. The table operations of the reshaper implement operations on the
    finite map of the values: on a table with unique labels, dropping the
    empty columns or the empty rows leaves the map as it is, transposing
    swaps the two labels of every key, and the result has unique labels
    again. *)
Theorem operations_content {A} (f : frame A) :
  labelled f →
  content (dropna_columns f) = content f
  ∧ content (dropna_rows_all f) = content f
  ∧ content (transpose f) = kmap prod_swap (content f)
  ∧ labelled (dropna_columns f) ∧ labelled (dropna_rows_all f)
  ∧ labelled (transpose f).
Proof.
  intros Hf. split_and!;
    auto using content_dropna_columns, content_dropna_rows_all,
      content_transpose, labelled_dropna_columns, labelled_dropna_rows_all,
      labelled_transpose.
Qed.

(** Rounding a table rounds every value of its map and touches nothing
    else: no binding appears or disappears. *)
Theorem round_frame_content d (f : frame Q) :
  labelled f →
  content (round_frame d f) = round_dec d <$> content f
  ∧ dom (content (round_frame d f)) = dom (content f).
Proof.
  intros (_ & ? & ?). rewrite content_round_frame by done.
  split; [done|]. apply dom_fmap_L.
Qed.

(** C6. The reshaper, on a table with unique labels whose columns are
    labelled [YR] followed by a year: the reshaped table holds at a year
    and an entity the value the raw table holds at that entity and the
    column of that year, rounded to one decimal, and holds nothing where
    the raw table holds nothing.  The empty rows and columns, the order
    of the labels and the orientation play no part. *)
Theorem reshape_content (df : frame Q) (years : list string) year country :
  labelled df →
  columns df = (λ year, "YR" +:+ year) <$> years →
  Forall (λ year, "Y"%char ∉ chars year) years →
  content (reshape df) !! (year, country)
  = round_dec 1 <$> content df !! (country, "YR" +:+ year).
Proof. intros. by eapply lookup_content_reshape. Qed.

(** The map and the labels determine the table: laying the content
    of a table with unique labels out again under its labels gives its
    cells back, the content of the laid out table is the content, and
    the transposed table is the layout of the map with swapped keys under
    the exchanged labels. *)
Theorem of_content_roundtrip {A} (f : frame A) :
  labelled f →
  values (of_content (index f) (columns f) (content f)) = values f
  ∧ values (of_content (columns f) (index f) (kmap prod_swap (content f)))
    = values (transpose f)
  ∧ ∀ r c, content (of_content (index f) (columns f) (content f)) !! (r, c)
           = content f !! (r, c).
Proof.
  intros Hf. split_and!; [by apply values_of_content| |].
  - rewrite <-content_transpose by done.
    by apply (values_of_content (transpose f)), labelled_transpose.
  - intros r c. destruct Hf as (_ & Hidx & Hcols). apply option_eq. intros v.
    rewrite lookup_content, cell_at_of_content by done.
    split; [by intros (_&_&?)|].
    intros Hv. split_and!; [| |done];
      apply lookup_content in Hv as (i & j & ? & ? & _);
      eauto using list_elem_of_lookup_2.
Qed.

(** ** The sample table *)

Lemma sample_table_labelled : labelled sample_table.
Proof. by apply (bool_decide_unpack _). Qed.

Lemma operations_content_witness :
  content (dropna_columns sample_table) = content sample_table
  ∧ content (dropna_rows_all sample_table) = content sample_table
  ∧ content (transpose sample_table) = kmap prod_swap (content sample_table)
  ∧ labelled (dropna_columns sample_table)
  ∧ labelled (dropna_rows_all sample_table)
  ∧ labelled (transpose sample_table).
Proof. exact (operations_content sample_table sample_table_labelled). Defined.

Lemma round_frame_content_witness :
  content (round_frame 1 sample_table) = round_dec 1 <$> content sample_table
  ∧ dom (content (round_frame 1 sample_table)) = dom (content sample_table).
Proof. exact (round_frame_content 1 sample_table sample_table_labelled). Defined.

Lemma sample_years_plain :
  Forall (λ year, "Y"%char ∉ chars year) ["2000"; "2001"; "2002"].
Proof. by apply (bool_decide_unpack _). Qed.

Lemma reshape_content_witness :
  content (reshape sample_table) !! ("2002", "Afghanistan")
  = round_dec 1 <$> content sample_table !! ("Afghanistan", "YR" +:+ "2002").
Proof.
  exact (reshape_content sample_table ["2000"; "2001"; "2002"] "2002"
           "Afghanistan" sample_table_labelled eq_refl sample_years_plain).
Defined.

Lemma of_content_roundtrip_witness :
  values (of_content (index sample_table) (columns sample_table)
            (content sample_table)) = values sample_table
  ∧ values (of_content (columns sample_table) (index sample_table)
              (kmap prod_swap (content sample_table)))
    = values (transpose sample_table)
  ∧ ∀ r c, content (of_content (index sample_table) (columns sample_table)
                      (content sample_table)) !! (r, c)
           = content sample_table !! (r, c).
Proof. exact (of_content_roundtrip sample_table sample_table_labelled). Defined.

(** The content of the sample, computed. *)
Lemma sample_content :
  content (reshape sample_table) !! ("2002", "Afghanistan") = Some 23.0%Q
  ∧ content (reshape sample_table) !! ("2000", "Albania") = Some 88.2%Q
  ∧ content (reshape sample_table) !! ("2002", "Albania") = None
  ∧ size (content (reshape sample_table)) = 5.
Proof. by vm_compute. Qed.
