(* ===== verification/Chart.v ===== *)
(** * Chart: the chart builder

    [create_chart] is the function of that name of
    [src/part1_script.py] (lines 6-68).  Its loops are translated as they
    are written, with [sfor] and the subscripts [dict_getitem] and
    [list_getitem] that could raise: [visibility_step] is the body of the
    loop over the columns (lines 31-40), [category_step] the body of the
    loop over the categories (lines 29-43), [button_step] the body of the
    loop over the buttons (lines 47-49).

    [visibility_entry], [visibility_vector], [all_vector] and
    [chart_buttons] say what the loops compute, as plain functions, and
    [chart_figure] is the figure that results.  [create_chart_run] shows
    that the call never raises, shows the figure once and writes it once,
    to [visual.html], and that the figure is [chart_figure].  The other
    theorems are about that figure: how a column's entry in a vector
    follows from its membership in the category, that every vector has
    one entry per trace, and what a press of a button does to the
    traces. *)

From Stdlib Require Import QArith Ascii.
From stdpp Require Import base tactics option list strings.
From S2P Require Import Prelude Numeric Labels Frame Plot Effects.
Local Close Scope Q_scope.
Local Open Scope string_scope.
Local Open Scope list_scope.
Local Open Scope script_scope.

(** ** The function *)

(** The [labels] argument of [px.line] (lines 19-22). *)
Definition chart_labels : list (string * string) :=
  [("value", "Percentage (%) of Population"); ("variable", "Filter By:")].

(** The [title] argument (line 23). *)
Definition chart_title : string :=
  "Percentage (%) of Population Using At Least Basic Sanitation Services".

(** One pass of the loop over the columns: the entry of [col] is
    appended to [visibility_list]. *)
Definition visibility_step (filter_options : list (string * list string))
    (category_name : string) (visibility_list : list visibility)
    (col : string) : py (list visibility) :=
  options <- dict_getitem filter_options category_name ;;
  if decide (col ∈ options) then
    if decide (col = "Country_Avg_line") then sret (visibility_list ++ [VTrue])
    else if decide (category_name = "Countries")
         then sret (visibility_list ++ [VLegendOnly])
         else sret (visibility_list ++ [VTrue])
  else sret (visibility_list ++ [VFalse]).

(** One pass of the loop over the categories: the vector of
    [category_name] is built and both lists grow by one. *)
Definition category_step (filter_options : list (string * list string))
    (cols : list string) (acc : list string * list (list visibility))
    (category_name : string) : py (list string * list (list visibility)) :=
  visibility_list <- sfor cols (visibility_step filter_options category_name) [] ;;
  sret (acc.1 ++ [category_name], acc.2 ++ [visibility_list]).

(** One pass of the loop over the numbered categories: a button with the
    vector at the same position is appended. *)
Definition button_step (category_visibility_list : list (list visibility))
    (buttons : list button) (ig : nat * string) : py (list button) :=
  vector <- list_getitem category_visibility_list ig.1 ;;
  sret (buttons ++ [Button ig.2 "restyle" ("visible", vector)]).

Definition create_chart (filter_options : list (string * list string))
    (df : frame Q) : py unit :=
  let fig :=
    update_traces_visible VLegendOnly (px_line df chart_labels chart_title) in
  lists <- sfor (dict_keys filter_options)
             (category_step filter_options (columns df)) ([], []) ;;
  let category_list := lists.1 in
  let category_visibility_list := lists.2 in
  buttons <- sfor (enumerate category_list)
               (button_step category_visibility_list) [] ;;
  let buttons :=
    Button "All" "restyle"
      ("visible", (λ _, VLegendOnly) <$> seq 0 (length (columns df)))
    :: buttons in
  let fig := update_layout [UpdateMenu "dropdown" "down" buttons] (1 # 2) fig in
  emit (Show fig) ;;
  emit (WriteHtml "visual.html" fig) ;;
  sret tt.


(** ** What the loops compute *)

(** The entry of column [col] in the vector of a category. *)
Definition visibility_entry (category_name : string) (options : list string)
    (col : string) : visibility :=
  if decide (col ∈ options) then
    if decide (col = "Country_Avg_line") then VTrue
    else if decide (category_name = "Countries") then VLegendOnly
    else VTrue
  else VFalse.

(** The vector of a category: an entry per column of the table. *)
Definition visibility_vector (category_name : string) (options : list string)
    (cols : list string) : list visibility :=
  visibility_entry category_name options <$> cols.

(** The vector of the option [All]. *)
Definition all_vector (cols : list string) : list visibility :=
  replicate (length cols) VLegendOnly.

(** The button of a category. *)
Definition category_button (cols : list string)
    (item : string * list string) : button :=
  Button item.1 "restyle" ("visible", visibility_vector item.1 item.2 cols).

(** The options of the dropdown: [All], then the categories in the order
    of the dictionary. *)
Definition chart_buttons (filter_options : list (string * list string))
    (cols : list string) : list button :=
  Button "All" "restyle" ("visible", all_vector cols)
  :: (category_button cols <$> filter_options).

(** The figure that is shown and written. *)
Definition chart_figure (filter_options : list (string * list string))
    (df : frame Q) : figure :=
  update_layout
    [UpdateMenu "dropdown" "down" (chart_buttons filter_options (columns df))]
    (1 # 2)
    (update_traces_visible VLegendOnly (px_line df chart_labels chart_title)).

(** ** A small chart

    Two years by five series, and the three categories of the script over
    them. *)
Definition sample_chart_table : frame Q :=
  Frame ["2000"; "2002"]
        ["Country_Avg_line"; "Afghanistan"; "Albania"; "South Asia";
         "High income"]
        [[Some 55.1%Q; Some 21.9%Q; Some 88.2%Q; Some 40.0%Q; Some 99.0%Q];
         [Some 23.0%Q; Some 23.0%Q; None; Some 45.5%Q; Some 99.1%Q]]
        (Some "Year") None.

Definition sample_options : list (string * list string) :=
  [("Countries", ["Country_Avg_line"; "Afghanistan"; "Albania"]);
   ("Income Groups", ["High income"]);
   ("Regions", ["South Asia"])].

(** ** The loops compute the vectors *)

Section loops_of_create_chart.
Context (filter_options : list (string * list string)) (cols : list string).
Context (Hwf : dict_wf filter_options).

Lemma visibility_step_item name options acc col :
  dict_get filter_options name = Some options →
  visibility_step filter_options name acc col
  = sret (acc ++ [visibility_entry name options col]).
Proof.
  intros Hget. unfold visibility_step, dict_getitem, visibility_entry.
  rewrite Hget, sbind_sret_l. by repeat case_decide.
Qed.

Lemma category_step_item name options acc :
  dict_get filter_options name = Some options →
  category_step filter_options cols acc name
  = sret (acc.1 ++ [name], acc.2 ++ [visibility_vector name options cols]).
Proof.
  intros Hget. unfold category_step.
  rewrite (sfor_pure _ _ (λ acc col, acc ++ [visibility_entry name options col]))
    by (intros; by apply visibility_step_item).
  by rewrite sbind_sret_l, foldl_snoc_fmap.
Qed.

Definition options_of (name : string) : list string :=
  default [] (dict_get filter_options name).

Lemma category_loop :
  sfor (dict_keys filter_options) (category_step filter_options cols) ([], [])
  = sret (dict_keys filter_options,
          (λ item, visibility_vector item.1 item.2 cols) <$> filter_options).
Proof.
  pose (vector := λ name, visibility_vector name (options_of name) cols).
  rewrite (sfor_pure_elem _ _
             (λ acc name, (acc.1 ++ [name], acc.2 ++ [vector name]))).
  - rewrite foldl_snoc_pair. simpl. do 2 f_equal. unfold dict_keys.
    rewrite <-list_fmap_compose. apply list_fmap_ext. intros i [k v] Hi.
    unfold vector, options_of. simpl. erewrite dict_get_elem_of; [done..|].
    by eapply list_elem_of_lookup_2.
  - intros acc name Hname. unfold vector, options_of.
    destruct (dict_get filter_options name) as [options|] eqn:Hget.
    + by apply category_step_item.
    + by apply dict_get_None in Hget.
Qed.

Lemma button_step_lookup (vectors : list (list visibility)) acc i g vector :
  vectors !! i = Some vector →
  button_step vectors acc (i, g)
  = sret (acc ++ [Button g "restyle" ("visible", vector)]).
Proof.
  intros Hi. unfold button_step, list_getitem. simpl.
  by rewrite Hi, sbind_sret_l.
Qed.

Lemma button_loop (names : list string) (vectors : list (list visibility)) :
  length names = length vectors →
  sfor (enumerate names) (button_step vectors) []
  = sret (zip_with (λ g v, Button g "restyle" ("visible", v)) names vectors).
Proof.
  intros Hlen.
  rewrite (sfor_pure_elem _ _ (λ acc ig,
    acc ++ [Button ig.2 "restyle" ("visible", default [] (vectors !! ig.1))])).
  - f_equal. rewrite foldl_snoc_fmap. simpl. unfold enumerate.
    rewrite fmap_imap. clear Hwf. revert vectors Hlen.
    induction names as [|g names IH]; intros [|v vectors] Hlen;
      simplify_eq/=; [done|]. f_equal. by apply IH.
  - intros acc ig (i & g & -> & Hi)%elem_of_lookup_imap.
    destruct (lookup_lt_is_Some_2 vectors i) as [vector Hv].
    { rewrite <-Hlen. by eapply lookup_lt_Some. }
    simpl. rewrite Hv. by apply button_step_lookup.
Qed.

Lemma zip_with_items {B C} (F : string → B → C) (h : string * list string → B) :
  zip_with F (dict_keys filter_options) (h <$> filter_options)
  = (λ item, F item.1 (h item)) <$> filter_options.
Proof.
  clear Hwf. unfold dict_keys.
  induction filter_options as [|item d IH]; simpl; f_equal; auto.
Qed.

Lemma all_vector_seq :
  (λ _, VLegendOnly) <$> seq 0 (length cols) = all_vector cols.
Proof.
  unfold all_vector. generalize 0. induction (length cols); intros; simpl;
    f_equal; auto.
Qed.
End loops_of_create_chart.

(** The run of [create_chart] on a dictionary: the two loops are the
    pure functions above, so no subscript can miss. *)
Lemma create_chart_eq filter_options df :
  dict_wf filter_options →
  create_chart filter_options df
  = ([Show (chart_figure filter_options df);
      WriteHtml "visual.html" (chart_figure filter_options df)], inr tt).
Proof.
  intros Hwf. unfold create_chart.
  rewrite category_loop, sbind_sret_l by done. simpl.
  rewrite button_loop, sbind_sret_l
    by (by unfold dict_keys; rewrite !length_fmap).
  by rewrite zip_with_items, all_vector_seq.
Qed.

(** C3. A call of [create_chart] on a dictionary never raises, whatever
    the table: no subscript of its loops can miss.  It shows one figure,
    then writes that same figure to [visual.html], and does nothing else;
    the figure has the traces of the table, all collapsed into the legend,
    and one dropdown whose buttons are [All] and one per category, each
    with the vector of its category. *)
Theorem create_chart_run filter_options df :
  dict_wf filter_options →
  returns (create_chart filter_options df) tt
  ∧ emitted (create_chart filter_options df)
    = [Show (chart_figure filter_options df);
       WriteHtml "visual.html" (chart_figure filter_options df)].
Proof. intros Hwf. by rewrite create_chart_eq. Qed.

(** ** Properties of the visibility vectors *)

Lemma visibility_entry_False name options col :
  visibility_entry name options col = VFalse ↔ col ∉ options.
Proof. unfold visibility_entry. repeat case_decide; split; done. Qed.

Lemma visibility_entry_LegendOnly name options col :
  visibility_entry name options col = VLegendOnly
  ↔ col ∈ options ∧ col ≠ "Country_Avg_line" ∧ name = "Countries".
Proof.
  unfold visibility_entry. repeat case_decide; split; try done;
    by intros (? & ? & ?).
Qed.

Lemma visibility_entry_True name options col :
  visibility_entry name options col = VTrue
  ↔ col ∈ options ∧ (col = "Country_Avg_line" ∨ name ≠ "Countries").
Proof.
  unfold visibility_entry. repeat case_decide; split; try done; auto;
    try (by intros [? _]); by intros [_ [?|?]].
Qed.

Lemma length_visibility_vector name options cols :
  length (visibility_vector name options cols) = length cols.
Proof. apply length_fmap. Qed.

Lemma length_all_vector cols : length (all_vector cols) = length cols.
Proof. apply length_replicate. Qed.

Lemma chart_figure_data filter_options df :
  fig_data (chart_figure filter_options df)
  = fig_data (update_traces_visible VLegendOnly
                (px_line df chart_labels chart_title)).
Proof. done. Qed.

Lemma length_chart_figure_data filter_options df :
  frame_wf df →
  length (fig_data (chart_figure filter_options df)) = length (columns df).
Proof.
  intros Hwf.
  by rewrite chart_figure_data, length_update_traces_visible, length_px_line.
Qed.

Lemma chart_figure_buttons filter_options df :
  fig_updatemenus (chart_figure filter_options df)
  = [UpdateMenu "dropdown" "down" (chart_buttons filter_options (columns df))].
Proof. done. Qed.

Lemma chart_buttons_aligned filter_options cols :
  Forall (λ b, length (b_args b).2 = length cols)
         (chart_buttons filter_options cols).
Proof.
  apply Forall_cons. split; [apply length_all_vector|].
  rewrite Forall_fmap. apply Forall_true. intros item.
  apply length_visibility_vector.
Qed.

Lemma chart_buttons_restyle filter_options cols :
  Forall (λ b, b_method b = "restyle" ∧ (b_args b).1 = "visible")
         (chart_buttons filter_options cols).
Proof.
  apply Forall_cons. split; [done|]. rewrite Forall_fmap. by apply Forall_true.
Qed.

(** Every button of the dropdown carries a vector with exactly one
    entry per trace of the figure, so a press sets the state of every
    trace and of nothing else. *)
Theorem buttons_match_traces filter_options df :
  frame_wf df →
  Forall (λ b, length (b_args b).2
               = length (fig_data (chart_figure filter_options df)))
         (chart_buttons filter_options (columns df)).
Proof.
  intros Hwf. rewrite length_chart_figure_data by done.
  apply chart_buttons_aligned.
Qed.

(** A press of a button of the dropdown puts the traces, in order,
    in the states its vector lists. *)
Theorem press_sets_vector filter_options df b :
  frame_wf df → b ∈ chart_buttons filter_options (columns df) →
  tr_visible <$> fig_data (press b (chart_figure filter_options df))
  = (b_args b).2.
Proof.
  intros Hwf Hb. unfold press.
  pose proof (chart_buttons_restyle filter_options (columns df)) as Hre.
  pose proof (chart_buttons_aligned filter_options (columns df)) as Hal.
  rewrite Forall_forall in Hre, Hal. rewrite decide_True by auto.
  unfold refigure. cbn [fig_data]. apply visible_restyle_visible.
  rewrite length_chart_figure_data by done. auto.
Qed.

(** ** The sample chart *)

Lemma sample_options_wf : dict_wf sample_options.
Proof. by apply (bool_decide_unpack _). Qed.

Lemma sample_chart_table_wf : frame_wf sample_chart_table.
Proof. by apply (bool_decide_unpack _). Qed.

Lemma create_chart_run_witness :
  returns (create_chart sample_options sample_chart_table) tt
  ∧ emitted (create_chart sample_options sample_chart_table)
    = [Show (chart_figure sample_options sample_chart_table);
       WriteHtml "visual.html"
         (chart_figure sample_options sample_chart_table)].
Proof. exact (create_chart_run _ _ sample_options_wf). Defined.

(** C8. In the vector of the category [Countries], a column that belongs
    to the category is collapsed into the legend, except the aggregate
    column [Country_Avg_line], which is drawn. *)
Theorem countries_vector_spec options cols i col :
  cols !! i = Some col → col ∈ options →
  visibility_vector "Countries" options cols !! i
  = Some (if decide (col = "Country_Avg_line") then VTrue else VLegendOnly).
Proof.
  intros Hi Hin. unfold visibility_vector, visibility_entry.
  rewrite list_lookup_fmap, Hi. simpl. rewrite decide_True by done.
  by repeat case_decide.
Qed.

Lemma countries_vector_spec_witness :
  visibility_vector "Countries" ["Country_Avg_line"; "Afghanistan"]
    ["Afghanistan"; "Country_Avg_line"; "World"] !! 1
  = Some VTrue.
Proof.
  apply (countries_vector_spec ["Country_Avg_line"; "Afghanistan"]
           ["Afghanistan"; "Country_Avg_line"; "World"] 1 "Country_Avg_line");
    [reflexivity|by apply (bool_decide_unpack _)].
Defined.

(** The option [All] comes first; its vector has one entry per
    column of the table and every entry is the collapsed state. *)
Theorem all_vector_spec filter_options cols :
  ∃ b, chart_buttons filter_options cols !! 0 = Some b
       ∧ b_label b = "All"
       ∧ length (b_args b).2 = length cols
       ∧ Forall (λ v, v = VLegendOnly) (b_args b).2.
Proof.
  eexists. split_and!; [done..|apply length_all_vector|].
  by apply Forall_replicate.
Qed.

(** C12. The entry of a column in the vector of a category is decided by
    literal membership of its label in the category's list: absent, it is
    hidden; present, it is drawn, except in [Countries], where every
    column but [Country_Avg_line] is collapsed into the legend. *)
Theorem visibility_entry_cases name options col :
  (visibility_entry name options col = VFalse ↔ col ∉ options)
  ∧ (visibility_entry name options col = VLegendOnly
     ↔ col ∈ options ∧ col ≠ "Country_Avg_line" ∧ name = "Countries")
  ∧ (visibility_entry name options col = VTrue
     ↔ col ∈ options ∧ (col = "Country_Avg_line" ∨ name ≠ "Countries")).
Proof.
  split_and!; [apply visibility_entry_False|apply visibility_entry_LegendOnly|
               apply visibility_entry_True].
Qed.

(** The dropdown has one option per category and one more, [All]:
    the labels of its buttons are [All] followed by the keys of the
    dictionary, in order. *)
Theorem buttons_count filter_options cols :
  length (chart_buttons filter_options cols) = S (length filter_options)
  ∧ b_label <$> chart_buttons filter_options cols
    = "All" :: dict_keys filter_options.
Proof.
  split; simpl; [by rewrite length_fmap|]. f_equal. unfold dict_keys.
  by rewrite <-list_fmap_compose.
Qed.

(** C37. The aggregate column is hidden by every category that does not
    list it, and the option [All] only collapses it into the legend: it is
    not drawn by every option of the dropdown. *)
Theorem aggregate_not_always_shown name options cols :
  "Country_Avg_line" ∉ options →
  Forall (λ v, v ≠ VTrue) (all_vector cols)
  ∧ ∀ i, cols !! i = Some "Country_Avg_line" →
         visibility_vector name options cols !! i = Some VFalse.
Proof.
  intros Hout. split; [by apply Forall_replicate|]. intros i Hi.
  unfold visibility_vector. rewrite list_lookup_fmap, Hi. simpl. f_equal.
  by apply visibility_entry_False.
Qed.

Lemma aggregate_not_always_shown_witness :
  Forall (λ v, v ≠ VTrue) (all_vector (columns sample_chart_table))
  ∧ ∀ i, columns sample_chart_table !! i = Some "Country_Avg_line" →
         visibility_vector "Regions" ["South Asia"]
           (columns sample_chart_table) !! i = Some VFalse.
Proof.
  apply (aggregate_not_always_shown "Regions" ["South Asia"]).
  by apply (bool_decide_unpack _).
Defined.

Lemma buttons_match_traces_witness :
  Forall (λ b, length (b_args b).2
               = length (fig_data (chart_figure sample_options
                                     sample_chart_table)))
         (chart_buttons sample_options (columns sample_chart_table)).
Proof. exact (buttons_match_traces _ _ sample_chart_table_wf). Defined.

Lemma press_sets_vector_witness :
  tr_visible <$> fig_data
    (press (category_button (columns sample_chart_table)
              ("Countries", ["Country_Avg_line"; "Afghanistan"; "Albania"]))
           (chart_figure sample_options sample_chart_table))
  = [VTrue; VLegendOnly; VLegendOnly; VFalse; VFalse].
Proof.
  apply (press_sets_vector sample_options sample_chart_table
           (category_button (columns sample_chart_table)
              ("Countries", ["Country_Avg_line"; "Afghanistan"; "Albania"])));
    by apply (bool_decide_unpack _).
Defined.

Lemma names_chart_figure filter_options df :
  frame_wf df →
  tr_name <$> fig_data (chart_figure filter_options df) = columns df.
Proof.
  intros Hwf.
  by rewrite chart_figure_data, names_update_traces_visible, names_px_line.
Qed.

(** Before any option is chosen the figure has one trace per column
    of the table, named after the column, drawn over the row labels, and
    every trace is collapsed into the legend. *)
Theorem initial_traces filter_options df :
  frame_wf df →
  tr_name <$> fig_data (chart_figure filter_options df) = columns df
  ∧ Forall (λ t, tr_visible t = VLegendOnly ∧ tr_x t = index df)
           (fig_data (chart_figure filter_options df)).
Proof.
  intros Hwf. split; [by apply names_chart_figure|].
  rewrite chart_figure_data.
  - cbn [update_traces_visible refigure fig_data px_line].
    rewrite Forall_fmap. apply Forall_forall.
    intros t (name & ys & -> & _)%elem_of_zip_with. done.
Qed.

Lemma initial_traces_witness :
  tr_name <$> fig_data (chart_figure sample_options sample_chart_table)
  = columns sample_chart_table
  ∧ Forall (λ t, tr_visible t = VLegendOnly
                 ∧ tr_x t = index sample_chart_table)
           (fig_data (chart_figure sample_options sample_chart_table)).
Proof. exact (initial_traces _ _ sample_chart_table_wf). Defined.

(** The titles of the figure: the values axis and the legend carry
    the texts given for [value] and [variable] when the column axis of the
    table has no name, and the horizontal axis is titled after the row
    axis. *)
Theorem chart_titles filter_options df :
  columns_name df = None →
  fig_yaxis_title (chart_figure filter_options df)
  = "Percentage (%) of Population"
  ∧ fig_legend_title (chart_figure filter_options df) = "Filter By:"
  ∧ fig_xaxis_title (chart_figure filter_options df)
    = label_of chart_labels <$> index_name df
  ∧ fig_title_x (chart_figure filter_options df) = Some (1 # 2)%Q.
Proof. intros Hname. simpl. by rewrite Hname. Qed.

Lemma chart_titles_witness :
  fig_yaxis_title (chart_figure sample_options sample_chart_table)
  = "Percentage (%) of Population"
  ∧ fig_legend_title (chart_figure sample_options sample_chart_table)
    = "Filter By:"
  ∧ fig_xaxis_title (chart_figure sample_options sample_chart_table)
    = Some "Year"
  ∧ fig_title_x (chart_figure sample_options sample_chart_table)
    = Some (1 # 2)%Q.
Proof. exact (chart_titles sample_options sample_chart_table eq_refl). Defined.

Lemma names_in_state_by_name v (g : string → visibility)
    (traces : list trace) :
  tr_visible <$> traces = g ∘ tr_name <$> traces →
  tr_name <$> filter (λ t, tr_visible t = v) traces
  = filter (λ n, g n = v) (tr_name <$> traces).
Proof.
  induction traces as [|t ts IH]; intros Hvis; [done|].
  rewrite !fmap_cons in Hvis. injection Hvis as Ht Hts.
  rewrite fmap_cons, !filter_cons. simpl in *. rewrite Ht.
  case_decide; rewrite ?fmap_cons, IH; done.
Qed.

(** After a press of a category's button, the traces in a given
    state are the columns whose entry in the category's vector is that
    state, in the order of the table. *)
Lemma names_after_press filter_options df item v :
  frame_wf df →
  names_in_state v
    (press (category_button (columns df) item) (chart_figure filter_options df))
  = filter (λ col, visibility_entry item.1 item.2 col = v) (columns df).
Proof.
  intros Hwf. pose proof (names_chart_figure filter_options df Hwf) as Hn.
  unfold names_in_state, press. rewrite decide_True by done.
  unfold refigure. cbn [fig_data].
  rewrite names_in_state_by_name with (g := visibility_entry item.1 item.2).
  - by rewrite names_restyle_visible, Hn.
  - rewrite visible_restyle_visible, list_fmap_compose, names_restyle_visible, Hn;
      [done|]. cbn [category_button b_args snd].
    by rewrite length_visibility_vector, length_chart_figure_data.
Qed.

Lemma names_after_press_witness :
  names_in_state VTrue
    (press (category_button (columns sample_chart_table)
              ("Regions", ["South Asia"]))
           (chart_figure sample_options sample_chart_table))
  = ["South Asia"].
Proof.
  apply (names_after_press sample_options sample_chart_table
           ("Regions", ["South Asia"]) VTrue).
  by apply (bool_decide_unpack _).
Defined.
