(* ===== verification/Transition.v ===== *)
(** * Transition: runs of a transition system

    What the small-step model of [create_chart] ([Machine]) needs of a
    transition relation in general, over stdpp's [rtc], [nsteps], [nf],
    [red] and [sn]:

    - [eventually R P a]: on every run from [a], a state that satisfies
      [P] is reached after finitely many steps (the form in which the
      liveness of a terminating program is stated);
    - invariants carried along [rtc] ([rtc_invariant]);
    - termination from a measure into [nat] that decreases at every step
      ([measure_sn]), with the number of steps of a run when the measure
      decreases by exactly one ([measure_nsteps]);
    - the class [Stepper]: a relation that is the graph of a step
      function.  Such a relation is deterministic, its reducible states
      are decidable, and the interpreter [run], given as much fuel as the
      measure says, ends in the one state in which every run ends
      ([run_measure_nf], [run_unique]). *)

From Stdlib Require Import Lia.
From stdpp Require Import base tactics option list relations.

(** ** Properties of runs *)

Section transition.
Context {A : Type} (R : relation A).
Implicit Types (a b : A) (P Q I : A → Prop).

(** Every run from [a] reaches a state of [P]: [a] is one, or [a] can
    step and every successor reaches one. *)
Inductive eventually (P : A → Prop) (a : A) : Prop :=
  | eventually_now : P a → eventually P a
  | eventually_step :
      red R a → (∀ b, R a b → eventually P b) → eventually P a.

Lemma eventually_mono P Q a :
  (∀ b, P b → Q b) → eventually P a → eventually Q a.
Proof.
  intros HPQ. induction 1 as [a Ha|a Hred _ IH];
    [apply eventually_now|apply eventually_step]; auto.
Qed.

Lemma eventually_trans P Q a :
  eventually P a → (∀ b, P b → eventually Q b) → eventually Q a.
Proof.
  intros Ha HPQ. induction Ha as [a Ha|a Hred _ IH];
    [|apply eventually_step]; auto.
Qed.

(** What is reached on every run is reached on some run. *)
Lemma eventually_rtc P a : eventually P a → ∃ b, rtc R a b ∧ P b.
Proof.
  induction 1 as [a Ha|a [b Hab] _ IH]; [by exists a|].
  destruct (IH b Hab) as (c & Hbc & Hc). exists c. eauto using rtc_l.
Qed.

(** A property that holds at the start and is kept by every step holds
    along every run. *)
Lemma rtc_invariant I a b :
  (∀ a b, I a → R a b → I b) → I a → rtc R a b → I b.
Proof. intros Hstep Ha Hab. induction Hab; eauto. Qed.

Section measure.
Context (m : A → nat).

(** A measure that decreases at every step bounds every run. *)
Lemma measure_sn : (∀ a b, R a b → m b < m a) → ∀ a, sn R a.
Proof.
  intros Hm. apply (wf_projected (<) m); [|apply lt_wf].
  intros a b. apply Hm.
Qed.

Lemma measure_rtc_le a b : (∀ a b, R a b → m b < m a) → rtc R a b → m b ≤ m a.
Proof. intros Hm. induction 1 as [|a b c Hab%Hm _ IH]; lia. Qed.

(** When the measure goes down by one at every step of [I], a run of [I]
    takes as many steps as the measure drops. *)
Lemma measure_nsteps I a b :
  (∀ a b, I a → R a b → I b) →
  (∀ a b, I a → R a b → m a = S (m b)) →
  I a → rtc R a b → nsteps R (m a - m b) a b.
Proof.
  intros HI Hm Ha Hab. induction Hab as [a|a b c Hab Hbc IH].
  - replace (m a - m a) with 0 by lia. constructor.
  - assert (m c ≤ m b).
    { clear IH. pose proof (HI _ _ Ha Hab) as Hb. clear Ha Hab.
      induction Hbc as [|b b' c Hb' _ IH]; [lia|].
      pose proof (Hm _ _ Hb Hb'). specialize (IH (HI _ _ Hb Hb')). lia. }
    rewrite (Hm _ _ Ha Hab). replace (S (m b) - m c) with (S (m b - m c)) by lia.
    econstructor; eauto.
Qed.
End measure.

(** On a terminating system whose reducible states are decidable, every
    run ends, and it ends in a state that has kept the invariant. *)
Lemma sn_eventually `{!∀ a, Decision (red R a)} I P a :
  (∀ a b, I a → R a b → I b) → (∀ a, I a → nf R a → P a) →
  sn R a → I a → eventually P a.
Proof.
  intros HI HP. induction 1 as [a _ IH]. intros Ha.
  destruct (decide (red R a)) as [Hred|Hnf].
  - apply eventually_step; [done|]. intros b Hab. apply IH; eauto.
  - apply eventually_now. auto.
Qed.
End transition.

(** ** Relations computed by a step function *)

(** [R] is the graph of the partial function [next]. *)
Class Stepper {A : Type} (R : relation A) : Type := {
  next : A → option A;
  next_spec a b : R a b ↔ next a = Some b
}.
Arguments next {A} R {_} a.

(** The interpreter: at most [fuel] steps from [a]. *)
Fixpoint run {A : Type} (R : relation A) `{!Stepper R} (fuel : nat) (a : A) :
    A :=
  match fuel with
  | 0 => a
  | S fuel' =>
      match next R a with
      | Some b => run R fuel' b
      | None => a
      end
  end.

Section stepper.
Context {A : Type} (R : relation A) `{!Stepper R}.
Implicit Types (a b : A).

Lemma stepper_deterministic : deterministic R.
Proof. intros a b c Hb%next_spec Hc%next_spec. congruence. Qed.

Lemma red_next a : red R a ↔ is_Some (next R a).
Proof.
  split; intros [b Hb]; exists b; by apply next_spec.
Qed.

Lemma nf_next a : nf R a ↔ next R a = None.
Proof. unfold nf. rewrite red_next, eq_None_not_Some. done. Qed.

#[global] Instance red_stepper_dec a : Decision (red R a).
Proof.
  refine (cast_if (decide (is_Some (next R a)))); by rewrite red_next.
Defined.

Lemma run_rtc fuel a : rtc R a (run R fuel a).
Proof.
  revert a. induction fuel as [|fuel IH]; intros a; simpl; [done|].
  destruct (next R a) as [b|] eqn:Hb; [|done].
  apply next_spec in Hb. eauto using rtc_l.
Qed.

(** The interpreter does not stop early: it has spent its fuel or stands
    in a state without successor. *)
Lemma run_nf_or_nsteps fuel a :
  nf R (run R fuel a) ∨ nsteps R fuel a (run R fuel a).
Proof.
  revert a. induction fuel as [|fuel IH]; intros a; simpl;
    [right; constructor|].
  destruct (next R a) as [b|] eqn:Hb; [|left; by apply nf_next].
  apply next_spec in Hb. destruct (IH b); [by left|right].
  econstructor; eauto.
Qed.

(** A run that ends is the run of the interpreter: every final state a
    run reaches is the one the interpreter stops in. *)
Lemma run_unique fuel a b :
  rtc R a b → nf R b → nf R (run R fuel a) → run R fuel a = b.
Proof.
  intros Hab Hb Hrun.
  apply (confluent_rtc_nf (R:=R) a); auto using run_rtc.
  apply deterministic_confluent, stepper_deterministic.
Qed.

Section measure.
Context (m : A → nat) (Hm : ∀ a b, R a b → m b < m a).

(** With the measure of [a] as fuel the interpreter reaches the end of
    the run from [a]. *)
Lemma run_measure_nf fuel a : m a ≤ fuel → nf R (run R fuel a).
Proof using Hm.
  revert a. induction fuel as [|fuel IH]; intros a Hfuel; simpl.
  - intros [b Hb%Hm]. lia.
  - destruct (next R a) as [b|] eqn:Hb; [|by apply nf_next].
    apply IH. apply next_spec, Hm in Hb. lia.
Qed.

(** Total correctness from an invariant: every run from a state of [I]
    ends, and ends in a state of [I] without successor, which the
    interpreter computes. *)
Lemma run_total (I : A → Prop) a :
  (∀ a b, I a → R a b → I b) → I a →
  rtc R a (run R (m a) a) ∧ nf R (run R (m a) a) ∧ I (run R (m a) a).
Proof using Hm.
  intros HI Ha. split_and!; [apply run_rtc|by apply run_measure_nf|].
  eapply rtc_invariant; eauto using run_rtc.
Qed.
End measure.
End stepper.
