(* ===== verification/Machine.v ===== *)
(** * Machine: [create_chart] statement by statement

    The body of [create_chart] ([src/part1_script.py], lines 27-68) as a
    transition system.  A configuration ([config]) is a program point
    ([control]: which loop the function is in and what its iterators
    still hold), the local variables ([locals], under the names of the
    source) and the events emitted so far.  [step] has one rule per
    statement and per branch, the two subscripts that could raise
    included ([filter_options[category_name]], line 32, and
    [category_visibility_list[i]], line 48); [next] is the same as a
    function, and the class [Stepper] relates the two.

    A variable holds the empty list until the statement that binds it;
    no rule reads a variable before that.  The list that line 43 appends
    to [category_visibility_list] is an alias of [visibility_list], but
    line 30 binds a new list at every pass of the loop, so the alias is
    never written to again, and the model stores the value.

    What is proved:
    - the rules and the function agree, so a run is unique;
    - [steps_left] decreases at every step, so every run ends, in at most
      [steps_left] steps, and the interpreter [run] with that fuel
      computes its end;
    - [chart_inv] holds in every configuration reachable from [initial]:
      the two lists of the outer loop have the same length, every vector
      has one entry per column, the iterators hold keys of the dictionary
      and positions of the list, so neither subscript raises;
    - a run from [initial] takes [k * (n + 3) + 5] steps for [k]
      categories and [n] columns;
    - every step keeps [denote], the monadic computation that remains to
      be done after the events emitted so far, and [denote initial] is
      [Chart.create_chart]: the run of the machine ends with the trace
      and the outcome of [create_chart];
    - on every run from [initial] the figure is shown, written to
      [visual.html], and the function returns. *)

From Stdlib Require Import QArith Lia.
From stdpp Require Import base tactics option list strings relations.
From S2P Require Import Prelude Numeric Labels Frame Plot Effects Chart.
From S2P Require Import Transition.
Local Close Scope Q_scope.
Local Open Scope string_scope.
Local Open Scope list_scope.
Local Open Scope script_scope.

(** ** Configurations *)

(** Where the function stands.  An iterator is the list of the items it
    has not yielded yet. *)
Inductive control : Type :=
  | AtCategories (keys : list string)
      (** at the head of the loop of line 29 *)
  | AtColumns (category_name : string) (cols : list string)
      (keys : list string)
      (** at the head of the loop of line 31, inside a pass of line 29 *)
  | AtButtons (items : list (nat * string))
      (** at the head of the loop of line 47 *)
  | AtLayout
      (** before [fig.update_layout], line 57 *)
  | AtShow
      (** before [fig.show()], line 67 *)
  | AtWrite
      (** before [fig.write_html], line 68 *)
  | Returned
  | Raised (e : exn).

(** The local variables of [create_chart]. *)
Record locals : Type := Locals {
  fig : figure;
  category_list : list string;
  category_visibility_list : list (list visibility);
  visibility_list : list visibility;
  buttons : list button
}.

Record config : Type := Config {
  pc : control;
  vars : locals;
  out : list event
}.

#[export] Instance control_eq_dec : EqDecision control.
Proof. solve_decision. Defined.

#[export] Instance locals_eq_dec : EqDecision locals.
Proof. solve_decision. Defined.

#[export] Instance config_eq_dec : EqDecision config.
Proof. solve_decision. Defined.

(** Assignments to one variable. *)
Definition set_fig (f : figure) (l : locals) : locals :=
  Locals f (category_list l) (category_visibility_list l) (visibility_list l)
         (buttons l).

Definition set_visibility_list (v : list visibility) (l : locals) : locals :=
  Locals (fig l) (category_list l) (category_visibility_list l) v (buttons l).

Definition set_buttons (b : list button) (l : locals) : locals :=
  Locals (fig l) (category_list l) (category_visibility_list l)
         (visibility_list l) b.

(** [visibility_list.append(v)]. *)
Definition append_visibility (v : visibility) (l : locals) : locals :=
  set_visibility_list (visibility_list l ++ [v]) l.

(** Lines 42-43: both lists of the outer loop grow by one. *)
Definition append_category (category_name : string) (l : locals) : locals :=
  Locals (fig l) (category_list l ++ [category_name])
         (category_visibility_list l ++ [visibility_list l])
         (visibility_list l) (buttons l).

(** The button of line 48. *)
Definition restyle_button (g : string) (vector : list visibility) : button :=
  Button g "restyle" ("visible", vector).

(** The button of lines 52-54, for a table of [n] columns. *)
Definition all_button (n : nat) : button :=
  Button "All" "restyle" ("visible", (λ _, VLegendOnly) <$> seq 0 n).

(** A configuration in which the function has ended. *)
Definition final (c : config) : Prop :=
  match pc c with
  | Returned | Raised _ => True
  | _ => False
  end.

#[export] Instance final_dec c : Decision (final c).
Proof. unfold final. destruct (pc c); apply _. Defined.

(** How the function has ended, if it has. *)
Definition result (c : config) : option (exn + unit) :=
  match pc c with
  | Returned => Some (inr tt)
  | Raised e => Some (inl e)
  | _ => None
  end.

Section machine.
Context (filter_options : list (string * list string)) (df : frame Q).

(** The configuration after lines 18-28, at the head of the first loop:
    the figure is built, the two lists are empty. *)
Definition initial : config :=
  Config (AtCategories (dict_keys filter_options))
    (Locals (update_traces_visible VLegendOnly
               (px_line df chart_labels chart_title)) [] [] [] [])
    [].

(** ** The rules *)

Inductive step : config → config → Prop :=
  | step_category category_name keys l t :
      (** lines 29-30: the next key, a new [visibility_list] *)
      step (Config (AtCategories (category_name :: keys)) l t)
           (Config (AtColumns category_name (columns df) keys)
                   (set_visibility_list [] l) t)
  | step_column_aggregate category_name options col cols keys l t :
      (** lines 32-34 *)
      dict_get filter_options category_name = Some options →
      col ∈ options → col = "Country_Avg_line" →
      step (Config (AtColumns category_name (col :: cols) keys) l t)
           (Config (AtColumns category_name cols keys)
                   (append_visibility VTrue l) t)
  | step_column_country category_name options col cols keys l t :
      (** lines 32, 35-36 *)
      dict_get filter_options category_name = Some options →
      col ∈ options → col ≠ "Country_Avg_line" →
      category_name = "Countries" →
      step (Config (AtColumns category_name (col :: cols) keys) l t)
           (Config (AtColumns category_name cols keys)
                   (append_visibility VLegendOnly l) t)
  | step_column_member category_name options col cols keys l t :
      (** lines 32, 37-38 *)
      dict_get filter_options category_name = Some options →
      col ∈ options → col ≠ "Country_Avg_line" →
      category_name ≠ "Countries" →
      step (Config (AtColumns category_name (col :: cols) keys) l t)
           (Config (AtColumns category_name cols keys)
                   (append_visibility VTrue l) t)
  | step_column_absent category_name options col cols keys l t :
      (** lines 32, 39-40 *)
      dict_get filter_options category_name = Some options →
      col ∉ options →
      step (Config (AtColumns category_name (col :: cols) keys) l t)
           (Config (AtColumns category_name cols keys)
                   (append_visibility VFalse l) t)
  | step_column_key_error category_name col cols keys l t :
      (** line 32, the subscript misses *)
      dict_get filter_options category_name = None →
      step (Config (AtColumns category_name (col :: cols) keys) l t)
           (Config (Raised (KeyError [category_name])) l t)
  | step_columns_done category_name keys l t :
      (** lines 42-43, after the last column *)
      step (Config (AtColumns category_name [] keys) l t)
           (Config (AtCategories keys) (append_category category_name l) t)
  | step_categories_done l t :
      (** lines 46-47, after the last category *)
      step (Config (AtCategories []) l t)
           (Config (AtButtons (enumerate (category_list l)))
                   (set_buttons [] l) t)
  | step_button i g vector items l t :
      (** lines 48-49 *)
      category_visibility_list l !! i = Some vector →
      step (Config (AtButtons ((i, g) :: items)) l t)
           (Config (AtButtons items)
                   (set_buttons (buttons l ++ [restyle_button g vector]) l) t)
  | step_button_index_error i g items l t :
      (** line 48, the subscript is past the end *)
      category_visibility_list l !! i = None →
      step (Config (AtButtons ((i, g) :: items)) l t)
           (Config (Raised (IndexError i)) l t)
  | step_buttons_done l t :
      (** lines 52-54, after the last button *)
      step (Config (AtButtons []) l t)
           (Config AtLayout
                   (set_buttons (all_button (length (columns df)) :: buttons l)
                                l) t)
  | step_layout l t :
      (** lines 57-65 *)
      step (Config AtLayout l t)
           (Config AtShow
                   (set_fig (update_layout
                               [UpdateMenu "dropdown" "down" (buttons l)]
                               (1 # 2) (fig l)) l) t)
  | step_show l t :
      (** line 67 *)
      step (Config AtShow l t) (Config AtWrite l (t ++ [Show (fig l)]))
  | step_write l t :
      (** line 68, and the return *)
      step (Config AtWrite l t)
           (Config Returned l (t ++ [WriteHtml "visual.html" (fig l)])).

(** ** The step function *)

(** One step from [c], if [c] is not final.  The test of lines 32-40 is
    [Chart.visibility_entry]. *)
Definition step_fun (c : config) : option config :=
  let l := vars c in
  let t := out c in
  match pc c with
  | AtCategories (category_name :: keys) =>
      Some (Config (AtColumns category_name (columns df) keys)
                   (set_visibility_list [] l) t)
  | AtCategories [] =>
      Some (Config (AtButtons (enumerate (category_list l)))
                   (set_buttons [] l) t)
  | AtColumns category_name (col :: cols) keys =>
      match dict_get filter_options category_name with
      | Some options =>
          Some (Config (AtColumns category_name cols keys)
                  (append_visibility (visibility_entry category_name options col)
                                     l) t)
      | None => Some (Config (Raised (KeyError [category_name])) l t)
      end
  | AtColumns category_name [] keys =>
      Some (Config (AtCategories keys) (append_category category_name l) t)
  | AtButtons ((i, g) :: items) =>
      match category_visibility_list l !! i with
      | Some vector =>
          Some (Config (AtButtons items)
                  (set_buttons (buttons l ++ [restyle_button g vector]) l) t)
      | None => Some (Config (Raised (IndexError i)) l t)
      end
  | AtButtons [] =>
      Some (Config AtLayout
              (set_buttons (all_button (length (columns df)) :: buttons l) l)
              t)
  | AtLayout =>
      Some (Config AtShow
              (set_fig (update_layout
                          [UpdateMenu "dropdown" "down" (buttons l)]
                          (1 # 2) (fig l)) l) t)
  | AtShow => Some (Config AtWrite l (t ++ [Show (fig l)]))
  | AtWrite =>
      Some (Config Returned l (t ++ [WriteHtml "visual.html" (fig l)]))
  | Returned | Raised _ => None
  end.

(** ** The measure *)

(** The number of steps from [c] to the return. *)
Definition steps_left (c : config) : nat :=
  let n := length (columns df) in
  let k := length (category_list (vars c)) in
  match pc c with
  | AtCategories keys => length keys * (n + 3) + k + 5
  | AtColumns _ cols keys => length cols + length keys * (n + 3) + k + 7
  | AtButtons items => length items + 4
  | AtLayout => 3
  | AtShow => 2
  | AtWrite => 1
  | Returned | Raised _ => 0
  end.

(** ** The invariant *)

(** A button whose vector has one entry per column of the table. *)
Definition aligned (b : button) : Prop :=
  length (b_args b).2 = length (columns df).

(** Every button of the menus of [f] is aligned. *)
Definition menus_aligned (f : figure) : Prop :=
  Forall (λ m, Forall aligned (m_buttons m)) (fig_updatemenus f).

Definition chart_inv (c : config) : Prop :=
  let l := vars c in
  length (category_list l) = length (category_visibility_list l)
  ∧ Forall (λ v, length v = length (columns df)) (category_visibility_list l)
  ∧ Forall aligned (buttons l)
  ∧ match pc c with
    | AtCategories keys =>
        Forall (.∈ dict_keys filter_options) keys ∧ out c = []
    | AtColumns category_name cols keys =>
        category_name ∈ dict_keys filter_options
        ∧ Forall (.∈ dict_keys filter_options) keys
        ∧ length (visibility_list l) + length cols = length (columns df)
        ∧ out c = []
    | AtButtons items =>
        Forall (λ ig, ig.1 < length (category_visibility_list l)) items
        ∧ out c = []
    | AtLayout => out c = []
    | AtShow => menus_aligned (fig l) ∧ out c = []
    | AtWrite => menus_aligned (fig l) ∧ out c = [Show (fig l)]
    | Returned =>
        menus_aligned (fig l)
        ∧ out c = [Show (fig l); WriteHtml "visual.html" (fig l)]
    | Raised _ => False
    end.

(** ** What remains to be done *)

(** Lines 67-68. *)
Definition finish (f : figure) : py unit :=
  emit (Show f) ;; emit (WriteHtml "visual.html" f) ;; sret tt.

(** Lines 57-68. *)
Definition lay_out (l : locals) (buttons : list button) : py unit :=
  finish (update_layout [UpdateMenu "dropdown" "down" buttons] (1 # 2) (fig l)).

(** Lines 46-68, from the lists the first loop has built. *)
Definition after_categories (l : locals)
    (lists : list string * list (list visibility)) : py unit :=
  buttons <- sfor (enumerate lists.1) (button_step lists.2) [] ;;
  lay_out l (all_button (length (columns df)) :: buttons).

(** The computation of [Chart] that remains to be run in [c]. *)
Definition rest (c : config) : py unit :=
  let l := vars c in
  match pc c with
  | AtCategories keys =>
      lists <- sfor keys (category_step filter_options (columns df))
                 (category_list l, category_visibility_list l) ;;
      after_categories l lists
  | AtColumns category_name cols keys =>
      visibility_list <- sfor cols
                           (visibility_step filter_options category_name)
                           (visibility_list l) ;;
      lists <- sfor keys (category_step filter_options (columns df))
                 (category_list l ++ [category_name],
                  category_visibility_list l ++ [visibility_list]) ;;
      after_categories l lists
  | AtButtons items =>
      buttons <- sfor items (button_step (category_visibility_list l))
                   (buttons l) ;;
      lay_out l (all_button (length (columns df)) :: buttons)
  | AtLayout => lay_out l (buttons l)
  | AtShow => finish (fig l)
  | AtWrite => emit (WriteHtml "visual.html" (fig l)) ;; sret tt
  | Returned => sret tt
  | Raised e => raise e
  end.

(** The run [c] stands for: the events emitted already, then the rest. *)
Definition denote (c : config) : py unit :=
  ((out c, inr tt) : py unit) ;; rest c.

(** The rules are the graph of [step_fun]. *)
Lemma step_step_fun c c' : step c c' ↔ step_fun c = Some c'.
Proof.
  split.
  - intros []; subst; unfold step_fun, visibility_entry; simpl;
      repeat match goal with
             | H : dict_get _ _ = _ |- _ => rewrite H
             | H : _ !! _ = _ |- _ => rewrite H
             end;
      repeat case_decide; done.
  - destruct c as [p l t].
    destruct p as [[|name keys]|name [|col cols] keys|[|[i g] items]| | | | |e];
      unfold step_fun; simpl; intros; simplify_eq; try by constructor.
    + destruct (dict_get filter_options name) as [options|] eqn:Hget;
        simplify_eq; [|by constructor].
      unfold visibility_entry. repeat case_decide; by econstructor.
    + destruct (category_visibility_list l !! i) eqn:Hi; simplify_eq;
        by constructor.
Qed.

#[export] Instance step_stepper : Stepper step :=
  {| next := step_fun; next_spec := step_step_fun |}.

(** ** Progress and termination *)

Lemma nf_final c : nf step c ↔ final c.
Proof.
  rewrite (nf_next step). unfold final. cbn [next step_stepper].
  destruct c as [p l t]. unfold step_fun.
  destruct p as [[|name keys]|name [|col cols] keys|[|[i g] items]| | | | |e];
    simpl; repeat case_match; naive_solver.
Qed.

Lemma length_enumerate {A} (l : list A) : length (enumerate l) = length l.
Proof. apply length_imap. Qed.

Lemma step_decreases c c' : step c c' → steps_left c' < steps_left c.
Proof.
  intros []; unfold steps_left; simpl;
    rewrite ?length_app, ?length_enumerate; simpl; lia.
Qed.

Lemma steps_left_initial :
  steps_left initial = length filter_options * (length (columns df) + 3) + 5.
Proof.
  unfold steps_left, initial, dict_keys. simpl. rewrite length_fmap. lia.
Qed.

Lemma steps_left_final c : final c → steps_left c = 0.
Proof. unfold final, steps_left. by destruct (pc c). Qed.

Lemma step_sn c : sn step c.
Proof. apply (measure_sn step steps_left), step_decreases. Qed.

(** ** The invariant *)

Lemma chart_inv_initial : chart_inv initial.
Proof.
  unfold chart_inv, initial. simpl. split_and!; try done.
  by apply Forall_forall.
Qed.

Lemma enumerate_lt {A} (l : list A) :
  Forall (λ ig, ig.1 < length l) (enumerate l).
Proof.
  apply Forall_forall. intros ig (i & x & -> & Hi)%elem_of_lookup_imap.
  by eapply lookup_lt_Some.
Qed.

Lemma chart_inv_step c c' : chart_inv c → step c c' → chart_inv c'.
Proof.
  intros (Hlen & Hvec & Hbut & Hpc) Hstep. unfold chart_inv.
  destruct Hstep; simpl in *; destruct_and?; decompose_Forall_hyps;
    try (by apply dict_get_None in H);
    try (apply lookup_ge_None in H; lia);
    split_and!; rewrite ?length_app; simpl; try done; try lia;
    try (apply Forall_app_2; [done|apply Forall_singleton]);
    try (apply Forall_cons_2; [|done]); try done; try lia.
  - rewrite <-Hlen. apply enumerate_lt.
  - unfold aligned. simpl. by rewrite length_fmap, length_seq.
Qed.

Lemma reachable_chart_inv c : rtc step initial c → chart_inv c.
Proof.
  apply (rtc_invariant step); [apply chart_inv_step|apply chart_inv_initial].
Qed.

(** A configuration of the invariant without successor is the return. *)
Lemma chart_inv_nf c :
  chart_inv c → nf step c →
  pc c = Returned
  ∧ out c = [Show (fig (vars c)); WriteHtml "visual.html" (fig (vars c))].
Proof.
  intros Hc Hnf. apply nf_final in Hnf. unfold final in Hnf.
  destruct Hc as (_ & _ & _ & Hpc). destruct (pc c); try done.
  by destruct Hpc.
Qed.

(** On a run of the invariant every step is counted by the measure. *)
Lemma step_decreases_one c c' :
  chart_inv c → step c c' → steps_left c = S (steps_left c').
Proof.
  intros Hc Hstep. destruct (chart_inv_step _ _ Hc Hstep) as (_ & _ & _ & Hpc).
  destruct Hstep; try done; unfold steps_left; simpl;
    rewrite ?length_app, ?length_enumerate; simpl; lia.
Qed.

(** ** The machine and the monadic model *)

Lemma denote_rest c c' :
  out c' = out c → rest c' = rest c → denote c' = denote c.
Proof. unfold denote. by intros -> ->. Qed.

Lemma category_step_eq cols acc name :
  category_step filter_options cols acc name
  = (visibility_list <- sfor cols (visibility_step filter_options name) [] ;;
     sret (acc.1 ++ [name], acc.2 ++ [visibility_list])).
Proof. done. Qed.

Lemma step_fun_denote c c' : step_fun c = Some c' → denote c' = denote c.
Proof.
  destruct c as [p l t].
  destruct p as [[|name keys]|name [|col cols] keys|[|[i g] items]| | | | |e];
    unfold step_fun; simpl; intros; simplify_eq;
    try (apply denote_rest; [done|]; unfold rest; simpl;
         by rewrite ?sbind_sret_l).
  - apply denote_rest; [done|]. unfold rest. simpl.
    rewrite (category_step_eq _ (_, _)), !sbind_assoc.
    apply sbind_ext. intros vis _. by rewrite sbind_sret_l.
  - destruct (dict_get filter_options name) as [options|] eqn:Hget;
      simplify_eq; apply denote_rest; try done; unfold rest; simpl.
    + by rewrite (visibility_step_item _ _ _ _ _ Hget), sbind_sret_l.
    + unfold visibility_step, dict_getitem. by rewrite Hget.
  - destruct (category_visibility_list l !! i) as [vector|] eqn:Hi;
      simplify_eq; apply denote_rest; try done; unfold rest; simpl.
    + by rewrite (button_step_lookup _ _ _ _ _ Hi), sbind_sret_l.
    + unfold button_step, list_getitem. simpl. by rewrite Hi.
  - unfold denote, sbind. simpl. by rewrite <-app_assoc.
  - unfold denote, sbind. simpl. by rewrite <-app_assoc.
Qed.

Lemma rtc_denote c c' : rtc step c c' → denote c' = denote c.
Proof.
  induction 1 as [|c c1 c2 Hstep%step_step_fun%step_fun_denote _ IH];
    congruence.
Qed.

Lemma denote_initial : denote initial = create_chart filter_options df.
Proof. exact (sbind_sret_l tt (λ _, rest initial)). Qed.

Lemma denote_final c :
  final c → ∃ r, result c = Some r ∧ denote c = (out c, r).
Proof.
  unfold final, result, denote. destruct c as [[] l t]; try done; intros _;
    eexists; (split; [done|]); unfold sbind; simpl; by rewrite app_nil_r.
Qed.

(** The end of a run from [initial] is the outcome of [create_chart]. *)
Lemma reachable_final c :
  rtc step initial c → final c →
  result c = Some (outcome (create_chart filter_options df))
  ∧ out c = emitted (create_chart filter_options df).
Proof.
  intros Hc%rtc_denote (r & Hr & Hd)%denote_final.
  by rewrite <-denote_initial, <-Hc, Hd.
Qed.

(** ** The theorems *)

(** The rules of the transition system and its step function are the
    same relation: where the function answers, its answer is a step by
    the rules and the only one; where it does not, the configuration
    is final (the function has returned or raised) and no rule applies.
    So a configuration that is not final always has exactly one
    successor. *)
Theorem step_fun_spec c :
  match step_fun c with
  | Some c' => step c c' ∧ ∀ c'', step c c'' → c'' = c'
  | None => final c ∧ nf step c
  end.
Proof.
  destruct (step_fun c) as [c'|] eqn:Hc.
  - split; [by apply step_step_fun|].
    intros c'' Hc''%step_step_fun. congruence.
  - assert (nf step c) by (by apply (nf_next step)).
    split; [by apply nf_final|done].
Qed.

(** C14. The loops of [create_chart] terminate, from every configuration,
    reachable or not: no run is infinite, and the interpreter given
    [steps_left c] steps ends in a final configuration. *)
Theorem create_chart_terminates c :
  sn step c
  ∧ rtc step c (run step (steps_left c) c)
  ∧ final (run step (steps_left c) c).
Proof.
  split_and!; [apply step_sn|apply run_rtc|].
  apply nf_final, (run_measure_nf step steps_left); [apply step_decreases|done].
Qed.

(** C5. The transition system implements [Chart.create_chart]: its run
    from [initial] ends, in one final configuration only, and that
    configuration holds the outcome of the monadic function (a return or
    the exception raised) and exactly the events it emits, in order. *)
Theorem machine_refines_create_chart :
  ∃ c, rtc step initial c ∧ final c
       ∧ result c = Some (outcome (create_chart filter_options df))
       ∧ out c = emitted (create_chart filter_options df)
       ∧ ∀ c', rtc step initial c' → final c' → c' = c.
Proof.
  exists (run step (steps_left initial) initial).
  destruct (create_chart_terminates initial) as (_ & Hrtc & Hfinal).
  split_and!; [done..|by apply reachable_final|by apply reachable_final|].
  intros c' Hc' Hf%nf_final. symmetry.
  by apply (run_unique step); [..|apply nf_final].
Qed.

(** C10. In every configuration [create_chart] can reach, whatever the
    dictionary and the table: the list of names and the list of vectors
    have the same length, every vector built so far and every button has
    one entry per column of the table, the two subscripts are defined
    (the key about to be looked up is a key of the dictionary, the
    position about to be read is a position of the list of vectors), and
    no exception has been raised. *)
Theorem reachable_aligned c :
  rtc step initial c →
  length (category_list (vars c)) = length (category_visibility_list (vars c))
  ∧ Forall (λ v, length v = length (columns df))
           (category_visibility_list (vars c))
  ∧ Forall aligned (buttons (vars c))
  ∧ (∀ name cols keys, pc c = AtColumns name cols keys →
       is_Some (dict_get filter_options name))
  ∧ (∀ i g items, pc c = AtButtons ((i, g) :: items) →
       is_Some (category_visibility_list (vars c) !! i))
  ∧ ∀ e, pc c ≠ Raised e.
Proof.
  intros (Hlen & Hvec & Hbut & Hpc)%reachable_chart_inv.
  split_and!; [done..| | |by intros e Hr; rewrite Hr in Hpc].
  - intros name cols keys Hc. rewrite Hc in Hpc. destruct Hpc as [Hname _].
    apply not_eq_None_Some. intros Hget%dict_get_None. done.
  - intros i g items Hc. rewrite Hc in Hpc. destruct Hpc as [Hitems _].
    apply lookup_lt_is_Some. by apply Forall_cons in Hitems as [? _].
Qed.

(** C15. Whatever [create_chart] has done so far, it goes on to return,
    having shown one figure and written that same figure to
    [visual.html], and nothing else: on every run from a reachable
    configuration such a configuration is reached. *)
Theorem create_chart_eventually_returns c :
  rtc step initial c →
  eventually step
    (λ c', pc c' = Returned
           ∧ out c' = [Show (fig (vars c'));
                       WriteHtml "visual.html" (fig (vars c'))]) c.
Proof.
  intros Hc%reachable_chart_inv.
  apply (sn_eventually step chart_inv); [apply chart_inv_step| |apply step_sn|done].
  intros c'. apply chart_inv_nf.
Qed.

(** A call of [create_chart] on [k] categories and a table of [n]
    columns takes [k * (n + 3) + 5] steps: one test per category and
    column, three statements per category, five outside the loops. *)
Theorem create_chart_step_count :
  ∃ c, nsteps step
         (length filter_options * (length (columns df) + 3) + 5) initial c
       ∧ pc c = Returned.
Proof.
  destruct (create_chart_terminates initial) as (_ & Hrtc & Hfinal).
  set (c := run step (steps_left initial) initial) in *.
  pose proof (reachable_chart_inv _ Hrtc) as Hinv.
  destruct (chart_inv_nf _ Hinv) as [Hpc _]; [by apply nf_final|].
  exists c. split; [|done].
  pose proof (measure_nsteps step steps_left chart_inv _ _ chart_inv_step
                step_decreases_one chart_inv_initial Hrtc) as Hn.
  by rewrite (steps_left_final _ Hfinal), steps_left_initial, Nat.sub_0_r in Hn.
Qed.

End machine.

(** ** The machine on the sample chart *)

(** The run on the three categories and five columns of
    [Chart.sample_options] and [Chart.sample_chart_table]: 29 steps. *)
Lemma sample_run :
  let c := run (step sample_options sample_chart_table) 29
             (initial sample_options sample_chart_table) in
  pc c = Returned
  ∧ out c = [Show (chart_figure sample_options sample_chart_table);
             WriteHtml "visual.html"
               (chart_figure sample_options sample_chart_table)]
  ∧ b_label <$> buttons (vars c)
    = ["All"; "Countries"; "Income Groups"; "Regions"]
  ∧ pc (run (step sample_options sample_chart_table) 28
          (initial sample_options sample_chart_table)) = AtWrite.
Proof. by vm_compute. Qed.

Lemma reachable_aligned_witness :
  let c := run (step sample_options sample_chart_table) 9
             (initial sample_options sample_chart_table) in
  length (category_list (vars c)) = length (category_visibility_list (vars c))
  ∧ Forall (λ v, length v = length (columns sample_chart_table))
           (category_visibility_list (vars c))
  ∧ Forall (aligned sample_chart_table) (buttons (vars c))
  ∧ (∀ name cols keys, pc c = AtColumns name cols keys →
       is_Some (dict_get sample_options name))
  ∧ (∀ i g items, pc c = AtButtons ((i, g) :: items) →
       is_Some (category_visibility_list (vars c) !! i))
  ∧ ∀ e, pc c ≠ Raised e.
Proof.
  exact (reachable_aligned sample_options sample_chart_table _
           (run_rtc _ 9 _)).
Defined.

Lemma create_chart_eventually_returns_witness :
  eventually (step sample_options sample_chart_table)
    (λ c', pc c' = Returned
           ∧ out c' = [Show (fig (vars c'));
                       WriteHtml "visual.html" (fig (vars c'))])
    (run (step sample_options sample_chart_table) 9
       (initial sample_options sample_chart_table)).
Proof.
  exact (create_chart_eventually_returns sample_options sample_chart_table _
           (run_rtc _ 9 _)).
Defined.
