(* ===== verification/Main.v ===== *)
(** * Main: the script from the data service to the chart

    [main] is the function of that name of [src/part1_script.py] (lines
    134-165), statement by statement, and [inspect_dataframe] the report
    it prints of the raw table (lines 71-91).

    The World Bank data service is the one part of the run the script
    does not decide: [service] holds the two calls the script makes of the
    package [wbgapi], each answering with a value or with the exception it
    dies of, and [main] takes it as its argument.  The table of
    [wb.data.DataFrame(..., labels=True)] is a [wb_frame]: the year
    columns under the economy codes, and one column of names beside them.

    The statements between the reshaping and the chart (lines 150-163)
    do no printing; [arrange] is what they compute, as a function of the
    reshaped table: the table the chart is drawn from and the dictionary
    of its dropdown.  The theorems give the whole run when every step
    succeeds, each way a run can die and what it has printed by then, and
    what the arranged table holds: which columns, in which order, and
    which cells the average column [Country_Avg_line] has. *)

From Stdlib Require Import QArith.
From stdpp Require Import base tactics option list strings sorting.
From S2P Require Import Prelude Numeric Labels Frame Stats Plot Effects.
From S2P Require Import Preprocess Chart.
Local Close Scope Q_scope.
Local Open Scope string_scope.
Local Open Scope list_scope.
Local Open Scope script_scope.

(** ** The data service *)

(** The table [wb.data.DataFrame(series, labels=True)] answers with for
    one series: a row per economy under its code, the column of the
    economies' names, called [wb_label], and a column per year. *)
Record wb_frame : Type := WbFrame {
  wb_label : string;
  wb_names : list string;
  wb_years : frame Q
}.

(** The calls of [wbgapi] the script makes. *)
Record service : Type := Service {
  series_metadata_get : string → exn + string;
      (** [wb.series.metadata.get(code)] *)
  data_DataFrame : string → exn + wb_frame
      (** [wb.data.DataFrame(code, labels=True)] *)
}.

(** A name for every row. *)
Definition wb_frame_wf (t : wb_frame) : Prop :=
  frame_wf (wb_years t) ∧ length (wb_names t) = length (index (wb_years t)).

#[export] Instance wb_frame_wf_dec t : Decision (wb_frame_wf t).
Proof. unfold wb_frame_wf. apply _. Defined.

(** [df.set_index(key)]: the column [key] becomes the row labels and
    leaves the columns, and the row axis takes its name; [KeyError] when
    there is no such column.  Only the column of names can be asked for:
    the row labels of a [frame] are strings. *)
Definition set_index (key : string) (t : wb_frame) : exn + frame Q :=
  if decide (key = wb_label t) then
    inr (Frame (wb_names t) (columns (wb_years t)) (values (wb_years t))
               (Some key) (columns_name (wb_years t)))
  else inl (KeyError [key]).

(** ** Python's [list.index] *)

(** [l.index(x)]. *)
Definition index_of (x : string) (l : list string) : exn + nat :=
  match list_index x l with
  | Some i => inr i
  | None => inl (ValueError ("'" +:+ x +:+ "' is not in list"))
  end.

(** ** The functions *)

Definition inspect_dataframe (df : frame Q) : py unit :=
  print [PStr ("Top 5 rows:" +:+ nl)] ;;
  print [PFrame (head 5 df)] ;;
  print [PStr rule] ;;
  print [PStr ("Column data-type and non-null count:" +:+ nl)] ;;
  emit (Info df) ;;
  print [PNone] ;;
  print [PStr rule] ;;
  print [PStr ("Basic summary statistics for numerical column:" +:+ nl)] ;;
  summary <- lift_result (describe df) ;;
  print [PDescribe summary] ;;
  print [PStr rule].

(** The code of the indicator: people using at least basic sanitation
    services, as a percentage of the population. *)
Definition indicator : string := "SH.STA.BASS.ZS".

Definition metadata_heading : string :=
  "Metadata about the Indicator: People using at least basic sanitation services (Percentage of population)".

Definition income_grps : list string :=
  ["Low income"; "Lower middle income"; "Upper middle income"; "High income"].

Definition region_grps : list string :=
  ["East Asia & Pacific"; "Europe & Central Asia";
   "Latin America & Caribbean"; "Middle East & North Africa";
   "North America"; "South Asia"; "Sub-Saharan Africa"].

Definition main (wb : service) : py unit :=
  print [PStr metadata_heading] ;;
  metadata <- lift_result (series_metadata_get wb indicator) ;;
  print [PMetadata indicator metadata] ;;
  raw <- lift_result (data_DataFrame wb indicator) ;;
  sanit_df <- lift_result (set_index "Country" raw) ;;
  inspect_dataframe sanit_df ;;
  sanit_df <- preprocess_df sanit_df ;;
  world_index <- lift_result (index_of "World" (columns sanit_df)) ;;
  let countries := sorted (take world_index (columns sanit_df)) in
  of_countries <- lift_result (select_columns countries sanit_df) ;;
  sanit_df <- lift_result
    (setitem_column "Country_Avg_line" (mean_rows of_countries) sanit_df) ;;
  let countries := "Country_Avg_line" :: countries in
  sanit_df <- lift_result
    (select_columns (countries ++ region_grps ++ income_grps) sanit_df) ;;
  let filter_options :=
    dict_of_items [("Countries", countries); ("Income Groups", income_grps);
                   ("Regions", region_grps)] in
  create_chart filter_options sanit_df.

(** ** What the statements between reshaping and chart compute *)

(** The labels before the first [World], sorted (lines 150-151). *)
Definition country_columns (df : frame Q) : exn + list string :=
  match index_of "World" (columns df) with
  | inl e => inl e
  | inr world_index => inr (sorted (take world_index (columns df)))
  end.

(** The table with the column of averages over [countries] (line 152). *)
Definition with_average (countries : list string) (df : frame Q) :
    exn + frame Q :=
  match select_columns countries df with
  | inl e => inl e
  | inr of_countries =>
      setitem_column "Country_Avg_line" (mean_rows of_countries) df
  end.

(** The dictionary of the dropdown (lines 153-163). *)
Definition chart_options (countries : list string) :
    list (string * list string) :=
  [("Countries", "Country_Avg_line" :: countries);
   ("Income Groups", income_grps); ("Regions", region_grps)].

(** The columns of the chart, in order (lines 153-160). *)
Definition chart_columns (countries : list string) : list string :=
  ("Country_Avg_line" :: countries) ++ region_grps ++ income_grps.

(** Lines 150-163 on the reshaped table: the table of the chart and the
    dictionary of its dropdown. *)
Definition arrange (df : frame Q) :
    exn + (frame Q * list (string * list string)) :=
  match country_columns df with
  | inl e => inl e
  | inr countries =>
      match with_average countries df with
      | inl e => inl e
      | inr df =>
          match select_columns (chart_columns countries) df with
          | inl e => inl e
          | inr df => inr (df, chart_options countries)
          end
      end
  end.

(** Lines 139-144: the metadata is printed and the table fetched and
    put under the names of the economies. *)
Definition fetch (wb : service) : py (frame Q) :=
  print [PStr metadata_heading] ;;
  metadata <- lift_result (series_metadata_get wb indicator) ;;
  print [PMetadata indicator metadata] ;;
  raw <- lift_result (data_DataFrame wb indicator) ;;
  lift_result (set_index "Country" raw).

(** Lines 150-165: the reshaped table is arranged and charted. *)
Definition chart_of (df : frame Q) : py unit :=
  arranged <- lift_result (arrange df) ;;
  create_chart arranged.2 arranged.1.

(** What [inspect_dataframe] prints of a table with columns. *)
Definition inspect_report (df : frame Q) : list event :=
  [Print [PStr ("Top 5 rows:" +:+ nl)];
   Print [PFrame (head 5 df)];
   Print [PStr rule];
   Print [PStr ("Column data-type and non-null count:" +:+ nl)];
   Info df;
   Print [PNone];
   Print [PStr rule];
   Print [PStr ("Basic summary statistics for numerical column:" +:+ nl)];
   Print [PDescribe (summary df)];
   Print [PStr rule]].

(** What a run prints up to the chart: the metadata, the report of the
    raw table and the report of the reshaping. *)
Definition main_report (metadata : string) (df : frame Q) : list event :=
  [Print [PStr metadata_heading]; Print [PMetadata indicator metadata]]
  ++ inspect_report df
  ++ preprocess_report (shape df) (shape (reshape df)) (head 5 (reshape df)).

(** ** What [arrange] computes *)

(** The cells of the average column: for each row the mean of its cells
    under the labels [countries]. *)
Definition average_cells (countries : list string) (df : frame Q) :
    list cell :=
  nanmean <$>
    values (take_columns (countries ≫= λ k, positions k (columns df)) df).

(** The table with its average column. *)
Definition averaged (countries : list string) (df : frame Q) : frame Q :=
  set_column "Country_Avg_line" (average_cells countries df) df.

(** The table of the chart: the columns [chart_columns], looked up in the
    table with its average column. *)
Definition chart_table (countries : list string) (df : frame Q) : frame Q :=
  let df := averaged countries df in
  take_columns (chart_columns countries ≫= λ k, positions k (columns df)) df.

(** The exceptions the script raises itself, as opposed to those the
    service answers with. *)
Definition own_exception (e : exn) : Prop :=
  e = KeyError ["Country"]
  ∨ e = ValueError "Cannot describe a DataFrame without columns"
  ∨ e = ValueError "'World' is not in list"
  ∨ ∃ missing, e = KeyError missing ∧ missing ≠ [] ∧ NoDup missing
               ∧ missing ⊆ region_grps ++ income_grps.

(** ** A small data service

    Seventeen economies by three years: four countries, of which
    [Atlantis] has no value at all, then [World], the seven regions, the
    four income groups and one more aggregate; the year [YR2001] has no
    value at all. *)
Definition sample_raw : wb_frame :=
  WbFrame "Country"
    ["Albania"; "Afghanistan"; "Atlantis"; "Zimbabwe"; "World";
     "East Asia & Pacific"; "Europe & Central Asia";
     "Latin America & Caribbean"; "Middle East & North Africa";
     "North America"; "South Asia"; "Sub-Saharan Africa";
     "Low income"; "Lower middle income"; "Upper middle income";
     "High income"; "Euro area"]
    (Frame
       ["ALB"; "AFG"; "ATL"; "ZWE"; "WLD"; "EAS"; "ECS"; "LCN";
        "MEA"; "NAC"; "SAS"; "SSF"; "LIC"; "LMC"; "UMC"; "HIC";
        "EMU"]
       ["YR2000"; "YR2001"; "YR2002"]
       [[Some 88.25%Q; None; Some 99.3%Q];
        [Some 21.94%Q; None; Some 23.05%Q];
        [None; None; None];
        [None; None; Some 35.5%Q];
        [Some 55.55%Q; None; Some 60%Q];
        [Some 58.4%Q; None; Some 60.1%Q];
        [Some 93%Q; None; Some 93.5%Q];
        [Some 74.85%Q; None; Some 76%Q];
        [Some 82.1%Q; None; Some 83%Q];
        [Some 99.7%Q; None; Some 99.7%Q];
        [Some 19.25%Q; None; Some 22%Q];
        [Some 23.4%Q; None; Some 24%Q];
        [Some 18.5%Q; None; Some 19.5%Q];
        [Some 34.05%Q; None; Some 36%Q];
        [Some 66.6%Q; None; Some 69.1%Q];
        [Some 98.9%Q; None; Some 99%Q];
        [Some 99.1%Q; None; Some 99.2%Q]]
       (Some "economy") None).

Definition sample_wb : service :=
  Service (λ code, if decide (code = indicator)
                   then inr "Sanitation" else inl (FetchError code))
          (λ code, if decide (code = indicator)
                   then inr sample_raw else inl (FetchError code)).

(** The table of the sample under the names of the economies. *)
Definition sample_df : frame Q :=
  Frame (wb_names sample_raw) (columns (wb_years sample_raw))
        (values (wb_years sample_raw)) (Some "Country") None.

(** A service that cannot be reached. *)
Definition offline_wb : service :=
  Service (λ code, inl (FetchError code)) (λ code, inl (FetchError code)).

(** A service with two economies and one year, [World] with the cell
    given. *)
Definition small_wb (world : cell) : service :=
  Service (λ _, inr "Sanitation")
          (λ _, inr (WbFrame "Country" ["Albania"; "World"]
                       (Frame ["ALB"; "WLD"] ["YR2000"]
                              [[Some 88.25%Q]; [world]]
                              (Some "economy") None))).

Definition small_df (world : cell) : frame Q :=
  Frame ["Albania"; "World"] ["YR2000"] [[Some 88.25%Q]; [world]]
        (Some "Country") None.

(** The figure of the sample. *)
Definition sample_figure : figure :=
  let countries := ["Afghanistan"; "Albania"; "Zimbabwe"] in
  chart_figure (chart_options countries)
               (chart_table countries (reshape sample_df)).

(** The table of the sample's chart. *)
Definition sample_chart : frame Q :=
  chart_table ["Afghanistan"; "Albania"; "Zimbabwe"] (reshape sample_df).

(** A service whose table has a row and no year. *)
Definition yearless_wb : service :=
  Service (λ _, inr "Sanitation")
          (λ _, inr (WbFrame "Country" ["Albania"]
                       (Frame ["ALB"] [] [[]] (Some "economy") None))).

(** ** The run in stages *)

Lemma dict_of_items_chart_options countries :
  dict_of_items (chart_options countries) = chart_options countries.
Proof. done. Qed.

Lemma chart_options_wf countries : dict_wf (chart_options countries).
Proof. rewrite <-dict_of_items_chart_options. apply dict_of_items_wf. Qed.

(** [main] is its four stages in sequence. *)
Lemma main_stages wb :
  main wb
  = (df <- fetch wb ;; inspect_dataframe df ;; df <- preprocess_df df ;;
     chart_of df).
Proof.
  unfold main, fetch.
  do 7 (rewrite ?sbind_assoc; apply sbind_ext; intros ? _).
  unfold chart_of, arrange, country_columns, with_average.
  destruct (index_of "World" _) as [e|world_index]; [reflexivity|].
  cbn [lift_result]. rewrite sbind_sret_l.
  destruct (select_columns _ _) as [e|of_countries]; [reflexivity|].
  cbn [lift_result]. rewrite sbind_sret_l.
  destruct (setitem_column _ _ _) as [e|df'']; [reflexivity|].
  cbn [lift_result]. rewrite sbind_sret_l.
  destruct (select_columns _ df'') as [e|table]; [reflexivity|].
  cbn [lift_result]. by rewrite !sbind_sret_l.
Qed.

(** ** Facts about [arrange] *)

Section arrange.
Context (df : frame Q).
Implicit Types (countries : list string) (w : nat).

Lemma index_of_inr x (l : list string) w :
  list_index x l = Some w → index_of x l = inr w.
Proof. unfold index_of. by intros ->. Qed.

Lemma index_of_inl x (l : list string) :
  x ∉ l → index_of x l = inl (ValueError ("'" +:+ x +:+ "' is not in list")).
Proof. unfold index_of. by intros ->%list_index_None. Qed.

Lemma countries_subseteq w : sorted (take w (columns df)) ⊆ columns df.
Proof.
  intros k Hk%(proj1 (sorter_elem_of sorted _ _)).
  apply elem_of_take in Hk as (i & Hi & _). by eapply list_elem_of_lookup_2.
Qed.

Lemma with_average_inr countries :
  countries ⊆ columns df →
  with_average countries df = inr (averaged countries df).
Proof.
  intros Hsub. unfold with_average. rewrite select_columns_inr by done.
  by rewrite setitem_column_aligned.
Qed.

Lemma averaged_wf countries :
  frame_wf df → frame_wf (averaged countries df).
Proof.
  intros Hwf. apply set_column_wf; [done|]. unfold average_cells. simpl.
  rewrite !length_fmap. by apply frame_wf_rows.
Qed.

Lemma group_not_average k :
  k ∈ region_grps ++ income_grps → k ≠ "Country_Avg_line".
Proof.
  intros Hk ->. revert Hk. by apply (bool_decide_unpack _).
Qed.

(** A group is a column of the table with its average column exactly
    when it was one before. *)
Lemma groups_missing countries :
  filter (.∉ columns (averaged countries df)) (region_grps ++ income_grps)
  = filter (.∉ columns df) (region_grps ++ income_grps).
Proof.
  generalize (region_grps ++ income_grps), group_not_average.
  intros l Hl. induction l as [|k l IH]; [done|].
  rewrite !filter_cons, IH by (intros; apply Hl; by right).
  assert (k ≠ "Country_Avg_line") as Hk by (apply Hl; left).
  unfold averaged. repeat case_decide; try done;
    rewrite elem_of_columns_set_column in *; tauto.
Qed.

Lemma chart_columns_missing countries :
  countries ⊆ columns df →
  filter (.∉ columns (averaged countries df)) (chart_columns countries)
  = filter (.∉ columns df) (region_grps ++ income_grps).
Proof.
  intros Hsub. unfold chart_columns. rewrite filter_app, groups_missing.
  rewrite (proj2 (missing_nil _ _)); [done|].
  intros k Hk. apply elem_of_columns_set_column.
  apply elem_of_cons in Hk as [->|Hk]; auto.
Qed.
End arrange.

(** ** The table under the names of the economies *)

Lemma set_index_inr key raw df :
  set_index key raw = inr df ↔
  key = wb_label raw
  ∧ df = Frame (wb_names raw) (columns (wb_years raw))
               (values (wb_years raw)) (Some key)
               (columns_name (wb_years raw)).
Proof.
  unfold set_index. case_decide; split; try done.
  - by intros [= <-].
  - by intros [_ ->].
  - by intros [? _].
Qed.

Lemma set_index_wf key raw df :
  wb_frame_wf raw → set_index key raw = inr df → frame_wf df.
Proof.
  intros [[Hrows Hrect] Hnames] [_ ->]%set_index_inr. split; simpl; [|done].
  by rewrite Hnames.
Qed.

(** ** The stages, one by one *)

Lemma fetch_eq wb metadata raw df :
  series_metadata_get wb indicator = inr metadata →
  data_DataFrame wb indicator = inr raw →
  set_index "Country" raw = inr df →
  fetch wb
  = ([Print [PStr metadata_heading]; Print [PMetadata indicator metadata]],
     inr df).
Proof.
  intros Hmd Hraw Hset. unfold fetch. rewrite Hmd, Hraw.
  unfold sbind. simpl. by rewrite Hset.
Qed.

Lemma inspect_dataframe_eq df :
  columns df ≠ [] → inspect_dataframe df = (inspect_report df, inr tt).
Proof. intros. unfold inspect_dataframe, describe. by rewrite decide_False. Qed.

Lemma inspect_dataframe_inl df :
  columns df = [] →
  inspect_dataframe df
  = (take 8 (inspect_report df),
     inl (ValueError "Cannot describe a DataFrame without columns")).
Proof. intros. unfold inspect_dataframe, describe. by rewrite decide_True. Qed.

Lemma arrange_inr df w :
  list_index "World" (columns df) = Some w →
  region_grps ++ income_grps ⊆ columns df →
  arrange df
  = inr (chart_table (sorted (take w (columns df))) df,
         chart_options (sorted (take w (columns df)))).
Proof.
  intros Hw Hgroups. unfold arrange, country_columns.
  rewrite (index_of_inr _ _ _ Hw), with_average_inr
    by apply countries_subseteq.
  rewrite select_columns_inr; [done|].
  apply missing_nil. rewrite chart_columns_missing by apply countries_subseteq.
  by apply missing_nil.
Qed.

Lemma arrange_value_error df :
  "World" ∉ columns df →
  arrange df = inl (ValueError "'World' is not in list").
Proof.
  intros Hw. unfold arrange, country_columns. by rewrite index_of_inl.
Qed.

Lemma arrange_key_error df :
  "World" ∈ columns df → ¬ region_grps ++ income_grps ⊆ columns df →
  arrange df
  = inl (KeyError (filter (.∉ columns df) (region_grps ++ income_grps))).
Proof.
  intros [w Hw]%list_index_is_Some Hgroups. unfold arrange, country_columns.
  rewrite (index_of_inr _ _ _ Hw), with_average_inr
    by apply countries_subseteq.
  rewrite select_columns_inl, chart_columns_missing;
    [done|apply countries_subseteq|].
  rewrite <-missing_nil, chart_columns_missing by apply countries_subseteq.
  by rewrite missing_nil.
Qed.

(** Whatever the table, the dictionary [arrange] builds is the one of the
    three categories. *)
Lemma arrange_options df table options :
  arrange df = inr (table, options) →
  ∃ countries, options = chart_options countries.
Proof.
  unfold arrange. intros Harr. repeat case_match; simplify_eq. eauto.
Qed.

Lemma chart_of_inr df table options :
  arrange df = inr (table, options) →
  chart_of df
  = ([Show (chart_figure options table);
      WriteHtml "visual.html" (chart_figure options table)], inr tt).
Proof.
  intros Harr. unfold chart_of. rewrite Harr. cbn [lift_result].
  rewrite sbind_sret_l. apply create_chart_eq.
  apply arrange_options in Harr as [countries ->]. apply chart_options_wf.
Qed.

Lemma chart_of_inl df e : arrange df = inl e → chart_of df = ([], inl e).
Proof. intros Harr. unfold chart_of. by rewrite Harr. Qed.

(** ** The run *)

Section run.
Context (wb : service) (metadata : string) (raw : wb_frame) (df : frame Q).
Context (Hmetadata : series_metadata_get wb indicator = inr metadata).
Context (Hraw : data_DataFrame wb indicator = inr raw).
Context (Hindex : set_index "Country" raw = inr df).
Context (Hwf : frame_wf df) (Hcolumns : columns df ≠ []).

(** Up to the chart nothing depends on what the table holds. *)
Lemma main_chart_of :
  main wb
  = (main_report metadata df ++ emitted (chart_of (reshape df)),
     outcome (chart_of (reshape df))).
Proof using All.
  rewrite main_stages, (sbind_inr _ _ _ _ (fetch_eq _ _ _ _ Hmetadata Hraw Hindex)).
  rewrite (sbind_inr _ _ _ _ (inspect_dataframe_eq _ Hcolumns)).
  by rewrite (sbind_inr _ _ _ _ (preprocess_df_eq _ Hwf)).
Qed.

(** C1. When the service answers, the raw table has a year column, and
    [World] and the seven regions and four income groups are rows of it
    with at least one value, the run succeeds.  It prints the metadata,
    the report of the raw table and the report of the reshaping, then
    shows the figure and writes it to [visual.html]; the figure is drawn
    from the reshaped table arranged as average, countries before [World]
    in alphabetical order, regions, income groups, with the three
    categories as the options of its dropdown. *)
Theorem main_run w :
  list_index "World" (index (dropna_rows_all df)) = Some w →
  region_grps ++ income_grps ⊆ index (dropna_rows_all df) →
  let countries := sorted (take w (index (dropna_rows_all df))) in
  let fig := chart_figure (chart_options countries)
                          (chart_table countries (reshape df)) in
  main wb
  = (main_report metadata df ++ [Show fig; WriteHtml "visual.html" fig],
     inr tt).
Proof using All.
  intros Hw Hgroups. rewrite <-columns_reshape in * by done. simpl.
  by rewrite main_chart_of, (chart_of_inr _ _ _ (arrange_inr _ _ Hw Hgroups)).
Qed.

Lemma sample_df_wf : frame_wf sample_df.
Proof. by apply (bool_decide_unpack _). Qed.

Lemma sample_groups :
  region_grps ++ income_grps ⊆ index (dropna_rows_all sample_df).
Proof. by apply (bool_decide_unpack _). Qed.

Lemma small_df_wf world : frame_wf (small_df world).
Proof. by apply (bool_decide_unpack _). Qed.

(** C24. When no row [World] with a value is in the raw table, the run
    dies of the [ValueError] of [list.index] after the reports, having
    shown and written nothing. *)
Theorem main_no_world :
  "World" ∉ index (dropna_rows_all df) →
  main wb
  = (main_report metadata df, inl (ValueError "'World' is not in list")).
Proof using All.
  intros Hw. rewrite <-columns_reshape in Hw by done.
  rewrite main_chart_of, (chart_of_inl _ _ (arrange_value_error _ Hw)).
  unfold emitted, outcome. cbn [fst snd]. by rewrite app_nil_r.
Qed.

(** C25. When [World] is there but a region or an income group is no row
    with a value of the raw table, the run dies of the [KeyError] of the
    column selection, which names the groups that are missing, after the
    reports, having shown and written nothing. *)
Theorem main_missing_groups :
  "World" ∈ index (dropna_rows_all df) →
  ¬ region_grps ++ income_grps ⊆ index (dropna_rows_all df) →
  main wb
  = (main_report metadata df,
     inl (KeyError (filter (.∉ index (dropna_rows_all df))
                           (region_grps ++ income_grps)))).
Proof using All.
  intros Hw Hgroups. rewrite <-columns_reshape in * by done.
  rewrite main_chart_of, (chart_of_inl _ _ (arrange_key_error _ Hw Hgroups)).
  unfold emitted, outcome. cbn [fst snd]. by rewrite app_nil_r.
Qed.
End run.

Lemma main_run_witness :
  main sample_wb
  = (main_report "Sanitation" sample_df
     ++ [Show sample_figure; WriteHtml "visual.html" sample_figure], inr tt).
Proof.
  exact (main_run sample_wb "Sanitation" sample_raw sample_df
           eq_refl eq_refl eq_refl sample_df_wf ltac:(done) 3
           eq_refl sample_groups).
Defined.

Lemma main_no_world_witness :
  main (small_wb None)
  = (main_report "Sanitation" (small_df None),
     inl (ValueError "'World' is not in list")).
Proof.
  apply (main_no_world (small_wb None) "Sanitation" _ (small_df None)
           eq_refl eq_refl eq_refl (small_df_wf None));
    [done|by apply (bool_decide_unpack _)].
Defined.

Lemma main_missing_groups_witness :
  main (small_wb (Some 55.55%Q))
  = (main_report "Sanitation" (small_df (Some 55.55%Q)),
     inl (KeyError (region_grps ++ income_grps))).
Proof.
  apply (main_missing_groups (small_wb (Some 55.55%Q)) "Sanitation" _
           (small_df (Some 55.55%Q)) eq_refl eq_refl eq_refl (small_df_wf _));
    [done|by apply (bool_decide_unpack _)..].
Defined.

(** ** The table of the chart *)

Section chart_table.
Context (df : frame Q) (countries : list string).
Context (Hwf : frame_wf df) (Hnodup : NoDup (columns df)).
Context (Hcountries : countries ⊆ columns df).
Context (Hgroups : region_grps ++ income_grps ⊆ columns df).

Lemma chart_columns_subseteq :
  chart_columns countries ⊆ columns (averaged countries df).
Proof using Hcountries Hgroups.
  apply missing_nil. rewrite chart_columns_missing by done.
  by apply missing_nil.
Qed.

Lemma columns_chart_table :
  columns (chart_table countries df) = chart_columns countries.
Proof using Hnodup Hcountries Hgroups.
  unfold chart_table, take_columns, reframe. cbn [columns].
  apply gather_positions_NoDup;
    [by apply NoDup_columns_set_column|apply chart_columns_subseteq].
Qed.

Lemma chart_table_wf : frame_wf (chart_table countries df).
Proof using Hwf.
  apply take_columns_wf; [by apply averaged_wf|apply bind_positions_lt].
Qed.

(** The cell of the chart's table at row [i] under the [j]th label of
    [chart_columns], which stands at position [p] of the table with its
    average column, is the cell there. *)
Lemma iloc_chart_table i j k p :
  chart_columns countries !! j = Some k →
  columns (averaged countries df) !! p = Some k →
  iloc (chart_table countries df) i j = iloc (averaged countries df) i p.
Proof using All.
  intros Hj Hp. unfold chart_table. cbv zeta.
  rewrite iloc_take_columns
    by (by apply averaged_wf || apply bind_positions_lt).
  by rewrite (lookup_bind_positions _ _ j k p)
    by (by apply NoDup_columns_set_column || apply chart_columns_subseteq
        || done).
Qed.

Lemma length_average_cells : length (average_cells countries df) = length (index df).
Proof using Hwf.
  unfold average_cells. simpl. rewrite !length_fmap. by apply frame_wf_rows.
Qed.

(** A column keeps its position when the average column is assigned. *)
Lemma columns_averaged_lookup p k :
  columns df !! p = Some k → columns (averaged countries df) !! p = Some k.
Proof.
  intros Hp. unfold averaged. rewrite columns_set_column.
  case_decide; [done|]. by apply lookup_app_l_Some.
Qed.
End chart_table.

Lemma arrange_inr_inv df w table options :
  list_index "World" (columns df) = Some w →
  arrange df = inr (table, options) →
  region_grps ++ income_grps ⊆ columns df
  ∧ table = chart_table (sorted (take w (columns df))) df
  ∧ options = chart_options (sorted (take w (columns df))).
Proof.
  intros Hw Harr.
  destruct (decide (region_grps ++ income_grps ⊆ columns df)) as [Hg|Hg].
  - rewrite (arrange_inr _ _ Hw Hg) in Harr. by simplify_eq.
  - rewrite arrange_key_error in Harr; [done| |done].
    apply list_index_is_Some. eauto.
Qed.

(** Under distinct labels, the cells under the sorted labels before
    position [w] are the first [w] cells of the row in another order. *)
Lemma gather_sorted_take {B} (labels : list string) w (row : list B) :
  NoDup labels → (w ≤ length labels)%nat →
  gather (sorted (take w labels) ≫= λ k, positions k labels) row
  ≡ₚ take w row.
Proof.
  intros Hnd Hw. unfold gather.
  rewrite (sorter_perm (sort:=sorted) (take w labels)), positions_take by done.
  by rewrite <-gather_seq.
Qed.

(** C16. When the labels of the reshaped table are distinct and the
    arrangement succeeds, the columns of the chart are, in this order: the
    average column, the labels that stood before [World] sorted
    alphabetically, the seven regions, the four income groups; and the
    categories of the dropdown are [Countries] (the average column and
    the sorted labels), [Income Groups] and [Regions]. *)
Theorem arrange_columns df w table options :
  NoDup (columns df) →
  list_index "World" (columns df) = Some w →
  arrange df = inr (table, options) →
  columns table
  = "Country_Avg_line" :: sorted (take w (columns df))
    ++ region_grps ++ income_grps
  ∧ options
    = [("Countries", "Country_Avg_line" :: sorted (take w (columns df)));
       ("Income Groups", income_grps); ("Regions", region_grps)].
Proof.
  intros Hnd Hw (Hg & -> & ->)%(arrange_inr_inv _ w); [|done].
  split; [|done]. apply columns_chart_table; [done|apply countries_subseteq|done].
Qed.

(** Every column of the chart but the average column holds the
    cells of the column of that label in the reshaped table: arranging
    moves columns and changes no value. *)
Theorem arrange_cells df w table options i j k p :
  frame_wf df → NoDup (columns df) →
  list_index "World" (columns df) = Some w →
  arrange df = inr (table, options) →
  columns table !! j = Some k → k ≠ "Country_Avg_line" →
  columns df !! p = Some k →
  iloc table i j = iloc df i p.
Proof.
  intros Hwf Hnd Hw (Hg & -> & ->)%(arrange_inr_inv _ w) Hj Hk Hp; [|done].
  pose proof (countries_subseteq df w) as Hc.
  rewrite columns_chart_table in Hj by done.
  rewrite (iloc_chart_table _ _ Hwf Hnd Hc Hg i j k p)
    by (done || by apply columns_averaged_lookup).
  unfold averaged. rewrite (iloc_set_column _ _ _ _ _ k);
    [by rewrite decide_False|done|by apply length_average_cells|].
  by apply columns_averaged_lookup.
Qed.

(** C9. The first column of the chart is the average column, and its
    cell in a row is the mean of the values of that row in the columns
    before [World], values that are missing left out: the mean is taken
    over the countries and over no region, income group or other
    aggregate that follows [World]. *)
Theorem arrange_average df w table options i row :
  frame_wf df → NoDup (columns df) →
  list_index "World" (columns df) = Some w →
  arrange df = inr (table, options) →
  values df !! i = Some row →
  columns table !! 0 = Some "Country_Avg_line"
  ∧ iloc table i 0 ≡ Some (nanmean (take w row)).
Proof.
  intros Hwf Hnd Hw (Hg & -> & ->)%(arrange_inr_inv _ w) Hrow; [|done].
  pose proof (countries_subseteq df w) as Hc.
  split; [by rewrite columns_chart_table|].
  assert ("Country_Avg_line" ∈ columns (averaged (sorted (take w (columns df))) df))
    as [p Hp]%list_elem_of_lookup by (apply elem_of_columns_set_column; auto).
  rewrite (iloc_chart_table _ _ Hwf Hnd Hc Hg i 0 _ p) by done.
  unfold averaged in *. rewrite (iloc_set_column _ _ _ _ _ _ Hwf) by
    (by apply length_average_cells || done).
  rewrite decide_True by done. unfold average_cells. simpl.
  rewrite !list_lookup_fmap, Hrow. simpl. constructor.
  apply nanmean_Permutation, gather_sorted_take; [done|].
  apply list_index_lt in Hw. lia.
Qed.

Lemma sample_reshaped_NoDup : NoDup (columns (reshape sample_df)).
Proof. by apply (bool_decide_unpack _). Qed.

Lemma sample_reshaped_wf : frame_wf (reshape sample_df).
Proof. by apply (bool_decide_unpack _). Qed.

Lemma sample_arranged :
  arrange (reshape sample_df)
  = inr (sample_chart, chart_options ["Afghanistan"; "Albania"; "Zimbabwe"]).
Proof. by vm_compute. Qed.

Lemma arrange_columns_witness :
  columns sample_chart
  = "Country_Avg_line" :: ["Afghanistan"; "Albania"; "Zimbabwe"]
    ++ region_grps ++ income_grps
  ∧ chart_options ["Afghanistan"; "Albania"; "Zimbabwe"]
    = [("Countries",
        ["Country_Avg_line"; "Afghanistan"; "Albania"; "Zimbabwe"]);
       ("Income Groups", income_grps); ("Regions", region_grps)].
Proof.
  exact (arrange_columns (reshape sample_df) 3 _ _ sample_reshaped_NoDup
           eq_refl sample_arranged).
Defined.

Lemma arrange_cells_witness :
  iloc sample_chart 1 2 = iloc (reshape sample_df) 1 0.
Proof.
  apply (arrange_cells (reshape sample_df) 3 _ _ 1 2 "Albania" 0
           sample_reshaped_wf sample_reshaped_NoDup eq_refl sample_arranged);
    done.
Defined.

Lemma arrange_average_witness :
  columns sample_chart !! 0 = Some "Country_Avg_line"
  ∧ iloc sample_chart 0 0
    ≡ Some (nanmean [Some 88.2%Q; Some 21.9%Q; None]).
Proof.
  exact (arrange_average (reshape sample_df) 3 _ _ 0 _
           sample_reshaped_wf sample_reshaped_NoDup eq_refl sample_arranged
           eq_refl).
Defined.

(** ** What a run leaves behind *)

Lemma fetch_outputs wb : outputs (emitted (fetch wb)) = [].
Proof.
  unfold fetch.
  destruct (series_metadata_get wb indicator) as [e|metadata]; [done|].
  destruct (data_DataFrame wb indicator) as [e|raw]; [done|].
  unfold sbind. simpl. by destruct (set_index "Country" raw).
Qed.

Lemma inspect_dataframe_outputs df :
  outputs (emitted (inspect_dataframe df)) = [].
Proof. unfold inspect_dataframe, describe. by case_decide. Qed.

Lemma preprocess_df_outputs df : outputs (emitted (preprocess_df df)) = [].
Proof. by destruct (preprocess_df_returns df) as [r ->]. Qed.

(** The chart is shown and written, or the arrangement has failed and
    nothing is. *)
Lemma chart_of_cases df :
  (∃ e, chart_of df = ([], inl e))
  ∨ (∃ fig, chart_of df = ([Show fig; WriteHtml "visual.html" fig], inr tt)).
Proof.
  destruct (arrange df) as [e|[table options]] eqn:Harr.
  - left. exists e. by apply chart_of_inl.
  - right. eexists. by apply chart_of_inr.
Qed.

(** What [main] leaves behind is what its last stage does, when it is
    reached. *)
Lemma main_outputs_cases wb :
  (∃ e, outcome (main wb) = inl e ∧ outputs (emitted (main wb)) = [])
  ∨ (∃ fig, outcome (main wb) = inr tt
            ∧ outputs (emitted (main wb))
              = [Show fig; WriteHtml "visual.html" fig]).
Proof.
  rewrite main_stages.
  rewrite outputs_sbind, outcome_sbind by apply fetch_outputs.
  destruct (outcome (fetch wb)) as [e|df]; [by eauto|].
  rewrite outputs_sbind, outcome_sbind by apply inspect_dataframe_outputs.
  destruct (outcome (inspect_dataframe df)) as [e|[]]; [by eauto|].
  rewrite outputs_sbind, outcome_sbind by apply preprocess_df_outputs.
  destruct (outcome (preprocess_df df)) as [e|df']; [by eauto|].
  destruct (chart_of_cases df') as [[e ->]|[fig ->]]; [left|right]; eauto.
Qed.

(** A run leaves behind all of its output or none: a run that dies,
    whatever the service answers and whatever exception ends it, has
    shown no figure and written no file by then; a run that returns has
    shown one figure and then written that figure to [visual.html], once,
    and nothing else. *)
Theorem main_outputs wb :
  match outcome (main wb) with
  | inl _ => outputs (emitted (main wb)) = []
  | inr _ =>
      ∃ fig, outputs (emitted (main wb))
             = [Show fig; WriteHtml "visual.html" fig]
  end.
Proof.
  destruct (main_outputs_cases wb) as [(e & -> & ->)|(fig & -> & ->)]; eauto.
Qed.

Lemma fetch_exceptions wb e :
  outcome (fetch wb) = inl e →
  series_metadata_get wb indicator = inl e
  ∨ data_DataFrame wb indicator = inl e
  ∨ e = KeyError ["Country"].
Proof.
  unfold fetch, set_index.
  destruct (series_metadata_get wb indicator) as [e'|metadata];
    [intros [= ->]; by left|].
  destruct (data_DataFrame wb indicator) as [e'|raw];
    [intros [= ->]; by right; left|].
  unfold sbind. simpl. case_decide; [done|]. intros [= <-]. by right; right.
Qed.

Lemma inspect_dataframe_exceptions df e :
  outcome (inspect_dataframe df) = inl e →
  e = ValueError "Cannot describe a DataFrame without columns".
Proof.
  unfold inspect_dataframe, describe. case_decide; [|done]. by intros [= <-].
Qed.

Lemma chart_of_exceptions df e :
  outcome (chart_of df) = inl e →
  e = ValueError "'World' is not in list"
  ∨ ∃ missing, e = KeyError missing ∧ missing ≠ [] ∧ NoDup missing
               ∧ missing ⊆ region_grps ++ income_grps.
Proof.
  destruct (decide ("World" ∈ columns df)) as [Hw|Hw];
    [|rewrite (chart_of_inl _ _ (arrange_value_error _ Hw));
      intros [= <-]; by left].
  destruct (decide (region_grps ++ income_grps ⊆ columns df)) as [Hg|Hg].
  - apply list_index_is_Some in Hw as [w Hw].
    by rewrite (chart_of_inr _ _ _ (arrange_inr _ _ Hw Hg)).
  - rewrite (chart_of_inl _ _ (arrange_key_error _ Hw Hg)). intros [= <-].
    right. eexists. split_and!; [done|by rewrite missing_nil| |].
    + by apply NoDup_filter, (bool_decide_unpack _).
    + intros k Hk%list_elem_of_filter. tauto.
Qed.

(** C28. No other exception ends a run: the exception a run dies of is the
    one the service answered one of the two calls with, or one of four of
    the script's own, the [KeyError] of the column [Country], the
    [ValueError] of [describe] on a table without columns, the
    [ValueError] of the look-up of [World], or the [KeyError] of the
    selection, which names regions or income groups, at least one and
    none twice (so that pandas, which lists a missing label once, and
    the model, which lists it as often as it was asked for, name the
    same labels).  This holds for every answer of the service, well
    formed or not. *)
Theorem main_exceptions wb e :
  outcome (main wb) = inl e →
  series_metadata_get wb indicator = inl e
  ∨ data_DataFrame wb indicator = inl e
  ∨ own_exception e.
Proof.
  rewrite main_stages, outcome_sbind.
  destruct (outcome (fetch wb)) as [e'|df] eqn:Hfetch.
  { intros [= ->]. unfold own_exception.
    destruct (fetch_exceptions _ _ Hfetch) as [?|[?|?]]; auto. }
  rewrite outcome_sbind.
  destruct (outcome (inspect_dataframe df)) as [e'|[]] eqn:Hinspect.
  { intros [= ->]. apply inspect_dataframe_exceptions in Hinspect.
    unfold own_exception. auto. }
  rewrite outcome_sbind. destruct (preprocess_df_returns df) as [r ->].
  intros He%chart_of_exceptions. unfold own_exception. tauto.
Qed.

Lemma main_exceptions_witness :
  series_metadata_get (small_wb None) indicator
  = inl (ValueError "'World' is not in list")
  ∨ data_DataFrame (small_wb None) indicator
    = inl (ValueError "'World' is not in list")
  ∨ own_exception (ValueError "'World' is not in list").
Proof.
  apply (main_exceptions (small_wb None)). by vm_compute.
Defined.

(** C26. When the service cannot answer, the run dies of the exception of
    the call that failed having printed what came before it: the heading
    when it is the metadata, the heading and the metadata when it is the
    table; and a table without the column [Country] ends the run with a
    [KeyError] at the same point. *)
Theorem main_service_error wb e :
  (series_metadata_get wb indicator = inl e →
   main wb = ([Print [PStr metadata_heading]], inl e))
  ∧ (∀ metadata,
      series_metadata_get wb indicator = inr metadata →
      (data_DataFrame wb indicator = inl e
       ∨ ∃ raw, data_DataFrame wb indicator = inr raw
                ∧ wb_label raw ≠ "Country" ∧ e = KeyError ["Country"]) →
      main wb = ([Print [PStr metadata_heading];
                  Print [PMetadata indicator metadata]], inl e)).
Proof.
  rewrite main_stages. unfold fetch. split.
  - by intros ->.
  - intros metadata -> [->|(raw & -> & Hlabel & ->)]; [done|].
    unfold sbind, set_index. simpl. by rewrite decide_False.
Qed.

(** C27. A raw table without a single year column ends the run in
    [inspect_dataframe]: the summary statistics of a table without
    columns are a [ValueError], raised after the first rows and the
    column report have been printed. *)
Theorem main_no_columns wb metadata raw df :
  series_metadata_get wb indicator = inr metadata →
  data_DataFrame wb indicator = inr raw →
  set_index "Country" raw = inr df →
  columns df = [] →
  main wb
  = ([Print [PStr metadata_heading]; Print [PMetadata indicator metadata]]
     ++ take 8 (inspect_report df),
     inl (ValueError "Cannot describe a DataFrame without columns")).
Proof.
  intros Hmd Hraw Hset Hcols.
  rewrite main_stages, (sbind_inr _ _ _ _ (fetch_eq _ _ _ _ Hmd Hraw Hset)).
  by rewrite (sbind_inl _ _ _ _ (inspect_dataframe_inl _ Hcols)).
Qed.

Lemma main_service_error_witness :
  main offline_wb
  = ([Print [PStr metadata_heading]], inl (FetchError indicator)).
Proof. exact (proj1 (main_service_error offline_wb _) eq_refl). Defined.

Lemma main_no_columns_witness :
  main yearless_wb
  = ([Print [PStr metadata_heading]; Print [PMetadata indicator "Sanitation"]]
     ++ take 8 (inspect_report
                  (Frame ["Albania"] [] [[]] (Some "Country") None)),
     inl (ValueError "Cannot describe a DataFrame without columns")).
Proof.
  exact (main_no_columns yearless_wb "Sanitation" _ _
           eq_refl eq_refl eq_refl eq_refl).
Defined.
