(* ===== verification/Store.v ===== *)
(** * Store: the tables as objects

    In Python a table is an object and a variable holds a reference to
    it.  [preprocess_df] ([src/part1_script.py], lines 94-131) changes
    the object it is given ([inplace=True] at lines 107 and 111, the
    assignment to [df.columns] at line 114) and then rebinds its local
    variable to new objects (lines 117, 120, 122), of which it returns
    the last; [main] changes the object it got back (line 152) and
    rebinds its variable twice (lines 147, 160).

    The other files pass values.  This file gives the same two functions
    over a store of objects and proves that nothing observable is lost:
    - [store] maps references to tables, [pys] is the monad of the
      script over a store ([deref], [assign] for a change in place, [new]
      for a new object);
    - [preprocess_df_obj] and [main_obj] are the two functions statement
      by statement, every read of a variable a [deref] of the reference
      it holds at that point;
    - [preprocess_df_obj_spec]: the call prints what
      [Preprocess.preprocess_df] prints and returns a reference to a new
      object that holds [reshape] of the table, while the object of the
      caller is left holding [Preprocess.preprocess_df_argument] and every
      other object is untouched;
    - [main_obj_refines]: with the stores erased ([observe]), a run of
      [main_obj] from any store is the run of [Main.main].  The table
      that [inspect_dataframe] reports is the object before
      [preprocess_df] changes it, and no later statement reads the
      changed object, so passing values is sound for this script.
      [program] is the call of line 167, from the empty store.

    The table of line 143 is a [wb_frame] until line 144 has made
    [Country] its index; it enters the store as line 144 leaves it. *)

From Stdlib Require Import QArith Lia.
From stdpp Require Import base tactics option list strings sorting.
From S2P Require Import Prelude Numeric Labels Frame Stats Plot Effects.
From S2P Require Import Preprocess Chart Main.
Local Close Scope Q_scope.
Local Open Scope string_scope.
Local Open Scope list_scope.

(** ** The store *)

(** A reference to a table object. *)
Definition ref : Type := nat.

(** The objects, and the first reference not in use: the objects created
    so far are those below [fresh]. *)
Record store : Type := Store {
  obj : ref → frame Q;
  fresh : ref
}.

(** The store with [f] at [l]. *)
Definition set_obj (l : ref) (f : frame Q) (s : store) : store :=
  Store (λ k, if decide (k = l) then f else obj s k) (fresh s).

(** The store with one more object, [f]. *)
Definition alloc (f : frame Q) (s : store) : store :=
  Store (λ k, if decide (k = fresh s) then f else obj s k) (S (fresh s)).

(** A computation of the script over a store. *)
Definition pys (A : Type) : Type := store → py (A * store).

Definition hret {A} (a : A) : pys A := λ s, sret (a, s).

Definition hbind {A B} (m : pys A) (k : A → pys B) : pys B :=
  λ s, sbind (m s) (λ r, k r.1 r.2).

(** A computation that does not touch the store. *)
Definition lift {A} (m : py A) : pys A := λ s, sbind m (λ a, sret (a, s)).

(** The table a reference points to. *)
Definition deref (l : ref) : pys (frame Q) := λ s, sret (obj s l, s).

(** The object at [l] becomes [f]: a change in place. *)
Definition assign (l : ref) (f : frame Q) : pys unit :=
  λ s, sret (tt, set_obj l f s).

(** A new object. *)
Definition new (f : frame Q) : pys ref := λ s, sret (fresh s, alloc f s).

Declare Scope store_scope.
Delimit Scope store_scope with store.
Notation "x <- m ;; k" := (hbind m (λ x, k))
  (at level 20, m at level 99, k at level 200, only parsing) : store_scope.
Notation "m ;; k" := (hbind m (λ _, k))
  (at level 100, k at level 200, only parsing, right associativity)
  : store_scope.
Local Open Scope store_scope.

(** A method that changes its object in place. *)
Definition update (l : ref) (g : frame Q → frame Q) : pys unit :=
  f <- deref l ;; assign l (g f).

(** What is seen of a run: the events and the outcome, without the
    store. *)
Definition observe {A} (m : py (A * store)) : py A :=
  (m.1, match m.2 with inl e => inl e | inr r => inr r.1 end).

(** ** The functions *)

Definition preprocess_df_obj (df : ref) : pys ref :=
  f <- deref df ;;
  let before_prep_shape := shape f in
  lift (print [PStr (nl +:+ "Drop columns with all nulls.")]) ;;
  update df dropna_columns ;;
  lift (print [PStr "Drop rows with all nulls in year columns."]) ;;
  f <- deref df ;;
  let cols_to_check := columns f in
  f <- deref df ;;
  dropped <- lift (lift_result (dropna_rows cols_to_check f)) ;;
  assign df dropped ;;
  lift (print [PStr "Remove 'YR' from column names."]) ;;
  update df (rename_columns (str_replace "YR" "")) ;;
  lift (print
    [PStr "Round percentage values to 1 decimal place in year columns."]) ;;
  f <- deref df ;;
  df <- new (round_frame 1 f) ;;
  lift (print [PStr "Take transpose of the dataframe."]) ;;
  f <- deref df ;;
  df <- new (transpose f) ;;
  update df (set_index_name (Some "Year")) ;;
  f <- deref df ;;
  df <- new (rename_axis_columns None f) ;;
  lift (print [PStr rule]) ;;
  lift (print [PStr "Shape of dataframe before applying preprocessing:";
               PShape before_prep_shape]) ;;
  f <- deref df ;;
  lift (print [PStr "Shape of dataframe after applying preprocessing:";
               PShape (shape f)]) ;;
  lift (print [PStr ("Top 5 rows now:" +:+ nl)]) ;;
  f <- deref df ;;
  lift (print [PFrame (head 5 f)]) ;;
  lift (print [PStr rule]) ;;
  hret df.

Definition main_obj (wb : service) : pys unit :=
  lift (print [PStr metadata_heading]) ;;
  metadata <- lift (lift_result (series_metadata_get wb indicator)) ;;
  lift (print [PMetadata indicator metadata]) ;;
  raw <- lift (lift_result (data_DataFrame wb indicator)) ;;
  table <- lift (lift_result (set_index "Country" raw)) ;;
  sanit_df <- new table ;;
  f <- deref sanit_df ;;
  lift (inspect_dataframe f) ;;
  sanit_df <- preprocess_df_obj sanit_df ;;
  f <- deref sanit_df ;;
  world_index <- lift (lift_result (index_of "World" (columns f))) ;;
  f <- deref sanit_df ;;
  let countries := sorted (take world_index (columns f)) in
  f <- deref sanit_df ;;
  of_countries <- lift (lift_result (select_columns countries f)) ;;
  f <- deref sanit_df ;;
  assigned <- lift (lift_result
    (setitem_column "Country_Avg_line" (mean_rows of_countries) f)) ;;
  assign sanit_df assigned ;;
  let countries := "Country_Avg_line" :: countries in
  f <- deref sanit_df ;;
  selected <- lift (lift_result
    (select_columns (countries ++ region_grps ++ income_grps) f)) ;;
  sanit_df <- new selected ;;
  let filter_options :=
    dict_of_items [("Countries", countries); ("Income Groups", income_grps);
                   ("Regions", region_grps)] in
  f <- deref sanit_df ;;
  lift (create_chart filter_options f).

(** Line 167: the module calls [main] once, when no table has been
    created yet. *)
Definition empty_store : store := Store (λ _, Frame [] [] [] None None) 0.

Definition program (wb : service) : py unit := observe (main_obj wb empty_store).

(** A store with the sample table of [Preprocess] as its one object. *)
Definition sample_store : store := Store (λ _, sample_table) 1.

(** ** The laws of the store *)

Lemma obj_set_obj_eq l f s : obj (set_obj l f s) l = f.
Proof. simpl. by rewrite decide_True. Qed.

Lemma obj_set_obj_ne l k f s : k ≠ l → obj (set_obj l f s) k = obj s k.
Proof. intros. simpl. by rewrite decide_False. Qed.

Lemma obj_alloc_eq f s : obj (alloc f s) (fresh s) = f.
Proof. simpl. by rewrite decide_True. Qed.

Lemma obj_alloc_ne f s k : k ≠ fresh s → obj (alloc f s) k = obj s k.
Proof. intros. simpl. by rewrite decide_False. Qed.

Section laws.
Context {A B : Type}.
Implicit Types (k : A → pys B) (s : store).

Lemma hbind_hret (a : A) k s : hbind (hret a) k s = k a s.
Proof. unfold hbind, hret. by rewrite sbind_sret_l. Qed.

Lemma hbind_lift (m : py A) k s : hbind (lift m) k s = sbind m (λ a, k a s).
Proof.
  unfold hbind, lift. rewrite sbind_assoc. apply sbind_ext. intros a _.
  by rewrite sbind_sret_l.
Qed.

Lemma hbind_lift_sret (a : A) k s : hbind (lift (sret a)) k s = k a s.
Proof. by rewrite hbind_lift, sbind_sret_l. Qed.
End laws.

Lemma hbind_deref {B} l (k : frame Q → pys B) s :
  hbind (deref l) k s = k (obj s l) s.
Proof. unfold hbind, deref. by rewrite sbind_sret_l. Qed.

Lemma hbind_assign {B} l f (k : unit → pys B) s :
  hbind (assign l f) k s = k tt (set_obj l f s).
Proof. unfold hbind, assign. by rewrite sbind_sret_l. Qed.

Lemma hbind_new {B} f (k : ref → pys B) s :
  hbind (new f) k s = k (fresh s) (alloc f s).
Proof. unfold hbind, new. by rewrite sbind_sret_l. Qed.

Lemma hbind_update {B} l g (k : unit → pys B) s :
  hbind (update l g) k s = k tt (set_obj l (g (obj s l)) s).
Proof.
  unfold update, hbind, deref, assign. by rewrite !sbind_sret_l.
Qed.

(** A [print] in front of a run is its event in front of the trace. *)
Lemma hbind_print {B} args (k : unit → pys B) s t r :
  k tt s = (t, r) → hbind (lift (print args)) k s = (Print args :: t, r).
Proof. intros Hk. rewrite hbind_lift. unfold print, emit, sbind. simpl. by rewrite Hk. Qed.

Lemma observe_sbind {A B} (m : py A) (k : A → py (B * store)) :
  observe (sbind m k) = sbind m (λ a, observe (k a)).
Proof.
  destruct m as [t [e|a]]; unfold sbind, observe; simpl; [done|].
  by destruct (k a) as [t' [e|[b s]]].
Qed.

Lemma observe_hbind_lift {A B} (m : py A) (k : A → pys B) s :
  observe (hbind (lift m) k s) = sbind m (λ a, observe (k a s)).
Proof. by rewrite hbind_lift, observe_sbind. Qed.

Lemma observe_lift {A} (m : py A) s : observe (lift m s) = m.
Proof.
  unfold lift. rewrite observe_sbind. rewrite <-(sbind_sret_r m) at 2.
  by apply sbind_ext.
Qed.

(** One step of a run over the store. *)
Ltac store_step :=
  first [rewrite hbind_deref | rewrite hbind_assign | rewrite hbind_new
        |rewrite hbind_update | rewrite hbind_lift_sret | rewrite hbind_hret
        |apply hbind_print];
  rewrite ?obj_set_obj_eq, ?obj_alloc_eq.

(** ** [preprocess_df] over the store *)

(** The run of [preprocess_df_obj] on the object at [l]: the trace and
    the value of [Preprocess.preprocess_df], the value in a new object,
    and the object at [l] changed. *)
Lemma preprocess_df_obj_run l s :
  l < fresh s →
  ∃ t v argument s',
    preprocess_df (obj s l) = (t, inr v)
    ∧ preprocess_df_obj l s = (t, inr (S (S (fresh s)), s'))
    ∧ obj s' (S (S (fresh s))) = v
    ∧ fresh s' = S (S (S (fresh s)))
    ∧ preprocess_df_argument (obj s l) = inr argument
    ∧ obj s' l = argument
    ∧ ∀ k, k < fresh s → k ≠ l → obj s' k = obj s k.
Proof.
  intros Hl. unfold preprocess_df, preprocess_df_argument, preprocess_df_obj.
  destruct (dropna_rows_columns (dropna_columns (obj s l))) as [g Hg].
  rewrite Hg. cbn [lift_result]. do 4 eexists. split; [reflexivity|].
  split.
  - do 6 store_step. rewrite Hg. cbn [lift_result].
    do 20 store_step. reflexivity.
  - simpl. rewrite !decide_True by done.
    rewrite !decide_False by lia. rewrite decide_True by done.
    split_and!; [done..|]. intros k Hk Hkl. by rewrite !decide_False by lia.
Qed.

Lemma observe_prefix {A} t (m : py (A * store)) :
  observe (t ++ m.1, m.2) = (t ++ (observe m).1, (observe m).2).
Proof. done. Qed.

(** One statement that is the same in both models. *)
Tactic Notation "same_step" "as" simple_intropattern(x) :=
  rewrite observe_hbind_lift; apply sbind_ext; intros x _.

Lemma sbind_prefix_eq {A} t (m m' : py A) :
  m = m' → (t ++ m.1, m.2) = (t ++ m'.1, m'.2).
Proof. by intros ->. Qed.

Lemma main_obj_observe wb s : observe (main_obj wb s) = main wb.
Proof.
  unfold main_obj, main.
  same_step as ?. same_step as metadata. same_step as ?.
  same_step as raw. same_step as table.
  rewrite hbind_new, hbind_deref, obj_alloc_eq. same_step as ?.
  destruct (preprocess_df_obj_run (fresh s) (alloc table s))
    as (t & v & arg & s' & Hp & Hobj & Hv & _); [simpl; lia|].
  rewrite obj_alloc_eq in Hp. rewrite (sbind_inr _ _ _ _ Hp).
  unfold hbind at 1. rewrite (sbind_inr _ _ _ _ Hobj). cbn [fst snd].
  rewrite observe_prefix. apply sbind_prefix_eq. cbv zeta.
  rewrite hbind_deref, Hv. same_step as world_index.
  rewrite !hbind_deref, Hv. same_step as of_countries.
  rewrite hbind_deref, Hv. same_step as assigned.
  rewrite hbind_assign, hbind_deref, obj_set_obj_eq. same_step as selected.
  rewrite hbind_new, hbind_deref, obj_alloc_eq. apply observe_lift.
Qed.

(** ** The two refinements *)

(** C18. [preprocess_df] changes the object it is given and returns a
    new one.  Called on a reference [l] to a well-formed table [f], it
    prints the report of [Preprocess.preprocess_df] and returns a
    reference that was not in use before, to an object that holds
    [reshape f]; the object at [l] is left without its empty columns and
    rows and with [YR] removed from its labels, neither rounded nor
    transposed; no other object of the store is changed. *)
Theorem preprocess_df_obj_spec l s :
  l < fresh s → frame_wf (obj s l) →
  ∃ r s',
    preprocess_df_obj l s
    = (preprocess_report (shape (obj s l)) (shape (reshape (obj s l)))
         (head 5 (reshape (obj s l))), inr (r, s'))
    ∧ fresh s ≤ r < fresh s'
    ∧ obj s' r = reshape (obj s l)
    ∧ obj s' l = rename_columns (str_replace "YR" "") (clean (obj s l))
    ∧ ∀ k, k < fresh s → k ≠ l → obj s' k = obj s k.
Proof.
  intros Hl Hwf.
  destruct (preprocess_df_obj_run l s Hl)
    as (t & v & arg & s' & Hp & Hrun & Hv & Hfresh & Harg & Hobj & Hrest).
  rewrite preprocess_df_eq in Hp by done.
  unfold preprocess_df_argument in Harg.
  rewrite dropna_rows_clean in Harg by done. simplify_eq.
  eexists _, s'. split_and!; [done|lia..|done|done|done].
Qed.

Lemma preprocess_df_obj_spec_witness :
  ∃ r s',
    preprocess_df_obj 0 sample_store
    = (preprocess_report (4, 3) (2, 3) (reshape sample_table), inr (r, s'))
    ∧ 1 ≤ r < fresh s'
    ∧ obj s' r = reshape sample_table
    ∧ obj s' 0 = rename_columns (str_replace "YR" "") (clean sample_table)
    ∧ ∀ k, k < 1 → k ≠ 0 → obj s' k = obj sample_store k.
Proof.
  exact (preprocess_df_obj_spec 0 sample_store (le_n 1) sample_table_wf).
Defined.

(** C7. Passing tables by value is sound for this script: from any
    store, the run of [main_obj], which reads every variable through the
    reference it holds and changes objects in place where the code does,
    prints, shows and writes what [Main.main] does and ends as it ends,
    with the same exception when it raises.  So does the script, which
    calls it on the empty store. *)
Theorem main_obj_refines wb s :
  observe (main_obj wb s) = main wb ∧ program wb = main wb.
Proof. split; apply main_obj_observe. Qed.
