(* ===== verification/Setoids.v ===== *)
(** * Setoids: tables up to the way their values are written

    A value of the model is a rational, and a rational has more than one
    fraction that denotes it; a Python float has one representation.  So
    that no theorem of the development depends on which fraction stands
    in a cell, this file gives tables the equivalence [≡] (the same
    labels and axis names, and cells equal as rationals, [Numeric]'s [≡]
    on [Q]) and proves that the script cannot tell equivalent tables
    apart:

    - every table operation of [Frame] is [Proper] for [≡], the
      operations that may fail included (they fail on both tables, with
      the same exception, or on neither);
    - [df.round] returns the same fractions on equivalent tables
      ([round_frame_canonical]), so [Preprocess.reshape] maps equivalent
      tables to equal ones, and [Main.arrange] is [Proper];
    - the statistics of [Stats] are [Proper] (the merge sort that orders
      a column included), and so is what [inspect_dataframe] prints, for
      the equivalence [≡] on events;
    - two services that answer with the same metadata and equivalent
      tables make [main] emit equivalent events, end alike and leave the
      same outputs behind ([main_representation_independent]): what
      differs is only how the report of [inspect_dataframe] writes the
      values of the raw table;
    - the finite map of a table ([Content.content]) is [Proper]: the
      abstract state does not depend on the fractions either.

    The instances let [rewrite] and [f_equiv] work under the operations;
    [solve_frame_proper] proves the instance of an operation that builds
    its result with list functions. *)

From Stdlib Require Import QArith Qround Lia.
From stdpp Require Import base tactics option list strings sorting gmap.
From S2P Require Import Prelude Numeric Labels Frame Stats Effects Preprocess.
From S2P Require Import Content Chart Main.
Local Close Scope Q_scope.
Local Open Scope string_scope.
Local Open Scope list_scope.

(** ** The equivalences *)

Section equiv.
Context `{Equiv A}.

(** The same labels and names, and cells equivalent one by one. *)
#[export] Instance frame_equiv : Equiv (frame A) := λ f g,
  index f = index g ∧ columns f = columns g ∧ values f ≡ values g
  ∧ index_name f = index_name g ∧ columns_name f = columns_name g.

#[export] Instance series_equiv : Equiv (series A) := λ s t,
  s_index s = s_index t ∧ s_values s ≡ s_values t.
End equiv.

(** An outcome of a call that may fail: the same exception, or
    related results. *)
Definition same_outcome {B} (R : relation B) : relation (exn + B) :=
  sum_relation (=) R.

(** Two answers of the service with the same labels and equivalent
    values. *)
#[export] Instance wb_frame_equiv : Equiv wb_frame := λ t u,
  wb_label t = wb_label u ∧ wb_names t = wb_names u
  ∧ wb_years t ≡ wb_years u.

(** Two services that answer the two calls of [main] alike: the same
    metadata, and the same exception or equivalent tables. *)
Definition same_answers (wb wb' : service) : Prop :=
  series_metadata_get wb indicator = series_metadata_get wb' indicator
  ∧ same_outcome (≡) (data_DataFrame wb indicator)
                     (data_DataFrame wb' indicator).

(** Statistics are equivalent when they are of one kind and of
    equivalent values. *)
#[export] Instance stat_equiv : Equiv stat := λ s t,
  match s, t with
  | Exact q, Exact q' | Root q, Root q' => q ≡ q'
  | _, _ => False
  end.

(** What is printed is equivalent when it is the same but for the way
    the values of a table are written. *)
#[export] Instance printed_equiv : Equiv printed := λ a b,
  match a, b with
  | PFrame f, PFrame g => f ≡ g
  | PDescribe f, PDescribe g => f ≡ g
  | PFrame _, _ | _, PFrame _ | PDescribe _, _ | _, PDescribe _ => False
  | _, _ => a = b
  end.

#[export] Instance event_equiv : Equiv event := λ a b,
  match a, b with
  | Print args, Print args' => args ≡ args'
  | Info f, Info g => f ≡ g
  | Print _, _ | _, Print _ | Info _, _ | _, Info _ => False
  | _, _ => a = b
  end.

(** Two runs that emit equivalent events and end alike. *)
Definition run_equiv {A} (m m' : py A) : Prop :=
  emitted m ≡ emitted m' ∧ outcome m = outcome m'.

(** What [main] does with the table it has fetched (lines 146-165). *)
Definition after_fetch (df : frame Q) : py unit :=
  (inspect_dataframe df ;; df <- preprocess_df df ;; chart_of df)%script.

(** The same value as another fraction. *)
Definition unreduced (q : Q) : Q := (Qnum q * 2 # Qden q * 2)%Q.

(** A service whose answers are those of [wb] with every value of the
    table written as another fraction. *)
Definition with_unreduced (wb : service) : service :=
  Service (series_metadata_get wb)
    (λ code,
       match data_DataFrame wb code with
       | inl e => inl e
       | inr t =>
           inr (WbFrame (wb_label t) (wb_names t)
                  (reframe (wb_years t) (index (wb_years t))
                     (columns (wb_years t))
                     (fmap (M:=list) (fmap (M:=option) unreduced)
                        <$> values (wb_years t))))
       end).

(** The instance of an operation that builds its result from the labels
    and cells of its argument with list functions. *)
(** Entries under the same labels with equivalent values. *)
Definition same_entries : relation (list (string * string * Q)) :=
  Forall2 (λ x y, x.1 = y.1 ∧ x.2 ≡ y.2).

Ltac frame_equiv_by H :=
  destruct H as (Hi & Hc & Hv & Hin & Hcn);
  repeat split; simpl; rewrite ?Hi, ?Hc, ?Hin, ?Hcn; try done;
  repeat (f_equiv; try done).
Ltac solve_frame_proper :=
  let H := fresh in intros ? ? H; frame_equiv_by H.

(** ** Tables form a setoid *)

Section setoid.
Context `{Equiv A} `{!Equivalence (≡@{A})}.
Implicit Types (f g : frame A).

#[export] Instance frame_equivalence : Equivalence (≡@{frame A}).
Proof.
  split.
  - by intros f.
  - intros f g (?&?&?&?&?). by split_and!.
  - intros f g h (?&?&?&?&?) (?&?&?&?&?). split_and!; by etrans.
Qed.

#[export] Instance series_equivalence : Equivalence (≡@{series A}).
Proof.
  split.
  - by intros s.
  - by intros s t [??].
  - intros s t u [??] [??]. split; by etrans.
Qed.

Lemma frame_equiv_eq f : f ≡ f.
Proof. done. Qed.
End setoid.

(** ** The list functions of the tables *)

Section lists.
Context `{Equiv B}.

#[export] Instance compress_proper :
  Proper ((=) ==> (≡) ==> (≡@{list B})) compress.
Proof.
  intros m ? <-. induction m as [|[] m IH]; intros l l' Hl; simpl;
    destruct Hl; try constructor; auto.
Qed.

#[export] Instance transpose_mat_proper n :
  Proper ((≡) ==> (≡@{list (list B)})) (transpose_mat n).
Proof.
  induction 1 as [|r r' rs rs' Hr _ IH]; simpl.
  - apply replicate_proper. constructor.
  - by apply zip_with_proper; [solve_proper| |].
Qed.

#[export] Instance gather_proper ixs : Proper ((≡) ==> (≡@{list B})) (gather ixs).
Proof.
  intros l l' Hl. unfold gather.
  induction ixs as [|i ixs IH]; csimpl; [constructor|].
  destruct (list_lookup_proper i _ _ Hl); csimpl; [by constructor|done].
Qed.

#[export] Instance existsb_notna_proper :
  Proper ((≡) ==> (=)) (existsb (@notna B)).
Proof.
  induction 1 as [|c c' cs cs' Hc _ IH]; simpl; [done|].
  by rewrite IH, (notna_proper _ _ Hc).
Qed.
End lists.

(** A function that cannot tell equivalent elements apart maps
    equivalent lists to the same list. *)
Lemma fmap_equiv_eq `{Equiv B} {C} (h : B → C) :
  Proper ((≡) ==> (=)) h → Proper ((≡) ==> (=)) (fmap (M:=list) h).
Proof.
  intros Hh. induction 1 as [|x y l k Hxy _ IH]; [done|].
  by rewrite !fmap_cons, IH, (Hh _ _ Hxy).
Qed.

(** ** The operations of [Frame] *)

Section operations.
Context `{Equiv A}.
Implicit Types (f g : frame A).

#[export] Instance index_proper : Proper ((≡) ==> (=)) (@index A).
Proof. by intros f g (?&?&?&?&?). Qed.

#[export] Instance columns_proper : Proper ((≡) ==> (=)) (@columns A).
Proof. by intros f g (?&?&?&?&?). Qed.

#[export] Instance values_proper : Proper ((≡) ==> (≡)) (@values A).
Proof. by intros f g (?&?&?&?&?). Qed.

#[export] Instance shape_proper : Proper ((≡) ==> (=)) (@shape A).
Proof. intros f g (Hi&Hc&_). unfold shape. by rewrite Hi, Hc. Qed.

#[export] Instance column_values_proper :
  Proper ((≡) ==> (≡)) (@column_values A).
Proof.
  intros f g (_&Hc&Hv&_). unfold column_values. rewrite Hc.
  by apply transpose_mat_proper.
Qed.

#[export] Instance notna_any_columns_proper :
  Proper ((≡) ==> (=)) (@notna_any_columns A).
Proof.
  intros f g Hfg. unfold notna_any_columns.
  apply (fmap_equiv_eq _ _), column_values_proper, Hfg.
Qed.

#[export] Instance dropna_columns_proper :
  Proper ((≡) ==> (≡)) (@dropna_columns A).
Proof.
  intros f g Hfg. unfold dropna_columns.
  rewrite (notna_any_columns_proper _ _ Hfg). frame_equiv_by Hfg.
Qed.

#[export] Instance dropna_rows_all_proper :
  Proper ((≡) ==> (≡)) (@dropna_rows_all A).
Proof.
  intros f g Hfg. unfold dropna_rows_all.
  rewrite (fmap_equiv_eq _ _ _ _ (values_proper _ _ Hfg)).
  frame_equiv_by Hfg.
Qed.

#[export] Instance take_columns_proper ixs :
  Proper ((≡) ==> (≡)) (@take_columns A ixs).
Proof. unfold take_columns. solve_frame_proper. Qed.

#[export] Instance rename_columns_proper h :
  Proper ((≡) ==> (≡)) (@rename_columns A h).
Proof. unfold rename_columns. solve_frame_proper. Qed.

#[export] Instance transpose_proper : Proper ((≡) ==> (≡)) (@transpose A).
Proof.
  intros f g Hfg. pose proof (column_values_proper _ _ Hfg).
  unfold transpose. frame_equiv_by Hfg.
Qed.

#[export] Instance head_proper n : Proper ((≡) ==> (≡)) (@head A n).
Proof. unfold head. solve_frame_proper. Qed.

#[export] Instance set_index_name_proper name :
  Proper ((≡) ==> (≡)) (@set_index_name A name).
Proof. unfold set_index_name. solve_frame_proper. Qed.

#[export] Instance rename_axis_columns_proper name :
  Proper ((≡) ==> (≡)) (@rename_axis_columns A name).
Proof. unfold rename_axis_columns. solve_frame_proper. Qed.

#[export] Instance dropna_rows_proper subset :
  Proper ((≡) ==> same_outcome (≡)) (@dropna_rows A subset).
Proof.
  intros f g Hfg. unfold dropna_rows. rewrite (columns_proper _ _ Hfg).
  destruct (get_indexer_strict _ _) as [e|ixs]; constructor; [done|].
  rewrite (fmap_equiv_eq _ _ _ _
             (values_proper _ _ (take_columns_proper ixs _ _ Hfg))).
  frame_equiv_by Hfg.
Qed.

#[export] Instance select_columns_proper keys :
  Proper ((≡) ==> same_outcome (≡)) (@select_columns A keys).
Proof.
  intros f g Hfg. unfold select_columns. rewrite (columns_proper _ _ Hfg).
  destruct (get_indexer_strict _ _) as [e|ixs]; constructor; [done|].
  by apply take_columns_proper.
Qed.
End operations.

(** ** Assigning a column *)

Section setitem.
Context `{Equiv A}.
Implicit Types (f g : frame A) (s t : series A).

#[export] Instance series_get_proper :
  Proper ((≡) ==> (=) ==> (≡)) (@series_get A).
Proof.
  intros s t [Hi Hv] k ? <-. unfold series_get. rewrite Hi.
  destruct (list_index k (s_index t)) as [i|]; simpl; [|constructor].
  destruct (list_lookup_proper i _ _ Hv); simpl; [done|constructor].
Qed.

#[export] Instance reindex_for_setitem_proper :
  Proper ((≡) ==> (=) ==> same_outcome (≡)) (@reindex_for_setitem A).
Proof.
  intros s t Hst idx ? <-. unfold reindex_for_setitem.
  assert (series_get s <$> idx ≡ series_get t <$> idx).
  { induction idx as [|k idx IH]; csimpl; [constructor|].
    constructor; [by apply series_get_proper|done]. }
  destruct Hst as [Hi Hv]. rewrite Hi.
  repeat case_decide; by constructor.
Qed.

Lemma set_cells_proper (label : string) cols :
  Proper ((≡) ==> (≡) ==> (≡))
    (λ (v : option A) row,
       zip_with (λ c old, if decide (c = label) then v else old) cols row).
Proof.
  intros v v' Hv row row' Hrow. revert row row' Hrow.
  induction cols as [|c cols IH]; intros ?? [|]; simpl; try constructor;
    [by case_decide|auto].
Qed.

#[export] Instance set_column_proper label :
  Proper ((≡) ==> (≡) ==> (≡)) (@set_column A label).
Proof.
  intros vs vs' Hvs f g Hfg. unfold set_column.
  rewrite (columns_proper _ _ Hfg).
  case_decide; frame_equiv_by Hfg; [apply set_cells_proper|].
  intros ??????. apply app_proper; [done|]. constructor; [done|constructor].
Qed.

#[export] Instance setitem_column_proper label :
  Proper ((≡) ==> (≡) ==> same_outcome (≡)) (@setitem_column A label).
Proof.
  intros s t Hst f g Hfg. unfold setitem_column.
  rewrite (index_proper _ _ Hfg).
  destruct (reindex_for_setitem_proper _ _ Hst (index g) _ eq_refl);
    constructor; [done|].
  by apply set_column_proper.
Qed.
End setitem.

(** ** Rounding and the mean *)

Implicit Types (f g : frame Q).

#[export] Instance round_frame_proper d : Proper ((≡) ==> (≡)) (round_frame d).
Proof. unfold round_frame. solve_frame_proper. Qed.

#[export] Instance mean_rows_proper : Proper ((≡) ==> (≡)) mean_rows.
Proof.
  intros f g (Hi & _ & Hv & _). split; simpl; [done|]. by f_equiv.
Qed.

Lemma frame_eq f g :
  index f = index g → columns f = columns g → values f = values g →
  index_name f = index_name g → columns_name f = columns_name g → f = g.
Proof. destruct f, g. simpl. by intros -> -> -> -> ->. Qed.

Lemma round_frame_canonical d : Proper ((≡) ==> (=)) (round_frame d).
Proof.
  intros f g (Hi & Hc & Hv & Hin & Hcn). apply frame_eq; simpl; try done.
  revert Hv. apply fmap_equiv_eq, fmap_equiv_eq, cell_round_canonical.
Qed.

(** ** Sorting *)

(** A merge sort by an order that cannot tell equivalent elements apart
    sorts equivalent lists into equivalent lists. *)
Section sorting.
Context `{Equiv B} (R : relation B) `{!RelDecision R}.
Context `{HRp : !Proper ((≡) ==> (≡) ==> iff) R}.

#[export] Instance list_merge_proper :
  Proper ((≡) ==> (≡) ==> (≡)) (list_merge R).
Proof.
  intros l1 l1' H1.
  induction H1 as [|x1 x1' l1 l1' Hx1 Hl1 IH1]; intros l2 l2' H2.
  { by rewrite !list_merge_nil_l. }
  induction H2 as [|x2 x2' l2 l2' Hx2 Hl2 IH2].
  { rewrite !list_merge_nil_r. by constructor. }
  rewrite !list_merge_cons.
  destruct (decide (R x1 x2)) as [HR|HR];
    rewrite (HRp _ _ Hx1 _ _ Hx2) in HR;
    [rewrite decide_True by done|rewrite decide_False by done];
    (constructor; [done|]); [apply IH1; by constructor|done].
Qed.

#[export] Instance merge_list_to_stack_proper :
  Proper ((≡) ==> (≡) ==> (≡)) (merge_list_to_stack R).
Proof.
  intros st st' Hst.
  induction Hst as [|o o' st st' Ho Hst IH]; intros l l' Hl; simpl.
  { by repeat constructor. }
  destruct Ho as [k k' Hk|]; (constructor; [by constructor|]); [|done].
  by apply IH, list_merge_proper.
Qed.

#[export] Instance merge_stack_proper : Proper ((≡) ==> (≡)) (merge_stack R).
Proof.
  induction 1 as [|o o' st st' Ho Hst IH]; simpl; [constructor|].
  destruct Ho; [by apply list_merge_proper|done].
Qed.

#[export] Instance merge_sort_aux_proper :
  Proper ((≡) ==> (≡) ==> (≡)) (merge_sort_aux R).
Proof.
  intros st st' Hst l l' Hl. revert st st' Hst.
  induction Hl as [|x x' l l' Hx Hl IH]; intros st st' Hst; simpl.
  - by apply merge_stack_proper.
  - apply IH, merge_list_to_stack_proper; [done|]. by repeat constructor.
Qed.

#[export] Instance merge_sort_proper : Proper ((≡) ==> (≡)) (merge_sort R).
Proof. intros l l' Hl. apply merge_sort_aux_proper; [constructor|done]. Qed.
End sorting.

(** ** The statistics of [Stats] *)

#[export] Instance Qle_equiv_proper : Proper ((≡) ==> (≡) ==> iff) Qle.
Proof.
  intros x x' Hx y y' Hy. unfold equiv, Q_equiv in *. by rewrite Hx, Hy.
Qed.

#[export] Instance present_proper : Proper ((≡) ==> (≡)) present.
Proof. intros cs cs' Hcs. by apply list_equiv_Forall2, omap_id_equiv. Qed.

#[export] Instance count_proper : Proper ((≡) ==> (=)) count.
Proof. intros cs cs' Hcs. unfold count. by rewrite Hcs. Qed.

#[export] Instance sort_values_proper : Proper ((≡) ==> (≡)) sort_values.
Proof. intros cs cs' Hcs. unfold sort_values. by rewrite Hcs. Qed.

#[export] Instance interpolate_proper :
  Proper ((≡) ==> (≡) ==> (≡)) interpolate.
Proof.
  intros xs xs' Hxs h h' Hh. unfold interpolate.
  rewrite (Qfloor_comp _ _ Hh).
  destruct (list_lookup_proper (Z.to_nat (Qfloor h')) _ _ Hxs)
    as [x x' Hx|]; simpl; [|constructor].
  assert (default x (xs !! S (Z.to_nat (Qfloor h')))
          ≡ default x' (xs' !! S (Z.to_nat (Qfloor h')))) as Hu.
  { by destruct (list_lookup_proper (S (Z.to_nat (Qfloor h'))) _ _ Hxs). }
  constructor. unfold equiv, Q_equiv in *. by rewrite Hu, Hx, Hh.
Qed.

#[export] Instance quantile_proper q : Proper ((≡) ==> (≡)) (quantile q).
Proof.
  intros cs cs' Hcs. unfold quantile.
  pose proof (sort_values_proper _ _ Hcs) as Hs.
  apply interpolate_proper; [done|]. by rewrite (length_proper _ _ Hs).
Qed.

#[export] Instance minimum_proper : Proper ((≡) ==> (≡)) minimum.
Proof. intros cs cs' Hcs. unfold minimum. by rewrite Hcs. Qed.

#[export] Instance maximum_proper : Proper ((≡) ==> (≡)) maximum.
Proof. intros cs cs' Hcs. unfold maximum. by rewrite Hcs. Qed.

#[export] Instance variance_proper : Proper ((≡) ==> (≡)) variance.
Proof.
  intros cs cs' Hcs. unfold variance.
  pose proof (present_proper _ _ Hcs) as Hp.
  destruct (nanmean_proper _ _ Hcs) as [m m' Hm|]; [|constructor].
  rewrite (length_proper _ _ Hp). case_decide; constructor.
  unfold equiv, Q_equiv. apply Qdiv_comp; [|done]. apply Qsum_Forall2.
  clear -Hp Hm. apply list_equiv_Forall2 in Hp.
  induction Hp as [|v v' vs vs' Hv _ IH]; csimpl; [constructor|].
  constructor; [|done]. unfold equiv, Q_equiv in *. by rewrite Hv, Hm.
Qed.

Lemma fmap_Exact_proper (c c' : cell) : c ≡ c' → Exact <$> c ≡ Exact <$> c'.
Proof. by intros [q q' Hq|]; constructor. Qed.

Lemma fmap_Root_proper (c c' : cell) : c ≡ c' → Root <$> c ≡ Root <$> c'.
Proof. by intros [q q' Hq|]; constructor. Qed.

#[export] Instance describe_column_proper :
  Proper ((≡) ==> (≡)) describe_column.
Proof.
  intros cs cs' Hcs. unfold describe_column. rewrite (count_proper _ _ Hcs).
  constructor; [constructor; by unfold equiv, stat_equiv|].
  repeat (constructor;
          [first [apply fmap_Exact_proper|apply fmap_Root_proper];
           by rewrite Hcs|]).
  constructor.
Qed.

#[export] Instance summary_proper : Proper ((≡) ==> (≡)) summary.
Proof.
  intros f g Hfg. pose proof (column_values_proper _ _ Hfg) as Hcols.
  unfold summary. frame_equiv_by Hfg.
Qed.

(** ** The reshaper and the stages after it *)

#[export] Instance clean_proper : Proper ((≡) ==> (≡)) clean.
Proof. intros f g Hfg. unfold clean. by do 2 f_equiv. Qed.

(** The reshaped table is rounded, so it is the same table for every
    way of writing the values. *)
Lemma reshape_canonical : Proper ((≡) ==> (=)) reshape.
Proof.
  intros f g Hfg. unfold reshape.
  by rewrite (round_frame_canonical 1 _ _
                (rename_columns_proper _ _ _ (clean_proper _ _ Hfg))).
Qed.

(** The run of [preprocess_df] from the table its row drop returns. *)
Lemma preprocess_df_inr f h :
  dropna_rows (columns (dropna_columns f)) (dropna_columns f) = inr h →
  preprocess_df f
  = let r := rename_axis_columns None
               (set_index_name (Some "Year")
                  (transpose
                     (round_frame 1
                        (rename_columns (str_replace "YR" "") h)))) in
    (preprocess_report (shape f) (shape r) (head 5 r), inr r).
Proof. intros Hh. unfold preprocess_df. rewrite Hh. reflexivity. Qed.

Lemma preprocess_df_canonical : Proper ((≡) ==> (=)) preprocess_df.
Proof.
  intros f g Hfg.
  pose proof (dropna_columns_proper _ _ Hfg) as Hd.
  pose proof (dropna_rows_proper (columns (dropna_columns f)) _ _ Hd) as Hr.
  rewrite (columns_proper _ _ Hd) in Hr at 2.
  destruct (dropna_rows_columns (dropna_columns f)) as [h Hh].
  destruct (dropna_rows_columns (dropna_columns g)) as [h' Hh'].
  rewrite Hh, Hh' in Hr. inversion_clear Hr as [|?? Hhh'].
  rewrite (preprocess_df_inr _ _ Hh), (preprocess_df_inr _ _ Hh').
  by rewrite (shape_proper _ _ Hfg),
    (round_frame_canonical 1 _ _ (rename_columns_proper _ _ _ Hhh')).
Qed.

#[export] Instance country_columns_proper :
  Proper ((≡) ==> (=)) country_columns.
Proof. intros f g Hfg. unfold country_columns. by rewrite (columns_proper _ _ Hfg). Qed.

#[export] Instance with_average_proper countries :
  Proper ((≡) ==> same_outcome (≡)) (with_average countries).
Proof.
  intros f g Hfg. unfold with_average.
  destruct (select_columns_proper countries _ _ Hfg) as [e ? <-|h h' Hh];
    [by constructor|].
  by apply setitem_column_proper; [apply mean_rows_proper|].
Qed.

#[export] Instance arrange_proper :
  Proper ((≡) ==> same_outcome (prod_relation (≡) (=))) arrange.
Proof.
  intros f g Hfg. unfold arrange. rewrite (country_columns_proper _ _ Hfg).
  destruct (country_columns g) as [e|countries]; [by constructor|].
  destruct (with_average_proper countries _ _ Hfg) as [e ? <-|h h' Hh];
    [by constructor|].
  destruct (select_columns_proper (chart_columns countries) _ _ Hh)
    as [e ? <-|k k' Hk]; [by constructor|].
  constructor. by split.
Qed.

(** ** What is printed *)

#[export] Instance stat_equivalence : Equivalence (≡@{stat}).
Proof.
  split.
  - by intros [].
  - by intros [] [].
  - intros [] [] []; unfold equiv, stat_equiv; try done; apply transitivity.
Qed.

#[export] Instance printed_equivalence : Equivalence (≡@{printed}).
Proof.
  split.
  - by intros [].
  - intros [] []; unfold equiv, printed_equiv; done.
  - intros [] [] []; unfold equiv, printed_equiv; try done;
      try congruence; apply transitivity.
Qed.

#[export] Instance event_equivalence : Equivalence (≡@{event}).
Proof.
  split.
  - intros []; change (equiv (A:=event)) with event_equiv; by simpl.
  - intros [] []; change (equiv (A:=event)) with event_equiv; by simpl.
  - intros [] [] []; change (equiv (A:=event)) with event_equiv; simpl;
      try done; try congruence; apply transitivity.
Qed.

#[export] Instance run_equivalence {A} : Equivalence (@run_equiv A).
Proof.
  split.
  - by intros m.
  - by intros m m' [??].
  - intros m m' m'' [??] [??]. split; by etrans.
Qed.

Lemma Print_one_proper (a b : printed) : a ≡ b → Print [a] ≡ Print [b].
Proof. intros Hab. by repeat constructor. Qed.

Lemma inspect_report_proper f g :
  f ≡ g → inspect_report f ≡ inspect_report g.
Proof.
  intros Hfg. unfold inspect_report.
  constructor; [reflexivity|].
  constructor; [apply Print_one_proper, (head_proper 5 _ _ Hfg)|].
  do 2 (constructor; [reflexivity|]). constructor; [exact Hfg|].
  do 3 (constructor; [reflexivity|]).
  constructor; [apply Print_one_proper, (summary_proper _ _ Hfg)|].
  constructor; [reflexivity|constructor].
Qed.

(** A run goes on as its equivalent does when both are followed by the
    same statements. *)
Lemma run_equiv_sbind {A B} (m m' : py A) (k : A → py B) :
  run_equiv m m' → run_equiv (sbind m k) (sbind m' k).
Proof.
  destruct m as [t [e|a]], m' as [t' [e'|a']]; intros [Ht Ho];
    simplify_eq/=; unfold run_equiv, sbind; simpl; [done|].
  split; [by apply app_proper|done].
Qed.

(** ** The run *)

#[export] Instance set_index_proper key :
  Proper ((≡) ==> same_outcome (≡)) (set_index key).
Proof.
  intros t u (Hl & Hn & Hi & Hc & Hv & Hin & Hcn). unfold set_index.
  rewrite Hl. case_decide; constructor; [|done]. by split_and!.
Qed.

Lemma main_after_fetch wb : main wb = sbind (fetch wb) after_fetch.
Proof. apply main_stages. Qed.

(** The two fetches print the same and end alike. *)
Lemma fetch_same wb wb' :
  same_answers wb wb' →
  emitted (fetch wb) = emitted (fetch wb')
  ∧ same_outcome (≡) (outcome (fetch wb)) (outcome (fetch wb')).
Proof.
  intros [Hmd Hdata]. unfold fetch. rewrite Hmd.
  destruct (series_metadata_get wb' indicator) as [e|metadata];
    [by split; [|constructor]|].
  destruct Hdata as [e ? <-|raw raw' Hraw]; [by split; [|constructor]|].
  unfold sbind. simpl.
  by destruct (set_index_proper "Country" _ _ Hraw); split; [|constructor..].
Qed.

(** From equivalent tables the script goes on to the same end and the
    same outputs. *)
Lemma inspect_dataframe_outcome f g :
  f ≡ g → outcome (inspect_dataframe f) = outcome (inspect_dataframe g).
Proof.
  intros Hfg. unfold inspect_dataframe, describe.
  rewrite (columns_proper _ _ Hfg). by case_decide.
Qed.

Lemma after_fetch_same f g :
  f ≡ g →
  outcome (after_fetch f) = outcome (after_fetch g)
  ∧ outputs (emitted (after_fetch f)) = outputs (emitted (after_fetch g)).
Proof.
  intros Hfg. unfold after_fetch.
  rewrite !outcome_sbind, (outputs_sbind (inspect_dataframe f)),
    (outputs_sbind (inspect_dataframe g)) by apply inspect_dataframe_outputs.
  by rewrite (preprocess_df_canonical _ _ Hfg),
    (inspect_dataframe_outcome _ _ Hfg).
Qed.

Lemma main_same wb wb' :
  same_answers wb wb' →
  outcome (main wb) = outcome (main wb')
  ∧ outputs (emitted (main wb)) = outputs (emitted (main wb')).
Proof.
  intros [_ Hout]%fetch_same. rewrite !main_after_fetch.
  rewrite !outcome_sbind, !outputs_sbind by apply fetch_outputs.
  destruct Hout as [e ? <-|f g Hfg]; [done|by apply after_fetch_same].
Qed.

Lemma inspect_dataframe_equiv f g :
  f ≡ g → run_equiv (inspect_dataframe f) (inspect_dataframe g).
Proof.
  intros Hfg. pose proof (columns_proper _ _ Hfg) as Hc.
  pose proof (inspect_report_proper _ _ Hfg) as Hr.
  destruct (decide (columns g = [])) as [Hg|Hg].
  - rewrite !inspect_dataframe_inl by congruence. split; [|done].
    by apply take_proper.
  - by rewrite !inspect_dataframe_eq by congruence.
Qed.

Lemma after_fetch_equiv f g :
  f ≡ g → run_equiv (after_fetch f) (after_fetch g).
Proof.
  intros Hfg. unfold after_fetch. rewrite (preprocess_df_canonical _ _ Hfg).
  by apply run_equiv_sbind, inspect_dataframe_equiv.
Qed.

Lemma main_equiv wb wb' : same_answers wb wb' → run_equiv (main wb) (main wb').
Proof.
  intros [Ht Ho]%fetch_same. rewrite !main_after_fetch.
  destruct (fetch wb) as [t [e|f]], (fetch wb') as [t' [e'|g]];
    unfold emitted, outcome in *; simpl in *; subst t';
    inversion Ho as [?? He|?? Hfg]; subst; [done|].
  destruct (after_fetch_equiv _ _ Hfg) as [Hem Hout].
  split; [by apply app_proper|done].
Qed.


Lemma unreduced_equiv q : unreduced q ≡ q.
Proof.
  unfold unreduced, equiv, Q_equiv, Qeq. simpl. lia.
Qed.

Lemma fmap_unreduced_equiv (row : list cell) :
  row ≡ fmap (M:=option) unreduced <$> row.
Proof.
  induction row as [|[q|] row IH]; csimpl; repeat constructor; [|done..].
  symmetry. apply unreduced_equiv.
Qed.

Lemma with_unreduced_same_answers wb : same_answers wb (with_unreduced wb).
Proof.
  split; [done|]. simpl.
  destruct (data_DataFrame wb indicator) as [e|t]; constructor; [done|].
  repeat split; simpl.
  induction (values (wb_years t)) as [|row rows IH]; csimpl; constructor;
    [apply fmap_unreduced_equiv|done].
Qed.


(** ** The content of equivalent tables *)

Lemma row_entries_proper cols r (row row' : list cell) :
  row ≡ row' → same_entries (row_entries cols r row) (row_entries cols r row').
Proof.
  intros Hrow. unfold row_entries. revert cols.
  induction Hrow as [|c c' row row' Hc _ IH]; intros [|k cols];
    try constructor.
  destruct Hc; csimpl; [constructor; [done|]|]; apply IH.
Qed.

Lemma entries_proper (f g : frame Q) :
  f ≡ g → same_entries (entries f) (entries g).
Proof.
  intros (Hi & Hc & Hv & _). unfold entries. rewrite Hi, Hc.
  generalize (index g). induction Hv as [|row row' rows rows' Hrow _ IH];
    intros [|r idx]; try constructor.
  simpl. apply Forall2_app; [by apply row_entries_proper|apply IH].
Qed.

Lemma list_to_map_same_entries l l' :
  same_entries l l' →
  list_to_map (M:=gmap (string * string) Q) l ≡ list_to_map l'.
Proof.
  induction 1 as [|[k x] [k' y] l l' [Hk Hx] _ IH]; [done|].
  simpl in *. subst k'. by apply insert_proper.
Qed.

(** Equivalent tables have equivalent contents: the finite map of a
    table does not depend on the fractions that write its values. *)
#[export] Instance content_proper : Proper ((≡) ==> (≡)) (content (A:=Q)).
Proof.
  intros f g Hfg. apply list_to_map_same_entries. by apply entries_proper.
Qed.
