(* ===== verification/Repeats.v ===== *)
(** * Repeats: economies that share a name

    The theorems of [Main] on the table of the chart assume that the
    labels of the reshaped table are distinct.  Nothing in the script
    sees to that: the names of the economies come from the service, and
    pandas lets labels repeat.  This file follows lines 150-160 of
    [src/part1_script.py] on a table whose labels repeat.

    - [df[keys]] returns, for each key in turn, every column that carries
      it ([Frame.select_columns]): a label asked for [m] times and
      carried by [c] columns yields [m * c] columns
      ([columns_take_columns]).
    - The labels before [World] are asked for as often as they occur
      there, so a cell enters the mean of its row as many times as the
      label of its column occurs before [World] ([average_weights]): the
      average column is a weighted mean, and the plain mean of the
      countries only when no name repeats.
    - [occurrences] counts a label in a list; [repeated_df] is a table
      with one name carried by two economies.
    - Year labels can repeat as well, once [YR] is removed
      ([repeated_years_df]); the specification leaves that case open,
      the code keeps one row per column ([reshape_repeated_years]). *)

From Stdlib Require Import QArith Lia.
From stdpp Require Import base tactics option list strings sorting.
From S2P Require Import Prelude Numeric Labels Frame Stats Plot Effects.
From S2P Require Import Preprocess Chart Main.
Local Close Scope Q_scope.
Local Open Scope string_scope.
Local Open Scope list_scope.

(** How often [k] occurs in [labels]. *)
Definition occurrences (k : string) (labels : list string) : nat :=
  length (filter (λ x, x = k) labels).

(** How often position [p] is asked for by [ixs]. *)
Definition asked (p : nat) (ixs : list nat) : nat :=
  length (filter (λ i, i = p) ixs).

(** A reshaped table of one year in which two economies are called
    [Congo]. *)
Definition repeated_df : frame Q :=
  Frame ["2000"]
        (["Chad"; "Congo"; "Congo"; "World"] ++ region_grps ++ income_grps)
        [[Some 10%Q; Some 20%Q; Some 60%Q; Some 55%Q] ++ replicate 11 (Some 50%Q)]
        (Some "Year") None.

(** A raw table with a column [YR2000] and a column [2000]. *)
Definition repeated_years_df : frame Q :=
  Frame ["Chad"; "World"] ["YR2000"; "2000"]
        [[Some 10.04%Q; Some 11%Q]; [Some 50%Q; Some 51%Q]]
        (Some "Country") None.

(** ** Counting positions *)

Lemma length_filter_0 {B} (P : B → Prop) `{!∀ x, Decision (P x)} l :
  Forall (λ x, ¬ P x) l → length (filter P l) = 0.
Proof.
  induction 1 as [|x l Hx _ IH]; [done|]. by rewrite filter_cons_False.
Qed.

Section positions.
Implicit Types (k : string) (labels keys : list string) (p : nat).

Lemma length_filter_imap k labels (f : nat → string → nat * string) :
  (∀ i x, (f i x).2 = x) →
  length (filter (λ ix : nat * string, ix.2 = k) (imap f labels))
  = occurrences k labels.
Proof.
  unfold occurrences. revert f.
  induction labels as [|x labels IH]; intros f Hf; [done|].
  rewrite imap_cons, !filter_cons, Hf.
  case_decide; simpl; by rewrite (IH (f ∘ S)) by (intros; apply Hf).
Qed.

(** A label has as many positions as it occurs. *)
Lemma length_positions k labels :
  length (positions k labels) = occurrences k labels.
Proof.
  unfold positions. rewrite length_fmap. by apply length_filter_imap.
Qed.

Lemma occurrences_app k labels labels' :
  occurrences k (labels ++ labels')
  = occurrences k labels + occurrences k labels'.
Proof. unfold occurrences. by rewrite filter_app, length_app. Qed.

Lemma occurrences_0 k labels : k ∉ labels → occurrences k labels = 0.
Proof.
  intros Hk. apply length_filter_0, Forall_forall. by intros x Hx ->.
Qed.

Lemma occurrences_Permutation k : Proper ((≡ₚ) ==> (=)) (occurrences k).
Proof. intros l l' Hl. unfold occurrences. by rewrite Hl. Qed.

(** Gathering the labels at the positions of keys: each key, once per
    column that carries it. *)
Lemma gather_bind_positions keys labels :
  gather (keys ≫= λ k, positions k labels) labels
  = keys ≫= λ k, replicate (occurrences k labels) k.
Proof.
  induction keys as [|k keys IH]; [done|].
  by rewrite !bind_cons, gather_app, IH, gather_positions, length_positions.
Qed.

(** Position [p] is among the positions of its label, once, and among
    those of no other label. *)
Lemma asked_positions k k' labels p :
  labels !! p = Some k →
  asked p (positions k' labels) = if decide (k' = k) then 1 else 0.
Proof.
  intros Hp. unfold asked. case_decide as Hk.
  - subst k'. change 1 with (length [p]).
    apply Permutation_length, NoDup_Permutation.
    + apply NoDup_filter, NoDup_positions.
    + apply NoDup_singleton.
    + intros i. rewrite list_elem_of_filter, elem_of_positions,
        list_elem_of_singleton. split; [by intros [-> _]|by intros ->].
  - apply length_filter_0, Forall_forall.
    intros i Hi%elem_of_positions ->. congruence.
Qed.

(** Asking for the columns of [keys], position [p] is asked for as often
    as its label occurs in [keys]. *)
Lemma asked_bind_positions keys labels p k :
  labels !! p = Some k →
  asked p (keys ≫= λ k, positions k labels) = occurrences k keys.
Proof.
  intros Hp. induction keys as [|k' keys IH]; [done|].
  rewrite bind_cons. unfold asked, occurrences in *.
  rewrite filter_app, length_app, IH, filter_cons.
  fold (asked p (positions k' labels)). rewrite (asked_positions k) by done.
  by case_decide.
Qed.
End positions.

(** ** The table of the chart when labels repeat *)

Section repeats.
Context (df table : frame Q) (w : nat) (options : list (string * list string)).
Context (Hwf : frame_wf df).
Context (Hw : list_index "World" (columns df) = Some w).
Context (Harr : arrange df = inr (table, options)).
Context (Havg : "Country_Avg_line" ∉ columns df).

Local Abbreviation countries := (sorted (take w (columns df))).

Lemma columns_averaged :
  columns (averaged countries df) = columns df ++ ["Country_Avg_line"].
Proof using Havg.
  unfold averaged. by rewrite columns_set_column, decide_False.
Qed.

(** The average column is the last column of the table it was assigned
    to. *)
Lemma positions_average :
  positions "Country_Avg_line" (columns df ++ ["Country_Avg_line"])
  = [length (columns df)].
Proof using Havg.
  apply Permutation_singleton_r, NoDup_Permutation;
    [apply NoDup_positions|apply NoDup_singleton|].
  intros i. rewrite elem_of_positions, list_elem_of_singleton.
  rewrite lookup_app_Some, list_lookup_singleton_Some. split.
  - intros [Hi%list_elem_of_lookup_2|[? [? _]]]; [done|lia].
  - intros ->. right. split_and!; [lia|lia|done].
Qed.

Lemma table_chart_table : table = chart_table countries df.
Proof using Hw Harr.
  by destruct (arrange_inr_inv df w table options Hw Harr) as (_ & -> & _).
Qed.

(** The labels asked for at line 160 other than the average column are
    labels of the reshaped table. *)
Lemma chart_keys_not_average :
  Forall (λ k, k ≠ "Country_Avg_line")
    (countries ++ region_grps ++ income_grps).
Proof using Havg.
  apply Forall_app. split; apply Forall_forall.
  - intros k Hk%countries_subseteq ->. done.
  - apply group_not_average.
Qed.

Lemma occurrences_averaged k :
  k ≠ "Country_Avg_line" →
  occurrences k (columns df ++ ["Country_Avg_line"])
  = occurrences k (columns df).
Proof.
  intros Hk. rewrite occurrences_app, (occurrences_0 k ["Country_Avg_line"]);
    [lia|]. by intros ->%list_elem_of_singleton.
Qed.

Lemma bind_replicate_averaged keys :
  Forall (λ k, k ≠ "Country_Avg_line") keys →
  keys ≫= (λ k, replicate
                  (occurrences k (columns df ++ ["Country_Avg_line"])) k)
  = keys ≫= λ k, replicate (occurrences k (columns df)) k.
Proof.
  induction 1 as [|k keys Hk _ IH]; [done|].
  by rewrite !bind_cons, IH, occurrences_averaged.
Qed.

(** The columns of the chart: the average column, then each label asked
    for, once per column that carries it. *)
Lemma columns_table_repeated :
  columns table
  = "Country_Avg_line"
    :: ((countries ++ region_grps ++ income_grps) ≫=
          λ k, replicate (occurrences k (columns df)) k).
Proof using Hw Harr Havg.
  rewrite table_chart_table. unfold chart_table, take_columns.
  cbn [columns reframe].
  rewrite gather_bind_positions, columns_averaged. unfold chart_columns.
  rewrite <-app_comm_cons, bind_cons, <-length_positions, positions_average.
  cbn [length replicate app]. f_equal.
  apply bind_replicate_averaged, chart_keys_not_average.
Qed.

Lemma lookup_average_column :
  columns (averaged countries df) !! length (columns df)
  = Some "Country_Avg_line".
Proof using Havg.
  by rewrite columns_averaged, lookup_app_r, Nat.sub_diag by lia.
Qed.

(** The cell of the average column in row [i]: the mean over the cells
    of the row gathered at the positions the labels before [World]
    select. *)
Lemma iloc_average_repeated i row :
  values df !! i = Some row →
  iloc table i 0
  = Some (nanmean
            (gather (countries ≫= λ k, positions k (columns df)) row)).
Proof using All.
  intros Hrow. rewrite table_chart_table. unfold chart_table. cbv zeta.
  rewrite iloc_take_columns by (by apply averaged_wf || apply bind_positions_lt).
  rewrite columns_averaged. unfold chart_columns.
  rewrite <-app_comm_cons, bind_cons, positions_average. simpl.
  unfold averaged.
  rewrite (iloc_set_column _ _ _ _ _ "Country_Avg_line")
    by (done || by apply length_average_cells || apply lookup_average_column).
  rewrite decide_True by done. unfold average_cells. simpl.
  by rewrite !list_lookup_fmap, Hrow.
Qed.
End repeats.

(** The positions the mean of line 152 is taken over ask for position
    [p] as often as the label of column [p] occurs before [World]. *)
Lemma asked_countries (df : frame Q) w p k :
  columns df !! p = Some k →
  asked p (sorted (take w (columns df)) ≫= λ k, positions k (columns df))
  = occurrences k (take w (columns df)).
Proof.
  intros Hp. rewrite (asked_bind_positions _ _ p k) by done.
  apply occurrences_Permutation, (sorter_perm (sort:=sorted)).
Qed.

(** C35. Lines 150-160 on a table whose labels repeat.  The chart has
    the average column and then, for each label before [World] in sorted
    order, each region and each income group, every column that carries
    the label: a name carried by [c] columns of which [m] stand before
    [World] heads [m * c] columns of the chart.  The cell of the average
    column is the mean over cells of its row in which the cell of a
    column enters as often as the label of the column occurs before
    [World]: a weighted mean when a name repeats, and a column behind
    [World] enters it when it shares its name with one before. *)
Theorem arrange_repeated df w table options i row :
  frame_wf df → "Country_Avg_line" ∉ columns df →
  list_index "World" (columns df) = Some w →
  arrange df = inr (table, options) →
  values df !! i = Some row →
  columns table
  = "Country_Avg_line"
    :: ((sorted (take w (columns df)) ++ region_grps ++ income_grps) ≫=
          λ k, replicate (occurrences k (columns df)) k)
  ∧ ∃ ixs,
      iloc table i 0 = Some (nanmean (gather ixs row))
      ∧ ∀ p k, columns df !! p = Some k →
               asked p ixs = occurrences k (take w (columns df)).
Proof.
  intros Hwf Havg Hw Harr Hrow.
  split; [by apply (columns_table_repeated df table w options)|].
  eexists. split; [by apply (iloc_average_repeated df table w options)|].
  intros p k. apply asked_countries.
Qed.

Lemma repeated_df_arranged :
  arrange repeated_df
  = inr (chart_table ["Chad"; "Congo"; "Congo"] repeated_df,
         chart_options ["Chad"; "Congo"; "Congo"]).
Proof. by vm_compute. Qed.

Lemma arrange_repeated_witness :
  columns (chart_table ["Chad"; "Congo"; "Congo"] repeated_df)
  = "Country_Avg_line"
    :: ((sorted (take 3 (columns repeated_df)) ++ region_grps ++ income_grps)
          ≫= λ k, replicate (occurrences k (columns repeated_df)) k)
  ∧ ∃ ixs,
      iloc (chart_table ["Chad"; "Congo"; "Congo"] repeated_df) 0 0
      = Some (nanmean
                (gather ixs
                   ([Some 10%Q; Some 20%Q; Some 60%Q; Some 55%Q]
                    ++ replicate 11 (Some 50%Q))))
      ∧ ∀ p k, columns repeated_df !! p = Some k →
               asked p ixs = occurrences k (take 3 (columns repeated_df)).
Proof.
  apply (arrange_repeated repeated_df 3 _
           (chart_options ["Chad"; "Congo"; "Congo"]) 0);
    [by apply (bool_decide_unpack _)..|done|apply repeated_df_arranged|done].
Defined.

(** On [repeated_df] the chart has four columns [Congo], and the average
    of the year is 34, the two economies called [Congo] counted twice
    each, where the mean of the three economies is 30. *)
Lemma repeated_df_average :
  occurrences "Congo"
    (columns (chart_table ["Chad"; "Congo"; "Congo"] repeated_df)) = 4
  ∧ iloc (chart_table ["Chad"; "Congo"; "Congo"] repeated_df) 0 0
    ≡ Some (Some 34%Q)
  ∧ nanmean [Some 10%Q; Some 20%Q; Some 60%Q] ≡ Some 30%Q.
Proof. split_and!; [done|by repeat constructor..]. Qed.

(** Two columns of the raw table that get the same year label stay two
    rows of the reshaped table, in the order of the columns, each with
    its own cells: nothing is merged and nothing is raised. *)
Lemma reshape_repeated_years :
  outcome (preprocess_df repeated_years_df) = inr (reshape repeated_years_df)
  ∧ index (reshape repeated_years_df) = ["2000"; "2000"]
  ∧ values (reshape repeated_years_df)
    ≡ [[Some 10%Q; Some 50%Q]; [Some 11%Q; Some 51%Q]].
Proof. split_and!; [done..|by repeat constructor]. Qed.
