(* ===== verification/Console.v ===== *)
(** * Console: the characters a run writes to standard output

    [Effects] records a [print] call by the values printed.  This file
    goes one step further, as far as Python itself decides the
    characters: [print] writes [str] of each argument, a space between
    two arguments and a line feed at the end
    ([src/part1_script.py], lines 81-91 and 106-129); [str] of a string
    is the string, of [None] the word [None], of the tuple [df.shape] the
    two decimal numerals in parentheses.  What a library renders (a
    table, the table of statistics, the metadata record, the report of
    [df.info()]) stays a [rendering]: a segment of the output known by
    the value it shows, not by its characters.

    [console] is the output of a trace with adjacent characters joined,
    so that two traces have the same [console] exactly when they write
    the same characters between the same renderings.  [read_shape] reads
    a shape back from its text; it is the specification of [shape_text],
    not code of the script. *)

From Stdlib Require Import QArith Ascii.
From stdpp Require Import base tactics option list strings pretty.
From S2P Require Import Prelude Numeric Frame Stats Plot Effects Preprocess Main.
Local Close Scope Q_scope.
Local Open Scope string_scope.

(** ** Data *)

(** A value shown by the library that owns it. *)
Inductive rendering : Type :=
  | RFrame (df : frame Q)
  | RDescribe (summary : frame stat)
  | RMetadata (code : string) (metadata : string)
  | RInfo (df : frame Q).

(** A segment of standard output. *)
Inductive piece : Type :=
  | Chars (s : string)
  | Rendered (r : rendering).

#[export] Instance rendering_eq_dec : EqDecision rendering.
Proof. solve_decision. Defined.

#[export] Instance piece_eq_dec : EqDecision piece.
Proof. solve_decision. Defined.

(** ** Operations *)

(** [str(df.shape)]: a tuple of two integers. *)
Definition shape_text (shape : nat * nat) : string :=
  "(" +:+ pretty shape.1 +:+ ", " +:+ pretty shape.2 +:+ ")".

(** [str(v)] for a value handed to [print]. *)
Definition py_str (v : printed) : piece :=
  match v with
  | PStr s => Chars s
  | PNone => Chars "None"
  | PShape shape => Chars (shape_text shape)
  | PFrame df => Rendered (RFrame df)
  | PDescribe summary => Rendered (RDescribe summary)
  | PMetadata code metadata => Rendered (RMetadata code metadata)
  end.

(** The arguments of a [print] call, a space between two of them. *)
Fixpoint separated (args : list printed) : list piece :=
  match args with
  | [] => []
  | a :: args =>
      py_str a :: match args with
                  | [] => []
                  | _ :: _ => Chars " " :: separated args
                  end
  end.

(** What [print(a, b, ...)] writes: the arguments, then a line feed. *)
Definition print_text (args : list printed) : list piece :=
  separated args ++ [Chars nl].

(** What an event writes to standard output. *)
Definition written (e : event) : list piece :=
  match e with
  | Print args => print_text args
  | Info df => [Rendered (RInfo df)]
  | Show _ | WriteHtml _ _ => []
  end.

(** A segment put in front of an output: characters join the characters
    that follow them. *)
Definition put (p : piece) (out : list piece) : list piece :=
  match p, out with
  | Chars s, Chars s' :: out' => Chars (s +:+ s') :: out'
  | _, _ => p :: out
  end.

Definition joined (out : list piece) : list piece := foldr put [] out.

(** Standard output after a trace. *)
Definition console (t : list event) : list piece := joined (t ≫= written).

(** No two neighbours of an output are characters. *)
Fixpoint is_joined (out : list piece) : bool :=
  match out with
  | Chars _ :: (Chars _ :: _) => false
  | _ :: out' => is_joined out'
  | [] => true
  end.

(** ** Reading a shape back *)

(** The value of a decimal digit. *)
Definition digit (c : ascii) : option N :=
  let n := N_of_ascii c in
  if decide (48 ≤ n ≤ 57)%N then Some (n - 48)%N else None.

(** The numeral a string starts with, most significant digit first, and
    the rest of the string; [acc] is the value read so far, [None] when
    no digit has been read. *)
Fixpoint read_digits (acc : option N) (s : string) : option N * string :=
  match s with
  | String c s' =>
      match digit c with
      | Some d => read_digits (Some (10 * default 0 acc + d)%N) s'
      | None => (acc, s)
      end
  | EmptyString => (acc, s)
  end.

(** [s] without the prefix [p], when it starts with it. *)
Fixpoint expect (p s : string) : option string :=
  match p, s with
  | EmptyString, _ => Some s
  | String a p', String b s' => if decide (a = b) then expect p' s' else None
  | String _ _, EmptyString => None
  end.

(** The shape a string starts with, and the rest of the string. *)
Definition read_shape_prefix (s : string) : option ((nat * nat) * string) :=
  s ← expect "(" s;
  let '(r, s) := read_digits None s in
  r ← r;
  s ← expect ", " s;
  let '(c, s) := read_digits None s in
  c ← c;
  s ← expect ")" s;
  Some ((N.to_nat r, N.to_nat c), s).

Definition read_shape (s : string) : option (nat * nat) :=
  '(shape, rest) ← read_shape_prefix s;
  if decide (rest = "") then Some shape else None.

(** ** The text of the reports *)

(** The characters [preprocess_df] prints up to the first shape, between
    the two shapes, and from the second shape to the head of its
    result. *)
Definition report_head : string :=
  nl +:+ "Drop columns with all nulls." +:+ nl
  +:+ "Drop rows with all nulls in year columns." +:+ nl
  +:+ "Remove 'YR' from column names." +:+ nl
  +:+ "Round percentage values to 1 decimal place in year columns." +:+ nl
  +:+ "Take transpose of the dataframe." +:+ nl
  +:+ rule +:+ nl
  +:+ "Shape of dataframe before applying preprocessing: ".

Definition report_middle : string :=
  nl +:+ "Shape of dataframe after applying preprocessing: ".

Definition report_tail : string := nl +:+ "Top 5 rows now:" +:+ nl +:+ nl.

(** The characters [preprocess_df] prints before the head of its
    result. *)
Definition preprocess_text (before after : nat * nat) : string :=
  report_head +:+ shape_text before
  +:+ report_middle +:+ shape_text after +:+ report_tail.

(** The two shapes of a report, read back from its text. *)
Definition read_report (text : string) :
    option ((nat * nat) * (nat * nat)) :=
  s ← expect report_head text;
  '(before, s) ← read_shape_prefix s;
  s ← expect report_middle s;
  '(after, s) ← read_shape_prefix s;
  if decide (s = report_tail) then Some (before, after) else None.

(** Standard output after [preprocess_df]. *)
Definition preprocess_console (before after : nat * nat) (top : frame Q) :
    list piece :=
  [Chars (preprocess_text before after);
   Rendered (RFrame top);
   Chars (nl +:+ rule +:+ nl)].

(** Standard output after [inspect_dataframe] of a table with columns. *)
Definition inspect_console (df : frame Q) : list piece :=
  [Chars ("Top 5 rows:" +:+ nl +:+ nl);
   Rendered (RFrame (head 5 df));
   Chars (nl +:+ rule +:+ nl
          +:+ "Column data-type and non-null count:" +:+ nl +:+ nl);
   Rendered (RInfo df);
   Chars ("None" +:+ nl +:+ rule +:+ nl
          +:+ "Basic summary statistics for numerical column:" +:+ nl +:+ nl);
   Rendered (RDescribe (summary df));
   Chars (nl +:+ rule +:+ nl)].

(** Standard output of a run that reaches the chart: the heading and the
    metadata, the report of the raw table, the report of the reshaping,
    the characters at the seams joined. *)
Definition main_console (metadata : string) (df : frame Q) : list piece :=
  joined
    ([Chars (metadata_heading +:+ nl);
      Rendered (RMetadata indicator metadata);
      Chars nl]
     ++ inspect_console df
     ++ preprocess_console (shape df) (shape (reshape df))
                           (head 5 (reshape df))).

(** ** Lemmas on strings and outputs *)

Lemma string_app_assoc (s1 s2 s3 : string) :
  (s1 +:+ s2) +:+ s3 = s1 +:+ s2 +:+ s3.
Proof. induction s1 as [|c s1 IH]; [done|exact (f_equal (String c) IH)]. Qed.

Lemma put_put s s' out :
  put (Chars s) (put (Chars s') out) = put (Chars (s +:+ s')) out.
Proof. destruct out as [|[]]; simpl; by rewrite ?string_app_assoc. Qed.

(** Putting a segment in front commutes with joining what follows. *)
Lemma foldr_put_put p out rest :
  foldr put rest (put p out) = put p (foldr put rest out).
Proof.
  destruct p as [s|r], out as [|[s'|r'] out']; try done.
  symmetry. apply put_put.
Qed.

Lemma foldr_put_joined out rest :
  foldr put rest (joined out) = foldr put rest out.
Proof.
  induction out as [|p out IH]; [done|].
  unfold joined in *. simpl. by rewrite foldr_put_put, IH.
Qed.

Lemma joined_idemp out : joined (joined out) = joined out.
Proof. apply foldr_put_joined. Qed.

Lemma joined_app out out' :
  joined (out ++ out') = joined (joined out ++ joined out').
Proof.
  unfold joined at 1 2. rewrite !foldr_app, joined_idemp.
  by rewrite foldr_put_joined.
Qed.

Lemma is_joined_put p out : is_joined out = true → is_joined (put p out) = true.
Proof. by destruct p, out as [|[] [|[]]]. Qed.

Lemma joined_is_joined out : is_joined (joined out) = true.
Proof. induction out; [done|by apply is_joined_put]. Qed.

(** The output of a trace followed by another is the output of the first
    followed by the output of the second, the characters at the seam
    joined. *)
Lemma console_app t t' : console (t ++ t') = joined (console t ++ console t').
Proof. unfold console. by rewrite bind_app, joined_app. Qed.

Lemma console_sbind {A B} (m : py A) (k : A → py B) :
  console (emitted (sbind m k))
  = match outcome m with
    | inl _ => console (emitted m)
    | inr a => joined (console (emitted m) ++ console (emitted (k a)))
    end.
Proof.
  destruct m as [t [e|a]]; simpl; [done|].
  destruct (k a) as [t' r] eqn:Hk. by rewrite <-console_app.
Qed.

(** Showing and saving the figure write nothing. *)
Lemma console_outputs t : console (outputs t) = [].
Proof.
  unfold console, outputs. induction t as [|[] t IH]; simpl; try done.
Qed.

(** ** Lemmas on numerals *)

Lemma string_app_cons c (s s' : string) : String c s +:+ s' = String c (s +:+ s').
Proof. done. Qed.

Lemma expect_app p s : expect p (p +:+ s) = Some s.
Proof.
  induction p as [|a p IH]; [by destruct s|].
  rewrite string_app_cons. simpl. by rewrite decide_True.
Qed.

Lemma digit_pretty_N_char d : (d < 10)%N → digit (pretty_N_char d) = Some d.
Proof.
  intros Hd. destruct d as [|p]; [done|].
  by repeat (destruct p as [p|p|]; try lia; try done).
Qed.

Lemma pretty_N_go_app x s s' : pretty_N_go x s +:+ s' = pretty_N_go x (s +:+ s').
Proof.
  revert s. induction (N.lt_wf_0 x) as [x _ IH]; intros s.
  destruct (decide (x = 0)%N) as [->|]; [by rewrite !pretty_N_go_0|].
  rewrite (pretty_N_go_step x s), (pretty_N_go_step x (s +:+ s')) by lia.
  by rewrite IH by (apply N.div_lt; lia).
Qed.

(** Reading the digits of [x] shifts what has been read by as many
    places and adds [x]. *)
Lemma read_digits_pretty_N_go x :
  (0 < x)%N →
  ∃ k, ∀ acc s,
    read_digits acc (pretty_N_go x s)
    = read_digits (Some (default 0 acc * 10 ^ k + x)%N) s.
Proof.
  induction (N.lt_wf_0 x) as [x _ IH]; intros Hx.
  pose proof (N.div_mod x 10 ltac:(done)) as Hdiv.
  pose proof (N.mod_lt x 10 ltac:(done)) as Hmod.
  destruct (decide (x `div` 10 = 0)%N) as [H0|H0].
  - exists 1%N. intros acc s.
    rewrite pretty_N_go_step, H0, pretty_N_go_0 by done. simpl.
    rewrite digit_pretty_N_char by done. do 2 f_equal. lia.
  - destruct (IH (x `div` 10)%N) as [k Hk]; [by apply N.div_lt|lia|].
    exists (N.succ k). intros acc s.
    rewrite pretty_N_go_step, Hk by done. simpl.
    rewrite digit_pretty_N_char, N.pow_succ_r' by done. do 2 f_equal. lia.
Qed.

Lemma read_digits_pretty (n : nat) s :
  read_digits None (pretty n +:+ s) = read_digits (Some (N.of_nat n)) s.
Proof.
  unfold pretty, pretty_nat, pretty, pretty_N. case_decide as Hn.
  - by rewrite Hn.
  - destruct (read_digits_pretty_N_go (N.of_nat n)) as [k Hk]; [lia|].
    by rewrite pretty_N_go_app, Hk.
Qed.

(** A numeral is read up to the first character that is no digit. *)
Lemma read_digits_numeral (n : nat) c s :
  digit c = None →
  read_digits None (pretty n +:+ String c s) = (Some (N.of_nat n), String c s).
Proof. intros Hc. rewrite read_digits_pretty. simpl. by rewrite Hc. Qed.

Lemma read_shape_prefix_text shape rest :
  read_shape_prefix (shape_text shape +:+ rest) = Some (shape, rest).
Proof.
  destruct shape as [r c]. unfold read_shape_prefix, shape_text.
  rewrite !string_app_assoc.
  change (", " +:+ ?s) with (String "," (String " " s)).
  change (")" +:+ ?s) with (String ")" s).
  rewrite expect_app. simpl. rewrite read_digits_numeral by done. simpl.
  rewrite read_digits_numeral by done. simpl. by rewrite !Nat2N.id.
Qed.

(** The text of a shape determines the shape: reading the two numerals
    between the parentheses of [str(df.shape)] gives back the numbers of
    rows and columns. *)
Theorem read_shape_text shape : read_shape (shape_text shape) = Some shape.
Proof.
  unfold read_shape.
  replace (shape_text shape) with (shape_text shape +:+ "")
    by (induction (shape_text shape); [done|by rewrite string_app_cons; f_equal]).
  by rewrite read_shape_prefix_text.
Qed.

Lemma read_report_text before after :
  read_report (preprocess_text before after) = Some (before, after).
Proof.
  unfold read_report, preprocess_text.
  rewrite expect_app. simpl. rewrite read_shape_prefix_text. simpl.
  change ("" +:+ ?s) with s. by rewrite read_shape_prefix_text.
Qed.

(** ** What the reports write *)

Lemma console_preprocess_report before after top :
  console (preprocess_report before after top)
  = preprocess_console before after top.
Proof. reflexivity. Qed.

Lemma console_inspect_report df : console (inspect_report df) = inspect_console df.
Proof. reflexivity. Qed.

(** Standard output after [preprocess_df] of a well-formed table:
    the five step lines, the separator, the two shape lines with the
    shapes as [str] writes tuples, the heading, then the first five rows
    of the result as pandas renders them, and the separator. *)
Theorem console_preprocess_df df :
  frame_wf df →
  console (emitted (preprocess_df df))
  = preprocess_console (shape df) (shape (reshape df)) (head 5 (reshape df)).
Proof. intros Hwf. by rewrite preprocess_df_eq. Qed.

Lemma console_preprocess_df_witness :
  console (emitted (preprocess_df sample_table))
  = preprocess_console (4, 3) (2, 3) (head 5 (reshape sample_table)).
Proof. exact (console_preprocess_df sample_table sample_table_wf). Defined.

(** The report of [preprocess_df] states the shapes truly: the
    characters the call writes before the head of its result can be read
    back, and the two shapes read are the shape of the table that was
    passed and the shape of the table that is returned. *)
Theorem preprocess_df_report_shapes df :
  frame_wf df →
  ∃ text rest,
    console (emitted (preprocess_df df)) = Chars text :: rest
    ∧ read_report text = Some (shape df, shape (reshape df)).
Proof.
  intros Hwf. rewrite console_preprocess_df by done.
  eexists _, _. split; [done|apply read_report_text].
Qed.

Lemma preprocess_df_report_shapes_witness :
  ∃ text rest,
    console (emitted (preprocess_df sample_table)) = Chars text :: rest
    ∧ read_report text = Some ((4, 3), (2, 3)).
Proof. exact (preprocess_df_report_shapes sample_table sample_table_wf). Defined.

(** Standard output after [inspect_dataframe] of a table with columns;
    the [None] after the report of [df.info()] is the value the call
    returns, which the script prints. *)
Theorem console_inspect_dataframe df :
  columns df ≠ [] →
  console (emitted (inspect_dataframe df)) = inspect_console df.
Proof. intros Hcols. by rewrite inspect_dataframe_eq. Qed.

Lemma console_inspect_dataframe_witness :
  console (emitted (inspect_dataframe sample_table))
  = inspect_console sample_table.
Proof. exact (console_inspect_dataframe sample_table ltac:(done)). Defined.

Lemma console_main_report metadata df :
  console (main_report metadata df) = main_console metadata df.
Proof. reflexivity. Qed.

Lemma console_chart_of df : console (emitted (chart_of df)) = [].
Proof. by destruct (chart_of_cases df) as [[e ->]|[fig ->]]. Qed.

(** C38. Standard output of a run that reaches the chart does not depend
    on the chart: whether the figure is drawn or the arrangement of the
    columns dies of its exception, the run has written the heading and
    the metadata, the report of the raw table and the report of the
    reshaping, and not a character more. *)
Theorem console_main wb metadata raw df :
  series_metadata_get wb indicator = inr metadata →
  data_DataFrame wb indicator = inr raw →
  set_index "Country" raw = inr df →
  frame_wf df → columns df ≠ [] →
  console (emitted (main wb)) = main_console metadata df.
Proof.
  intros Hmd Hraw Hix Hwf Hcols.
  rewrite (main_chart_of wb metadata raw df) by done.
  change (emitted (?t, _)) with t.
  rewrite console_app, console_chart_of, app_nil_r, console_main_report.
  apply joined_idemp.
Qed.

Lemma console_main_witness :
  console (emitted (main sample_wb)) = main_console "Sanitation" sample_df.
Proof.
  exact (console_main sample_wb "Sanitation" sample_raw sample_df
           eq_refl eq_refl eq_refl sample_df_wf ltac:(done)).
Defined.
