(* ===== verification/World.v ===== *)
(** * World: standard output, the display and the files

    The events of [Effects] say what a run does; this file says what that
    does to the world the script runs in: the characters on standard
    output ([Console]), the figures the display has shown, and the files
    of the working directory, a finite map from paths to what each file
    holds.  [fig.write_html(path)] creates the file or replaces what it
    held ([src/part1_script.py], line 68); [fig.show()] adds a figure to
    the display (line 67); [print] and [df.info()] append to standard
    output.

    A file written by the script holds the page of a figure.  The page is
    known by the figure it was written from ([HtmlOf]); its bytes, which
    plotly chooses, are not modelled.  Files of other origin hold
    [Bytes].

    [run] interprets a computation of the script in a world; it is a
    morphism from the writer monad of [Prelude] to state passing
    ([run_sbind]).  [session] is the set of worlds reachable by running
    the script any number of times, against any service, from a
    directory without files. *)

From Stdlib Require Import QArith.
From stdpp Require Import base tactics option list strings gmap.
From S2P Require Import Prelude Numeric Frame Stats Plot Effects Preprocess.
From S2P Require Import Chart Main Console.
Local Close Scope Q_scope.
Local Open Scope script_scope.

(** ** State *)

(** What a file holds. *)
Inductive file : Type :=
  | HtmlOf (fig : figure)
  | Bytes (s : string).

Record world : Type := World {
  stdout : list piece;
  display : list figure;
  files : gmap string file
}.

(** ** Operations *)

(** What an event does to the world. *)
Definition perform (e : event) (w : world) : world :=
  match e with
  | Print _ | Info _ => World (stdout w ++ written e) (display w) (files w)
  | Show fig => World (stdout w) (display w ++ [fig]) (files w)
  | WriteHtml path fig =>
      World (stdout w) (display w) (<[path := HtmlOf fig]> (files w))
  end.

(** The events of a trace, oldest first. *)
Definition perform_all (t : list event) (w : world) : world :=
  foldl (λ w e, perform e w) w t.

(** A computation of the script run in a world: the world it leaves and
    how it ends. *)
Definition run {A} (m : py A) (w : world) : world * (exn + A) :=
  (perform_all (emitted m) w, outcome m).

(** [python part1_script.py] in a world. *)
Definition run_script (wb : service) (w : world) : world :=
  (run (main wb) w).1.

(** The script run once against each service of the list. *)
Definition run_scripts (wbs : list service) (w : world) : world :=
  foldl (λ w wb, run_script wb w) w wbs.

(** A terminal with [out] on it and a directory without files. *)
Definition fresh_world (out : list piece) : world := World out [] ∅.

(** The worlds the script can leave. *)
Inductive session : world → Prop :=
  | session_start out : session (fresh_world out)
  | session_run wb w : session w → session (run_script wb w).

(** The directory holds the page of the figure shown last and nothing
    else, or nothing has been shown and there is no file. *)
Definition saved_is_shown (w : world) : Prop :=
  match last (display w) with
  | None => files w = ∅
  | Some fig => files w = {["visual.html" := HtmlOf fig]}
  end.

(** ** A directory that refuses writes *)

(** What an event does when the paths of [locked] cannot be written:
    [fig.write_html(path)] raises [OSError] for them and leaves the world
    as it is. *)
Definition attempt (locked : gset string) (e : event) (w : world) :
    exn + world :=
  match e with
  | WriteHtml path _ =>
      if decide (path ∈ locked) then inl (OSError path) else inr (perform e w)
  | _ => inr (perform e w)
  end.

(** The events of a trace up to the first that raises. *)
Fixpoint attempt_all (locked : gset string) (t : list event) (w : world) :
    world * option exn :=
  match t with
  | [] => (w, None)
  | e :: t =>
      match attempt locked e w with
      | inl x => (w, Some x)
      | inr w' => attempt_all locked t w'
      end
  end.

(** A computation run in such a directory: nothing in the script catches
    an exception, so the first that is raised ends the run. *)
Definition run_locked {A} (locked : gset string) (m : py A) (w : world) :
    world * (exn + A) :=
  match attempt_all locked (emitted m) w with
  | (w', Some x) => (w', inl x)
  | (w', None) => (w', outcome m)
  end.

(** A computation that dies having shown and written nothing, or returns
    having shown a figure and then written its page as its last two
    events. *)
Definition shows_then_saves (m : py unit) : Prop :=
  (∃ e, outcome m = inl e ∧ outputs (emitted m) = [])
  ∨ (∃ t fig, m = (t ++ [Show fig; WriteHtml "visual.html" fig], inr tt)
              ∧ outputs t = []).

(** The worlds the script can leave when any write may be refused. *)
Inductive session_locked : world → Prop :=
  | session_locked_start out : session_locked (fresh_world out)
  | session_locked_run wb locked w :
      session_locked w → session_locked (run_locked locked (main wb) w).1.

(** The directory holds nothing but [visual.html], and a page it holds
    is the page of a figure the display has shown. *)
Definition page_was_shown (w : world) : Prop :=
  ∀ path f,
    files w !! path = Some f →
    path = "visual.html" ∧ ∃ fig, f = HtmlOf fig ∧ fig ∈ display w.

(** ** The interpretation *)

Lemma perform_all_app t t' w :
  perform_all (t ++ t') w = perform_all t' (perform_all t w).
Proof. apply foldl_app. Qed.

Lemma run_sret {A} (a : A) w : run (sret a) w = (w, inr a).
Proof. done. Qed.

Lemma run_raise {A} e w : run (raise (A:=A) e) w = (w, inl e).
Proof. done. Qed.

Lemma run_emit e w : run (emit e) w = (perform e w, inr tt).
Proof. done. Qed.

(** Running a sequence is running its parts one after the other, the
    second in the world the first has left, unless the first died. *)
Theorem run_sbind {A B} (m : py A) (k : A → py B) w :
  run (sbind m k) w
  = match run m w with
    | (w', inl e) => (w', inl e)
    | (w', inr a) => run (k a) w'
    end.
Proof.
  destruct m as [t [e|a]]; [done|].
  unfold run, sbind, emitted, outcome. simpl. by rewrite perform_all_app.
Qed.

(** ** What a trace does to each part of the world *)

Lemma stdout_perform_all t w :
  stdout (perform_all t w) = stdout w ++ (t ≫= written).
Proof.
  revert w. induction t as [|e t IH]; intros w; simpl; [by rewrite app_nil_r|].
  rewrite IH, app_assoc. by destruct e; simpl; rewrite ?app_nil_r.
Qed.

(** The display and the files after a trace are those after its outputs,
    and depend on nothing else of the world. *)
Lemma perform_all_outputs t w w' :
  display w = display w' → files w = files w' →
  display (perform_all t w) = display (perform_all (outputs t) w')
  ∧ files (perform_all t w) = files (perform_all (outputs t) w').
Proof.
  revert w w'. induction t as [|e t IH]; intros w w' Hd Hf; [done|].
  destruct e; simpl; apply IH; simpl; congruence.
Qed.

Lemma display_perform_all t w :
  display (perform_all t w) = display (perform_all (outputs t) w).
Proof. by apply perform_all_outputs. Qed.

Lemma files_perform_all t w :
  files (perform_all t w) = files (perform_all (outputs t) w).
Proof. by apply perform_all_outputs. Qed.

(** ** One run of the script *)

(** A run has died and leaves the display and the files as they were, or
    it has returned, shown a figure and saved its page; which of the two,
    and the figure, do not depend on the world. *)
Lemma run_script_cases wb :
  (∃ e, outcome (main wb) = inl e
        ∧ ∀ w, display (run_script wb w) = display w
               ∧ files (run_script wb w) = files w)
  ∨ (∃ fig, outcome (main wb) = inr tt
        ∧ ∀ w, display (run_script wb w) = display w ++ [fig]
               ∧ files (run_script wb w)
                 = <["visual.html" := HtmlOf fig]> (files w)).
Proof.
  unfold run_script, run. cbn [fst].
  setoid_rewrite display_perform_all. setoid_rewrite files_perform_all.
  destruct (main_outputs_cases wb) as [(e & He & ->)|(fig & He & ->)];
    [left|right]; eauto.
Qed.

Lemma stdout_run_script wb w :
  stdout (run_script wb w) = stdout w ++ (emitted (main wb) ≫= written).
Proof. apply stdout_perform_all. Qed.

(** C13. What one run of the script does to the world, whatever the
    service answers: standard output only grows; a run that dies leaves
    the display and every file as they were; a run that returns has shown
    one figure and [visual.html] holds the page of that figure, created
    or replaced, every other file being as it was. *)
Theorem run_script_world wb w :
  stdout w `prefix_of` stdout (run_script wb w)
  ∧ match outcome (main wb) with
    | inl _ =>
        display (run_script wb w) = display w
        ∧ files (run_script wb w) = files w
    | inr _ =>
        ∃ fig, display (run_script wb w) = display w ++ [fig]
               ∧ files (run_script wb w)
                 = <["visual.html" := HtmlOf fig]> (files w)
    end.
Proof.
  split; [rewrite stdout_run_script; by eexists|].
  destruct (run_script_cases wb) as [(e & -> & H)|(fig & -> & H)]; eauto.
Qed.

(** The script touches no file but [visual.html]: a file at another
    path is there after a run exactly when it was there before, holding
    what it held. *)
Theorem run_script_other_files wb w path :
  path ≠ "visual.html" → files (run_script wb w) !! path = files w !! path.
Proof.
  intros Hpath.
  destruct (run_script_cases wb) as [(e & _ & H)|(fig & _ & H)];
    destruct (H w) as [_ ->]; [done|by apply lookup_insert_ne].
Qed.

Lemma run_script_other_files_witness :
  files (run_script sample_wb (World [] [] {["notes.txt" := Bytes "draft"]}))
    !! "notes.txt"
  = Some (Bytes "draft").
Proof.
  by rewrite (run_script_other_files sample_wb _ "notes.txt" ltac:(done)).
Defined.

(** The page is overwritten, as the specification asks: after a run
    that returns, the files are what that run alone would have left,
    whatever an earlier run, against the same service or another, had
    written; in particular running the script twice leaves the files of
    running it once. *)
Theorem run_script_overwrites wb wb' w :
  outcome (main wb') = inr tt →
  files (run_script wb' (run_script wb w)) = files (run_script wb' w).
Proof.
  intros Hret.
  destruct (run_script_cases wb') as [(e & He & _)|(fig & _ & H')];
    [congruence|].
  destruct (H' (run_script wb w)) as [_ ->], (H' w) as [_ ->].
  destruct (run_script_cases wb) as [(e & _ & H)|(fig' & _ & H)];
    destruct (H w) as [_ ->]; [done|apply insert_insert_eq].
Qed.

Lemma sample_returns : outcome (main sample_wb) = inr tt.
Proof. by vm_compute. Qed.

Lemma run_script_overwrites_witness :
  files (run_script sample_wb (run_script offline_wb (fresh_world [])))
  = files (run_script sample_wb (fresh_world [])).
Proof. exact (run_script_overwrites offline_wb sample_wb _ sample_returns). Defined.

(** ** Sessions *)

Lemma run_scripts_snoc wbs wb w :
  run_scripts (wbs ++ [wb]) w = run_script wb (run_scripts wbs w).
Proof. unfold run_scripts. by rewrite foldl_snoc. Qed.

(** The worlds of a session are those the script leaves when it is run
    against a list of services, one after the other. *)
Lemma session_run_scripts w :
  session w ↔ ∃ out wbs, w = run_scripts wbs (fresh_world out).
Proof.
  split.
  - induction 1 as [out|wb w _ (out & wbs & ->)]; [by exists out, []|].
    exists out, (wbs ++ [wb]). by rewrite run_scripts_snoc.
  - intros (out & wbs & ->). induction wbs as [|wb wbs IH] using rev_ind.
    + constructor.
    + rewrite run_scripts_snoc. by constructor.
Qed.

Lemma saved_is_shown_run wb w :
  saved_is_shown w → saved_is_shown (run_script wb w).
Proof.
  unfold saved_is_shown.
  destruct (run_script_cases wb) as [(e & _ & H)|(fig & _ & H)];
    destruct (H w) as [-> ->]; [done|].
  rewrite last_snoc.
  destruct (last (display w)); intros ->;
    [apply insert_singleton_eq|apply insert_empty].
Qed.

(** C20. However often the script is run in a directory that had no
    files, and whatever the service answers each time, the directory
    holds at most [visual.html], and it holds the page of the figure the
    display showed last: a run that dies after an earlier one returned
    leaves the earlier page and the earlier figure. *)
Theorem session_saved_is_shown w : session w → saved_is_shown w.
Proof. induction 1; [done|by apply saved_is_shown_run]. Qed.

Lemma session_saved_is_shown_witness :
  saved_is_shown
    (run_script offline_wb (run_script sample_wb (fresh_world []))).
Proof.
  apply session_saved_is_shown.
  exact (session_run offline_wb _ (session_run sample_wb _ (session_start []))).
Defined.

(** ** Runs in a directory that refuses writes *)

Lemma shows_then_saves_sbind {A} (m : py A) (k : A → py unit) :
  outputs (emitted m) = [] →
  (∀ a, shows_then_saves (k a)) → shows_then_saves (sbind m k).
Proof.
  destruct m as [t [e|a]]; intros Ht Hk; [left; by exists e|].
  unfold sbind. cbn [fst snd emitted] in *.
  destruct (Hk a) as [(e & He & Hout)|(t' & fig & -> & Hout)].
  - left. exists e. unfold outcome, emitted in *. cbn [fst snd] in *.
    by rewrite outputs_app, Ht, Hout.
  - right. exists (t ++ t'), fig. cbn [fst snd].
    by rewrite <-app_assoc, outputs_app, Ht, Hout.
Qed.

Lemma main_shows_then_saves wb : shows_then_saves (main wb).
Proof.
  rewrite main_stages.
  apply shows_then_saves_sbind; [apply fetch_outputs|intros df].
  apply shows_then_saves_sbind; [apply inspect_dataframe_outputs|intros _].
  apply shows_then_saves_sbind; [apply preprocess_df_outputs|intros df'].
  destruct (chart_of_cases df') as [[e ->]|[fig ->]];
    [left; by exists e|right; by exists [], fig].
Qed.

Lemma attempt_all_app locked t t' w :
  attempt_all locked (t ++ t') w
  = match attempt_all locked t w with
    | (w', None) => attempt_all locked t' w'
    | r => r
    end.
Proof.
  revert w. induction t as [|e t IH]; intros w; [done|].
  simpl. by destruct (attempt locked e w).
Qed.

(** Events that write no file are never refused. *)
Lemma attempt_all_quiet locked t w :
  outputs t = [] → attempt_all locked t w = (perform_all t w, None).
Proof.
  revert w. induction t as [|[] t IH]; intros w; simpl; try done; auto.
Qed.

(** Where every write is allowed the run is the run of [run]. *)
Lemma attempt_all_unlocked t w : attempt_all ∅ t w = (perform_all t w, None).
Proof.
  revert w. induction t as [|[] t IH]; intros w; simpl; auto.
  by rewrite decide_False by set_solver.
Qed.

Theorem run_locked_unlocked {A} (m : py A) w : run_locked ∅ m w = run m w.
Proof. unfold run_locked. by rewrite attempt_all_unlocked. Qed.

Lemma run_locked_main wb w locked :
  "visual.html" ∈ locked →
  outcome (main wb) = inr tt →
  ∃ fig w',
    run_locked locked (main wb) w = (w', inl (OSError "visual.html"))
    ∧ stdout w' = stdout (run_script wb w)
    ∧ display w' = display w ++ [fig]
    ∧ files w' = files w.
Proof.
  intros Hlocked Hret.
  destruct (main_shows_then_saves wb) as [(e & He & _)|(t & fig & Hm & Hout)];
    [congruence|].
  exists fig, (perform (Show fig) (perform_all t w)).
  unfold run_locked, run_script, run. rewrite Hm. cbn [emitted fst].
  rewrite attempt_all_app, attempt_all_quiet by done. simpl.
  rewrite decide_True by done. rewrite perform_all_app. simpl.
  pose proof (perform_all_outputs t w w eq_refl eq_refl) as [Hd Hf].
  rewrite Hout in Hd, Hf. by rewrite Hd, Hf.
Qed.

(** C29. The figure is shown before it is saved: when [visual.html]
    cannot be written, a run that would have returned dies of the
    [OSError] of [fig.write_html] after it has printed its reports and
    shown the figure, and leaves the files as they were, so the display
    has shown a figure of which the directory holds no page. *)
Theorem run_script_locked wb w locked :
  "visual.html" ∈ locked →
  outcome (main wb) = inr tt →
  ∃ fig w',
    run_locked locked (main wb) w = (w', inl (OSError "visual.html"))
    ∧ stdout w' = stdout (run_script wb w)
    ∧ display w' = display w ++ [fig]
    ∧ files w' = files w.
Proof. apply run_locked_main. Qed.

Lemma run_script_locked_witness :
  ∃ fig w',
    run_locked {["visual.html"]} (main sample_wb) (fresh_world [])
    = (w', inl (OSError "visual.html"))
    ∧ stdout w' = stdout (run_script sample_wb (fresh_world []))
    ∧ display w' = [] ++ [fig]
    ∧ files w' = ∅.
Proof.
  apply (run_script_locked sample_wb (fresh_world []) {["visual.html"]});
    [set_solver|exact sample_returns].
Defined.

(** After such a run in a directory without files the display has shown
    a figure and there is no page: the invariant of the sessions does not
    hold where a write can fail. *)
Theorem locked_not_saved wb locked :
  "visual.html" ∈ locked →
  outcome (main wb) = inr tt →
  ¬ saved_is_shown (run_locked locked (main wb) (fresh_world [])).1.
Proof.
  intros Hlocked Hret.
  destruct (run_locked_main wb (fresh_world []) locked Hlocked Hret)
    as (fig & w' & -> & _ & Hd & Hf).
  unfold saved_is_shown. cbn [fst]. rewrite Hd, Hf, last_snoc. simpl.
  intros Heq. by apply (f_equal (.!! "visual.html")) in Heq.
Qed.

(** ** Sessions in which writes may be refused *)

(** A run in a directory that may refuse the write: nothing is shown and
    nothing written, or a figure is shown and its page is written unless
    the write is refused. *)
Lemma run_locked_main_cases wb locked w :
  let w' := (run_locked locked (main wb) w).1 in
  (display w' = display w ∧ files w' = files w)
  ∨ (∃ fig, display w' = display w ++ [fig]
            ∧ (files w' = files w
               ∨ files w' = <["visual.html" := HtmlOf fig]> (files w))).
Proof.
  unfold run_locked.
  destruct (main_shows_then_saves wb) as [(e & He & Hout)|(t & fig & -> & Hout)].
  - left. rewrite attempt_all_quiet by done. cbn [fst].
    pose proof (perform_all_outputs (emitted (main wb)) w w eq_refl eq_refl)
      as [Hd Hf].
    by rewrite Hout in Hd, Hf.
  - right. exists fig. cbn [emitted fst].
    rewrite attempt_all_app, attempt_all_quiet by done.
    pose proof (perform_all_outputs t w w eq_refl eq_refl) as [Hd Hf].
    rewrite Hout in Hd, Hf. simpl. case_decide; simpl; rewrite Hd, Hf; auto.
Qed.

Lemma page_was_shown_run wb locked w :
  page_was_shown w → page_was_shown (run_locked locked (main wb) w).1.
Proof.
  intros Hw path f.
  destruct (run_locked_main_cases wb locked w)
    as [[-> ->]|(fig & -> & [->| ->])]; [by apply Hw|..].
  - intros (-> & fig' & -> & ?)%Hw. set_solver.
  - destruct (decide (path = "visual.html")) as [->|].
    + rewrite lookup_insert_eq. intros [= <-]. set_solver.
    + rewrite lookup_insert_ne by done.
      intros (-> & fig' & -> & ?)%Hw. set_solver.
Qed.

(** Whether the writes succeed or not, a page in the directory is the
    page of a figure that was shown, at the last run that could write. *)
Theorem session_locked_page_was_shown w :
  session_locked w → page_was_shown w.
Proof.
  induction 1 as [out|wb locked w _ IH]; [|by apply page_was_shown_run].
  intros path f. unfold fresh_world. simpl. by rewrite lookup_empty.
Qed.

(** The sessions without refused writes are among them. *)
Lemma session_session_locked w : session w → session_locked w.
Proof.
  induction 1 as [out|wb w _ IH]; [constructor|].
  unfold run_script. rewrite <-run_locked_unlocked. by constructor.
Qed.
