(* ===== verification/Page.v ===== *)
(** * Page: what the saved page plots

    The theorems of the other files follow the script stage by stage.
    This file composes them, from the answer of the data service to the
    page [visual.html] the run leaves in the working directory
    ([World]): a line of the figure is named after an economy, and over a
    year it draws the value the service gave for that economy and that
    year, rounded to one decimal; the lines are those of the countries
    before [World], of the regions and of the income groups; and the line
    [Country_Avg_line] draws over a year the mean of the values drawn
    over that year for the countries.

    [points] is what a figure draws: for each trace, its name with each
    position on the axis and the value over it ([px.line],
    [src/part1_script.py], lines 18-24).  Labels may repeat in every
    table on the way; the statements are in terms of [Content.cell_at],
    which does not need them distinct. *)

From Stdlib Require Import QArith.
From stdpp Require Import base tactics option list strings gmap sorting.
From S2P Require Import Prelude Numeric Labels Frame Stats Plot Effects.
From S2P Require Import Preprocess Content Chart Main Console World.
Local Close Scope Q_scope.

(** ** What a figure draws *)

(** The points of the lines: the name of the line, the position on the
    axis and the value; a missing value is no point. *)
Definition points (fig : figure) : list (string * string * Q) :=
  tr ← fig_data fig;
  omap (λ xy, (λ v, (tr_name tr, xy.1, v)) <$> xy.2)
       (zip (tr_x tr) (tr_y tr)).

(** The line [name] has the value [v] over [x]. *)
Definition plots (fig : figure) (name x : string) (v : Q) : Prop :=
  (name, x, v) ∈ points fig.

#[export] Instance plots_dec fig name x v : Decision (plots fig name x v).
Proof. unfold plots. apply _. Defined.

(** The cells of the average column of row [i] of a table: the cells of
    the row under the labels [countries], each as often as asked for. *)
Definition averaged_over (countries : list string) (df : frame Q)
    (i : nat) : option (list cell) :=
  gather (countries ≫= λ k, positions k (columns df)) <$> values df !! i.

(** ** The points of a chart *)

Lemma plots_traces fig name x v :
  plots fig name x v
  ↔ ∃ tr i, tr ∈ fig_data fig ∧ tr_name tr = name
            ∧ tr_x tr !! i = Some x ∧ tr_y tr !! i = Some (Some v).
Proof.
  unfold plots, points. rewrite list_elem_of_bind.
  setoid_rewrite list_elem_of_omap. split.
  - intros (tr & (xy & Hin & Hv) & Htr).
    apply elem_of_lookup_zip_with in Hin as (i & x' & y & -> & Hx & Hy).
    destruct y; simplify_eq/=. eauto 8.
  - intros (tr & i & Htr & <- & Hx & Hy). exists tr. split; [|done].
    exists (x, Some v). split; [|done]. apply elem_of_lookup_zip_with. eauto 6.
Qed.

(** A line chart of a table draws the cells of the table: the line of a
    column over the label of a row has the value of the cell. *)
Lemma plots_px_line df labels title name x v :
  frame_wf df →
  plots (px_line df labels title) name x v ↔ cell_at df x name v.
Proof.
  intros Hwf. rewrite plots_traces. unfold cell_at, px_line. simpl. split.
  - intros (tr & i & Htr & <- & Hx & Hy).
    apply elem_of_lookup_zip_with in Htr as (j & c & ys & -> & Hc & Hys).
    simpl in *. exists i, j. split_and!; [done..|].
    rewrite <-iloc_transpose by (done || by eapply lookup_lt_Some).
    unfold iloc. simpl. by rewrite Hys.
  - intros (i & j & Hx & Hc & Hcell).
    rewrite <-iloc_transpose in Hcell by (done || by eapply lookup_lt_Some).
    unfold iloc in Hcell. simpl in Hcell.
    destruct (column_values df !! j) as [ys|] eqn:Hys; simplify_eq/=.
    exists (Trace name (index df) ys VTrue), i. split_and!; [|done..].
    apply elem_of_lookup_zip_with. eauto 6.
Qed.

(** The state of the legend and the dropdown change no point. *)
Lemma plots_update_traces_visible vis fig name x v :
  plots (update_traces_visible vis fig) name x v ↔ plots fig name x v.
Proof.
  rewrite !plots_traces. simpl. setoid_rewrite list_elem_of_fmap. split.
  - intros (tr & i & (tr0 & -> & Htr) & <- & Hx & Hy). eauto 8.
  - intros (tr & i & Htr & <- & Hx & Hy).
    exists (Trace (tr_name tr) (tr_x tr) (tr_y tr) vis), i. eauto 8.
Qed.

Lemma plots_chart_figure filter_options df name x v :
  frame_wf df →
  plots (chart_figure filter_options df) name x v ↔ cell_at df x name v.
Proof.
  intros Hwf. unfold chart_figure.
  change (plots (update_layout ?m ?q ?fig)) with (plots fig).
  by rewrite plots_update_traces_visible, plots_px_line.
Qed.

(** ** The cells of the table of the chart *)

(** The chart of the table of the chart draws its cells. *)
Lemma plots_chart_table filter_options countries df name x v :
  frame_wf df →
  plots (chart_figure filter_options (chart_table countries df)) name x v
  ↔ cell_at (chart_table countries df) x name v.
Proof. intros Hwf. by apply plots_chart_figure, chart_table_wf. Qed.

Section chart_table.
Context (df : frame Q) (countries : list string) (Hwf : frame_wf df).

(** A column of the chart other than the average holds the cells of the
    columns of that label, when the label is one of the chart. *)
Lemma cell_at_chart_table r k v :
  k ≠ "Country_Avg_line" →
  cell_at (chart_table countries df) r k v
  ↔ k ∈ countries ++ region_grps ++ income_grps ∧ cell_at df r k v.
Proof.
  intros Hk. unfold chart_table. rewrite cell_at_select by by apply averaged_wf.
  unfold averaged, chart_columns.
  rewrite cell_at_set_column_ne by (done || by apply length_average_cells).
  by rewrite <-app_comm_cons, elem_of_cons, (or_r (k = _)).
Qed.

(** The average column holds in a row the mean of the cells of the row
    under the labels of the countries. *)
Lemma cell_at_chart_table_average r v :
  cell_at (chart_table countries df) r "Country_Avg_line" v
  ↔ ∃ i cells, index df !! i = Some r
               ∧ averaged_over countries df i = Some cells
               ∧ nanmean cells = Some v.
Proof.
  unfold chart_table. rewrite cell_at_select by by apply averaged_wf.
  unfold averaged, chart_columns, averaged_over.
  rewrite cell_at_set_column_eq by (done || by apply length_average_cells).
  unfold average_cells. simpl. setoid_rewrite list_lookup_fmap.
  setoid_rewrite list_lookup_fmap. split.
  - intros (_ & i & Hr & Hv).
    destruct (values df !! i) as [row|] eqn:Hrow; simplify_eq/=.
    exists i. rewrite Hrow. eauto.
  - intros (i & cells & Hr & Hcells & Hv). split; [set_solver|].
    exists i. split; [done|].
    destruct (values df !! i) as [row|]; simplify_eq/=. by rewrite Hv.
Qed.

(** Under distinct labels the cells that enter the mean of a row are the
    values of the row under the countries, in their order. *)
Lemma averaged_over_content i r cells :
  NoDup (index df) → NoDup (columns df) → countries ⊆ columns df →
  index df !! i = Some r →
  averaged_over countries df i = Some cells →
  cells = (λ k, content df !! (r, k)) <$> countries.
Proof.
  intros Hidx Hcols Hsub Hr. unfold averaged_over.
  destruct (values df !! i) as [row|] eqn:Hrow; [|done]. intros [= <-].
  pose proof (gather_positions_Forall2 countries (columns df) row Hcols Hsub
                (frame_wf_row df i row Hwf Hrow)) as Hall.
  induction Hall as [|k x ks xs (p & Hp & Hx) _ IH]; [done|].
  rewrite fmap_cons, IH by (intros k' ?; apply Hsub; by right). f_equal.
  rewrite (content_iloc df i p) by done. unfold iloc. rewrite Hrow. simpl.
  by rewrite Hx.
Qed.
End chart_table.

(** ** From the service to the page *)

Section page.
Context (wb : service) (metadata : string) (raw : wb_frame) (df : frame Q).
Context (Hmetadata : series_metadata_get wb indicator = inr metadata).
Context (Hraw : data_DataFrame wb indicator = inr raw).
Context (Hindex : set_index "Country" raw = inr df).
Context (Hwf : frame_wf df) (Hcolumns : columns df ≠ []).
Context (w : nat).
Context (Hw : list_index "World" (index (dropna_rows_all df)) = Some w).
Context (Hgroups : region_grps ++ income_grps ⊆ index (dropna_rows_all df)).

Local Abbreviation countries :=
  (sorted (take w (index (dropna_rows_all df)))).
Local Abbreviation page_figure :=
  (chart_figure (chart_options countries) (chart_table countries (reshape df))).

Lemma outputs_main_report : outputs (main_report metadata df) = [].
Proof. reflexivity. Qed.

(** The run shows [page_figure] and saves its page. *)
Lemma main_page w0 :
  display (run_script wb w0) = display w0 ++ [page_figure]
  ∧ files (run_script wb w0)
    = <["visual.html" := HtmlOf page_figure]> (files w0).
Proof using All.
  unfold run_script, run. cbn [fst].
  rewrite display_perform_all, files_perform_all.
  rewrite (main_chart_of wb metadata raw df) by done.
  change (emitted (?t, _)) with t.
  rewrite outputs_app, outputs_main_report, app_nil_l.
  rewrite (chart_of_inr _ _ _ (arrange_inr (reshape df) w
             ltac:(by rewrite columns_reshape)
             ltac:(by rewrite columns_reshape))).
  by rewrite columns_reshape.
Qed.

(** The lines of the indicator. *)
Lemma plots_page k year v :
  k ≠ "Country_Avg_line" →
  plots page_figure k year v
  ↔ k ∈ countries ++ region_grps ++ income_grps
    ∧ ∃ c v0, year = str_replace "YR" "" c ∧ cell_at df k c v0
              ∧ v = round_dec 1 v0.
Proof using Hwf.
  intros Hk. pose proof (reshape_frame_wf df Hwf) as Hwf'.
  rewrite plots_chart_table by done.
  by rewrite cell_at_chart_table, cell_at_reshape.
Qed.

(** The line of the average. *)
Lemma plots_page_average year v :
  plots page_figure "Country_Avg_line" year v
  ↔ ∃ i cells, index (reshape df) !! i = Some year
               ∧ averaged_over countries (reshape df) i = Some cells
               ∧ nanmean cells = Some v.
Proof using Hwf.
  pose proof (reshape_frame_wf df Hwf) as Hwf'.
  rewrite plots_chart_table by done.
  by apply cell_at_chart_table_average.
Qed.

(** Without an economy before [World] there is no country: the line of
    the average has no point, over any year. *)
Theorem plots_page_no_countries year v :
  w = 0 → ¬ plots page_figure "Country_Avg_line" year v.
Proof using Hwf.
  clear Hw Hcolumns. intros Hw0. rewrite plots_page_average, Hw0.
  intros (i & cells & _ & Hcells & Hv). unfold averaged_over in Hcells.
  destruct (values (reshape df) !! i); by simplify_eq/=.
Qed.

(** Under distinct labels, a line of a country draws the content of the
    reshaped table. *)
Lemma plots_page_country k year v :
  NoDup (index (reshape df)) → NoDup (index (dropna_rows_all df)) →
  "Country_Avg_line" ∉ countries → k ∈ countries →
  content (reshape df) !! (year, k) = Some v ↔ plots page_figure k year v.
Proof using Hwf.
  intros Hidx Hcols Havg Hk. pose proof (reshape_frame_wf df Hwf) as Hwf'.
  rewrite lookup_content by (by rewrite ?columns_reshape).
  rewrite plots_chart_table by done.
  rewrite cell_at_chart_table by (done || by intros ->).
  rewrite elem_of_app. tauto.
Qed.

(** The average line is the mean of the country lines: under distinct
    labels, and when no economy is called [Country_Avg_line], the value
    the average draws over a year is the mean of the values the lines of
    the countries draw over that year, a line without a value there
    left out. *)
Theorem page_average_of_lines year v :
  NoDup (index (reshape df)) → NoDup (index (dropna_rows_all df)) →
  "Country_Avg_line" ∉ countries →
  plots page_figure "Country_Avg_line" year v
  ↔ year ∈ index (reshape df)
    ∧ ∃ cells,
        Forall2 (λ k cell, ∀ v', cell = Some v' ↔ plots page_figure k year v')
                countries cells
        ∧ nanmean cells = Some v.
Proof using Hwf.
  intros Hidx Hcols Havg. pose proof (reshape_frame_wf df Hwf) as Hwf'.
  assert (Forall2 (λ k cell, ∀ v', cell = Some v' ↔ plots page_figure k year v')
            countries ((λ k, content (reshape df) !! (year, k)) <$> countries))
    as Hlines.
  { apply Forall2_fmap_r, Forall_Forall2_diag, Forall_forall.
    intros k Hk v'. by apply plots_page_country. }
  assert (countries ⊆ columns (reshape df)) as Hsub.
  { rewrite <-(columns_reshape df Hwf). apply countries_subseteq. }
  assert (NoDup (columns (reshape df))) as Hcols'
    by by rewrite columns_reshape.
  pose proof (λ i cells,
                averaged_over_content (reshape df) countries Hwf' i year cells
                  Hidx Hcols' Hsub) as Heq.
  rewrite plots_page_average. split.
  - intros (i & cells & Hi & Hcells & Hv).
    split; [by eapply list_elem_of_lookup_2|]. exists cells. split; [|done].
    by rewrite (Heq i cells).
  - intros ([i Hi]%list_elem_of_lookup_1 & cells & Hall & Hv).
    destruct (lookup_lt_is_Some_2 (values (reshape df)) i) as [row Hrow];
      [rewrite frame_wf_rows by done; by eapply lookup_lt_Some|].
    exists i, cells. split_and!; [done| |done].
    assert (averaged_over countries (reshape df) i
            = Some (gather (countries ≫= λ k, positions k (columns (reshape df)))
                           row)) as Hcells
      by (unfold averaged_over; by rewrite Hrow).
    rewrite Hcells. f_equal. rewrite (Heq i _ Hi Hcells).
    eapply Forall2_unique; [exact Hlines|exact Hall|].
    intros k c1 c2 H1 H2. apply option_eq. intros v'.
    etrans; [apply H1|symmetry; apply H2].
Qed.

(** C2. From the service to the page.  When the service answers, the
    table has a year column, and [World] and the regions and income
    groups are rows with a value, the run leaves in [visual.html] the
    page of the figure it showed last, and that figure draws the
    indicator: a line other than the average has a value over a year
    exactly when it is the line of a country listed before [World], of a
    region or of an income group, and the service gave a value for that
    economy in the column of that year, and the value drawn is that
    value rounded to one decimal; the line [Country_Avg_line] draws over
    a year the mean of the cells of that year under the labels of the
    countries. *)
Theorem page_plots_indicator w0 :
  ∃ fig,
    files (run_script wb w0) !! "visual.html" = Some (HtmlOf fig)
    ∧ last (display (run_script wb w0)) = Some fig
    ∧ (∀ k year v,
         k ≠ "Country_Avg_line" →
         plots fig k year v
         ↔ k ∈ countries ++ region_grps ++ income_grps
           ∧ ∃ c v0, year = str_replace "YR" "" c ∧ cell_at df k c v0
                     ∧ v = round_dec 1 v0)
    ∧ (∀ year v,
         plots fig "Country_Avg_line" year v
         ↔ ∃ i cells, index (reshape df) !! i = Some year
                      ∧ averaged_over countries (reshape df) i = Some cells
                      ∧ nanmean cells = Some v).
Proof using All.
  exists page_figure. destruct (main_page w0) as [-> ->].
  rewrite lookup_insert_eq, last_snoc.
  split_and!; [done..|apply plots_page|apply plots_page_average].
Qed.
End page.

Lemma page_plots_indicator_witness :
  ∃ fig,
    files (run_script sample_wb (fresh_world [])) !! "visual.html"
    = Some (HtmlOf fig)
    ∧ last (display (run_script sample_wb (fresh_world []))) = Some fig
    ∧ (∀ k year v,
         k ≠ "Country_Avg_line" →
         plots fig k year v
         ↔ k ∈ sorted (take 3 (index (dropna_rows_all sample_df)))
                 ++ region_grps ++ income_grps
           ∧ ∃ c v0, year = str_replace "YR" "" c ∧ cell_at sample_df k c v0
                     ∧ v = round_dec 1 v0)
    ∧ (∀ year v,
         plots fig "Country_Avg_line" year v
         ↔ ∃ i cells,
             index (reshape sample_df) !! i = Some year
             ∧ averaged_over
                 (sorted (take 3 (index (dropna_rows_all sample_df))))
                 (reshape sample_df) i = Some cells
             ∧ nanmean cells = Some v).
Proof.
  exact (page_plots_indicator sample_wb "Sanitation" sample_raw sample_df
           eq_refl eq_refl eq_refl sample_df_wf ltac:(done) 3
           eq_refl sample_groups (fresh_world [])).
Defined.

(** On the sample the line of Albania has 88.2 over 2000, the tie 88.25
    of the service rounded to the even neighbour, and the line of the
    average the mean of Afghanistan and Albania, Zimbabwe having no
    value that year. *)
Example sample_page_points :
  plots sample_figure "Albania" "2000" 88.2
  ∧ plots sample_figure "Country_Avg_line" "2000" (11010 # 200)
  ∧ (11010 # 200 == (21.9 + 88.2) / 2)%Q.
Proof.
  split_and!; [apply (bool_decide_unpack _); by vm_compute..|done].
Qed.
