(* ===== verification/Interaction.v ===== *)
(** * Interaction: the script as a tree of interactions with its
      environment

    [Main.main] takes the data service as a record of two functions: the
    answer to each call is fixed before the run.  A service that is
    reached over the network is not a function; what it answers may
    depend on when it is asked and on what it was asked before.  This
    file gives the script as an interaction tree, [main_tree], in which
    the two calls of [wbgapi] and every output are events, in the order
    of [src/part1_script.py], lines 139-165: the heading is printed, the
    metadata asked for and printed, the table asked for, and the rest of
    the run, which asks for nothing, follows from the table.

    A [server] is a service with a state of its own; [serve] interprets
    the tree against a server and a world ([World]).  [main_tree_serve]
    shows that the run against a server is the run of [Main.main] against
    the record of the answers the server gives ([answers]), and that the
    table is not asked for when the metadata could not be had: the
    record of [Main] loses nothing. *)

From Stdlib Require Import QArith.
From stdpp Require Import base tactics option list strings gmap.
From ITree Require Import ITree ITreeFacts Events.State Events.StateFacts.
From S2P Require Import Prelude Numeric Frame Stats Plot Effects Preprocess.
From S2P Require Import Chart Main Console World.
Local Close Scope Q_scope.

Declare Scope tree_scope.
Delimit Scope tree_scope with tree.
Notation "x ← y ; z" := (ITree.bind y (λ x, z))
  (at level 20, y at level 100, z at level 200, only parsing) : tree_scope.
Notation "y ;; z" := (ITree.bind y (λ _, z))
  (at level 100, z at level 200, only parsing, right associativity)
  : tree_scope.

(** ** Events *)

(** What the script asks of its environment. *)
Inductive scriptE : Type → Type :=
  | MetadataGet (code : string) : scriptE (exn + string)
      (** [wb.series.metadata.get(code)] *)
  | DataFrame (code : string) : scriptE (exn + wb_frame)
      (** [wb.data.DataFrame(code, labels=True)] *)
  | Do (e : event) : scriptE unit
      (** a [print], [df.info()], [fig.show()] or [fig.write_html] *).

(** ** The script *)

(** The outputs of a trace, one event each, oldest first. *)
Fixpoint play (t : list event) : itree scriptE unit :=
  match t with
  | [] => Ret tt
  | e :: t => (ITree.trigger (Do e) ;; play t)%tree
  end.

(** A computation that asks for nothing: its outputs, then how it
    ends. *)
Definition embed {A} (m : py A) : itree scriptE (exn + A) :=
  (play (emitted m) ;; Ret (outcome m))%tree.

(** Lines 144-165: what the run does with the table it was answered. *)
Definition with_table (raw : wb_frame) : py unit :=
  (sanit_df <- lift_result (set_index "Country" raw) ;;
   inspect_dataframe sanit_df ;;
   sanit_df <- preprocess_df sanit_df ;;
   chart_of sanit_df)%script.

(** Lines 139-165. *)
Definition main_tree : itree scriptE (exn + unit) :=
  (ITree.trigger (Do (Print [PStr metadata_heading])) ;;
   r ← ITree.trigger (MetadataGet indicator) ;
   match r with
   | inl e => Ret (inl e)
   | inr metadata =>
       ITree.trigger (Do (Print [PMetadata indicator metadata])) ;;
       r ← ITree.trigger (DataFrame indicator) ;
       match r with
       | inl e => Ret (inl e)
       | inr raw => embed (with_table raw)
       end
   end)%tree.

(** ** The environment *)

(** A data service with a state: each call answers and may change it. *)
Record server (S : Type) : Type := Server {
  metadata_answer : S → string → S * (exn + string);
  data_answer : S → string → S * (exn + wb_frame)
}.
Arguments Server {S} _ _.
Arguments metadata_answer {S} _ _ _.
Arguments data_answer {S} _ _ _.

(** The events of the script against a server and a world. *)
Definition serve {S} (sv : server S) :
    scriptE ~> Monads.stateT (S * world) (itree void1) :=
  λ _ e sw,
    match e with
    | MetadataGet code =>
        let a := metadata_answer sv sw.1 code in Ret ((a.1, sw.2), a.2)
    | DataFrame code =>
        let a := data_answer sv sw.1 code in Ret ((a.1, sw.2), a.2)
    | Do e => Ret ((sw.1, perform e sw.2), tt)
    end.

(** The answers a server in state [s] gives to the calls of the script,
    in the order the script makes them: the metadata first, the table
    from the state the first call has left. *)
Definition answers {S} (sv : server S) (s : S) : service :=
  Service (λ code, (metadata_answer sv s code).2)
          (λ code,
             (data_answer sv (metadata_answer sv s indicator).1 code).2).

(** The state the server is left in: the table is asked for only when
    the metadata was had. *)
Definition served {S} (sv : server S) (s : S) : S :=
  let a := metadata_answer sv s indicator in
  match a.2 with
  | inl _ => a.1
  | inr _ => (data_answer sv a.1 indicator).1
  end.

(** A service that answers the same whenever it is asked. *)
Definition constant (wb : service) : server unit :=
  Server (λ _ code, (tt, series_metadata_get wb code))
         (λ _ code, (tt, data_DataFrame wb code)).

(** A server that counts the calls it gets, answering as [wb]. *)
Definition counting (wb : service) : server nat :=
  Server (λ n code, (S n, series_metadata_get wb code))
         (λ n code, (S n, data_DataFrame wb code)).

(** ** The run of [Main.main], call by call *)

Lemma main_with_table wb :
  main wb
  = (print [PStr metadata_heading] ;;
     metadata <- lift_result (series_metadata_get wb indicator) ;;
     print [PMetadata indicator metadata] ;;
     raw <- lift_result (data_DataFrame wb indicator) ;;
     with_table raw)%script.
Proof.
  rewrite main_stages. unfold fetch, with_table.
  do 3 (rewrite sbind_assoc; apply sbind_ext; intros ? _).
  by rewrite sbind_assoc.
Qed.

Lemma run_main_calls wb w :
  run (main wb) w
  = let w1 := perform (Print [PStr metadata_heading]) w in
    match series_metadata_get wb indicator with
    | inl e => (w1, inl e)
    | inr metadata =>
        let w2 := perform (Print [PMetadata indicator metadata]) w1 in
        match data_DataFrame wb indicator with
        | inl e => (w2, inl e)
        | inr raw => run (with_table raw) w2
        end
    end.
Proof.
  rewrite main_with_table. unfold print.
  rewrite run_sbind, run_emit. cbn beta iota zeta. rewrite run_sbind.
  destruct (series_metadata_get wb indicator) as [e|metadata];
    cbn [lift_result]; rewrite ?run_raise, ?run_sret; cbn beta iota; [done|].
  rewrite run_sbind, run_emit. cbn beta iota. rewrite run_sbind.
  destruct (data_DataFrame wb indicator) as [e|raw];
    cbn [lift_result]; by rewrite ?run_raise, ?run_sret.
Qed.

(** ** The tree against a server *)

(** One event of the tree is interpreted and its answer passed on. *)
Ltac interp_event :=
  rewrite interp_state_bind, interp_state_trigger; cbn;
  rewrite bind_ret_l; cbn.

Lemma interp_play {S} (sv : server S) t s w :
  interp_state (serve sv) (play t) (s, w) ≈ Ret ((s, perform_all t w), tt).
Proof.
  revert w. induction t as [|e t IH]; intros w; simpl.
  - by rewrite interp_state_ret.
  - interp_event. apply IH.
Qed.

Lemma interp_embed {S A} (sv : server S) (m : py A) s w :
  interp_state (serve sv) (embed m) (s, w)
  ≈ Ret ((s, (run m w).1), (run m w).2).
Proof.
  unfold embed. rewrite interp_state_bind, interp_play, bind_ret_l. cbn.
  by rewrite interp_state_ret.
Qed.

Lemma interp_main_tree {S} (sv : server S) s w :
  interp_state (serve sv) main_tree (s, w)
  ≈ Ret ((served sv s, (run (main (answers sv s)) w).1),
         (run (main (answers sv s)) w).2).
Proof.
  unfold main_tree. rewrite run_main_calls.
  unfold served, answers. cbn [series_metadata_get data_DataFrame].
  do 2 interp_event.
  destruct (metadata_answer sv s indicator) as [s1 [e|metadata]]; cbn.
  { by rewrite interp_state_ret. }
  do 2 interp_event.
  destruct (data_answer sv s1 indicator) as [s2 [e|raw]]; cbn.
  { by rewrite interp_state_ret. }
  apply interp_embed.
Qed.

Lemma answers_constant wb : answers (constant wb) tt = wb.
Proof. by destruct wb. Qed.

Lemma answers_counting wb n : answers (counting wb) n = wb.
Proof. by destruct wb. Qed.

(** C19. The record of [Main] loses nothing: run against a service with
    a state of its own, which may answer differently each time it is
    asked, the script does to the world what [main] does against the
    record of the two answers the service gives, the metadata from the
    state it starts in and the table from the state the first call
    leaves, and ends as [main] ends; the service is left in the state of
    the last call made, the table not being asked for when the metadata
    could not be had. *)
Theorem main_tree_serve {S} (sv : server S) s w :
  interp_state (serve sv) main_tree (s, w)
  ≈ Ret ((served sv s, run_script (answers sv s) w),
         outcome (main (answers sv s))).
Proof. apply interp_main_tree. Qed.

(** Against a service that answers the same whenever it is asked the
    tree is [main]. *)
Theorem main_tree_constant wb w :
  interp_state (serve (constant wb)) main_tree (tt, w)
  ≈ Ret ((tt, run_script wb w), outcome (main wb)).
Proof.
  rewrite interp_main_tree, answers_constant.
  unfold served, constant. cbn. by destruct (series_metadata_get wb indicator).
Qed.

(** The script calls the service once when the metadata cannot be had
    and twice otherwise, whatever happens after the second call. *)
Theorem main_tree_counting wb w :
  interp_state (serve (counting wb)) main_tree (0, w)
  ≈ Ret ((if series_metadata_get wb indicator is inl _ then 1 else 2,
          run_script wb w),
         outcome (main wb)).
Proof.
  rewrite interp_main_tree, answers_counting.
  unfold served, counting. cbn. by destruct (series_metadata_get wb indicator).
Qed.
