(* ===== verification/Regex.v ===== *)
(** * Regex: [str.replace] with [regex=True]

    Line 114 of [src/part1_script.py] removes [YR] from the column
    labels with [df.columns.str.replace("YR", "", regex=True)]: pandas
    compiles the pattern with [re.compile] and calls [re.sub] on every
    label, with no limit on the number of replacements.  [Labels] takes
    the result to be the replacement of the literal [YR]; this file
    proves it from a model of what [re] does.

    - [regex] is the syntax of the patterns modelled: characters, [.],
      concatenation, [|], and the greedy [*], [+] and [?] on a character
      or on [.].  [parse] reads a pattern; it gives [None] on a pattern
      that [re] refuses (a quantifier with nothing to repeat, a
      quantifier on a quantifier) and on the operators that are not
      modelled (groups, classes, anchors, escapes, counted, lazy and
      possessive repeats).
    - [matches r s] is the backtracking search of the engine at the head
      of [s]: what is left of [s] behind each way of matching [r], the
      way the engine tries first at the head of the list.  [denotes] is
      the language of a pattern; [matches] finds the words of the
      language, and only them ([matches_sound], [matches_complete]).
    - [re_sub] is [re.sub] with [count=0] as CPython computes it since
      3.7: the leftmost match is replaced and the search resumes behind
      it; a match that is empty is replaced as well, and the next match
      may not be empty at the same place.  The replacement is a template
      in which a backslash has a meaning: [template] accepts the
      replacements that have none.
    - [str_replace_regex] is the call of line 114 on one label.  On a
      pattern without operators it is [Labels.str_replace]
      ([str_replace_regex_literal]); on [Y.] it is not
      ([str_replace_regex_dot]). *)

From Stdlib Require Import String Ascii NArith Lia.
From stdpp Require Import base tactics option list strings.
From S2P Require Import Prelude Labels.
Local Open Scope string_scope.

(** ** Patterns *)

Inductive regex : Type :=
  | Eps                      (** the empty pattern *)
  | Chr (c : ascii)          (** a character that stands for itself *)
  | Any                      (** [.]: a character that is not a newline *)
  | Seq (r1 r2 : regex)      (** [r1] then [r2] *)
  | Alt (r1 r2 : regex)      (** [r1|r2], [r1] tried first *)
  | Star (r : regex)         (** [r*], as many as can be had first *).

(** The words a pattern matches. *)
Inductive denotes : regex → string → Prop :=
  | denotes_eps : denotes Eps ""
  | denotes_chr c : denotes (Chr c) (String c "")
  | denotes_any c : c ≠ "010"%char → denotes Any (String c "")
  | denotes_seq r1 r2 m1 m2 :
      denotes r1 m1 → denotes r2 m2 → denotes (Seq r1 r2) (m1 +:+ m2)
  | denotes_alt_l r1 r2 m : denotes r1 m → denotes (Alt r1 r2) m
  | denotes_alt_r r1 r2 m : denotes r2 m → denotes (Alt r1 r2) m
  | denotes_star_nil r : denotes (Star r) ""
  | denotes_star_cons r m1 m2 :
      denotes r m1 → denotes (Star r) m2 → denotes (Star r) (m1 +:+ m2).

(** The pattern that matches the string [p] and nothing else. *)
Fixpoint literal (p : string) : regex :=
  match p with
  | "" => Eps
  | String c p' => Seq (Chr c) (literal p')
  end.

(** ** Reading a pattern *)

Definition quantifiers : list ascii := ["*"; "+"; "?"]%char.

(** The characters that start an operator which is not modelled. *)
Definition unsupported : list ascii :=
  ["^"; "$"; "{"; "}"; "["; "]"; "\"; "("; ")"]%char.

(** The characters that do not stand for themselves in a pattern. *)
Definition special : list ascii :=
  ["."; "|"]%char ++ quantifiers ++ unsupported.

Definition atom (c : ascii) : option regex :=
  if decide (c = "."%char) then Some Any
  else if decide (c ∈ special) then None
  else Some (Chr c).

(** [x*], [x+] and [x?]; all three take as much as they can. *)
Definition quantified (q : ascii) (x : regex) : option regex :=
  if decide (q = "*"%char) then Some (Star x)
  else if decide (q = "+"%char) then Some (Seq x (Star x))
  else if decide (q = "?"%char) then Some (Alt x Eps)
  else None.

Definition starts_with_quantifier (p : string) : bool :=
  match p with
  | String c _ => bool_decide (c ∈ quantifiers)
  | "" => false
  end.

(** [x] before [r]: [|] binds less than concatenation. *)
Definition prepend (x r : regex) : regex :=
  match r with
  | Alt l r' => Alt (Seq x l) r'
  | _ => Seq x r
  end.

(** [re.compile(p)], on the patterns modelled. *)
Fixpoint parse (p : string) : option regex :=
  match p with
  | "" => Some Eps
  | String c p' =>
      if decide (c = "|"%char) then Alt Eps <$> parse p'
      else
        x ← atom c;
        match p' with
        | String q p'' =>
            match quantified q x with
            | Some y =>
                if starts_with_quantifier p'' then None
                else prepend y <$> parse p''
            | None => prepend x <$> parse p'
            end
        | "" => Some (Seq x Eps)
        end
  end.

(** ** Matching *)

Definition shorter (s' s : string) : bool :=
  bool_decide (String.length s' < String.length s).

(** [r*] at the head of [s], [body] matching [r]: another [r] is tried
    before the rest of the pattern, and an [r] that has taken no
    character is the last one.  [fuel] bounds the number of those that
    take a character. *)
Fixpoint star (body : string → list string) (fuel : nat) (s : string) :
    list string :=
  (body s ≫= λ s',
     match fuel with
     | S k => if shorter s' s then star body k s' else [s']
     | 0 => [s']
     end) ++ [s].

(** What is left of [s] behind each match of [r] at its head, in the
    order in which the engine finds them. *)
Fixpoint matches (r : regex) (s : string) : list string :=
  match r with
  | Eps => [s]
  | Chr c =>
      match s with
      | String c' s' => if decide (c = c') then [s'] else []
      | "" => []
      end
  | Any =>
      match s with
      | String c' s' => if decide (c' = "010"%char) then [] else [s']
      | "" => []
      end
  | Seq r1 r2 => matches r1 s ≫= matches r2
  | Alt r1 r2 => matches r1 s ++ matches r2 s
  | Star r => star (matches r) (String.length s) s
  end.

(** The length of the match the engine returns at the head of [s]; with
    [must_advance], of the first that is not empty. *)
Definition first_match (r : regex) (must_advance : bool) (s : string) :
    option nat :=
  (λ s', String.length s - String.length s') <$>
  head (if must_advance then filter (λ s', shorter s' s) (matches r s)
        else matches r s).

(** ** Substitution *)

(** [skip] characters of a match are still to be passed over. *)
Fixpoint sub_from (r : regex) (repl : string) (skip : nat) (s : string) :
    string :=
  match s, skip with
  | String _ s', S k => sub_from r repl k s'
  | String c s', 0 =>
      match first_match r false s with
      | Some (S n) => repl +:+ sub_from r repl n s'
      | Some 0 =>
          repl +:+
          match first_match r true s with
          | Some (S n) => repl +:+ sub_from r repl n s'
          | _ => String c (sub_from r repl 0 s')
          end
      | None => String c (sub_from r repl 0 s')
      end
  | "", 0 => if first_match r false "" is Some _ then repl else ""
  | "", S _ => ""
  end.

(** [re.sub(r, repl, s)] for a replacement without backslash. *)
Definition re_sub (r : regex) (repl s : string) : string :=
  sub_from r repl 0 s.

(** The replacement as [re.sub] expands it. *)
Definition template (repl : string) : option string :=
  if decide ("\"%char ∈ chars repl) then None else Some repl.

(** [s.str.replace(pat, repl, regex=True)] on one label; [None] when
    the pattern or the replacement is outside what is modelled. *)
Definition str_replace_regex (pat repl s : string) : option string :=
  r ← parse pat; t ← template repl; Some (re_sub r t s).

(** Line 114: the call on the column labels. *)
Definition index_str_replace (pat repl : string) (labels : list string) :
    option (list string) :=
  mapM (str_replace_regex pat repl) labels.

(** ** What a search finds *)

Lemma shorter_app c m s : shorter s (String c m +:+ s) = true.
Proof.
  apply bool_decide_eq_true. change (String c m +:+ s) with (String c (m +:+ s)).
  cbn [String.length]. rewrite length_app_string. lia.
Qed.

Lemma shorter_refl s : shorter s s = false.
Proof. apply bool_decide_eq_false. lia. Qed.

Lemma string_app_assoc' s1 s2 s3 : (s1 +:+ s2) +:+ s3 = s1 +:+ (s2 +:+ s3).
Proof.
  induction s1 as [|c s1 IH]; [done|]. exact (f_equal (String c) IH).
Qed.

Section star.
Context (r : regex) (body : string → list string).

(** What [body] finds is a word of [r] taken from the head. *)
Hypothesis body_sound :
  ∀ s s', s' ∈ body s → ∃ m, s = m +:+ s' ∧ denotes r m.

Lemma star_sound fuel s s' :
  s' ∈ star body fuel s → ∃ m, s = m +:+ s' ∧ denotes (Star r) m.
Proof.
  revert s. induction fuel as [|fuel IH]; intros s; simpl;
    rewrite elem_of_app, list_elem_of_bind, list_elem_of_singleton.
  all: intros [(s1 & Hs' & (m1 & -> & Hm1)%body_sound)| ->];
    [|exists ""; split; [done|constructor]].
  - apply list_elem_of_singleton in Hs' as ->. exists (m1 +:+ "").
    rewrite string_app_assoc'. split; [done|]. by repeat constructor.
  - destruct (shorter s1 (m1 +:+ s1)).
    + apply IH in Hs' as (m2 & -> & Hm2). exists (m1 +:+ m2).
      rewrite string_app_assoc'. split; [done|]. by constructor.
    + apply list_elem_of_singleton in Hs' as ->. exists (m1 +:+ "").
      rewrite string_app_assoc'. split; [done|]. by repeat constructor.
Qed.

(** [body] finds every word of [r] at the head. *)
Hypothesis body_complete : ∀ m s', denotes r m → s' ∈ body (m +:+ s').

Lemma star_complete m s' fuel :
  denotes (Star r) m → (String.length (m +:+ s') ≤ fuel)%nat →
  s' ∈ star body fuel (m +:+ s').
Proof.
  intros Hm. revert fuel. remember (Star r) as r' eqn:Hr'.
  induction Hm as [| | | | | | |r0 m1 m2 Hm1 _ Hm2 IH]; try done;
    intros fuel Hfuel; injection Hr' as ->.
  { destruct fuel; simpl; apply elem_of_app; right; constructor. }
  destruct m1 as [|c m1]; [by apply IH|].
  destruct fuel as [|fuel];
    [rewrite !length_app_string in Hfuel; cbn [String.length] in Hfuel; lia|].
  cbn [star]. apply elem_of_app. left. apply list_elem_of_bind.
  exists (m2 +:+ s'). rewrite string_app_assoc', shorter_app.
  split; [|by apply body_complete].
  apply IH; [done|]. rewrite !length_app_string in *.
  cbn [String.length] in Hfuel. lia.
Qed.

End star.

(** What the search finds behind a match is the string without a word of
    the pattern at its head. *)
Theorem matches_sound r s s' :
  s' ∈ matches r s → ∃ m, s = m +:+ s' ∧ denotes r m.
Proof.
  revert s s'. induction r as [|c| |r1 IH1 r2 IH2|r1 IH1 r2 IH2|r IH];
    intros s s'; simpl.
  - intros ->%list_elem_of_singleton. exists "". split; [done|constructor].
  - destruct s as [|c' s]; [by intros ?%elem_of_nil|].
    case_decide as Hc; [|by intros ?%elem_of_nil]. subst c'.
    intros ->%list_elem_of_singleton. exists (String c "").
    split; [done|constructor].
  - destruct s as [|c' s]; [by intros ?%elem_of_nil|].
    case_decide as Hc; [by intros ?%elem_of_nil|].
    intros ->%list_elem_of_singleton. exists (String c' "").
    split; [done|by constructor].
  - intros (s1 & (m2 & -> & Hm2)%IH2 & (m1 & -> & Hm1)%IH1)%list_elem_of_bind.
    exists (m1 +:+ m2). rewrite string_app_assoc'. split; [done|by constructor].
  - intros [(m & -> & Hm)%IH1|(m & -> & Hm)%IH2]%elem_of_app;
      exists m; (split; [done|]); by constructor.
  - by apply star_sound.
Qed.

(** The search finds every word of the pattern that stands at the head
    of the string. *)
Theorem matches_complete r m s' : denotes r m → s' ∈ matches r (m +:+ s').
Proof.
  revert m s'. induction r as [|c| |r1 IH1 r2 IH2|r1 IH1 r2 IH2|r IH];
    intros m s' Hm; simpl.
  - inversion Hm. constructor.
  - inversion Hm; subst. simpl. rewrite decide_True by done. constructor.
  - inversion Hm; subst. simpl. rewrite decide_False by done. constructor.
  - inversion Hm as [| | |? ? m1 m2 Hm1 Hm2| | | |]; subst.
    apply list_elem_of_bind. exists (m2 +:+ s'). rewrite string_app_assoc'.
    split; [by apply IH2|by apply IH1].
  - apply elem_of_app. inversion Hm; subst; [left; by apply IH1|right; by apply IH2].
  - by apply (star_complete r).
Qed.

(** What is found is not longer than the string searched. *)
Lemma matches_length r s s' :
  s' ∈ matches r s → (String.length s' ≤ String.length s)%nat.
Proof.
  intros (m & -> & _)%matches_sound. rewrite length_app_string. lia.
Qed.

(** A match of the length [first_match] gives is a word of the pattern
    at the head of the string. *)
Theorem first_match_sound r b s n :
  first_match r b s = Some n →
  ∃ m s', s = m +:+ s' ∧ denotes r m ∧ String.length m = n
          ∧ (b = true → m ≠ "").
Proof.
  unfold first_match. intros (s' & Hs' & ->)%fmap_Some.
  apply head_Some_elem_of in Hs'.
  assert (s' ∈ matches r s ∧ (b = true → shorter s' s)) as [Hin Hb].
  { destruct b; [by apply list_elem_of_filter in Hs' as [??]|done]. }
  apply matches_sound in Hin as (m & -> & Hm). exists m, s'.
  rewrite length_app_string. repeat split; [done|lia|].
  intros Hb'%Hb ->. by rewrite shorter_refl in Hb'.
Qed.

(** ** The equations of [re.sub] *)

Lemma first_match_length r b c s n :
  first_match r b (String c s) = Some (S n) → (n ≤ String.length s)%nat.
Proof.
  intros (m & s' & Hs & _ & Hm & _)%first_match_sound.
  apply (f_equal String.length) in Hs. rewrite length_app_string in Hs.
  cbn [String.length] in Hs. lia.
Qed.

Lemma sub_from_skip r repl k s :
  (k ≤ String.length s)%nat →
  sub_from r repl k s = re_sub r repl (sdrop k s).
Proof.
  revert k. induction s as [|c s IH]; intros [|k] Hk; try done.
  - cbn [String.length] in Hk. lia.
  - cbn [String.length] in Hk. cbn [sub_from sdrop]. apply IH. lia.
Qed.

(** At the end of the string an empty match is replaced. *)
Lemma re_sub_nil r repl :
  re_sub r repl "" = if first_match r false "" is Some _ then repl else "".
Proof. done. Qed.

(** A character at which the pattern does not match is copied. *)
Lemma re_sub_copy r repl c s :
  first_match r false (String c s) = None →
  re_sub r repl (String c s) = String c (re_sub r repl s).
Proof. intros H. unfold re_sub. cbn [sub_from]. by rewrite H. Qed.

(** A match that is not empty is replaced and the search resumes behind
    it. *)
Lemma re_sub_match r repl c s n :
  first_match r false (String c s) = Some (S n) →
  re_sub r repl (String c s) = repl +:+ re_sub r repl (sdrop n s).
Proof.
  intros H. unfold re_sub at 1. cbn [sub_from]. rewrite H.
  by rewrite sub_from_skip by by eapply first_match_length.
Qed.

(** An empty match is replaced; the next match starts at the same place
    when one that is not empty does, and behind the character
    otherwise. *)
Lemma re_sub_empty r repl c s :
  first_match r false (String c s) = Some 0 →
  re_sub r repl (String c s)
  = repl +:+
    match first_match r true (String c s) with
    | Some (S n) => repl +:+ re_sub r repl (sdrop n s)
    | _ => String c (re_sub r repl s)
    end.
Proof.
  intros H. unfold re_sub at 1. cbn [sub_from]. rewrite H.
  destruct (first_match r true (String c s)) as [[|n]|] eqn:H'; try done.
  by rewrite sub_from_skip by by eapply first_match_length.
Qed.

(** A pattern that matches nowhere leaves the string as it is. *)
Theorem re_sub_no_match r repl s :
  (∀ s', first_match r false s' = None) → re_sub r repl s = s.
Proof.
  intros H. induction s as [|c s IH]; [by rewrite re_sub_nil, H|].
  by rewrite re_sub_copy, IH.
Qed.

(** ** Patterns without operators *)

Lemma matches_literal p s :
  matches (literal p) s
  = if String.prefix p s then [sdrop (String.length p) s] else [].
Proof.
  revert s. induction p as [|a p IH]; intros s; [by destruct s|].
  destruct s as [|c s]; simpl; [done|].
  case_decide as Hc; destruct (ascii_dec a c); try done.
  simpl. by rewrite IH, app_nil_r.
Qed.

Lemma first_match_literal p s :
  first_match (literal p) false s
  = if String.prefix p s then Some (String.length p) else None.
Proof.
  unfold first_match. rewrite matches_literal.
  destruct (String.prefix p s) eqn:Hp; [|done].
  apply prefix_inv in Hp as [s' ->]. simpl.
  rewrite sdrop_app, length_app_string. f_equal. lia.
Qed.

Lemma sub_from_literal p repl skip s :
  p ≠ "" → sub_from (literal p) repl skip s = replace_from p repl skip s.
Proof.
  intros Hp. revert skip.
  induction s as [|c s IH]; intros [|skip]; cbn [sub_from replace_from];
    try done; rewrite first_match_literal; [by destruct p|].
  destruct (String.prefix p (String c s)); [|by rewrite IH].
  destruct p as [|a p]; [done|]. cbn [String.length].
  by rewrite Nat.sub_1_r, Nat.pred_succ, IH.
Qed.

(** On a pattern without operators [re.sub] replaces the occurrences of
    the pattern as [str.replace] does. *)
Theorem re_sub_literal p repl s :
  p ≠ "" → re_sub (literal p) repl s = str_replace p repl s.
Proof. apply sub_from_literal. Qed.

Lemma prepend_literal x p : prepend x (literal p) = Seq x (literal p).
Proof. by destruct p. Qed.

Lemma atom_plain c : c ∉ special → atom c = Some (Chr c).
Proof.
  intros Hc. unfold atom. rewrite decide_False, decide_False; [done..|].
  intros ->. apply Hc. by left.
Qed.

Lemma quantified_plain q x : q ∉ special → quantified q x = None.
Proof.
  intros Hq. unfold quantified.
  rewrite !decide_False;
    [done|intros ->; apply Hq; by apply (bool_decide_unpack _)..].
Qed.

(** A pattern without operators is read as itself. *)
Theorem parse_literal p :
  Forall (.∉ special) (chars p) → parse p = Some (literal p).
Proof.
  induction p as [|c p IH]; [done|].
  intros [Hc Hp]%Forall_cons. specialize (IH Hp).
  cbn [parse literal]. rewrite decide_False
    by (intros ->; apply Hc; by apply (bool_decide_unpack _)).
  rewrite atom_plain by done. cbn [mbind option_bind].
  destruct p as [|q p]; [done|].
  apply Forall_cons in Hp as [Hq _].
  by rewrite quantified_plain, IH, <-prepend_literal.
Qed.

Lemma template_plain repl : "\"%char ∉ chars repl → template repl = Some repl.
Proof. intros ?. unfold template. by rewrite decide_False. Qed.

Lemma str_replace_regex_plain pat repl s :
  pat ≠ "" → Forall (.∉ special) (chars pat) → "\"%char ∉ chars repl →
  str_replace_regex pat repl s = Some (str_replace pat repl s).
Proof.
  intros Hpat Hplain Hrepl. unfold str_replace_regex.
  rewrite parse_literal, template_plain by done. simpl.
  by rewrite re_sub_literal.
Qed.

(** C33. With [regex=True] the pattern is a regular expression and the
    replacement a template: [str.replace] compiles the one and expands
    the other, and [re.sub] searches.  When the pattern is not empty and
    has no character that is an operator, and the replacement has no
    backslash, the result is what the replacement of the literal gives:
    every occurrence of the pattern, found from the left without
    overlap.  So it is for [YR] and the empty replacement of line
    114. *)
Theorem str_replace_regex_literal pat repl s :
  pat ≠ "" → Forall (.∉ special) (chars pat) → "\"%char ∉ chars repl →
  str_replace_regex pat repl s = Some (str_replace pat repl s).
Proof. apply str_replace_regex_plain. Qed.

Lemma str_replace_regex_literal_witness :
  str_replace_regex "YR" "" "YR2000" = Some "2000".
Proof.
  rewrite (str_replace_regex_literal "YR" "" "YR2000");
    [done|done|by apply (bool_decide_unpack _)|by apply (bool_decide_unpack _)].
Defined.

(** Line 114 renames every column by the replacement of the literal. *)
Theorem index_str_replace_YR labels :
  index_str_replace "YR" "" labels = Some (str_replace "YR" "" <$> labels).
Proof.
  unfold index_str_replace. apply mapM_Some. apply Forall2_fmap_r, Forall_Forall2_diag.
  apply Forall_forall. intros s _. apply str_replace_regex_plain; [done|..];
    by apply (bool_decide_unpack _).
Qed.

(** ** Patterns with operators *)

(** With an operator in the pattern the two differ: [Y.] read as a
    pattern removes [YR] and [YX]; read as a literal it stands nowhere in
    the label. *)
Example str_replace_regex_dot :
  str_replace_regex "Y." "" "YR2000YX" = Some "2000"
  ∧ str_replace "Y." "" "YR2000YX" = "YR2000YX".
Proof. by vm_compute. Qed.

(** The example of the documentation of [re.sub]: an empty match is
    replaced, also one that stands next to the match before it. *)
Example re_sub_empty_matches :
  str_replace_regex "x*" "-" "abxd" = Some "-a-b--d-".
Proof. by vm_compute. Qed.

(** The engine takes the first alternative that matches, not the
    longest. *)
Example re_sub_first_alternative :
  str_replace_regex "a|ab" "-" "ab" = Some "-b"
  ∧ str_replace_regex "ab|a" "-" "ab" = Some "-".
Proof. by vm_compute. Qed.

(** Patterns [re.compile] refuses, and one that is not modelled. *)
Example parse_refused :
  parse "*a" = None ∧ parse "a**" = None ∧ parse "a|+" = None
  ∧ parse "a*?" = None.
Proof. by vm_compute. Qed.
