(* ===== verification/Rounding.v ===== *)
(** * Rounding: the mean of line 152 on floating-point numbers

    [sanit_df[countries].mean(axis=1)] (line 152 of
    [src/part1_script.py]) adds the values of a row that are present and
    divides by their number, on binary64 numbers: every addition and the
    division are rounded.  The order of the additions is numpy's: one
    after the other on a short row, by blocks and pairs on a long one,
    and different again when pandas hands the row to bottleneck.  The
    other files compute the mean on exact rationals ([Numeric.nanmean]).
    This file bounds what the two differ by, whatever the order:

    - [Rounding rnd u] is the contract of a rounding: the result is
      within [u] of the value, relative to it;
    - [round_to p] rounds a rational to the nearest number of [p]
      significant bits, a tie to the even one: what IEEE 754 asks of an
      operation whose result is within the range of the format.  It
      implements the contract with [u = 2 ^ -p] ([round_to_rounding]).  It
      is the number [Binary64.to_b64] gives for the values of the
      rounded table ([to_b64_held]), and the sum and the quotient of
      [SpecFloat] are [round_to] of the exact ones: on the values
      checked here ([ops_agree_grid], [accumulate_agree]), and proved in
      [Ieee];
    - [reduce_any op h xs s]: [s] is what a tree of the operation [op]
      of height [h] over a rearrangement of [xs] gives;
      [sum_any rnd h xs s] is that for the rounded addition, a sum of
      [xs] in some order; [sum_seq] is the loop that adds one after the
      other, one of these orders;
    - [mean_any rnd h cs m]: [m] is a mean of the cells [cs] as line 152
      computes one: the values present are binary64 numbers, they are
      added in some order, and the sum is divided by their number;
    - [growth u n - 1] is the error [n] roundings in a row can make;
    - [mean_any_error]: a mean of percentages computed in any order is
      within [growth u (h + 2) - 1] of the exact mean, relative to it;
      for binary64 and the rows of a table of up to 1024 columns, within
      [2 ^ -42] of it ([mean_b64_error]). *)

From Stdlib Require Import ZArith QArith Qabs Qround Qpower SpecFloat Lia Lqa.
From stdpp Require Import base tactics option list.
From S2P Require Import Prelude Numeric Frame Binary64.
Local Open Scope Q_scope.

(** ** Roundings *)

(** A rounding with unit roundoff [u]. *)
Class Rounding (rnd : Q → Q) (u : Q) : Prop := {
  rounding_proper :: Proper (Qeq ==> Qeq) rnd;
  rounding_unit : 0 <= u;
  rounding_error x : Qabs (rnd x - x) <= u * Qabs x
}.

(** [(1 + u) ^ n]: what [n] roundings in a row can multiply a value
    by. *)
Fixpoint growth (u : Q) (n : nat) : Q :=
  match n with
  | O => 1
  | S n => (1 + u) * growth u n
  end.

(** The sum of the absolute values. *)
Definition Qsum_abs (xs : list Q) : Q := Qsum (Qabs <$> xs).

(** ** Sums in any order *)

(** [s] is what a tree of the operation [op] of height [h] makes of
    [xs], taken in some order: [add.reduce] of numpy, whose order is not
    part of its contract. *)
Inductive reduce_any {A} (op : A → A → A) : nat → list A → A → Prop :=
  | reduce_one x : reduce_any op 0 [x] x
  | reduce_split h1 h2 xs ys a b :
      reduce_any op h1 xs a → reduce_any op h2 ys b →
      reduce_any op (S (h1 `max` h2)) (xs ++ ys) (op a b)
  | reduce_perm h xs ys s :
      xs ≡ₚ ys → reduce_any op h xs s → reduce_any op h ys s.

(** [s] is the sum of [xs] by a tree of rounded additions of height [h],
    over [xs] in some order. *)
Definition sum_any (rnd : Q → Q) : nat → list Q → Q → Prop :=
  reduce_any (λ a b, rnd (a + b)).

(** The loop that adds the values one after the other to the first. *)
Definition sum_seq (rnd : Q → Q) (x : Q) (xs : list Q) : Q :=
  foldl (λ s y, rnd (s + y)) x xs.

(** The values of a row as they are added: rounded where present, 0
    where the cell is [NaN] ([nanops] fills the table with 0 before it
    sums). *)
Definition filled (rnd : Q → Q) (cs : list cell) : list Q :=
  (λ c : cell, if c is Some v then rnd v else 0) <$> cs.

(** The number of values present, as a rational. *)
Definition present_count (cs : list cell) : Q :=
  inject_Z (Z.of_nat (length (omap id cs))).

(** [m] is a mean of the cells [cs] as [mean] computes it: a sum of the
    filled row, in some order, divided by the number of values present;
    [NaN] when none is.  The numbers are rationals, whatever fraction
    writes them. *)
Definition mean_any (rnd : Q → Q) (h : nat) (cs : list cell) (m : cell) :
    Prop :=
  if decide (omap id cs = []) then m = None
  else ∃ xs s, Forall2 Qeq xs (filled rnd cs) ∧ sum_any rnd h xs s
               ∧ m ≡ Some (rnd (s / present_count cs)).

(** The mean with the additions made one after the other. *)
Definition mean_seq (rnd : Q → Q) (cs : list cell) : cell :=
  if decide (omap id cs = []) then None
  else
    match filled rnd cs with
    | [] => None
    | x :: xs => Some (rnd (sum_seq rnd x xs / present_count cs))
    end.

(** [ms] are means of the rows of [f]: [mean(axis=1)] on binary
    numbers. *)
Definition mean_rows_any (rnd : Q → Q) (f : frame Q) (ms : list cell) : Prop :=
  Forall2 (λ row m, ∃ h, mean_any rnd h row m) (values f) ms.

(** Two cells within [eps] of the first, relative to it. *)
Definition cell_close (eps : Q) (c c' : cell) : Prop :=
  match c, c' with
  | None, None => True
  | Some v, Some v' => Qabs (v' - v) <= eps * v
  | _, _ => False
  end.

(** ** Rounding to [p] significant bits *)

(** The exponent of the leading bit of [q]: [2 ^ k <= |q| < 2 ^ (k + 1)]. *)
Definition Qlog2 (q : Q) : Z :=
  let k := (Z.log2 (Z.abs (Qnum q)) - Z.log2 (Zpos (Qden q)))%Z in
  if Qle_bool (2 ^ k) (Qabs q) then k else (k - 1)%Z.

(** The number of [p] significant bits nearest to [q], a tie to the one
    whose last bit is 0. *)
Definition round_to (p : Z) (q : Q) : Q :=
  let q := Qred q in
  if Qeq_bool q 0 then 0
  else
    let e := (Qlog2 q - (p - 1))%Z in
    inject_Z (rint (q / 2 ^ e)) * 2 ^ e.

(** Binary64. *)
Definition rnd64 : Q → Q := round_to prec.
Definition u64 : Q := 2 ^ (- prec).

(** The sum of two binary64 numbers. *)
Definition add : b64 → b64 → b64 := SFadd prec emax.

(** On [n] tenths and their complement to 100 the sum and the quotient
    of binary64 are [rnd64] of the sum and of the quotient. *)
Definition ops_agree (n : Z) : bool :=
  let x := to_b64 (n # 10) in
  let y := to_b64 ((1000 - n) # 10) in
  match b64_to_Q x, b64_to_Q y, b64_to_Q (add x y), b64_to_Q (div x (of_Z 7)) with
  | Some a, Some b, Some s, Some d =>
      Qeq_bool s (rnd64 (a + b)) && Qeq_bool d (rnd64 (a / 7))
  | _, _, _, _ => false
  end.

(** The sum of the tenths from 0 to [n] tenths, added one after the
    other in binary64 and by [rnd64], with whether the two agreed at
    every addition and on every mean on the way. *)
Fixpoint accumulate (count : nat) (n : Z) (s : b64) (q : Q) (k : Z) : bool :=
  match count with
  | O => true
  | S count =>
      let s' := add s (to_b64 (n # 10)) in
      let q' := rnd64 (q + rnd64 (n # 10)) in
      match b64_to_Q s', b64_to_Q (div s' (of_Z k)) with
      | Some a, Some m =>
          Qeq_bool a q' && Qeq_bool m (rnd64 (q' / inject_Z k))
          && accumulate count (n + 1) s' q' (k + 1)
      | _, _ => false
      end
  end.

(** The percentages with one decimal. *)
Definition on_tenths (q : Q) : Prop :=
  ∃ n, (0 ≤ n ≤ 1000)%Z ∧ q ≡ n # 10.

(** The binary64 number of [n] tenths is [rnd64] of them. *)
Definition held_agree (n : Z) : bool :=
  match b64_to_Q (to_b64 (n # 10)) with
  | Some q => Qeq_bool q (rnd64 (n # 10))
  | None => false
  end.

(** ** The error of a sum *)

Lemma growth_ge_1 u n : 0 <= u → 1 <= growth u n.
Proof. intros Hu. induction n as [|n IH]; simpl; [lra|nra]. Qed.

Lemma growth_S_le u n : 0 <= u → growth u n <= growth u (S n).
Proof. intros Hu. pose proof (growth_ge_1 u n Hu). simpl. nra. Qed.

Lemma growth_mono u n m : 0 <= u → (n ≤ m)%nat → growth u n <= growth u m.
Proof.
  intros Hu. induction 1 as [|m _ IH]; [lra|].
  eapply Qle_trans; [apply IH|by apply growth_S_le].
Qed.

(** [n] roundings of unit [u] with [2 n u <= 1] make an error of at most
    [2 n u]. *)
Lemma growth_linear u n :
  0 <= u → 2 * inject_Z (Z.of_nat n) * u <= 1 →
  growth u n - 1 <= 2 * inject_Z (Z.of_nat n) * u.
Proof.
  intros Hu. induction n as [|n IH].
  { cbn [growth]. change (inject_Z (Z.of_nat 0)) with 0. lra. }
  rewrite Nat2Z.inj_succ, <-Z.add_1_r, inject_Z_plus. intros Hn.
  assert (0 <= inject_Z (Z.of_nat n)).
  { change 0 with (inject_Z 0). rewrite <-Zle_Qle. lia. }
  cbn [growth]. change (inject_Z 1) with 1 in *. nra.
Qed.

Lemma Qsum_abs_cons x xs : Qsum_abs (x :: xs) = Qabs x + Qsum_abs xs.
Proof. done. Qed.

Lemma Qsum_cons x xs : Qsum (x :: xs) = x + Qsum xs.
Proof. done. Qed.

Lemma Qsum_abs_nonneg xs : 0 <= Qsum_abs xs.
Proof.
  induction xs as [|x xs IH]; [done|]. rewrite Qsum_abs_cons.
  pose proof (Qabs_nonneg x). lra.
Qed.

Lemma Qsum_app xs ys : Qsum (xs ++ ys) == Qsum xs + Qsum ys.
Proof.
  induction xs as [|x xs IH]; [change (Qsum ys == 0 + Qsum ys); lra|].
  cbn [app]. rewrite !Qsum_cons, IH. lra.
Qed.

Lemma Qsum_abs_app xs ys : Qsum_abs (xs ++ ys) == Qsum_abs xs + Qsum_abs ys.
Proof. unfold Qsum_abs. by rewrite fmap_app, Qsum_app. Qed.

Lemma Qsum_abs_Permutation xs ys : xs ≡ₚ ys → Qsum_abs xs == Qsum_abs ys.
Proof. intros H. apply Qsum_Permutation. by rewrite H. Qed.

Lemma Qsum_abs_Forall2 xs ys : Forall2 Qeq xs ys → Qsum_abs xs == Qsum_abs ys.
Proof.
  intros H. apply Qsum_Forall2, Forall2_fmap.
  eapply Forall2_impl; [done|]. intros x y Hxy. by rewrite Hxy.
Qed.

Lemma Qsum_abs_triangle xs : Qabs (Qsum xs) <= Qsum_abs xs.
Proof.
  induction xs as [|x xs IH]; [done|]. rewrite Qsum_cons, Qsum_abs_cons.
  eapply Qle_trans; [apply Qabs_triangle|]. lra.
Qed.

(** The absolute values of a list of values that are not negative. *)
Lemma Qsum_abs_pos xs : Forall (Qle 0) xs → Qsum_abs xs == Qsum xs.
Proof.
  induction 1 as [|x xs Hx _ IH]; [done|].
  by rewrite Qsum_cons, Qsum_abs_cons, IH, Qabs_pos.
Qed.

(** One more addition: the errors of the two sums and of the rounding
    of their sum. *)
Lemma split_error u g1 g2 g A B X Y a b r :
  0 <= u → 1 <= g1 → 1 <= g2 → g1 <= g → g2 <= g →
  Qabs X <= A → Qabs Y <= B →
  Qabs (a - X) <= (g1 - 1) * A → Qabs (b - Y) <= (g2 - 1) * B →
  Qabs (r - (a + b)) <= u * Qabs (a + b) →
  Qabs (r - (X + Y)) <= ((1 + u) * g - 1) * (A + B).
Proof.
  intros Hu H1 H2 Hg1 Hg2 [??]%Qabs_Qle_condition [??]%Qabs_Qle_condition
    [??]%Qabs_Qle_condition [??]%Qabs_Qle_condition Hr.
  assert (Qabs (a + b) <= g1 * A + g2 * B) as Hab.
  { apply Qabs_Qle_condition. lra. }
  pose proof (Qabs_nonneg (a + b)) as Ht. revert Hr Hab Ht.
  generalize (Qabs (a + b)). intros t [??]%Qabs_Qle_condition Hab Ht.
  apply Qabs_Qle_condition.
  assert (0 <= A) by lra. assert (0 <= B) by lra.
  assert (g1 * A <= g * A) by nra. assert (g2 * B <= g * B) by nra.
  assert (u * t <= u * (g * A + g * B)) by nra.
  lra.
Qed.

Section rounding.
Context (rnd : Q → Q) (u : Q) `{!Rounding rnd u}.

(** The two sides of [rounding_error]. *)
Lemma rounding_bounds x :
  x - u * Qabs x <= rnd x <= x + u * Qabs x.
Proof.
  pose proof (rounding_error x) as H.
  apply Qabs_diff_Qle_condition in H. lra.
Qed.

Lemma rounding_abs x : Qabs (rnd x) <= (1 + u) * Qabs x.
Proof.
  pose proof (rounding_error x) as H.
  pose proof (Qabs_triangle (rnd x - x) x) as Ht.
  assert (rnd x - x + x == rnd x) as Hx by ring. rewrite Hx in Ht. lra.
Qed.

(** The value computed is within the error of [h] roundings of the
    sum, relative to the sum of the absolute values. *)
Theorem sum_any_error h xs s :
  sum_any rnd h xs s →
  Qabs (s - Qsum xs) <= (growth u h - 1) * Qsum_abs xs.
Proof.
  pose proof rounding_unit as Hu.
  induction 1 as [x|h1 h2 xs ys a b _ IHa _ IHb|h xs ys s Hp _ IH].
  - change (Qabs (x - (x + 0)) <= (1 - 1) * (Qabs x + 0)).
    assert (x - (x + 0) == 0) as H by ring. rewrite H.
    change (Qabs 0) with 0. lra.
  - rewrite Qsum_app, Qsum_abs_app. cbn [growth].
    apply (split_error u (growth u h1) (growth u h2) _ _ _ _ _ a b);
      auto using growth_ge_1, Qsum_abs_triangle, rounding_error;
      apply growth_mono; (done || lia).
  - by rewrite <-(Qsum_Permutation _ _ Hp), <-(Qsum_abs_Permutation _ _ Hp).
Qed.

(** The value computed is at most the sum of the absolute values, grown
    by [h] roundings. *)
Lemma sum_any_bound h xs s :
  sum_any rnd h xs s → Qabs s <= growth u h * Qsum_abs xs.
Proof.
  intros Hs%sum_any_error. pose proof (Qsum_abs_triangle xs) as Ht.
  pose proof (Qabs_triangle (s - Qsum xs) (Qsum xs)) as Hs'.
  assert (s - Qsum xs + Qsum xs == s) as H by ring. rewrite H in Hs'. lra.
Qed.

End rounding.

(** A tree over [n] values has fewer than [n] levels. *)
Lemma reduce_any_length {A} (op : A → A → A) h xs s :
  reduce_any op h xs s → (h < length xs)%nat.
Proof.
  induction 1 as [x|h1 h2 xs ys a b _ IHa _ IHb|h xs ys s Hp _ IH]; simpl.
  - lia.
  - rewrite length_app. lia.
  - by rewrite <-Hp.
Qed.

(** The loop is one of the orders. *)
Lemma reduce_any_foldl {A} (op : A → A → A) x xs :
  reduce_any op (length xs) (x :: xs) (foldl op x xs).
Proof.
  induction xs as [|y xs IH] using rev_ind; [constructor|].
  rewrite foldl_snoc, length_app, Nat.add_1_r.
  rewrite <-(Nat.max_0_r (length xs)) at 1.
  apply (reduce_split op _ _ (x :: xs) [y]); [done|constructor].
Qed.

Lemma sum_seq_any rnd x xs : sum_any rnd (length xs) (x :: xs) (sum_seq rnd x xs).
Proof. apply reduce_any_foldl. Qed.

Lemma length_filled rnd cs : length (filled rnd cs) = length cs.
Proof. apply length_fmap. Qed.

Lemma Qsum_filled rnd cs : Qsum (filled rnd cs) == Qsum (rnd <$> omap id cs).
Proof.
  induction cs as [|[v|] cs IH]; [done|..]; cbn [filled fmap list_fmap omap list_omap id].
  - fold (filled rnd cs). by rewrite !Qsum_cons, IH.
  - fold (filled rnd cs). rewrite Qsum_cons, IH. lra.
Qed.

Lemma Qsum_abs_filled rnd cs :
  Qsum_abs (filled rnd cs) == Qsum_abs (rnd <$> omap id cs).
Proof.
  induction cs as [|[v|] cs IH]; [done|..]; cbn [filled fmap list_fmap omap list_omap id].
  - fold (filled rnd cs). by rewrite !Qsum_abs_cons, IH.
  - fold (filled rnd cs). rewrite Qsum_abs_cons, IH. change (Qabs 0) with 0. lra.
Qed.

Section mean.
Context (rnd : Q → Q) (u : Q) `{!Rounding rnd u}.

(** The values held are within [u] of the values. *)
Lemma Qsum_rounded vs :
  Qabs (Qsum (rnd <$> vs) - Qsum vs) <= u * Qsum_abs vs
  ∧ Qsum_abs (rnd <$> vs) <= (1 + u) * Qsum_abs vs.
Proof.
  induction vs as [|v vs [IH1 IH2]].
  { split; [change (0 <= u * 0)|change (0 <= (1 + u) * 0)]; lra. }
  cbn [fmap list_fmap]. fold (rnd <$> vs).
  rewrite !Qsum_cons, !Qsum_abs_cons.
  pose proof (rounding_error (rnd:=rnd) v) as Hv.
  pose proof (rounding_abs rnd u v) as Hv'.
  apply Qabs_Qle_condition in IH1 as [??], Hv as [??].
  split; [apply Qabs_Qle_condition|]; lra.
Qed.

(** A sum of the row in any order is within the error of [h + 1]
    roundings of the sum of its values. *)
Lemma sum_filled_error h cs xs s :
  Forall2 Qeq xs (filled rnd cs) → sum_any rnd h xs s →
  Qabs (s - Qsum (omap id cs)) <= (growth u (S h) - 1) * Qsum_abs (omap id cs).
Proof.
  intros Hxs Hs%(sum_any_error rnd u). revert Hs.
  rewrite (Qsum_Forall2 _ _ Hxs), (Qsum_abs_Forall2 _ _ Hxs).
  rewrite Qsum_filled, Qsum_abs_filled.
  destruct (Qsum_rounded (omap id cs)) as [H1 H2]. revert H1 H2.
  pose proof (growth_ge_1 u h rounding_unit).
  pose proof (Qsum_abs_nonneg (omap id cs)). pose proof rounding_unit.
  cbn [growth].
  generalize (Qsum (rnd <$> omap id cs)) (Qsum_abs (rnd <$> omap id cs))
    (Qsum (omap id cs)) (Qsum_abs (omap id cs)) (growth u h) H H0.
  intros X' A' X A g ?? [??]%Qabs_Qle_condition ? [??]%Qabs_Qle_condition.
  assert ((g - 1) * A' <= (g - 1) * ((1 + u) * A)) by nra.
  apply Qabs_Qle_condition. lra.
Qed.

End mean.

Lemma present_count_pos cs : omap id cs ≠ [] → 0 < present_count cs.
Proof.
  intros Hcs. unfold present_count. change 0 with (inject_Z 0).
  rewrite <-Zlt_Qlt. destruct (omap id cs); [done|simpl; lia].
Qed.

(** The division: one more rounding. *)
Lemma quotient_error u g A S s r i :
  0 <= u → 1 <= g → 0 < i → Qabs S <= A →
  Qabs (s - S) <= (g - 1) * A → Qabs (r - s * i) <= u * Qabs (s * i) →
  Qabs (r - S * i) <= ((1 + u) * g - 1) * (A * i).
Proof.
  intros Hu Hg Hi [??]%Qabs_Qle_condition [??]%Qabs_Qle_condition Hr.
  assert (Qabs (s * i) <= g * A * i) as Hs.
  { apply Qabs_Qle_condition. split; nra. }
  revert Hr Hs. generalize (Qabs (s * i)).
  intros t [??]%Qabs_Qle_condition Hs. apply Qabs_Qle_condition.
  assert (0 <= A * i) by nra. assert (u * t <= u * (g * A * i)) by nra.
  split; nra.
Qed.

Section mean_error.
Context (rnd : Q → Q) (u : Q) `{!Rounding rnd u}.

(** The mean is [NaN] on the rows on which the exact mean is. *)
Lemma mean_any_None h cs m :
  mean_any rnd h cs m → m = None ↔ nanmean cs = None.
Proof.
  unfold mean_any, nanmean. case_decide; [by intros ->|].
  intros (xs & s & _ & _ & Hm). by inversion Hm.
Qed.

(** The loop computes one of the means. *)
Lemma mean_seq_any cs : mean_any rnd (length cs - 1) cs (mean_seq rnd cs).
Proof.
  unfold mean_any, mean_seq. case_decide as Hcs; [done|].
  pose proof (length_filled rnd cs) as Hlen.
  destruct (filled rnd cs) as [|x xs] eqn:Hf; [by destruct cs|].
  exists (x :: xs), (sum_seq rnd x xs). split_and!; [done| |done].
  rewrite <-Hlen. cbn [length]. rewrite Nat.sub_1_r, Nat.pred_succ.
  apply sum_seq_any.
Qed.

(** A mean computed in any order is within the error of [h + 2]
    roundings of the exact mean, relative to the mean of the absolute
    values: the values are held rounded, [h] additions follow one
    another, and the quotient is rounded. *)
Theorem mean_any_error h cs m m' :
  nanmean cs = Some m → mean_any rnd h cs (Some m') →
  Qabs (m' - m)
  <= (growth u (h + 2) - 1) * (Qsum_abs (omap id cs) / present_count cs).
Proof.
  unfold mean_any, nanmean. case_decide as Hcs; [done|].
  intros [= <-] (xs & s & Hxs & Hs & Hm'). apply (inj Some) in Hm'.
  rewrite Hm'. apply (sum_filled_error rnd u _ _ _ _ Hxs) in Hs.
  pose proof (present_count_pos cs Hcs) as Hn.
  replace (h + 2)%nat with (S (S h)) by lia. cbn [growth].
  apply quotient_error with (s := s);
    [apply rounding_unit|apply (growth_ge_1 u (S h)), rounding_unit
    |by apply Qinv_lt_0_compat|apply Qsum_abs_triangle|done
    |apply rounding_error].
Qed.

(** On values that are not negative, relative to the mean. *)
Corollary mean_any_error_pos h cs m m' :
  Forall (Qle 0) (omap id cs) →
  nanmean cs = Some m → mean_any rnd h cs (Some m') →
  Qabs (m' - m) <= (growth u (h + 2) - 1) * m.
Proof.
  intros Hpos Hm Hm'. pose proof (mean_any_error h cs m m' Hm Hm') as H.
  rewrite Qsum_abs_pos in H by done. revert Hm H. unfold nanmean.
  case_decide; [done|]. by intros [= <-].
Qed.

End mean_error.

(** ** Rounding to [p] bits is a rounding *)

Lemma pow2_pos k : 0 < 2 ^ k.
Proof. by apply Qpower_0_lt. Qed.

Lemma pow2_make a b :
  (0 ≤ a)%Z → (0 ≤ b)%Z → 2 ^ (a - b) == (2 ^ a)%Z # Z.to_pos (2 ^ b).
Proof.
  intros Ha Hb. rewrite Qpower_minus by done.
  rewrite (Qmake_Qdiv (2 ^ a)), Z2Pos.id by lia. by rewrite !Zpower_Qpower.
Qed.

(** [Qlog2 q] is the exponent of the leading bit of [q]. *)
Lemma Qlog2_spec q :
  ¬ q == 0 → 2 ^ Qlog2 q <= Qabs q < 2 ^ (Qlog2 q + 1).
Proof.
  destruct q as [n d]. intros Hq. unfold Qlog2. cbn [Qnum Qden].
  assert (0 < Z.abs n)%Z as Hn.
  { destruct n; [by destruct Hq|lia..]. }
  change (Qabs (n # d)) with (Z.abs n # d).
  pose proof (Z.log2_nonneg (Z.abs n)). pose proof (Z.log2_nonneg (Z.pos d)).
  destruct (Z.log2_spec _ Hn) as [Ha1 Ha2].
  destruct (Z.log2_spec (Z.pos d) ltac:(done)) as [Hb1 Hb2].
  revert Ha1 Ha2 Hb1 Hb2 H H0.
  generalize (Z.log2 (Z.abs n)) (Z.log2 (Z.pos d)). intros a b ??????.
  destruct (Qle_bool (2 ^ (a - b)) (Z.abs n # d)) eqn:Hk.
  - split; [by apply Qle_bool_iff|].
    replace (a - b + 1)%Z with (Z.succ a - b)%Z by lia.
    rewrite pow2_make by lia. unfold Qlt. cbn [Qnum Qden].
    rewrite Z2Pos.id by lia. nia.
  - split.
    + replace (a - b - 1)%Z with (a - Z.succ b)%Z by lia.
      rewrite pow2_make by lia. unfold Qle. cbn [Qnum Qden].
      rewrite Z2Pos.id by lia. nia.
    + replace (a - b - 1 + 1)%Z with (a - b)%Z by lia.
      apply Qnot_le_lt. intros Hle%Qle_bool_iff. congruence.
Qed.

(** The result is within half a unit of the last place. *)
Lemma round_to_error p q : Qabs (round_to p q - q) <= 2 ^ (- p) * Qabs q.
Proof.
  unfold round_to. pose proof (Qred_correct q) as Hq'. revert Hq'.
  generalize (Qred q). intros q' Hq'. rewrite <-Hq'. clear q Hq'.
  rename q' into q.
  destruct (Qeq_bool q 0) eqn:Hq.
  { apply Qeq_bool_iff in Hq. rewrite Hq. change (Qabs (0 - 0)) with 0.
    change (Qabs 0) with 0. lra. }
  apply Qeq_bool_neq in Hq. destruct (Qlog2_spec q Hq) as [Hlo _].
  set (e := (Qlog2 q - (p - 1))%Z).
  pose proof (pow2_pos e) as He. pose proof (pow2_pos (- p)) as Hp.
  assert (2 ^ e * 2 ^ p == 2 ^ Qlog2 q * 2) as Hl.
  { rewrite <-Qpower_plus by done.
    replace (e + p)%Z with (Qlog2 q + 1)%Z by (unfold e; lia).
    by rewrite Qpower_plus. }
  assert (2 ^ (- p) * 2 ^ p == 1) as Hpp.
  { rewrite <-Qpower_plus by done. by rewrite Z.add_opp_diag_l. }
  pose proof (rint_error (q / 2 ^ e)) as [Hr1 Hr2]%Qabs_Qle_condition.
  assert (q == q / 2 ^ e * 2 ^ e) as Hy by (field; lra).
  revert Hlo. generalize (Qabs q). intros t Ht.
  apply Qabs_Qle_condition.
  revert Hr1 Hr2 Hy. generalize (inject_Z (rint (q / 2 ^ e))) (q / 2 ^ e).
  intros r y Hr1 Hr2 Hy. rewrite Hy. clear Hy.
  revert He Hp Hpp Hl Ht. generalize (2 ^ e) (2 ^ p) (2 ^ (- p)) (2 ^ Qlog2 q).
  intros E P U L ?????.
  assert (E * (1 # 2) <= U * t) by nra. split; nra.
Qed.

#[export] Instance round_to_rounding p : Rounding (round_to p) (2 ^ (- p)).
Proof.
  split.
  - intros q q' Hq. unfold round_to. by rewrite (Qred_complete q q' Hq).
  - apply Qlt_le_weak, pow2_pos.
  - apply round_to_error.
Qed.

#[export] Instance rnd64_rounding : Rounding rnd64 u64.
Proof. apply round_to_rounding. Qed.

(** ** Binary64 *)

(** Up to 1024 roundings of binary64 make a relative error of at most
    [2 ^ -42]. *)
Lemma growth_u64 n : (n ≤ 1024)%nat → growth u64 n - 1 <= 2 ^ (- 42).
Proof.
  intros Hn. pose proof (growth_mono u64 n 1024 rounding_unit Hn) as Hle.
  pose proof (growth_linear u64 1024 rounding_unit) as Hlin.
  assert (2 * inject_Z (Z.of_nat 1024) * u64 == 2 ^ (- 42)) as H by done.
  rewrite H in Hlin. assert (2 ^ (- 42) <= 1) as H1 by done.
  specialize (Hlin H1). lra.
Qed.

(** The values held are [rnd64] of the values: the binary64 number of
    every percentage with one decimal. *)
Lemma held_agree_grid : all_from (Pos.to_nat 1001) 0 held_agree = true.
Proof. by vm_compute. Qed.

Lemma to_b64_round_to n :
  (0 ≤ n ≤ 1000)%Z → b64_to_Q (to_b64 (n # 10)) ≡ Some (rnd64 (n # 10)).
Proof.
  intros Hn. assert (held_agree n = true) as H.
  { apply (all_from_spec _ _ _ n held_agree_grid). lia. }
  unfold held_agree in H. destruct (b64_to_Q _) as [q|]; [|done].
  constructor. by apply Qeq_bool_iff.
Qed.

(** What a cell of the rounded table holds is [rnd64] of its value. *)
Lemma to_b64_held q : on_tenths q → b64_to_Q (to_b64 q) ≡ Some (rnd64 q).
Proof.
  intros (n & Hn & Hq). rewrite (to_b64_proper _ _ Hq).
  rewrite (to_b64_round_to n Hn). constructor.
  symmetry. by apply (rounding_proper (rnd:=rnd64)).
Qed.

(** The sum and the quotient of binary64 numbers are the roundings of the
    sum and of the quotient, on the values checked: every tenth added to
    its complement to 100 and divided by 7, and the thousand additions
    and means of the sum of all the tenths, from 0 to 50050. *)
Lemma ops_agree_grid : all_from (Pos.to_nat 1001) 0 ops_agree = true.
Proof. by vm_compute. Qed.

Lemma accumulate_agree :
  accumulate (Pos.to_nat 1001) 0 (to_b64 0) 0 1 = true.
Proof. by vm_compute. Qed.

Lemma nanmean_nonneg cs m :
  Forall (Qle 0) (omap id cs) → nanmean cs = Some m → 0 <= m.
Proof.
  intros Hvs. unfold nanmean. case_decide as Hcs; [done|]. intros [= <-].
  apply Qle_shift_div_l; [by apply present_count_pos|].
  rewrite <-(Qsum_abs_pos _ Hvs). pose proof (Qsum_abs_nonneg (omap id cs)). lra.
Qed.

(** A mean of a row of up to 1023 values that are not negative, computed
    on binary64 in any order, is within [2 ^ -42] of the exact mean,
    relative to it, and is [NaN] when the exact mean is. *)
Lemma mean_b64_error h cs m' :
  (length cs ≤ 1023)%nat → Forall (λ c, ∀ v, c = Some v → 0 <= v) cs →
  mean_any rnd64 h cs m' → cell_close (2 ^ (- 42)) (nanmean cs) m'.
Proof.
  intros Hlen Hpos Hm'.
  pose proof (mean_any_None rnd64 h cs m' Hm') as Hnone.
  destruct (nanmean cs) as [m|] eqn:Hm, m' as [m'|]; cbn [cell_close];
    [|exfalso; intuition congruence..|done].
  assert (Forall (Qle 0) (omap id cs)) as Hvs.
  { apply Forall_forall. intros v (c & Hc & Hv)%list_elem_of_omap.
    rewrite Forall_forall in Hpos. apply (Hpos c Hc). by destruct c. }
  pose proof (mean_any_error_pos rnd64 u64 h cs m m' Hvs Hm Hm') as H.
  assert (h < length cs)%nat as Hh.
  { revert Hm'. unfold mean_any. case_decide; [done|].
    intros (xs & s & Hxs%Forall2_length & Hs%reduce_any_length & _).
    by rewrite Hxs, length_filled in Hs. }
  pose proof (growth_u64 (h + 2) ltac:(lia)) as Hg.
  pose proof (nanmean_nonneg cs m Hvs Hm). revert H Hg.
  generalize (growth u64 (h + 2) - 1) (2 ^ (- 42)) (Qabs (m' - m)).
  intros g eps d ??. nra.
Qed.

(** C32. The exact mean stands for the mean the script computes.
    [mean(axis=1)] (line 152) works on binary64 numbers: the values are
    held rounded, every addition is rounded, in the order numpy or
    bottleneck chooses, and so is the division by the number of values
    present.  On a table of up to 1023 columns whose values are not
    negative, whatever the order of the additions, every mean so
    computed is within [2 ^ -42] of the mean on exact rationals
    ([Frame.mean_rows]), relative to it, and a row has no mean in the one
    exactly when it has none in the other. *)
Theorem mean_rows_b64_error (f : frame Q) (ms : list cell) :
  frame_wf f → (length (columns f) ≤ 1023)%nat →
  Forall (Forall (λ c, ∀ v, c = Some v → 0 <= v)) (values f) →
  mean_rows_any rnd64 f ms →
  Forall2 (cell_close (2 ^ (- 42))) (s_values (mean_rows f)) ms.
Proof.
  intros Hwf Hlen Hpos Hms. cbn [mean_rows s_values].
  apply Forall2_fmap_l. unfold mean_rows_any in Hms.
  pose proof (frame_wf_rect f Hwf) as Hrows.
  induction Hms as [|row m rows ms [h Hm] _ IH]; [constructor|].
  apply Forall_cons in Hpos as [??], Hrows as [Hrow ?].
  constructor; [|by apply IH].
  apply (mean_b64_error h); [by rewrite Hrow|done..].
Qed.

Lemma mean_rows_b64_error_witness :
  Forall2 (cell_close (2 ^ (- 42))) (s_values (mean_rows sample_table))
          (mean_seq rnd64 <$> values sample_table).
Proof.
  apply (mean_rows_b64_error sample_table).
  - apply sample_table_wf.
  - by apply (bool_decide_unpack _).
  - eapply Forall_impl; [apply sample_table_percentages|].
    intros row Hrow. eapply Forall_impl; [apply Hrow|].
    intros c Hc v Hv. by apply Hc.
  - apply Forall2_fmap_r, Forall_Forall2_diag, Forall_forall.
    intros row _. eexists. apply mean_seq_any.
Defined.

(** The two means differ: of 88.2, 91.1 and 0.1 the exact mean is 59.8,
    and the loop on binary64 gives the binary64 number above the one
    nearest to 59.8 (Python prints 59.800000000000004). *)
Example mean_seq_inexact :
  nanmean [Some 88.2; None; Some 91.1; Some 0.1] ≡ Some 59.8
  ∧ ∃ m, mean_seq rnd64 [Some 88.2; None; Some 91.1; Some 0.1] = Some m
         ∧ rnd64 59.8 < m ∧ m - rnd64 59.8 == 2 ^ (- 47).
Proof.
  split; [by constructor|]. eexists. split; [done|]. by vm_compute.
Qed.
