(* ===== verification/Ieee.v ===== *)
(** * Ieee: the operations of binary64 round the exact result

    [Rounding] takes an operation of binary64 to return the number of 53
    bits nearest to the exact result ([Rounding.rnd64]).  The standard
    library defines the operations on the bits ([SpecFloat]: the
    mantissas are aligned and added or divided, the result is shifted to
    53 bits with a round bit and a sticky bit, and rounded by them).
    This file proves that the two agree on the numbers the mean of line
    152 of [src/part1_script.py] meets, the finite numbers that are not
    negative, for every precision [p] and exponent bound [emx]:

    - [located m v l]: the location [l] says where [v] lies between [m]
      and [m + 1]; a shift to the right keeps it ([holds_shr]), and
      rounding by it is [Numeric.rint] ([round_nearest_even_rint]);
    - [binary_round_aux_value]: [SpecFloat.binary_round_aux], the
      rounding every operation ends with, returns [Rounding.round_to] of
      the value it is given, or an infinity;
    - [SFadd_round_to], [SFdiv_round_to]: the sum and the quotient of
      [SpecFloat] are [round_to] of the exact sum and quotient, when
      these are 0 or in the range of the normal numbers and below
      [2 ^ emx]; the quotient by [located_div], which reads the location
      of the exact quotient off the remainder;
    - [add_round_to], [div_round_to]: the same of [Rounding.add] and
      [Binary64.div] with [rnd64]; [of_Z_exact]: an integer below
      [2 ^ 53] is held as it is; [to_b64_value]: the number
      [Binary64.to_b64] holds for a rational is [rnd64] of it, and
      [to_b64_tenths] so for the percentages with one decimal.

    Negative numbers, the subnormal range and the infinities are left
    out: a percentage and a mean of percentages are none of them
    ([Mean64] proves that of every partial sum). *)

From Stdlib Require Import ZArith QArith Qabs Qround Qpower SpecFloat Lia Lqa.
From stdpp Require Import base tactics option list.
From S2P Require Import Prelude Numeric Frame Binary64 Rounding.
Local Open Scope Q_scope.

(** ** Locations *)

(** [v] lies between [m] and [m + 1] where [l] says: on [m], or below,
    on or above the middle. *)
Definition located (m : Z) (v : Q) (l : location) : Prop :=
  match l with
  | loc_Exact => v == inject_Z m
  | loc_Inexact c =>
      inject_Z m < v < inject_Z m + 1 ∧ (v - inject_Z m ?= 1 # 2) = c
  end.

(** A shift record says where [v] lies. *)
Definition holds (mrs : shr_record) (v : Q) : Prop :=
  (0 ≤ shr_m mrs)%Z ∧ located (shr_m mrs) v (loc_of_shr_record mrs).

(** The value of a finite number that is not negative. *)
Definition value (x : b64) : Q :=
  match x with
  | S754_finite false m e => inject_Z (Zpos m) * 2 ^ e
  | _ => 0
  end.

(** The numbers the operations are proved for: zero, and the finite
    numbers above it of at most [p] bits. *)
Definition fits (p : Z) (x : b64) : Prop :=
  match x with
  | S754_zero _ => True
  | S754_finite false m e => (Zpos (digits2_pos m) ≤ p)%Z
  | _ => False
  end.

Definition plain : b64 → Prop := fits prec.

(** A finite result of [p] bits, or an infinity. *)
Definition result (p emx : Z) (m : positive) (e : Z) : b64 :=
  if (e <=? emx - p)%Z then S754_finite false m e else S754_infinity false.

(** The smallest normal number and the bound of the finite ones. *)
Definition tiny : Q := 2 ^ (-1022).
Definition huge : Q := 2 ^ emax.

(** [v] is 0 or in the range of the normal numbers. *)
Definition normal (v : Q) : Prop := v == 0 ∨ tiny <= v.

(** ** Shifts *)

Lemma compare_Lt x y : (x ?= y) = Lt ↔ x < y.
Proof. symmetry. apply Qlt_alt. Qed.

Lemma compare_Gt x y : (x ?= y) = Gt ↔ y < x.
Proof. symmetry. apply Qgt_alt. Qed.

Lemma compare_Eq x y : (x ?= y) = Eq ↔ x == y.
Proof. symmetry. apply Qeq_alt. Qed.

(** A shift by one bit on a mantissa that is not negative. *)
Lemma shr_1_div2 m r s :
  (0 ≤ m)%Z →
  shr_1 (Build_shr_record m r s)
  = Build_shr_record (Z.div2 m) (Z.odd m) (r || s).
Proof. intros Hm. destruct m as [|[p|p|]|p]; by try lia. Qed.

Lemma inject_Z_div2 m :
  inject_Z m == 2 * inject_Z (Z.div2 m) + (if Z.odd m then 1 else 0).
Proof.
  rewrite (Z.div2_odd m) at 1. rewrite inject_Z_plus, inject_Z_mult.
  by destruct (Z.odd m).
Qed.

(** Comparisons as inequalities, in the goal and the hypotheses. *)
Ltac by_order :=
  repeat match goal with
         | H : _ ∧ _ |- _ => destruct H
         | H : (?x ?= ?y) = Lt |- _ => apply (proj1 (compare_Lt x y)) in H
         | H : (?x ?= ?y) = Gt |- _ => apply (proj1 (compare_Gt x y)) in H
         | H : (?x ?= ?y) = Eq |- _ => apply (proj1 (compare_Eq x y)) in H
         | |- _ ∧ _ => split
         | |- (?x ?= ?y) = Lt => apply (proj2 (compare_Lt x y))
         | |- (?x ?= ?y) = Gt => apply (proj2 (compare_Gt x y))
         | |- (?x ?= ?y) = Eq => apply (proj2 (compare_Eq x y))
         end;
  try lra.

(** A shift by one bit halves the value and keeps its place. *)
Lemma holds_shr_1 mrs v : holds mrs v → holds (shr_1 mrs) (v * (1 # 2)).
Proof.
  destruct mrs as [m r s]. intros [Hm Hl]. cbn [shr_m] in Hm.
  rewrite shr_1_div2 by done. split; [by apply Z.div2_nonneg|].
  cbn [shr_m loc_of_shr_record] in *. pose proof (inject_Z_div2 m) as Hd.
  destruct (Z.odd m), r, s; cbn [orb located] in *; by_order.
Qed.

Lemma located_equiv m v v' l : v == v' → located m v l → located m v' l.
Proof. intros Hv. unfold located. destruct l; by rewrite Hv. Qed.

Lemma holds_equiv mrs v v' : v == v' → holds mrs v → holds mrs v'.
Proof. intros Hv [Hm Hl]. split; [done|]. by eapply located_equiv. Qed.

Lemma iter_pos_nat {A} (f : A → A) p x :
  SpecFloat.iter_pos f p x = Nat.iter (Pos.to_nat p) f x.
Proof.
  revert x. induction p as [p IH|p IH|]; intros x; cbn [SpecFloat.iter_pos];
    [| |done].
  - rewrite !IH, Pos2Nat.inj_xI, <-Nat.iter_succ_r, <-Nat.iter_add.
    f_equal. lia.
  - rewrite !IH, Pos2Nat.inj_xO, <-Nat.iter_add. f_equal. lia.
Qed.

Lemma pow2_opp_succ n : (0 ≤ n)%Z → 2 ^ (- Z.succ n) == 2 ^ (- n) * (1 # 2).
Proof.
  intros Hn. replace (- Z.succ n)%Z with (- n + - 1)%Z by lia.
  by rewrite Qpower_plus.
Qed.

Lemma holds_iter k mrs v :
  holds mrs v → holds (Nat.iter k shr_1 mrs) (v * 2 ^ (- Z.of_nat k)).
Proof.
  intros Hv. induction k as [|k IH].
  { eapply holds_equiv; [|done]. change (2 ^ (- Z.of_nat 0)) with 1. ring. }
  cbn [Nat.iter]. eapply holds_equiv; [|by apply holds_shr_1].
  rewrite Nat2Z.inj_succ, pow2_opp_succ by lia. ring.
Qed.

(** A shift to the right by [n] bits divides the value by [2 ^ n] and
    keeps its place. *)
Lemma holds_shr mrs e n v :
  holds mrs v → (0 ≤ n)%Z →
  holds (shr mrs e n).1 (v * 2 ^ (- n)) ∧ (shr mrs e n).2 = (e + n)%Z.
Proof.
  intros Hv Hn. destruct n as [|p|p]; [| |lia]; cbn [shr fst snd].
  - split; [|lia]. eapply holds_equiv; [|done]. change (2 ^ (- 0)) with 1. ring.
  - split; [|done]. rewrite iter_pos_nat, <-(positive_nat_Z p).
    by apply holds_iter.
Qed.

(** ** Rounding by a location *)

Lemma Qfloor_located m v : inject_Z m <= v < inject_Z m + 1 → Qfloor v = m.
Proof.
  intros [Hlo Hhi]. destruct (Qfloor_bounds v) as [Flo Fhi].
  assert (inject_Z (Qfloor v) < inject_Z (m + 1)) as H1.
  { rewrite inject_Z_plus. change (inject_Z 1) with 1. lra. }
  assert (inject_Z m < inject_Z (Qfloor v + 1)) as H2.
  { rewrite inject_Z_plus. change (inject_Z 1) with 1. lra. }
  rewrite <-Zlt_Qlt in H1, H2. lia.
Qed.

(** Rounding the mantissa by the location of the value is rounding the
    value to the nearest integer, a tie to the even one. *)
Lemma round_nearest_even_rint m v l :
  located m v l → round_nearest_even m l = rint v.
Proof.
  intros Hl. unfold rint.
  assert (Qfloor v = m) as ->.
  { apply Qfloor_located. destruct l; cbn [located] in Hl; by_order. }
  destruct l as [|c]; cbn [located round_nearest_even] in *.
  - assert ((v - inject_Z m ?= 1 # 2) = Lt) as -> by by_order. done.
  - destruct Hl as [_ ->]. by destruct c.
Qed.

(** ** Digits *)

Lemma digits2_size p : digits2_pos p = Pos.size p.
Proof. induction p as [p IH|p IH|]; simpl; by rewrite ?IH. Qed.

Lemma digits_log2 p : Zpos (digits2_pos p) = Z.succ (Z.log2 (Zpos p)).
Proof. rewrite digits2_size. destruct p; simpl; lia. Qed.

(** A number of [d] digits lies between [2 ^ (d - 1)] and [2 ^ d]. *)
Lemma digits_bounds p :
  (2 ^ (Zpos (digits2_pos p) - 1) ≤ Zpos p < 2 ^ Zpos (digits2_pos p))%Z.
Proof.
  rewrite digits_log2, Z.sub_1_r, Z.pred_succ. by apply Z.log2_spec.
Qed.

Lemma digits_unique p d :
  (2 ^ (d - 1) ≤ Zpos p < 2 ^ d)%Z → Zpos (digits2_pos p) = d.
Proof.
  intros Hd. assert (0 < d)%Z as Hpos.
  { destruct (Z.lt_ge_cases 0 d) as [|Hle]; [done|].
    destruct Hd as [_ Hd]. destruct (Z.le_lteq d 0) as [[Hlt| ->] _]; [done|..].
    - rewrite Z.pow_neg_r in Hd by done. lia.
    - simpl in Hd. lia. }
  rewrite digits_log2. rewrite (Z.log2_unique (Zpos p) (d - 1)); [lia..|].
  by replace (Z.succ (d - 1)) with d by lia.
Qed.

(** ** Powers of two as rationals *)

Lemma pow2_inject k : (0 ≤ k)%Z → inject_Z (2 ^ k) == 2 ^ k.
Proof. intros Hk. by rewrite Zpower_Qpower. Qed.

Lemma pow2_add a b : 2 ^ (a + b) == 2 ^ a * 2 ^ b.
Proof. by apply Qpower_plus. Qed.

Lemma pow2_le a b : (a ≤ b)%Z → 2 ^ a <= 2 ^ b.
Proof. intros. by apply Qpower_le_compat_l. Qed.

Lemma pow2_lt_inv a b : 2 ^ a < 2 ^ b → (a < b)%Z.
Proof. intros. by eapply Qpower_lt_compat_l_inv. Qed.

Lemma div_pow2 x k : x / 2 ^ k == x * 2 ^ (- k).
Proof. unfold Qdiv. by rewrite Qpower_opp. Qed.

Lemma mul_pow2 x a b : x * 2 ^ a * 2 ^ b == x * 2 ^ (a + b).
Proof. rewrite pow2_add. ring. Qed.

(** The exponent of the leading bit is the only one that fits. *)
Lemma Qlog2_unique q k :
  2 ^ k <= Qabs q < 2 ^ (k + 1) → Qlog2 q = k.
Proof.
  intros [Hlo Hhi]. pose proof (pow2_pos k).
  assert (¬ q == 0) as Hq.
  { intros Hq. rewrite Hq in Hlo. change (Qabs 0) with 0 in Hlo. lra. }
  destruct (Qlog2_spec q Hq) as [Llo Lhi].
  assert (2 ^ k < 2 ^ (Qlog2 q + 1)) as H1%pow2_lt_inv by lra.
  assert (2 ^ Qlog2 q < 2 ^ (k + 1)) as H2%pow2_lt_inv by lra.
  lia.
Qed.

(** Rounding at the exponent of the last place. *)
Lemma round_to_at p q e :
  2 ^ (e + p - 1) <= Qabs q < 2 ^ (e + p) →
  round_to p q == inject_Z (rint (q / 2 ^ e)) * 2 ^ e.
Proof.
  intros Hq. unfold round_to.
  assert (Qlog2 (Qred q) = (e + p - 1)%Z) as Hl.
  { apply Qlog2_unique. rewrite Qred_correct.
    by replace (e + p - 1 + 1)%Z with (e + p)%Z by lia. }
  pose proof (pow2_pos (e + p - 1)).
  destruct (Qeq_bool (Qred q) 0) eqn:H0.
  { apply Qeq_bool_iff in H0. rewrite Qred_correct in H0.
    rewrite H0 in Hq. change (Qabs 0) with 0 in Hq. lra. }
  rewrite Hl. replace (e + p - 1 - (p - 1))%Z with e by lia.
  by rewrite (rint_proper _ _ (Qdiv_comp _ _ (Qred_correct q) _ _ (reflexivity _))).
Qed.

Lemma scale_bounds v a b k :
  2 ^ a <= v < 2 ^ b → 2 ^ (a + k) <= v * 2 ^ k < 2 ^ (b + k).
Proof.
  rewrite !pow2_add. pose proof (pow2_pos k) as Hk. revert Hk.
  generalize (2 ^ a) (2 ^ b) (2 ^ k). intros A B K ? [??]. split; nra.
Qed.

(** The value a location speaks of has the digits of the mantissa. *)
Lemma located_bounds m v l :
  located (Zpos m) v l →
  2 ^ (Zpos (digits2_pos m) - 1) <= v < 2 ^ Zpos (digits2_pos m).
Proof.
  intros Hl. destruct (digits_bounds m) as [Hlo Hhi].
  assert (Zpos m + 1 ≤ 2 ^ Zpos (digits2_pos m))%Z as Hhi' by lia.
  rewrite Zle_Qle in Hlo, Hhi'. rewrite inject_Z_plus in Hhi'.
  rewrite !pow2_inject in * by lia. change (inject_Z 1) with 1 in Hhi'.
  destruct l; cbn [located] in Hl; by_order.
Qed.

(** Rounding a value of [d] digits at an exponent: the value is scaled
    to [p] digits and rounded to an integer. *)
Lemma round_to_scaled p d e v :
  2 ^ (d - 1) <= v < 2 ^ d →
  let E := (d + e - p)%Z in
  2 ^ (p - 1) <= v * 2 ^ (- (E - e)) < 2 ^ p
  ∧ round_to p (v * 2 ^ e) == inject_Z (rint (v * 2 ^ (- (E - e)))) * 2 ^ E.
Proof.
  intros Hv E. pose proof (scale_bounds v _ _ (- (E - e)) Hv) as Hy.
  replace (d - 1 + - (E - e))%Z with (p - 1)%Z in Hy by lia.
  replace (d + - (E - e))%Z with p in Hy by lia.
  pose proof (scale_bounds v _ _ e Hv) as HV. split; [done|].
  rewrite (round_to_at p _ E).
  2:{ rewrite Qabs_pos by (pose proof (pow2_pos (d - 1 + e)); lra).
      by replace (E + p - 1)%Z with (d - 1 + e)%Z by lia;
         replace (E + p)%Z with (d + e)%Z by lia. }
  assert (v * 2 ^ e / 2 ^ E == v * 2 ^ (- (E - e))) as ->; [|done].
  rewrite div_pow2, mul_pow2.
  by replace (e + - E)%Z with (- (E - e))%Z by lia.
Qed.

(** The integer nearest to a value of [p] bits has [p] bits, or is
    [2 ^ p]. *)
Lemma rint_bounds p y :
  (0 < p)%Z → 2 ^ (p - 1) <= y < 2 ^ p → (2 ^ (p - 1) ≤ rint y ≤ 2 ^ p)%Z.
Proof.
  intros Hp [Hlo Hhi]. rewrite <-!pow2_inject in * by lia. split.
  - rewrite <-(rint_inject_Z (2 ^ (p - 1))). by apply rint_mono.
  - rewrite <-(rint_inject_Z (2 ^ p)). by apply rint_mono, Qlt_le_weak.
Qed.

(** ** The rounding every operation ends with *)

Section round.
Context (p emx : Z) (Hp : (0 < p)%Z).

Lemma holds_record m l v :
  (0 ≤ m)%Z → located m v l → holds (shr_record_of_loc m l) v.
Proof. intros Hm Hl. by destruct l as [|[]]. Qed.

Lemma shr_fexp_holds m e l v :
  (0 ≤ m)%Z → located m v l → (e ≤ fexp p emx (Zdigits2 m + e))%Z →
  holds (shr_fexp p emx m e l).1
        (v * 2 ^ (- (fexp p emx (Zdigits2 m + e) - e)))
  ∧ (shr_fexp p emx m e l).2 = fexp p emx (Zdigits2 m + e).
Proof.
  intros Hm Hl He. unfold shr_fexp.
  destruct (holds_shr (shr_record_of_loc m l) e
              (fexp p emx (Zdigits2 m + e) - e) v) as [H1 H2];
    [by apply holds_record|lia|].
  split; [done|]. rewrite H2. lia.
Qed.

(** A mantissa of [p] bits is left as it is. *)
Lemma shr_fexp_fits m e :
  Zpos (digits2_pos m) = p → (SpecFloat.emin p emx ≤ e)%Z →
  shr_fexp p emx (Zpos m) e loc_Exact
  = (Build_shr_record (Zpos m) false false, e).
Proof.
  intros Hd He. unfold shr_fexp, fexp. cbn [Zdigits2]. rewrite Hd.
  by replace (Z.max (p + e - p) (SpecFloat.emin p emx) - e)%Z with 0%Z by lia.
Qed.

(** The mantissa [2 ^ p] is halved. *)
Lemma shr_fexp_carry m e :
  Zpos m = (2 ^ p)%Z → (SpecFloat.emin p emx ≤ e)%Z →
  shr_fexp p emx (Zpos m) e loc_Exact
  = (Build_shr_record (2 ^ (p - 1)) false false, (e + 1)%Z).
Proof.
  intros Hm He. unfold shr_fexp, fexp. cbn [Zdigits2].
  rewrite (digits_unique m (p + 1)).
  2:{ rewrite Hm. replace (p + 1 - 1)%Z with p by lia.
      split; [lia|]. apply Z.pow_lt_mono_r; lia. }
  replace (Z.max (p + 1 + e - p) (SpecFloat.emin p emx) - e)%Z with 1%Z by lia.
  cbn [shr shr_record_of_loc SpecFloat.iter_pos]. rewrite Hm.
  rewrite shr_1_div2 by lia. f_equal. f_equal.
  - rewrite Z.div2_div. replace p with (p - 1 + 1)%Z at 1 by lia.
    by rewrite Z.pow_add_r, Z.pow_1_r, Z.div_mul by lia.
  - replace p with (Z.succ (p - 1)) by lia.
    rewrite Z.pow_succ_r by lia. by rewrite Z.odd_mul.
Qed.

(** What [binary_round_aux] returns for a mantissa of at least [p] bits
    in the range of the normal numbers: the number of [p] bits nearest
    to the value, or an infinity when its exponent is too large. *)
Lemma binary_round_aux_value (m : positive) e l v :
  located (Zpos m) v l → (p ≤ Zpos (digits2_pos m))%Z →
  (SpecFloat.emin p emx ≤ Zpos (digits2_pos m) + e - p)%Z →
  ∃ m3 e3,
    binary_round_aux p emx false (Zpos m) e l
    = (if (e3 <=? emx - p)%Z then S754_finite false m3 e3
       else S754_infinity false)
    ∧ inject_Z (Zpos m3) * 2 ^ e3 == round_to p (v * 2 ^ e)
    ∧ Zpos (digits2_pos m3) = p.
Proof.
  intros Hl Hd HE. set (d := Zpos (digits2_pos m)) in *.
  set (E := (d + e - p)%Z) in *.
  assert (fexp p emx (Zdigits2 (Zpos m) + e) = E) as Hf.
  { unfold fexp. cbn [Zdigits2]. fold d. lia. }
  destruct (shr_fexp_holds (Zpos m) e l v) as [[Hm1 Hl1] He1];
    [lia|done|rewrite Hf; lia|].
  rewrite Hf in *. unfold binary_round_aux.
  destruct (shr_fexp p emx (Zpos m) e l) as [mrs1 e1].
  cbn [fst snd] in *. subst e1.
  rewrite (round_nearest_even_rint _ _ _ Hl1).
  pose proof (located_bounds m v l Hl) as Hv. fold d in Hv.
  destruct (round_to_scaled p d e v Hv) as [Hy Hround]. fold E in Hy, Hround.
  destruct (rint_bounds p _ Hp Hy) as [Hlo Hhi].
  destruct (rint (v * 2 ^ (- (E - e)))) as [|r|r] eqn:Hr;
    [pose proof (Z.pow_pos_nonneg 2 (p - 1)); lia| |lia].
  destruct (decide (Zpos r = 2 ^ p)%Z) as [Hc|Hc].
  - rewrite (shr_fexp_carry r E Hc HE). cbn [shr_m].
    pose proof (Z.pow_pos_nonneg 2 (p - 1) ltac:(done) ltac:(lia)) as Hpos.
    destruct (2 ^ (p - 1))%Z as [|m3|] eqn:Hm3; [lia| |lia].
    exists m3, (E + 1)%Z. split_and!; [done| |].
    + rewrite Hround, Hc, <-Hm3, pow2_add.
      replace p with (p - 1 + 1)%Z at 2 by lia.
      rewrite Z.pow_add_r, inject_Z_mult by lia. change (2 ^ 1) with 2.
      change (inject_Z (2 ^ 1)) with 2. ring.
    + apply digits_unique. rewrite <-Hm3. split; [lia|].
      apply Z.pow_lt_mono_r; lia.
  - assert (Zpos (digits2_pos r) = p) as Hdr.
    { apply digits_unique. lia. }
    rewrite (shr_fexp_fits r E Hdr HE). cbn [shr_m].
    exists r, E. by rewrite Hround.
Qed.

End round.

(** ** Alignment *)

Lemma iter_xO m d : Zpos (Pos.iter xO m d) = (Zpos m * 2 ^ Zpos d)%Z.
Proof.
  induction d as [|d IH] using Pos.peano_ind; [simpl; lia|].
  rewrite Pos.iter_succ, Pos2Z.inj_xO, IH, Pos2Z.inj_succ, Z.pow_succ_r by lia.
  lia.
Qed.

Lemma digits_iter_xO m d :
  Zpos (digits2_pos (Pos.iter xO m d)) = (Zpos (digits2_pos m) + Zpos d)%Z.
Proof.
  induction d as [|d IH] using Pos.peano_ind; [simpl; lia|].
  rewrite Pos.iter_succ. cbn [digits2_pos]. lia.
Qed.

(** A mantissa is shifted to the left to reach a smaller exponent. *)
Lemma shl_align_spec m e e' :
  (shl_align m e e').2 = Z.min e e'
  ∧ Zpos (shl_align m e e').1 = (Zpos m * 2 ^ (e - Z.min e e'))%Z
  ∧ Zpos (digits2_pos (shl_align m e e').1)
    = (Zpos (digits2_pos m) + (e - Z.min e e'))%Z.
Proof.
  unfold shl_align. destruct (e' - e)%Z as [|d|d] eqn:Hd; cbn [fst snd].
  - replace (Z.min e e') with e by lia. rewrite Z.sub_diag. simpl. lia.
  - replace (Z.min e e') with e by lia. rewrite Z.sub_diag. simpl. lia.
  - replace (Z.min e e') with e' by lia.
    replace (e - e')%Z with (Zpos d) by lia.
    by rewrite iter_xO, digits_iter_xO.
Qed.

(** The value of a mantissa at an exponent. *)
Lemma scaled_align m e e' :
  (e' ≤ e)%Z →
  inject_Z (Zpos m * 2 ^ (e - e')) * 2 ^ e' == inject_Z (Zpos m) * 2 ^ e.
Proof.
  intros He. rewrite inject_Z_mult, pow2_inject by lia.
  rewrite <-Qmult_assoc, <-pow2_add. by replace (e - e' + e')%Z with e by lia.
Qed.

(** A number of at most [p] bits is its own rounding. *)
Lemma round_to_exact p m e :
  (Zpos (digits2_pos m) ≤ p)%Z →
  round_to p (inject_Z (Zpos m) * 2 ^ e) == inject_Z (Zpos m) * 2 ^ e.
Proof.
  intros Hd. set (d := Zpos (digits2_pos m)) in *.
  pose proof (located_bounds m (inject_Z (Zpos m)) loc_Exact
                ltac:(done)) as Hm. fold d in Hm.
  pose proof (scale_bounds _ _ _ e Hm) as HV.
  rewrite (round_to_at p _ (d + e - p)).
  2:{ rewrite Qabs_pos by (pose proof (pow2_pos (d - 1 + e)); lra).
      by replace (d + e - p + p - 1)%Z with (d - 1 + e)%Z by lia;
         replace (d + e - p + p)%Z with (d + e)%Z by lia. }
  assert (inject_Z (Zpos m) * 2 ^ e / 2 ^ (d + e - p)
          == inject_Z (Zpos m * 2 ^ (p - d))) as ->.
  { rewrite inject_Z_mult, pow2_inject, div_pow2, mul_pow2 by lia.
    by replace (e + - (d + e - p))%Z with (p - d)%Z by lia. }
  rewrite rint_inject_Z.
  replace (p - d)%Z with (e - (d + e - p))%Z by lia.
  apply scaled_align. lia.
Qed.

(** ** Sum and quotient *)

Lemma mantissa_pos (m : positive) : 0 < inject_Z (Zpos m).
Proof. change 0 with (inject_Z 0). by rewrite <-Zlt_Qlt. Qed.

Lemma value_pos (m : positive) e : 0 < inject_Z (Zpos m) * 2 ^ e.
Proof. pose proof (pow2_pos e). pose proof (mantissa_pos m). nra. Qed.

(** The fraction a remainder makes: where it lies, and how it compares
    with a half. *)
Lemma fraction_bounds r m2 :
  (0 ≤ r < m2)%Z →
  0 < inject_Z m2 ∧ 0 <= inject_Z r / inject_Z m2 < 1
  ∧ (r = 0%Z → inject_Z r / inject_Z m2 == 0)
  ∧ (r ≠ 0%Z → 0 < inject_Z r / inject_Z m2).
Proof.
  intros Hr.
  assert (0 < inject_Z m2) as H2
    by (change 0 with (inject_Z 0); rewrite <-Zlt_Qlt; lia).
  assert (0 <= inject_Z r) as H0
    by (change 0 with (inject_Z 0); rewrite <-Zle_Qle; lia).
  split_and!; [done|..].
  - apply Qle_shift_div_l; [done|]. by rewrite Qmult_0_l.
  - apply Qlt_shift_div_r; [done|]. rewrite Qmult_1_l, <-Zlt_Qlt. lia.
  - intros ->. apply Qmult_0_l.
  - intros Hne. apply Qlt_shift_div_l; [done|]. rewrite Qmult_0_l.
    change 0 with (inject_Z 0). rewrite <-Zlt_Qlt. lia.
Qed.

Lemma fraction_compare r m2 :
  (0 < m2)%Z → (inject_Z r / inject_Z m2 ?= 1 # 2) = (2 * r ?= m2)%Z.
Proof.
  intros H2. rewrite Zlt_Qlt in H2. change (inject_Z 0) with 0 in H2.
  assert (2 * (inject_Z r / inject_Z m2) * inject_Z m2 == inject_Z (2 * r))
    as Hm by (rewrite inject_Z_mult; change (inject_Z 2) with 2; field; lra).
  revert Hm H2.
  destruct (Z.compare_spec (2 * r) m2) as [H|H|H];
    [apply (f_equal inject_Z) in H; rewrite H|rewrite Zlt_Qlt in H..];
    revert H; generalize (inject_Z r / inject_Z m2) (inject_Z m2)
                (inject_Z (2 * r));
    intros f n R; intros; by_order; nra.
Qed.

Section operations.
Context (p emx : Z) (Hp : (0 < p)%Z).

(** The rounding of a mantissa at an exponent. *)
Lemma binary_round_value (m : positive) e :
  (SpecFloat.emin p emx ≤ Zpos (digits2_pos m) + e - p)%Z →
  ∃ m3 e3,
    binary_round p emx false m e = result p emx m3 e3
    ∧ inject_Z (Zpos m3) * 2 ^ e3 == round_to p (inject_Z (Zpos m) * 2 ^ e)
    ∧ Zpos (digits2_pos m3) = p.
Proof.
  intros HE. unfold binary_round. set (d := Zpos (digits2_pos m)) in *.
  assert (fexp p emx (d + e) = d + e - p)%Z as -> by (unfold fexp; lia).
  destruct (shl_align_spec m e (d + e - p)) as (He' & Hm' & Hd').
  destruct (shl_align m e (d + e - p)) as [mz ez]. cbn [fst snd] in *.
  fold d in Hd'.
  destruct (binary_round_aux_value p emx Hp mz ez loc_Exact
              (inject_Z (Zpos mz))) as (m3 & e3 & Hr & Hv & Hd3);
    [done|lia|lia|].
  exists m3, e3. split_and!; [done| |done].
  rewrite Hv. apply (rounding_proper (rnd:=round_to p)).
  rewrite Hm', He'. apply scaled_align. lia.
Qed.

(** A result below [2 ^ emx] is finite. *)
Lemma result_finite m e :
  Zpos (digits2_pos m) = p → inject_Z (Zpos m) * 2 ^ e < 2 ^ emx →
  result p emx m e = S754_finite false m e.
Proof.
  intros Hd Hv. unfold result.
  pose proof (located_bounds m _ loc_Exact (reflexivity _)) as Hm.
  rewrite Hd in Hm. apply (scale_bounds _ _ _ e) in Hm as [Hm _].
  assert (2 ^ (p - 1 + e) < 2 ^ emx) as He%pow2_lt_inv by lra.
  by rewrite (proj2 (Z.leb_le e (emx - p))) by lia.
Qed.

(** A value in the range of the normal numbers has a mantissa with
    room. *)
Lemma normal_digits m e :
  2 ^ (SpecFloat.emin p emx + p - 1) <= inject_Z (Zpos m) * 2 ^ e →
  (SpecFloat.emin p emx ≤ Zpos (digits2_pos m) + e - p)%Z.
Proof.
  intros Hv.
  pose proof (located_bounds m _ loc_Exact (reflexivity _)) as Hm.
  apply (scale_bounds _ _ _ e) in Hm as [_ Hm].
  assert (2 ^ (SpecFloat.emin p emx + p - 1) < 2 ^ (Zpos (digits2_pos m) + e))
    as He%pow2_lt_inv by lra.
  lia.
Qed.

(** The sum of two numbers that are not negative is the rounding of the
    exact sum, when that is in the range of the normal numbers. *)
Theorem SFadd_round_to x y :
  fits p x → fits p y →
  value x + value y == 0
  ∨ 2 ^ (SpecFloat.emin p emx + p - 1) <= value x + value y →
  round_to p (value x + value y) < 2 ^ emx →
  fits p (SFadd p emx x y)
  ∧ value (SFadd p emx x y) == round_to p (value x + value y).
Proof.
  intros Hx Hy Hnormal Hfinite.
  destruct x as [sx|sx| |[] mx ex], y as [sy|sy| |[] my ey]; try done.
  - split; [by destruct sx, sy|].
    assert (value (SFadd p emx (S754_zero sx) (S754_zero sy)) = 0) as ->
      by by destruct sx, sy.
    by rewrite (rounding_proper (rnd:=round_to p) (0 + 0) 0).
  - split; [done|]. cbn [SFadd value].
    rewrite (rounding_proper (rnd:=round_to p) _ (inject_Z (Zpos my) * 2 ^ ey))
      by ring.
    by rewrite round_to_exact.
  - split; [done|]. cbn [SFadd value].
    rewrite (rounding_proper (rnd:=round_to p) _ (inject_Z (Zpos mx) * 2 ^ ex))
      by ring.
    by rewrite round_to_exact.
  - cbn [SFadd value cond_Zopp] in *.
    destruct (shl_align_spec mx ex (Z.min ex ey)) as (_ & Hmx & _).
    destruct (shl_align_spec my ey (Z.min ex ey)) as (_ & Hmy & _).
    replace (Z.min ey (Z.min ex ey)) with (Z.min ex ey) in Hmy by lia.
    replace (Z.min ex (Z.min ex ey)) with (Z.min ex ey) in Hmx by lia.
    set (ez := Z.min ex ey) in *.
    rewrite <-Pos2Z.inj_add. cbn [binary_normalize].
    set (s := (fst (shl_align mx ex ez) + fst (shl_align my ey ez))%positive).
    assert (inject_Z (Zpos s) * 2 ^ ez
            == inject_Z (Zpos mx) * 2 ^ ex + inject_Z (Zpos my) * 2 ^ ey) as Hs.
    { unfold s. rewrite Pos2Z.inj_add, inject_Z_plus, Hmx, Hmy.
      rewrite Qmult_plus_distr_l, !scaled_align by lia. done. }
    pose proof (value_pos mx ex). pose proof (value_pos my ey).
    destruct Hnormal as [Hzero|Hnormal]; [lra|].
    destruct (binary_round_value s ez) as (m3 & e3 & -> & Hv & Hd3).
    { apply normal_digits. by rewrite Hs. }
    rewrite (rounding_proper (rnd:=round_to p) _ _ Hs) in Hv.
    rewrite result_finite by (done || by rewrite Hv).
    split; [cbn [fits]; lia|done].
Qed.

(** The quotient and the remainder of a division say where the exact
    quotient lies. *)
Lemma located_div q r m2 :
  (0 ≤ r < m2)%Z →
  located q (inject_Z (m2 * q + r) / inject_Z m2) (new_location m2 r).
Proof.
  intros Hr. pose proof (fraction_bounds r m2 Hr) as (H2 & Hf & H0 & Hpos).
  pose proof (fraction_compare r m2 ltac:(lia)) as Hc.
  apply (located_equiv _ (inject_Z q + inject_Z r / inject_Z m2)).
  { rewrite inject_Z_plus, inject_Z_mult. field. lra. }
  assert (inject_Z q + inject_Z r / inject_Z m2 - inject_Z q
          == inject_Z r / inject_Z m2) as Hq by ring.
  revert Hf Hc H0 Hpos Hq. generalize (inject_Z r / inject_Z m2).
  intros f Hf Hc H0 Hpos Hq.
  unfold new_location.
  destruct (Z.even m2) eqn:Heven;
    unfold new_location_even, new_location_odd;
    (destruct (Z.eqb_spec r 0) as [Hr0|Hr0];
       [specialize (H0 Hr0); cbn [located]; lra|]);
    specialize (Hpos Hr0); cbn [located]; (split; [lra|]);
    rewrite Hq, Hc; [done|].
  destruct (Z.compare_spec (2 * r + 1) m2) as [H|H|H].
  - apply Z.compare_lt_iff. lia.
  - apply Z.compare_lt_iff. lia.
  - apply Z.compare_gt_iff.
    enough (2 * r ≠ m2)%Z by lia. intros <-.
    by rewrite Z.even_mul in Heven.
Qed.

(** The mantissa, the exponent and the location of a quotient. *)
Lemma div_core_spec (m1 : positive) e1 (m2 : positive) e2 :
  let e' := Z.min (fexp p emx (Zpos (digits2_pos m1) + e1
                               - (Zpos (digits2_pos m2) + e2)))
                  (e1 - e2) in
  ∃ q l,
    SFdiv_core_binary p emx (Zpos m1) e1 (Zpos m2) e2 = (q, e', l)
    ∧ (0 ≤ q)%Z
    ∧ located q (inject_Z (Zpos m1) * 2 ^ (e1 - e2 - e') / inject_Z (Zpos m2)) l.
Proof.
  intros e'. unfold SFdiv_core_binary. cbn [Zdigits2]. fold e'.
  set (s := (e1 - e2 - e')%Z). assert (0 ≤ s)%Z as Hs by lia.
  assert (match s with
          | Zpos _ => Z.shiftl (Zpos m1) s | 0%Z => Zpos m1 | Zneg _ => 0%Z
          end = Zpos m1 * 2 ^ s)%Z as ->.
  { destruct s; [lia|by rewrite Z.shiftl_mul_pow2|lia]. }
  pose proof (Z_div_mod (Zpos m1 * 2 ^ s) (Zpos m2) ltac:(done)) as Hdiv.
  destruct (Z.div_eucl (Zpos m1 * 2 ^ s) (Zpos m2)) as [q r].
  destruct Hdiv as [Hq Hr]. exists q, (new_location (Zpos m2) r).
  split_and!; [done|nia|].
  eapply located_equiv; [|by apply located_div].
  by rewrite <-Hq, inject_Z_mult, pow2_inject.
Qed.

Lemma Qdiv_lower A B X Y : 0 < A <= X → 0 < Y < B → A / B < X / Y.
Proof.
  intros [??] [??]. apply Qlt_shift_div_l; [done|].
  assert (A / B * B == A) as HA by (field; lra). revert HA.
  generalize (A / B). intros c HA. nra.
Qed.

(** The value of the quotient, scaled back. *)
Lemma quotient_scaled (mx : positive) ex (my : positive) ey e' :
  inject_Z (Zpos mx) * 2 ^ (ex - ey - e') / inject_Z (Zpos my) * 2 ^ e'
  == inject_Z (Zpos mx) * 2 ^ ex / (inject_Z (Zpos my) * 2 ^ ey).
Proof.
  pose proof (mantissa_pos my).
  replace (ex - ey - e')%Z with (ex + - ey + - e')%Z by lia.
  rewrite !pow2_add, !Qpower_opp. field.
  pose proof (pow2_pos ey). pose proof (pow2_pos e'). lra.
Qed.

(** The digits of two numbers bound their quotient from below. *)
Lemma quotient_lower (mx : positive) ex (my : positive) ey :
  2 ^ (Zpos (digits2_pos mx) + ex - (Zpos (digits2_pos my) + ey) - 1)
  < inject_Z (Zpos mx) * 2 ^ ex / (inject_Z (Zpos my) * 2 ^ ey).
Proof.
  pose proof (scale_bounds _ _ _ ex
                (located_bounds mx _ loc_Exact (reflexivity _))) as [HXlo _].
  pose proof (scale_bounds _ _ _ ey
                (located_bounds my _ loc_Exact (reflexivity _))) as [_ HYhi].
  pose proof (pow2_pos ey).
  pose proof (mantissa_pos my).
  replace (Zpos (digits2_pos mx) + ex - (Zpos (digits2_pos my) + ey) - 1)%Z
    with (Zpos (digits2_pos mx) - 1 + ex - (Zpos (digits2_pos my) + ey))%Z by lia.
  rewrite Qpower_minus by done.
  apply Qdiv_lower; (split; [apply pow2_pos || nra|done]).
Qed.

(** A mantissa that holds a value of at least [2 ^ (p - 1)] has [p]
    digits or more. *)
Lemma located_digits q v l :
  located q v l → 2 ^ (p - 1) <= v →
  ∃ mq, q = Zpos mq ∧ (p ≤ Zpos (digits2_pos mq))%Z.
Proof.
  intros Hl Hv.
  assert (2 ^ (p - 1) ≤ q)%Z as Hq.
  { assert (inject_Z (2 ^ (p - 1)) < inject_Z (q + 1)) as H;
      [|rewrite <-Zlt_Qlt in H; lia].
    rewrite pow2_inject, inject_Z_plus by lia. change (inject_Z 1) with 1.
    destruct l; cbn [located] in Hl; by_order. }
  pose proof (Z.pow_pos_nonneg 2 (p - 1) ltac:(done) ltac:(lia)) as Hpow.
  destruct q as [|mq|]; [lia| |lia]. exists mq. split; [done|].
  pose proof (digits_bounds mq) as [_ Hdq].
  assert (2 ^ (p - 1) < 2 ^ Zpos (digits2_pos mq))%Z as H by lia.
  apply Z.pow_lt_mono_r_iff in H; lia.
Qed.

(** The quotient of two numbers that are not negative is the rounding of
    the exact quotient, when that is in the range of the normal
    numbers. *)
Theorem SFdiv_round_to x y :
  fits p x → fits p y → 0 < value y →
  value x == 0 ∨ 2 ^ (SpecFloat.emin p emx + p - 1) <= value x / value y →
  round_to p (value x / value y) < 2 ^ emx →
  fits p (SFdiv p emx x y)
  ∧ value (SFdiv p emx x y) == round_to p (value x / value y).
Proof.
  intros Hx Hy Hpos Hnormal Hfinite.
  destruct y as [sy|sy| |[] my ey]; try done; cbn [value] in Hpos; try lra.
  destruct x as [sx|sx| |[] mx ex]; try done.
  cbn [SFdiv value xorb] in *.
  destruct (div_core_spec mx ex my ey) as (q & l & -> & Hq & Hl).
  pose proof (quotient_lower mx ex my ey) as HD.
  set (D := (Zpos (digits2_pos mx) + ex - (Zpos (digits2_pos my) + ey))%Z) in *.
  set (e' := Z.min (fexp p emx D) (ex - ey)) in *.
  pose proof (quotient_scaled mx ex my ey e') as HV.
  set (v := inject_Z (Zpos mx) * 2 ^ (ex - ey - e') / inject_Z (Zpos my)) in *.
  destruct Hnormal as [Hzero|Hnormal].
  { pose proof (value_pos mx ex). lra. }
  revert Hnormal Hfinite HD HV.
  generalize (inject_Z (Zpos mx) * 2 ^ ex / (inject_Z (Zpos my) * 2 ^ ey)).
  intros V Hnormal Hfinite HD HV.
  assert (2 ^ (p - 1 + e') <= V) as Hlow.
  { destruct (Z.le_gt_cases e' (D - p)) as [He|He].
    - apply Qlt_le_weak. eapply Qle_lt_trans; [|exact HD]. apply pow2_le. lia.
    - eapply Qle_trans; [|exact Hnormal]. apply pow2_le.
      unfold e', fexp in *. lia. }
  assert (2 ^ (p - 1) <= v) as Hv.
  { rewrite <-HV in Hlow. rewrite pow2_add in Hlow.
    pose proof (pow2_pos e') as He'. revert Hlow He'.
    generalize (2 ^ (p - 1)) (2 ^ e'). intros a b ??. nra. }
  destruct (located_digits q v l Hl Hv) as (mq & -> & Hdp).
  destruct (binary_round_aux_value p emx Hp mq e' l v Hl Hdp)
    as (m3 & e3 & -> & Hval & Hd3).
  { pose proof (scale_bounds _ _ _ e' (located_bounds mq v l Hl)) as [_ Hhi].
    rewrite HV in Hhi.
    assert (2 ^ (SpecFloat.emin p emx + p - 1)
            < 2 ^ (Zpos (digits2_pos mq) + e')) as H%pow2_lt_inv by lra.
    lia. }
  rewrite (rounding_proper (rnd:=round_to p) _ _ HV) in Hval.
  fold (result p emx m3 e3).
  rewrite result_finite by (done || by rewrite Hval).
  split; [cbn [fits]; lia|done].
Qed.

End operations.

(** ** Binary64 *)

Lemma value_nonneg x : 0 <= value x.
Proof.
  destruct x as [| | |[] m e]; cbn [value]; try done.
  apply Qlt_le_weak, value_pos.
Qed.

(** Rounding does not take a value below a power of 2 it is above. *)
Lemma round_to_lower p k q : (0 < p)%Z → 2 ^ k <= q → 2 ^ k <= round_to p q.
Proof.
  intros Hp Hq. pose proof (pow2_pos k).
  destruct (Qlog2_spec q) as [Llo Lhi]; [lra|].
  rewrite Qabs_pos in Llo, Lhi by lra.
  assert (k < Qlog2 q + 1)%Z by (apply pow2_lt_inv; lra).
  set (e := (Qlog2 q - (p - 1))%Z).
  pose proof (scale_bounds _ _ _ (- e) (conj Llo Lhi)) as Hy.
  rewrite <-div_pow2 in Hy.
  replace (Qlog2 q + - e)%Z with (p - 1)%Z in Hy by lia.
  replace (Qlog2 q + 1 + - e)%Z with p in Hy by lia.
  apply (rint_bounds p _ Hp) in Hy as [Hr _].
  rewrite Zle_Qle, pow2_inject in Hr by lia.
  rewrite (round_to_at p q e).
  2:{ rewrite Qabs_pos by lra.
      by replace (e + p - 1)%Z with (Qlog2 q) by lia;
         replace (e + p)%Z with (Qlog2 q + 1)%Z by lia. }
  eapply Qle_trans; [apply (pow2_le k (p - 1 + e)); lia|].
  rewrite pow2_add. pose proof (pow2_pos e) as He. revert Hr He.
  generalize (2 ^ (p - 1)) (2 ^ e) (inject_Z (rint (q / 2 ^ e))).
  intros a b c ??. nra.
Qed.

(** An integer below [2 ^ 53] is a binary64 number. *)
Lemma of_Z_exact n :
  (0 ≤ n < 2 ^ prec)%Z → plain (of_Z n) ∧ value (of_Z n) == inject_Z n.
Proof.
  intros [Hn0 Hn]. destruct n as [|m|]; [done| |lia].
  assert (Zpos (digits2_pos m) ≤ prec)%Z as Hd.
  { pose proof (digits_bounds m) as [Hlo _].
    assert (2 ^ (Zpos (digits2_pos m) - 1) < 2 ^ prec)%Z as H by lia.
    apply Z.pow_lt_mono_r_iff in H; (done || lia). }
  unfold of_Z. cbn [binary_normalize].
  destruct (binary_round_value prec emax eq_refl m 0)
    as (m3 & e3 & -> & Hv & Hd3).
  { change (SpecFloat.emin prec emax) with (-1074)%Z. unfold prec. lia. }
  rewrite round_to_exact in Hv by done.
  assert (inject_Z (Zpos m) * 2 ^ 0 == inject_Z (Zpos m)) as Hm by ring.
  rewrite Hm in Hv. rewrite result_finite.
  - split; [unfold plain; cbn [fits]; lia|done].
  - done.
  - rewrite Hv. apply Qlt_trans with (inject_Z (2 ^ prec));
      [by rewrite <-Zlt_Qlt|done].
Qed.

(** The sum of binary64 is [rnd64] of the exact sum. *)
Theorem add_round_to x y :
  plain x → plain y → normal (value x + value y) →
  rnd64 (value x + value y) < huge →
  plain (add x y) ∧ value (add x y) == rnd64 (value x + value y).
Proof. by apply (SFadd_round_to prec emax). Qed.

(** The quotient of binary64 is [rnd64] of the exact quotient. *)
Theorem div_round_to x y :
  plain x → plain y → 0 < value y →
  value x == 0 ∨ tiny <= value x / value y →
  rnd64 (value x / value y) < huge →
  plain (div x y) ∧ value (div x y) == rnd64 (value x / value y).
Proof. by apply (SFdiv_round_to prec emax). Qed.

(** Rounding to binary64 at most doubles a value. *)
Lemma rnd64_double q : 0 <= q → rnd64 q <= 2 * q.
Proof.
  intros Hq. pose proof (rounding_bounds rnd64 u64 q) as [_ H].
  rewrite Qabs_pos in H by done.
  assert (u64 <= 1) as Hu by done. revert H Hu. generalize u64. intros u ??. nra.
Qed.

(** The number held for a rational in the range of the normal numbers,
    of numerator and denominator below [2 ^ 53], is [rnd64] of it. *)
Theorem to_b64_value q :
  (0 ≤ Qnum (Qred q) < 2 ^ prec)%Z → (Zpos (Qden (Qred q)) < 2 ^ prec)%Z →
  normal q → q <= 2 ^ (emax - 2) →
  plain (to_b64 q) ∧ value (to_b64 q) == rnd64 q.
Proof.
  intros Hn Hd Hq Hhuge. unfold to_b64.
  pose proof (Qred_correct q) as Hred. revert Hred Hn Hd.
  generalize (Qred q). intros [n d] Hred Hn Hd. cbn [Qnum Qden] in *.
  destruct (of_Z_exact n Hn) as [Hpn Hvn].
  destruct (of_Z_exact (Zpos d) ltac:(lia)) as [Hpd Hvd].
  assert (value (of_Z n) / value (of_Z (Zpos d)) == q) as Hv.
  { by rewrite Hvn, Hvd, <-Qmake_Qdiv. }
  assert (0 <= q) as Hq0.
  { rewrite <-Hred. unfold Qle. cbn. lia. }
  destruct (div_round_to (of_Z n) (of_Z (Zpos d))) as [Hp Hr]; try done.
  - by rewrite Hvd.
  - destruct Hq as [Hq|Hq]; [left|right; by rewrite Hv].
    rewrite Hvn. rewrite <-Hred in Hq. destruct n; [done|exfalso..].
    + unfold Qeq in Hq. cbn in Hq. lia.
    + lia.
  - rewrite (rounding_proper (rnd:=rnd64) _ _ Hv).
    pose proof (rnd64_double q Hq0). 
    assert (2 * 2 ^ (emax - 2) < huge) by done. lra.
  - split; [done|]. by rewrite Hr, (rounding_proper (rnd:=rnd64) _ _ Hv).
Qed.

(** A fraction in lowest terms has no larger numerator or denominator. *)
Lemma Qred_bounds n d :
  (0 ≤ n)%Z →
  (0 ≤ Qnum (Qred (n # d)) ≤ n)%Z ∧ (Zpos (Qden (Qred (n # d))) ≤ Zpos d)%Z.
Proof.
  intros Hn. unfold Qred.
  pose proof (Z.ggcd_correct_divisors n (Zpos d)) as Hdiv.
  pose proof (Z.ggcd_gcd n (Zpos d)) as Hg.
  pose proof (Z.gcd_nonneg n (Zpos d)) as Hg0.
  destruct (Z.ggcd n (Zpos d)) as [g [n' d']]. cbn [fst snd Qnum Qden] in *.
  destruct Hdiv as [Hn' Hd']. rewrite <-Hg in Hg0. clear Hg.
  assert (1 ≤ g)%Z by (destruct (decide (g = 0%Z)) as [->|]; lia). assert (0 < d')%Z by nia. assert (0 ≤ n')%Z by nia.
  rewrite Z2Pos.id by done. nia.
Qed.

(** The percentages with one decimal are held as [rnd64] of them, and
    are 0 or at least [2 ^ -4]. *)
Lemma to_b64_tenths q :
  on_tenths q →
  plain (to_b64 q) ∧ value (to_b64 q) == rnd64 q
  ∧ (q == 0 ∨ 2 ^ (- 4) <= q) ∧ 0 <= q <= 100.
Proof.
  intros (n & Hn & Hq). unfold equiv, Q_equiv in Hq.
  pose proof (Qred_bounds n 10 ltac:(lia)) as [Hnum Hden].
  rewrite <-(Qred_complete _ _ Hq) in Hnum, Hden.
  assert ((q == 0 ∨ 2 ^ (- 4) <= q) ∧ 0 <= q <= 100) as [Hlow Hrange].
  { rewrite Hq. change (2 ^ (- 4)) with (1 # 16).
    unfold Qeq, Qle. cbn [Qnum Qden]. lia. }
  destruct (to_b64_value q) as [Hp Hv]; try done.
  - split; [lia|]. apply Z.le_lt_trans with 1000%Z; [lia|done].
  - by apply Z.le_lt_trans with 10%Z.
  - destruct Hlow as [?|Hlow]; [by left|right].
    eapply Qle_trans; [|exact Hlow]. done.
  - eapply Qle_trans; [apply Hrange|done].
Qed.

(** ** Outside the range *)

(** The two hypotheses of [add_round_to] and [div_round_to] are needed.
    The largest finite number added to itself is an infinity, where
    [rnd64] has no bound; and a third of the smallest normal number is
    kept with fewer than 53 bits, so it is not [rnd64] of the
    quotient. *)
Example add_overflows :
  let x := S754_finite false (2 ^ 53 - 1) 971 in
  plain x ∧ add x x = S754_infinity false ∧ huge <= rnd64 (value x + value x).
Proof. split_and!; [by vm_compute|by vm_compute|]. by vm_compute. Qed.

Example div_subnormal :
  let x := S754_finite false (2 ^ 52) (-1074) in
  plain x ∧ value x == tiny
  ∧ plain (div x (of_Z 3))
  ∧ ¬ value (div x (of_Z 3)) == rnd64 (value x / value (of_Z 3)).
Proof.
  split_and!; [by vm_compute..|]. intros H. vm_compute in H. discriminate H.
Qed.
