(* ===== verification/Mean64.v ===== *)
(** * Mean64: the mean of a row on binary64 numbers

    Line 152 of [src/part1_script.py], [sanit_df[countries].mean(axis=1)],
    on the numbers the table holds: the cells are binary64 numbers
    ([Binary64.to_b64] of the rounded percentages), a cell without value
    counts as 0 in the sum, the sum is made by the additions of binary64
    in the order the library chooses, and is divided by the number of
    values present, itself a binary64 number.

    - [mean_any_b64 h cs m]: [m] is such a mean of the cells [cs], by a
      tree of additions of height [h] ([Rounding.reduce_any] at
      [Rounding.add]); [mean_seq_b64] is the one that adds from left to
      right;
    - [sum_b64_refines]: a sum of binary64 numbers in any order is a sum
      of their values by [Rounding.rnd64] in the same order, as long as
      it stays in the range of the normal numbers;
    - [mean_any_b64_refines]: a mean of a row of up to 1023 percentages
      with one decimal is a mean of [Rounding.mean_any]: nothing
      overflows or leaves the normal numbers, and every operation rounds
      the exact result ([Ieee]);
    - [mean_rows_b64_close]: so the means of binary64 are within
      [2 ^ -42] of the exact means of [Frame.mean_rows], relative to
      them. *)

From Stdlib Require Import ZArith QArith Qabs Qround Qpower SpecFloat Lia Lqa String.
From stdpp Require Import base tactics option list.
From S2P Require Import Prelude Numeric Frame Binary64 Rounding Ieee.
Local Open Scope Q_scope.

(** ** The mean *)

(** The cells of a row as they are added: 0 where the cell is [NaN]. *)
Definition filled_b64 (cs : list (option b64)) : list b64 :=
  default (S754_zero false) <$> cs.

(** The number of values present, as a binary64 number. *)
Definition count_b64 (cs : list (option b64)) : b64 :=
  of_Z (Z.of_nat (length (omap id cs))).

(** [m] is a mean of the cells [cs]: a sum of the filled row by a tree
    of additions of height [h], divided by the number of values present;
    [NaN] when none is. *)
Definition mean_any_b64 (h : nat) (cs : list (option b64))
    (m : option b64) : Prop :=
  if decide (omap id cs = []) then m = None
  else ∃ s, reduce_any add h (filled_b64 cs) s ∧ m = Some (div s (count_b64 cs)).

(** The mean with the additions made from left to right. *)
Definition mean_seq_b64 (cs : list (option b64)) : option b64 :=
  if decide (omap id cs = []) then None
  else
    match filled_b64 cs with
    | [] => None
    | x :: xs => Some (div (foldl add x xs) (count_b64 cs))
    end.

(** [ms] are means of the rows of [f]. *)
Definition mean_rows_b64 (f : frame b64) (ms : list (option b64)) : Prop :=
  Forall2 (λ row m, ∃ h, mean_any_b64 h row m) (values f) ms.

(** [v] is 0 or at least [2 ^ k]. *)
Definition lower (k : Z) (v : Q) : Prop := v == 0 ∨ 2 ^ k <= v.

(** A row of percentages with one decimal. *)
Definition tenths_row (cs : list cell) : Prop :=
  Forall (λ c : cell, ∀ v, c = Some v → on_tenths v) cs.

(** The row as the table of binary64 numbers holds it. *)
Definition to_b64_row (cs : list cell) : list (option b64) :=
  fmap (M:=option) to_b64 <$> cs.

(** A table of two economies and four years, rounded to one decimal. *)
Definition rounded_table : frame Q :=
  Frame ["Afghanistan"%string; "Albania"%string]
        ["YR2000"%string; "YR2001"%string; "YR2002"%string; "YR2003"%string]
        [[Some 88.2; None; Some 91.1; Some 0.1]; [None; None; None; None]]
        (Some "Country"%string) None.

(** ** Sums *)

#[export] Instance lower_proper k : Proper (Qeq ==> iff) (lower k).
Proof. intros x y Hxy. unfold lower. by rewrite Hxy. Qed.

Lemma lower_add k x y :
  0 <= x → 0 <= y → lower k x → lower k y → lower k (x + y).
Proof. unfold lower. intros ?? [?|?] [?|?]; (by left; lra) || (right; lra). Qed.

Lemma lower_rnd64 k x : lower k x → lower k (rnd64 x).
Proof.
  intros [Hx|Hx]; [left|right].
  - by rewrite (rounding_proper (rnd:=rnd64) _ _ Hx).
  - by apply round_to_lower.
Qed.

Lemma lower_normal k x : (-1022 ≤ k)%Z → lower k x → normal x.
Proof.
  intros Hk [?|Hx]; [by left|right].
  eapply Qle_trans; [|exact Hx]. by apply pow2_le.
Qed.

(** The bound of a part of a sum is within the bound of the whole. *)
Lemma growth_split u h1 h2 h A B :
  0 <= u → (h1 ≤ h)%nat → (h2 ≤ h)%nat → 0 <= A → 0 <= B →
  growth u h1 * A <= growth u (S h) * (A + B)
  ∧ growth u h2 * B <= growth u (S h) * (A + B).
Proof.
  intros Hu H1 H2 HA HB.
  pose proof (growth_mono u h1 (S h) Hu ltac:(lia)).
  pose proof (growth_mono u h2 (S h) Hu ltac:(lia)).
  pose proof (growth_ge_1 u h1 Hu). pose proof (growth_ge_1 u h2 Hu).
  split; nra.
Qed.

(** A sum of binary64 numbers that are not negative, in any order, is
    the sum of their values by [rnd64] in that order, when no partial sum
    can reach [huge] and every number is 0 or at least [2 ^ k], a normal
    number. *)
Theorem sum_b64_refines k h xs s :
  (-1022 ≤ k)%Z → reduce_any add h xs s →
  Forall (λ x, plain x ∧ lower k (value x)) xs →
  growth u64 h * Qsum_abs (value <$> xs) < huge →
  plain s ∧ lower k (value s)
  ∧ ∃ q, sum_any rnd64 h (value <$> xs) q ∧ value s == q.
Proof.
  intros Hk Hs. induction Hs as [x|h1 h2 xs ys a b _ IHa _ IHb|h xs ys s Hp _ IH].
  - intros [[??] _]%Forall_cons _. split_and!; [done..|].
    exists (value x). split; [constructor|done].
  - intros [Hxs Hys]%Forall_app Hbound. rewrite fmap_app, Qsum_abs_app in Hbound.
    destruct (growth_split u64 h1 h2 (h1 `max` h2)
                (Qsum_abs (value <$> xs)) (Qsum_abs (value <$> ys)))
      as [Ha Hb]; [done|lia|lia|apply Qsum_abs_nonneg..|].
    destruct (IHa Hxs) as (Hpa & Hla & qa & Hqa & Hva); [lra|].
    destruct (IHb Hys) as (Hpb & Hlb & qb & Hqb & Hvb); [lra|].
    assert (value a + value b == qa + qb) as Hab by by rewrite Hva, Hvb.
    pose proof (reduce_split _ _ _ _ _ _ _ Hqa Hqb) as Hq.
    pose proof (lower_add k _ _ (value_nonneg a) (value_nonneg b) Hla Hlb) as Hl.
    destruct (add_round_to a b) as [Hp Hv]; [done..|by eapply lower_normal| |].
    { rewrite (rounding_proper (rnd:=rnd64) _ _ Hab).
      pose proof (sum_any_bound rnd64 u64 _ _ _ Hq) as H.
      rewrite Qsum_abs_app in H. apply Qabs_Qle_condition in H. lra. }
    split_and!; [done|rewrite Hv; by apply lower_rnd64|].
    eexists. rewrite fmap_app. split; [exact Hq|].
    by rewrite Hv, (rounding_proper (rnd:=rnd64) _ _ Hab).
  - intros Hys Hbound. rewrite <-Hp in Hys.
    rewrite <-(Qsum_abs_Permutation _ _ (fmap_Permutation value _ _ Hp)) in Hbound.
    destruct (IH Hys Hbound) as (? & ? & q & Hq & ?). split_and!; [done..|].
    exists q. split; [|done].
    by apply (reduce_perm _ _ _ _ _ (fmap_Permutation value _ _ Hp)).
Qed.

(** ** The cells of a rounded row *)

Lemma omap_to_b64 (cs : list cell) :
  omap id (to_b64_row cs) = to_b64 <$> omap id cs.
Proof. unfold to_b64_row. induction cs as [|[v|] cs IH]; csimpl; by rewrite ?IH. Qed.

Lemma length_omap_le {A} (cs : list (option A)) :
  (length (omap id cs) ≤ length cs)%nat.
Proof. induction cs as [|[v|] cs IH]; csimpl; lia. Qed.

(** What a cell holds and what it adds to the sum. *)
Lemma cell_tenths (c : cell) :
  (∀ v, c = Some v → on_tenths v) →
  let x := default (S754_zero false) (to_b64 <$> c) in
  (plain x ∧ lower (-4) (value x))
  ∧ value x == (if c is Some v then rnd64 v else 0)
  ∧ Qabs (value x) <= 200.
Proof.
  destruct c as [v|]; cbn; [|intros _; split_and!; by try left].
  intros Hv. destruct (to_b64_tenths v (Hv v eq_refl)) as (Hp & Hr & Hl & Hle).
  rewrite Qabs_pos by apply value_nonneg. split_and!; [done| |done|].
  - rewrite Hr. by apply lower_rnd64.
  - rewrite Hr. pose proof (rnd64_double v). lra.
Qed.

(** The row as binary64 holds it: numbers that are 0 or at least
    [2 ^ -4], whose values are [rnd64] of the cells, 200 each at most. *)
Lemma filled_tenths cs :
  tenths_row cs →
  let xs := filled_b64 (to_b64_row cs) in
  Forall (λ x, plain x ∧ lower (-4) (value x)) xs
  ∧ Forall2 Qeq (value <$> xs) (filled rnd64 cs)
  ∧ Qsum_abs (value <$> xs) <= inject_Z (Z.of_nat (length cs)) * 200.
Proof.
  induction 1 as [|c cs Hc%cell_tenths _ (IH1 & IH2 & IH3)]; cbn zeta.
  { split_and!; [constructor..|done]. }
  destruct Hc as (Hp & Hv & Hle). split_and!; [by constructor..|].
  cbn [length]. rewrite Nat2Z.inj_succ, <-Z.add_1_r, inject_Z_plus.
  change (inject_Z 1) with 1. unfold filled_b64, to_b64_row in *.
  rewrite !fmap_cons, Qsum_abs_cons. lra.
Qed.

(** No sum of a row of up to 1023 such numbers comes near [huge]. *)
Lemma row_bound h (n : nat) xs :
  (h < n ≤ 1023)%nat → Qsum_abs xs <= inject_Z (Z.of_nat n) * 200 →
  growth u64 h * Qsum_abs xs <= 2 ^ 19.
Proof.
  intros Hn Hxs. pose proof (growth_u64 h ltac:(lia)) as Hg.
  pose proof (growth_ge_1 u64 h rounding_unit) as Hg1.
  assert (2 ^ (- 42) <= 1) as Heps by done.
  assert (inject_Z (Z.of_nat n) <= 1023) as Hn'.
  { change 1023 with (inject_Z 1023). rewrite <-Zle_Qle. lia. }
  pose proof (Qsum_abs_nonneg xs). change (2 ^ 19) with 524288.
  revert Hg Hg1 Heps. generalize (growth u64 h) (2 ^ (- 42)). intros g e ???. nra.
Qed.

(** The division of a sum by the number of values. *)
Lemma mean_div s n :
  plain s → lower (-4) (value s) → value s <= 2 ^ 19 → (0 < n ≤ 1023)%Z →
  plain (div s (of_Z n))
  ∧ value (div s (of_Z n)) == rnd64 (value s / inject_Z n).
Proof.
  intros Hp Hl Hs Hn.
  destruct (of_Z_exact n) as [Hpn Hvn].
  { split; [lia|]. apply Z.le_lt_trans with 1023%Z; [lia|done]. }
  assert (1 <= inject_Z n <= 1023) as [Hn1 Hn2].
  { change 1 with (inject_Z 1). change 1023 with (inject_Z 1023).
    rewrite <-!Zle_Qle. lia. }
  assert (value s / value (of_Z n) == value s / inject_Z n) as Hq
    by by rewrite Hvn.
  pose proof (value_nonneg s) as Hs0.
  assert (0 <= value s / inject_Z n <= value s) as [Hq0 Hq1].
  { split; [apply Qle_shift_div_l|apply Qle_shift_div_r]; nra. }
  destruct (div_round_to s (of_Z n)) as [Hpd Hvd]; try done.
  - rewrite Hvn. lra.
  - destruct Hl as [?|Hl]; [by left|right]. rewrite Hq.
    apply Qle_shift_div_l; [lra|].
    assert (tiny * 1023 <= 2 ^ (- 4)) as Ht by done.
    assert (0 < tiny) as Ht0 by done. revert Ht Ht0 Hl.
    generalize tiny (2 ^ (- 4)). intros t l ???. nra.
  - rewrite (rounding_proper (rnd:=rnd64) _ _ Hq).
    pose proof (rnd64_double _ Hq0). assert (2 * 2 ^ 19 < huge) by done. lra.
  - split; [done|]. by rewrite Hvd, (rounding_proper (rnd:=rnd64) _ _ Hq).
Qed.

(** ** The mean of binary64 is a mean by [rnd64] *)

(** The loop is one of the orders. *)
Lemma mean_seq_b64_any cs : mean_any_b64 (length cs - 1) cs (mean_seq_b64 cs).
Proof.
  unfold mean_any_b64, mean_seq_b64. case_decide as Hcs; [done|].
  assert (length (filled_b64 cs) = length cs) as Hlen by apply length_fmap.
  destruct (filled_b64 cs) as [|x xs]; [by destruct cs|].
  eexists. split; [|done]. rewrite <-Hlen.
  replace (length (x :: xs) - 1)%nat with (length xs) by (cbn [length]; lia).
  apply reduce_any_foldl.
Qed.

(** A mean of a row of up to 1023 percentages with one decimal, by the
    operations of binary64 in any order, is a finite number that is not
    negative, and its value is a mean of the row by [rnd64] in that
    order. *)
Theorem mean_any_b64_refines h cs m :
  (length cs ≤ 1023)%nat → tenths_row cs →
  mean_any_b64 h (to_b64_row cs) m →
  mean_any rnd64 h cs (value <$> m) ∧ from_option plain True m.
Proof.
  intros Hlen Hcs. unfold mean_any_b64, mean_any, count_b64.
  rewrite omap_to_b64, length_fmap.
  destruct (decide (omap id cs = [])) as [->|Hne]; [by intros ->|].
  rewrite decide_False by by intros ?%fmap_nil_inv.
  intros (s & Hs & ->).
  destruct (filled_tenths cs Hcs) as (Hall & Hvals & Hsum). cbn zeta in *.
  pose proof (reduce_any_length _ _ _ _ Hs) as Hh.
  unfold filled_b64, to_b64_row in Hh. rewrite !length_fmap in Hh.
  pose proof (row_bound h (length cs) _ ltac:(lia) Hsum) as Hbound.
  assert (2 ^ 19 < huge) as Hhuge by done.
  destruct (sum_b64_refines (-4) h _ s ltac:(lia) Hs Hall)
    as (Hp & Hl & q & Hq & Hv); [lra|].
  pose proof (sum_any_bound rnd64 u64 _ _ _ Hq) as Hq'.
  apply Qabs_Qle_condition in Hq' as [_ Hq'].
  pose proof (length_omap_le cs). 
  assert (length (omap id cs) ≠ 0%nat) by by destruct (omap id cs).
  destruct (mean_div s (Z.of_nat (length (omap id cs)))) as [Hpd Hvd];
    [done|done|lra|lia|].
  split; [|done]. exists (value <$> filled_b64 (to_b64_row cs)), q.
  split_and!; [done..|]. constructor. unfold present_count.
  by rewrite Hvd, Hv.
Qed.

(** ** The means of a table *)

Lemma on_tenths_make n : (0 ≤ n ≤ 1000)%Z → on_tenths (n # 10).
Proof. intros Hn. by exists n. Qed.

Lemma tenths_row_nonneg cs :
  tenths_row cs → Forall (λ c : cell, ∀ v, c = Some v → 0 <= v) cs.
Proof.
  intros Hcs. eapply Forall_impl; [exact Hcs|]. intros c Hc v Hv.
  by destruct (to_b64_tenths v (Hc v Hv)) as (_ & _ & _ & ? & _).
Qed.

(** A mean of binary64 of a row is within [2 ^ -42] of the exact
    mean. *)
Lemma mean_b64_close h cs m :
  (length cs ≤ 1023)%nat → tenths_row cs →
  mean_any_b64 h (to_b64_row cs) m →
  cell_close (2 ^ (- 42)) (nanmean cs) (value <$> m) ∧ from_option plain True m.
Proof.
  intros Hlen Hcs [Hm Hp]%mean_any_b64_refines; [|done..]. split; [|done].
  apply (mean_b64_error h); [done|by apply tenths_row_nonneg|done].
Qed.

(** The means the script computes are the exact means, to 12
    decimal digits.  [mean(axis=1)] (line 152) adds the binary64 numbers
    of a row with the additions of binary64, in an order the script does
    not choose, and divides by the number of values present.  On a table
    of up to 1023 columns of percentages with one decimal, as
    [preprocess_df] leaves them, whatever the order: no addition or
    division overflows or leaves the normal numbers, every mean is a
    finite number that is not negative, its value is within [2 ^ -42] of
    the mean on exact rationals ([Frame.mean_rows]), relative to it, and
    a row has no mean in the one exactly when it has none in the other.
    The operations are those of [SpecFloat], on the bits. *)
Theorem mean_rows_b64_close (f : frame Q) (ms : list (option b64)) :
  frame_wf f → (length (columns f) ≤ 1023)%nat →
  Forall tenths_row (values f) →
  mean_rows_b64 (to_b64_frame f) ms →
  Forall2 (cell_close (2 ^ (- 42)))
          (s_values (mean_rows f)) (fmap (M:=option) value <$> ms)
  ∧ Forall (from_option plain True) ms.
Proof.
  intros Hwf Hlen Hrows Hms. cbn [mean_rows s_values].
  pose proof (frame_wf_rect f Hwf) as Hrect.
  unfold mean_rows_b64 in Hms. cbn [to_b64_frame map_frame reframe values] in Hms.
  apply Forall2_fmap_l in Hms. rewrite Forall2_fmap.
  induction Hms as [|row m rows ms [h Hm] _ IH]; [by split; constructor|].
  apply Forall_cons in Hrows as [Hrow ?], Hrect as [Hcols ?].
  destruct IH as [??]; [done..|].
  destruct (mean_b64_close h row m) as [??]; [by rewrite Hcols|done..|].
  by split; constructor.
Qed.

Lemma mean_rows_b64_close_witness :
  Forall2 (cell_close (2 ^ (- 42)))
          (s_values (mean_rows rounded_table))
          (fmap (M:=option) value
             <$> (mean_seq_b64 <$> values (to_b64_frame rounded_table)))
  ∧ Forall (from_option plain True)
           (mean_seq_b64 <$> values (to_b64_frame rounded_table)).
Proof.
  apply (mean_rows_b64_close rounded_table).
  - by apply (bool_decide_unpack _).
  - cbn. lia.
  - repeat constructor; intros v [= <-]; apply on_tenths_make; lia.
  - apply Forall2_fmap_r, Forall_Forall2_diag, Forall_forall.
    intros row _. eexists. apply mean_seq_b64_any.
Defined.

(** The loop on the bits and the loop by [rnd64] give the same number
    for 88.2, 91.1 and 0.1: the binary64 number above the one nearest to
    59.8, the exact mean. *)
Example mean_seq_b64_inexact :
  ∃ x, mean_seq_b64 (to_b64_row [Some 88.2; None; Some 91.1; Some 0.1]) = Some x
       ∧ mean_seq rnd64 [Some 88.2; None; Some 91.1; Some 0.1] ≡ Some (value x)
       ∧ rnd64 59.8 < value x.
Proof. eexists. split; [by vm_compute|]. split; [by constructor|done]. Qed.
