(* ===== verification/Float64.v ===== *)
(** * Float64: from the table of the service to the means, on binary64

    The other files compute on rationals.  The script computes on
    binary64 numbers: the table the service returns holds them,
    [preprocess_df] (lines 107-122 of [src/part1_script.py]) rounds
    them, and line 152 takes the means of the columns of the countries.
    This file follows the numbers through these lines.

    - the table of binary64 numbers of a table of rationals
      ([Binary64.to_b64_frame]) is [Frame.map_frame to_b64], and the
      table operations commute with it ([Frame.map_frame_transpose] and
      the like);
    - [cells P f]: every value of the table satisfies [P]; the same
      operations keep it ([cells_dropna_columns], ...);
    - [reshape_b64] is [Preprocess.reshape] on binary64 cells, with
      numpy's rounding ([Binary64.round_frame_b64]);
      [reshape_b64_grid]: on a table of percentages with at most two
      decimals it returns the binary64 numbers of [Preprocess.reshape];
    - [country_average_b64]: the means line 152 computes on the result,
      in any order of the additions, are within [2 ^ -42] of the means
      the model computes on rationals. *)

From Stdlib Require Import ZArith QArith Qabs SpecFloat Lia Lqa String.
From stdpp Require Import base tactics option list.
From S2P Require Import Prelude Numeric Labels Frame Binary64 Preprocess.
From S2P Require Import Rounding Ieee Mean64.
Local Open Scope Q_scope.

(** ** Values and tables *)

(** Every value of the table satisfies [P]. *)
Definition cells {A} (P : A → Prop) (f : frame A) : Prop :=
  Forall (Forall (λ c, ∀ v, c = Some v → P v)) (values f).

(** Lines 107-122 on binary64 cells: [Preprocess.reshape] with the
    rounding of numpy. *)
Definition reshape_b64 (df : frame b64) : frame b64 :=
  rename_axis_columns None
    (set_index_name (Some "Year"%string)
       (transpose
          (round_frame_b64 1
             (rename_columns (str_replace "YR" "")
                (dropna_rows_all (dropna_columns df)))))).

(** The columns of the two economies of [sample_table] in the reshaped
    table of binary64 numbers. *)
Definition sample_countries_b64 : frame b64 :=
  take_columns [0; 1]%nat (reshape_b64 (to_b64_frame sample_table)).

(** ** The operations keep a property of the values *)

Section cells.
Context {A : Type} (P : A → Prop).
Implicit Types (f : frame A).

Lemma cells_dropna_rows_all f : cells P f → cells P (dropna_rows_all f).
Proof. apply Forall_compress. Qed.

Lemma cells_dropna_columns f : cells P f → cells P (dropna_columns f).
Proof.
  intros Hf. unfold cells, dropna_columns. cbn [reframe values].
  apply Forall_fmap. eapply Forall_impl; [exact Hf|].
  intros row Hrow. by apply Forall_compress.
Qed.

Lemma cells_take_columns ixs f : cells P f → cells P (take_columns ixs f).
Proof.
  intros Hf. unfold cells, take_columns. cbn [reframe values].
  apply Forall_fmap. eapply Forall_impl; [exact Hf|].
  intros row Hrow. cbn. apply Forall_forall.
  intros c (i & _ & Hc%list_elem_of_lookup_2)%elem_of_gather.
  by eapply Forall_forall in Hrow.
Qed.

Lemma cells_select_columns keys f f' :
  cells P f → select_columns keys f = inr f' → cells P f'.
Proof.
  unfold select_columns. intros Hf.
  destruct (get_indexer_strict keys (columns f)); intros [= <-].
  by apply cells_take_columns.
Qed.

Lemma Forall_transpose_mat (Q : option A → Prop) n rows :
  Forall (Forall Q) rows → Forall (Forall Q) (transpose_mat n rows).
Proof.
  induction 1 as [|row rows Hrow _ IH]; cbn [transpose_mat].
  { apply Forall_forall. by intros ? [-> _]%elem_of_replicate. }
  revert IH. generalize (transpose_mat n rows). clear -Hrow.
  induction Hrow as [|c row Hc _ IHrow]; intros [|col cols] Hcols;
    cbn [zip_with]; [constructor..|].
  apply Forall_cons in Hcols as [??]. constructor; [by constructor|].
  by apply IHrow.
Qed.

Lemma cells_transpose f : cells P f → cells P (transpose f).
Proof. apply Forall_transpose_mat. Qed.
End cells.

Lemma cells_map_frame {A B} (g : A → B) (P : A → Prop) (R : B → Prop) f :
  (∀ v, P v → R (g v)) → cells P f → cells R (map_frame g f).
Proof.
  intros HPR Hf. unfold cells, map_frame. cbn [reframe values].
  apply Forall_fmap. eapply Forall_impl; [exact Hf|]. intros row Hrow. cbn.
  apply Forall_fmap. eapply Forall_impl; [exact Hrow|].
  intros [v|] Hv w [= <-]. by apply HPR, Hv.
Qed.

(** ** The reshaped table *)

(** A percentage with two decimals is rounded to one with one. *)
Lemma round_dec_tenths q : on_grid q → on_tenths (round_dec 1 q).
Proof.
  intros Hq%rint_grid. exists (rint (q * scale 1)). split; [done|].
  unfold equiv, Q_equiv, round_dec. change (scale 1) with (inject_Z 10).
  by rewrite <-Qmake_Qdiv.
Qed.

(** The values of the reshaped table have one decimal. *)
Lemma cells_reshape (df : frame Q) :
  cells on_grid df → cells on_tenths (reshape df).
Proof.
  intros Hdf. unfold reshape, clean.
  apply (cells_transpose on_tenths).
  apply (cells_map_frame (round_dec 1) on_grid); [apply round_dec_tenths|].
  by apply (cells_dropna_rows_all on_grid), cells_dropna_columns.
Qed.

(** [preprocess_df] on binary64 numbers returns the binary64 numbers of
    what it returns on rationals, for a table of percentages with at
    most two decimals. *)
Theorem reshape_b64_grid (df : frame Q) :
  cells on_grid df → reshape_b64 (to_b64_frame df) = to_b64_frame (reshape df).
Proof.
  intros Hdf. unfold reshape_b64, reshape, clean, to_b64_frame.
  rewrite map_frame_dropna_columns, map_frame_dropna_rows_all,
    map_frame_rename_columns.
  rewrite (round_frame_b64_grid_eq (rename_columns _ _)).
  - unfold to_b64_frame. by rewrite map_frame_transpose.
  - by apply (cells_dropna_rows_all on_grid), cells_dropna_columns.
Qed.

(** ** The means of line 152 *)

(** C31. From the table of the service to the averages, on the numbers
    the script computes with.  Let the service return percentages with
    at most two decimals, held as binary64 numbers.  [preprocess_df]
    (lines 107-122) with the rounding of numpy, the selection of the
    columns of [countries] and the means of the rows in binary64, the
    additions in any order (line 152): the selection succeeds exactly
    when it does in the model on rationals, the table selected holds the
    binary64 numbers of the table of the model, and when it has at most
    1023 columns every mean is a finite number that is not negative,
    within [2 ^ -42] of the mean the model assigns to
    [Country_Avg_line], relative to it, and missing exactly when that
    one is. *)
Theorem country_average_b64 (df : frame Q) countries gb ms :
  frame_wf df → cells on_grid df →
  select_columns countries (reshape_b64 (to_b64_frame df)) = inr gb →
  (length (columns gb) ≤ 1023)%nat → mean_rows_b64 gb ms →
  ∃ g, select_columns countries (reshape df) = inr g ∧ gb = to_b64_frame g
       ∧ Forall2 (cell_close (2 ^ (- 42)))
                 (s_values (mean_rows g)) (fmap (M:=option) value <$> ms)
       ∧ Forall (from_option plain True) ms.
Proof.
  intros Hwf Hdf Hsel Hlen Hms. rewrite reshape_b64_grid in Hsel by done.
  apply map_frame_select_columns in Hsel as (g & Hg & ->). exists g.
  split_and!; [done..| |];
    apply (mean_rows_b64_close g ms); try done.
  all: try (eapply select_columns_wf; [|done]; by apply reshape_frame_wf).
  all: eapply (cells_select_columns on_tenths); [|done]; by apply cells_reshape.
Qed.

Lemma country_average_b64_witness :
  ∃ g, select_columns ["Afghanistan"; "Albania"]%string (reshape sample_table)
       = inr g
       ∧ sample_countries_b64 = to_b64_frame g
       ∧ Forall2 (cell_close (2 ^ (- 42))) (s_values (mean_rows g))
           (fmap (M:=option) value
              <$> (mean_seq_b64 <$> values sample_countries_b64))
       ∧ Forall (from_option plain True)
                (mean_seq_b64 <$> values sample_countries_b64).
Proof.
  apply (country_average_b64 sample_table).
  - apply sample_table_wf.
  - repeat constructor; intros v [= <-];
      (by exists 2194%Z) || (by exists 2305%Z) || (by exists 8825%Z)
      || (by exists 5555%Z) || (by exists 6000%Z).
  - by vm_compute.
  - cbn. lia.
  - apply Forall2_fmap_r, Forall_Forall2_diag, Forall_forall.
    intros row _. eexists. apply mean_seq_b64_any.
Defined.
